(* ===== verification/_CoqProject ===== *)
-Q . S2P
Prelude.v
GoTime.v
Names.v
Sha256.v
Json.v
JsonDecode.v
Definitions.v
Registry.v
OperatorAudit.v
Event.v
Instances.v
ActivityHistory.v
WaitHistory.v
ChildHistory.v
CompensationHistory.v
Replay.v
ReplayInvariant.v
ReplayProperties.v
Work.v
Transition.v
Plans.v
Activity.v
ActivityTransition.v
ActivityPlans.v
Samples.v
Snapshot.v
WaitTransition.v
CompensationTransition.v
ChildStart.v
ChildTransition.v
OperatorCommands.v
Orchestration.v
Termination.v
Store.v
Administration.v
DeadLetter.v
Inspection.v
Tables.v
Statements.v
Migration.v
PostgresCommit.v
PostgresAppend.v
PostgresLog.v
PostgresStore.v
PostgresDurability.v
PostgresWork.v
PostgresAdmin.v
PostgresFencing.v
PostgresClaim.v
Listing.v
PostgresInvariant.v
PostgresLeases.v
DeadLetterListing.v
Worker.v
WorkerOrder.v
WorkerHandle.v
PostgresWorker.v
WorkerRun.v
Processor.v
ActivityProcessor.v
CompensationProcessor.v
ChildProcessor.v
ProcessorTrace.v
ActivityProtocol.v
CompensationProtocol.v
ChildProtocol.v
PostgresProcessor.v
PostgresChildren.v
ActivityDelivery.v
WorkerDelivery.v
Journal.v
PostgresJournal.v
