(* ===== verification/Prelude.v ===== *)
(** * A verification of go-workflow: durable workflows over an append-only history

    go-workflow runs durable workflows. A caller validates definitions (lists of
    steps) and compiles them into a registry; every decision about an instance is an
    event of its history; the state of an instance is nothing but the replay of that
    history; constructors plan the next events and the work they create as one
    atomic transition; a store commits transitions and leases work under fencing
    tokens; workers claim work fairly and hand it to processors, which start an
    attempt durably, invoke the application once and settle the outcome durably.
    The Go source is under src/; this library follows it file by file.

    ** The parts, the files that model them and how they interact

    - Prelude: machine integers with Go's wrap-around, byte slices ([None] is nil),
      the [result] type of fallible functions with the package's errors, the [reject]
      notation for an early return, orders and sorting, list lemmas, tactics, and the
      hint databases.
    - GoTime, Names, Sha256, Json, JsonDecode: what the source uses of Go's standard
      library (time, regexp, crypto/sha256 with encoding/hex, encoding/json),
      defined and executable: the fingerprints below are real digests of real texts.
    - Definitions (definition.go): [NewDefinition], its validation and
      its fingerprint. Registry (registry.go): [CompileRegistry],
      [Resolve] and the explicit migrations between definitions.
    - Event (history.go): [NewHistoryEvent] and the fields every kind requires.
      Instances, ActivityHistory, WaitHistory, ChildHistory, CompensationHistory,
      OperatorAudit, Replay (history.go, *_history.go, operator.go): [apply], one
      event on an instance, and [Replay], its fold. An Instance of the code is the
      record [Instance_]; its maps are [gmap]s from step names. ReplayInvariant proves
      what holds of every replayed instance, ReplayProperties states it. Snapshot
      (history.go and *_history.go) is what an instance shows: its sorted listings and
      the digest of its JSON snapshot.
    - Work, Transition (work.go, transition.go): pending work, leases, requests, and
      [NewTransition], the batch of events and work that is committed at once.
    - Plans: when committing a plan keeps a history replayable; used by the theorems
      of every constructor. Activity, ActivityTransition, ActivityPlans (activity.go,
      activity_transition.go), WaitTransition (wait_transition.go),
      CompensationTransition (compensation_transition.go), ChildStart, ChildTransition
      (child_start.go, child_transition.go), OperatorCommands (operator.go,
      operator_work.go): the constructors, and what the plans they accept do to the
      history. Orchestration (orchestration.go): the decision about the first open
      step of a definition. Samples is the order workflow the witnesses run on.
      Termination: what an instance may spend of its definition, and the runs of the
      orchestrator that this bounds.
    - Store, Administration, DeadLetter (store.go, administration.go, deadletter.go):
      requests, answers and errors of a store, and the validation on both sides.
      Inspection (inspection.go): bounded traversal of a history by pages.
    - Tables, Statements (postgres/migration.go, postgres/store.go): the five tables
      as finite maps by primary key, rows, and each prepared SQL statement as a
      function on the tables with the constraints of the schema. PostgresCommit,
      PostgresWork, PostgresAdmin (postgres/store.go): every method of the store, as
      the transactions the code runs. PostgresAppend, PostgresLog, PostgresStore,
      PostgresFencing, PostgresClaim, PostgresInvariant are their lemmas;
      PostgresDurability, PostgresLeases, Listing and DeadLetterListing (whose pages
      are read while letters come and go) their theorems. Migration
      (postgres/migration.go): the DDL of the migrations as text and as the change
      it makes to a catalog.
    - Worker, WorkerOrder, WorkerHandle, WorkerRun (worker.go): decisions,
      finalization, [Handle] with its renewal loop, the fair order of a batch, and
      [Run] as a step relation; PostgresWorker runs them over the PostgreSQL store.
    - Processor, ActivityProcessor, CompensationProcessor, ChildProcessor
      (activity_processor.go, compensation_processor.go, child_processor.go): every
      [Process], over any store of the class [ExecutionStore]. ProcessorTrace,
      ActivityProtocol, CompensationProtocol, ChildProtocol prove the protocol their
      effects follow; PostgresProcessor and PostgresChildren instantiate them with the
      PostgreSQL store. ActivityDelivery composes an activity's delivery with the
      constructors, replay and any store of the class [LogStore], which PostgreSQL
      discharges; WorkerDelivery adds the worker that handles the lease.
    - Journal, PostgresJournal: what the processors rely on in a store whose calls may
      fail (class [JournalStore]), sequences of deliveries over one, and the PostgreSQL
      store with the sessions its calls will meet as such a store.

    ** How state and operations correspond to the code

    A [uint8] enumeration is an inductive type with the declared constants and one
    constructor for every undeclared value; machine integers are [Z] with the
    wrap-around written where the code computes; [byte] slices are [option string];
    maps are [gmap]s, and where the code ranges over one the order is a parameter
    (class [MapRange]). A spec struct and the value type made from it share one
    record when their fields agree. A method that mutates returns the new state. A
    nil pointer that the code tests is [None]; an error that the code drops is
    [or_zero].

    Application code and the environment are parameters: handlers and starters (any
    function on the state, which may panic), contexts, clocks (a sequence of
    readings), history readers, sinks, and, for the database, a [Session] that fixes
    for one call which statement, begin or commit fails and what other sessions
    commit in between. A theorem for every session covers every failure and
    every interleaving it allows. [stamp] is what a timestamptz column keeps of an
    instant (class [Timestamps]) and [text_ltb] the order of text columns, which the
    collation decides (class [TextOrder]); the witnesses use microseconds and the
    byte order. A select is driven by a script of what becomes ready.

    ** What the theorems show

    - Replay: histories are contiguous and of one instance, terminal is final,
      operator commands come in pairs, every record of progress is coherent, retry
      times are the exact exponential back-off without overflow, and replay of
      activities refines a table of rules; a snapshot does not depend on map order.
    - Definitions and the registry: what an accepted definition guarantees about its
      steps and the shape of parallel blocks; resolution and migration are exact.
    - Constructors: what each accepts, and that committing it replays to the expected
      instance, or exactly when it does not (activity outcomes and retries, operator
      work, timers and signals, which do not look at everything replay looks at).
    - Orchestration decides about the first open step, and its plans commit and open
      that step.
    - Termination: the length of a history is bounded by the retry policies of the
      pinned definition and the times somebody intervenes, and the orchestrator plans
      at most once per step and once to end, whatever is committed in between.
    - Store: commit is atomic, classified truthfully under every failure, refines an
      append-only log, and can be retried after an unknown outcome; what is committed
      is what is inspected; claims lease the due work fairly under new tokens; a
      superseded lease changes nothing; dead letters are resolved once; one invariant
      holds after every operation; paging through the instances delivers each once,
      exactly when the collation orders identities as Go does; the migrations apply in order and revert.
    - Worker: a handled lease is settled at most once, under its own fence, as the
      processor decided; admission is bounded by capacity whatever the store answers;
      batches are served fairly.
    - Processors: the handler is invoked at most once per delivery, only after its
      attempt is durable, and work is complete only after the outcome is; over any
      deliveries, one after the other, an activity's handler is invoked at most once per
      attempt (deliveries of one lease that overlap are not covered); a ready activity's
      delivery completes with its outcome recorded, and the worker that handles it over
      the PostgreSQL store leaves the history extended by exactly that attempt and the
      work completed.

    ** Bounds and fuel

    [traverseHistory] is the only loop that needs fuel: [traverse_fuel] is one
    iteration per event of the limit (a page that is not the last has an event), and [traverse_terminates]
    and [inspection_returns] prove that it is enough for every reader. Digests, JSON
    and regular expressions recurse on their input. Lengths, sequences and attempts
    have their machine width as hypotheses where a wrap-around could matter.

    ** What is not modelled, and why

    - The pgx adapters of postgres/store.go (poolDatabase, pgxTransaction, pgxRows):
      they forward to a driver that is not part of the source. Each SQL statement is
      one atomic step, FOR UPDATE SKIP LOCKED included: rows others have locked are a
      parameter of the session. An instant outside the database's range is a fault of
      the driver.
    - SystemClock and its timers forward to the time package; goroutines,
      channels and the mutex of [Run] are the atomic steps of its relation.
    - Accessors that only return a field, interface assertions, and String methods
      that no decision depends on.
    - Tests, examples, documentation, build scripts and API baselines. *)
From Stdlib Require Export ZArith Lia Bool.
From stdpp Require Export base gmap strings list fin_maps option sorting.
(** stdpp's list lemmas over the Standard Library's of the same names. *)
Export list_basics.list list_relations.list list_misc.list list_monad.list list_numbers.list.

#[global] Open Scope Z_scope.

(** ** Machine-width integers

    [uint32], [uint64] and [time.Duration] (an [int64]) are [Z] with Go's
    wrap-around written out where the source computes on them. *)

Definition MaxUint64 : Z := 2 ^ 64 - 1.
Definition MaxInt64 : Z := 2 ^ 63 - 1.
Definition MinInt64 : Z := - 2 ^ 63.

Definition u32 (z : Z) : Z := z mod 2 ^ 32.
Definition u64 (z : Z) : Z := z mod 2 ^ 64.
Definition i64 (z : Z) : Z := (z + 2 ^ 63) mod 2 ^ 64 - 2 ^ 63.

Lemma u64_range z : 0 <= u64 z < 2 ^ 64.
Proof. unfold u64. apply Z.mod_pos_bound. lia. Qed.

Lemma u32_range z : 0 <= u32 z < 2 ^ 32.
Proof. unfold u32. apply Z.mod_pos_bound. lia. Qed.

Lemma u64_small z : 0 <= z < 2 ^ 64 -> u64 z = z.
Proof. intros. unfold u64. by apply Z.mod_small. Qed.

Lemma u32_small z : 0 <= z < 2 ^ 32 -> u32 z = z.
Proof. intros. unfold u32. by apply Z.mod_small. Qed.

Lemma i64_range z : MinInt64 <= i64 z <= MaxInt64.
Proof.
  unfold i64, MinInt64, MaxInt64.
  pose proof (Z.mod_pos_bound (z + 2 ^ 63) (2 ^ 64) ltac:(lia)). lia.
Qed.

Lemma i64_small z : MinInt64 <= z <= MaxInt64 -> i64 z = z.
Proof.
  unfold i64, MinInt64, MaxInt64. intros.
  rewrite Z.mod_small by lia. lia.
Qed.

(** A successor that wraps only at the maximum: the non-zero wrapped successor
    of a [uint64] is the true successor. *)
Lemma u64_succ_nonzero z : 0 <= z < 2 ^ 64 -> u64 (z + 1) <> 0 -> u64 (z + 1) = z + 1.
Proof.
  intros Hz Hne. unfold u64 in *.
  destruct (decide (z + 1 = 2 ^ 64)) as [He | He].
  - rewrite He, Z.mod_same in Hne; lia.
  - apply Z.mod_small. lia.
Qed.

(** ** Strings and byte slices

    A Go [string] is a byte string. A Go [[]byte] is either nil ([None]) or a
    slice holding a byte string; the code observes the difference only through
    the JSON documents it digests. *)

Abbreviation bytes := (option string).

Definition slen (s : string) : Z := Z.of_nat (String.length s).

Definition bstr (b : bytes) : string := default EmptyString b.

Definition blen (b : bytes) : Z := slen (bstr b).

Lemma slen_nonneg s : 0 <= slen s.
Proof. unfold slen. lia. Qed.

Lemma blen_nonneg b : 0 <= blen b.
Proof. apply slen_nonneg. Qed.

Lemma sapp_nil t : EmptyString +:+ t = t.
Proof. done. Qed.

Lemma sapp_cons a s t : String a s +:+ t = String a (s +:+ t).
Proof. done. Qed.

Lemma sapp_nil_r s : s +:+ EmptyString = s.
Proof. induction s as [| a s IH]; [done |]. by rewrite sapp_cons, IH. Qed.

Lemma sapp_assoc s t u : s +:+ (t +:+ u) = (s +:+ t) +:+ u.
Proof. induction s as [| a s IH]; [done |]. by rewrite !sapp_cons, IH. Qed.

Lemma slen_cons a s : slen (String a s) = 1 + slen s.
Proof. unfold slen. cbn [String.length]. lia. Qed.

Lemma slen_app s t : slen (s +:+ t) = slen s + slen t.
Proof. induction s as [| a s IH]; [done |]. rewrite sapp_cons, !slen_cons, IH. lia. Qed.

(** [cloneBytes] of history.go: nil stays nil, a slice is copied. *)
Definition cloneBytes (value : bytes) : bytes :=
  match value with
  | None => None
  | Some s => Some s
  end.

Lemma cloneBytes_id b : cloneBytes b = b.
Proof. by destruct b. Qed.

(** ** The package's sentinel errors and fallible computations

    A Go function returning [(T, error)] is a [result T]: on an error the code
    returns the zero [T], which no caller reads. *)

(** [StoreCommitOutcome] of store.go; it is declared here because an error carries it. *)
Inductive StoreCommitOutcome :=
  | StoreCommitUnknown | StoreCommitNotCommitted | StoreCommitCommitted | StoreCommitUndeclared.

#[export] Instance StoreCommitOutcome_eq_dec : EqDecision StoreCommitOutcome.
Proof. solve_decision. Defined.

Inductive GoError :=
  | ErrInvalidDefinition (field : string)
  | ErrDuplicateDefinition
  | ErrDefinitionNotFound
  | ErrInvalidMigration
  | ErrDuplicateMigration
  | ErrMigrationNotFound
  | ErrInvalidDefinitionReference
  | ErrInvalidHistoryEvent
  | ErrEmptyHistory
  | ErrHistoryConflict
  | ErrInvalidTransition
  | ErrDefinitionMismatch
  | ErrInvalidPendingWork
  | ErrInvalidTransitionPlan
  | ErrInvalidActivityRequest
  | ErrInvalidActivityOutcome
  | ErrInvalidActivity
  | ErrDuplicateActivity
  | ErrActivityNotFound
  | ErrInvalidActivityTransition
  | ErrInvalidWait
  | ErrInvalidCompensation
  | ErrInvalidChildStart
  | ErrInvalidChildTransition
  | ErrInvalidOrchestration
  | ErrInvalidOperatorCommand
  | ErrInvalidWorkLease
  | ErrInvalidStoreRequest
  | ErrStoreNotFound
  | ErrStoreConflict
  | ErrDuplicateTransition
  | ErrStaleWorkLease
  | ErrHistoryLimitExceeded
  | ErrInvalidWorker
  | ErrInvalidActivityProcessor
  | ErrInvalidCompensationProcessor
  | ErrInvalidChildProcessor
  | ErrCorruptStore
  | DriverError (diagnostic : string)  (** whatever the database driver or a callback reports *)
  | OperationError (operation : string) (cause : GoError)  (** [operationError] of postgres/store.go *)
  | StoreCommitError (outcome : StoreCommitOutcome) (cause : GoError)
  | Joined (first second : GoError)  (** [errors.Join] of two errors *)
  | ContextCanceled
  | ContextDeadlineExceeded
  | Panic.  (** a run-time panic, such as an index out of range *)

#[export] Instance GoError_eq_dec : EqDecision GoError.
Proof. solve_decision. Defined.

(** [errors.Is]: the error itself or anything it wraps. *)
Fixpoint errors_Is (err target : GoError) : bool :=
  bool_decide (err = target)
  || match err with
     | OperationError _ cause | StoreCommitError _ cause => errors_Is cause target
     | Joined first second => errors_Is first target || errors_Is second target
     | _ => false
     end.

Inductive result (A : Type) :=
  | Ok (a : A)
  | Err (e : GoError).
Arguments Ok {A} a.
Arguments Err {A} e.

#[export] Instance result_ret : MRet result := fun A a => Ok a.
#[export] Instance result_bind : MBind result := fun A B f m =>
  match m with
  | Ok a => f a
  | Err e => Err e
  end.

Definition is_ok {A} (r : result A) : bool :=
  match r with Ok _ => true | Err _ => false end.

Lemma is_ok_intro {A} (r : result A) a : r = Ok a -> is_ok r = true.
Proof. by intros ->. Qed.

Lemma is_ok_inv {A} (r : result A) : is_ok r = true -> exists a, r = Ok a.
Proof. destruct r; [eauto | done]. Qed.

(** [if err != nil { return T{}, e }]: replace the error of a callee. *)
Definition map_err {A} (e : GoError) (r : result A) : result A :=
  match r with Ok a => Ok a | Err _ => Err e end.

(** [x, _ := f()]: keep the value and drop the error; Go returns the zero value
    [z] with an error. *)
Lemma map_err_Ok {A} e (r : result A) a : map_err e r = Ok a -> r = Ok a.
Proof. by destruct r. Qed.

Definition or_zero {A} (z : A) (r : result A) : A :=
  match r with Ok a => a | Err _ => z end.

Declare Scope go_scope.
Delimit Scope go_scope with go.
#[global] Open Scope go_scope.

(** Early return: [if bad { return T{}, e }]. *)
Notation "'reject' b 'with' e ; k" := (if b then Err e else k)
  (at level 100, b at level 99, e at level 99, k at level 200,
   format "'[v' 'reject'  b  'with'  e ; '/' k ']'") : go_scope.

(** [x, err := m; if err != nil { return T{}, e }]. *)
Notation "x <~ m 'else' e ; k" := (map_err e m ≫= (fun x => k))
  (at level 100, m at level 99, e at level 99, k at level 200, right associativity) : go_scope.

(** ** Tactics shared by the components *)

Create HintDb bools.
#[export] Hint Rewrite andb_true_iff andb_false_iff orb_true_iff orb_false_iff
  negb_true_iff negb_false_iff bool_decide_eq_true bool_decide_eq_false
  Z.ltb_lt Z.leb_le Z.gtb_ltb Z.geb_leb Z.eqb_eq Z.eqb_neq Z.ltb_ge Z.leb_gt : bools.

(** Turn boolean guards into propositions and split them. *)
Ltac bool_norm :=
  repeat (autorewrite with bools in *; destruct_and?).

(** Walk a chain of early returns in a hypothesis that says the call succeeded. *)
Ltac walk H :=
  repeat (first
    [ progress cbv beta iota delta [mbind result_bind map_err mret result_ret] in H
    | match type of H with
      | Err _ = Ok _ => discriminate H
      | Ok _ = Ok _ => injection H as H
      | (if ?b then _ else _) = Ok _ => let E := fresh "G" in destruct b eqn:E; [first [discriminate H | idtac] | first [discriminate H | idtac]]
      | context [match ?m with Ok _ => _ | Err _ => _ end] => let E := fresh "C" in destruct m eqn:E; try discriminate H; walk E
      | context [match ?m with Some _ => _ | None => _ end] => let E := fresh "C" in destruct m eqn:E; try discriminate H
      end ]).

(** Discharge the early returns of a goal, one at a time, from the hypotheses that
    negate them. *)
Ltac guard_fact :=
  autorewrite with bools;
  split_and?; first [done | lia | congruence | naive_solver (first [congruence | lia])].
Ltac guard_ok :=
  repeat match goal with
  | |- context [if ?b then Err _ else _] => replace b with false by (symmetry; guard_fact)
  end.

(** ** Lists *)

Lemma NoDup_map_unique {A B} (f : A -> B) (l : list A) x y :
  NoDup (map f l) -> x ∈ l -> y ∈ l -> f x = f y -> x = y.
Proof.
  induction l as [| a l IH]; cbn [map]; [by intros _ ?%elem_of_nil |].
  intros [Hni Hnd]%NoDup_cons. rewrite !elem_of_cons. intros [-> | Hx] [-> | Hy] He; [done | | | by auto].
  - destruct Hni. rewrite He. by apply list_elem_of_fmap_2.
  - destruct Hni. rewrite <- He. by apply list_elem_of_fmap_2.
Qed.

(** Two duplicate-free lists of one length, one inside the other, are permutations. *)
Lemma NoDup_incl_Permutation {A} (l k : list A) :
  NoDup l -> (forall x, x ∈ l -> x ∈ k) -> length l = length k -> Permutation l k.
Proof.
  intros Hl Hsub Hlen. apply submseteq_length_Permutation; [| lia].
  by apply NoDup_submseteq.
Qed.

(** A successor in 32 bits that is not zero is the true successor. *)
Lemma u32_succ_nonzero z : 0 <= z < 2 ^ 32 -> u32 (z + 1) <> 0 -> u32 (z + 1) = z + 1.
Proof.
  intros Hz Hne. unfold u32 in *. destruct (decide (z + 1 = 2 ^ 32)) as [He | He].
  - rewrite He, Z.mod_same in Hne; lia.
  - apply Z.mod_small. lia.
Qed.

(** ** Sorting *)

#[export] Instance leb_decision {A : Type} (leb : A -> A -> bool) : RelDecision (fun a b => leb a b = true).
Proof. intros a b. apply bool_eq_dec. Defined.

(** Sorting with a less-or-equal test: [sort.Strings], [slices.SortFunc] and ORDER BY. *)
Definition order_by {A : Type} (leb : A -> A -> bool) (l : list A) : list A :=
  merge_sort (fun a b => leb a b = true) l.

Lemma order_by_Permutation {A} (leb : A -> A -> bool) l : Permutation (order_by leb l) l.
Proof. apply (merge_sort_Permutation (fun a b => leb a b = true)). Qed.

Lemma elem_of_order_by {A} (leb : A -> A -> bool) l x : x ∈ order_by leb l <-> x ∈ l.
Proof. apply elem_of_Permutation_proper, order_by_Permutation. Qed.

(** Go's order of strings, which is PostgreSQL's under the C collation. *)
Lemma string_compare_trans s : forall t u, String.compare s t = Lt -> String.compare t u = Lt -> String.compare s u = Lt.
Proof.
  induction s as [| a s IH]; intros [| b t] [| c u]; cbn [String.compare]; try done.
  unfold Ascii.compare. destruct (N.compare_spec (Ascii.N_of_ascii a) (Ascii.N_of_ascii b)) as [Hab | Hab | Hab];
    [| | done]; destruct (N.compare_spec (Ascii.N_of_ascii b) (Ascii.N_of_ascii c)) as [Hbc | Hbc | Hbc]; try done; intros H1 H2.
  - rewrite Hab, Hbc, N.compare_refl. by eapply IH.
  - by rewrite (proj2 (N.compare_lt_iff _ _)) by lia.
  - by rewrite (proj2 (N.compare_lt_iff _ _)) by lia.
  - by rewrite (proj2 (N.compare_lt_iff _ _)) by lia.
Qed.

(** A total and transitive test sorts, and the result does not depend on the order of
    a list whose elements it tells apart. *)
Section Sorting.
Context {A : Type} (leb : A -> A -> bool).
Context (leb_total : forall a b, leb a b = true \/ leb b a = true).
Context (leb_trans : forall a b c, leb a b = true -> leb b c = true -> leb a c = true).

Lemma order_by_sorted l : StronglySorted (fun a b => leb a b = true) (order_by leb l).
Proof.
  apply StronglySorted_merge_sort; [exact leb_trans |]. intros a b. apply leb_total.
Qed.

Lemma order_by_unique l l' :
  (forall a b, a ∈ l -> b ∈ l -> leb a b = true -> leb b a = true -> a = b) ->
  Permutation l l' -> order_by leb l = order_by leb l'.
Proof.
  intros Hanti Hp. apply (StronglySorted_unique_strong (fun a b => leb a b = true)).
  - intros a b Ha Hb. apply Hanti; [by apply elem_of_order_by in Ha |].
    apply elem_of_order_by in Hb. by rewrite Hp.
  - apply order_by_sorted.
  - apply order_by_sorted.
  - by rewrite !order_by_Permutation.
Qed.
End Sorting.

(** Go's [<=] on strings. *)
Definition string_leb (a b : string) : bool := negb (String.ltb b a).

Lemma string_ltb_irrefl s : String.ltb s s = false.
Proof. unfold String.ltb. pose proof (String.compare_antisym s s) as H. by destruct (String.compare s s). Qed.

Lemma string_ltb_trans s t u : String.ltb s t = true -> String.ltb t u = true -> String.ltb s u = true.
Proof.
  unfold String.ltb. destruct (String.compare s t) eqn:E1; [done | | done]. destruct (String.compare t u) eqn:E2; [done | | done].
  by rewrite (string_compare_trans _ _ _ E1 E2).
Qed.

Lemma string_ltb_total s t : String.ltb s t = false -> String.ltb t s = false -> s = t.
Proof.
  unfold String.ltb. intros H1 H2. rewrite String.compare_antisym in H2. destruct (String.compare s t) eqn:E; [| done | done].
  by apply String.compare_eq_iff.
Qed.

Lemma string_leb_total s t : string_leb s t = true \/ string_leb t s = true.
Proof.
  unfold string_leb. destruct (String.ltb t s) eqn:E; [right | by left]. destruct (String.ltb s t) eqn:E'; [| done].
  pose proof (string_ltb_trans _ _ _ E' E) as H. by rewrite string_ltb_irrefl in H.
Qed.

Lemma string_leb_antisym s t : string_leb s t = true -> string_leb t s = true -> s = t.
Proof. unfold string_leb. rewrite !negb_true_iff. intros. by apply string_ltb_total. Qed.

Lemma string_leb_trans s t u : string_leb s t = true -> string_leb t u = true -> string_leb s u = true.
Proof.
  unfold string_leb. rewrite !negb_true_iff. intros H1 H2. destruct (String.ltb u s) eqn:E; [| done].
  destruct (String.ltb s t) eqn:E'.
  - by rewrite <- H2, (string_ltb_trans _ _ _ E E').
  - assert (s = t) as -> by by apply string_ltb_total. congruence.
Qed.
