(* ===== verification/GoTime.v ===== *)
(** * time.Time and time.Duration as the package uses them

    A [Time] is an instant (seconds since January 1, year 1, as Go's internal
    representation, and nanoseconds), an optional monotonic clock reading and a
    location. [canonicalTime] strips the last two. *)
From S2P Require Import Prelude.

Inductive Location := UTC | InLocation (name : string).

#[export] Instance Location_eq_dec : EqDecision Location.
Proof. solve_decision. Defined.

Record Time := mkTime {
  t_sec : Z;           (** int64 seconds since year 1 *)
  t_nsec : Z;          (** 0 <= nsec < 1e9 *)
  t_mono : option Z;   (** int64 monotonic reading, nanoseconds *)
  t_loc : Location
}.

#[export] Instance Time_eq_dec : EqDecision Time.
Proof. solve_decision. Defined.

(** [time.Time{}] *)
Definition zeroTime : Time := mkTime 0 0 None UTC.

Definition IsZero (t : Time) : bool := (t_sec t =? 0) && (t_nsec t =? 0).

(** Lexicographic order of instants, and Go's comparisons: two readings that
    both carry a monotonic clock are compared by it. *)
Definition instant_ltb (a b : Time) : bool :=
  (t_sec a <? t_sec b) || ((t_sec a =? t_sec b) && (t_nsec a <? t_nsec b)).

Definition Before (a b : Time) : bool :=
  match t_mono a, t_mono b with
  | Some m, Some n => m <? n
  | _, _ => instant_ltb a b
  end.

Definition After (a b : Time) : bool :=
  match t_mono a, t_mono b with
  | Some m, Some n => n <? m
  | _, _ => instant_ltb b a
  end.

Definition Equal (a b : Time) : bool :=
  match t_mono a, t_mono b with
  | Some m, Some n => m =? n
  | _, _ => (t_sec a =? t_sec b) && (t_nsec a =? t_nsec b)
  end.

(** Seconds saturate when an addition leaves the int64 range. *)
Definition add_sec (s d : Z) : Z :=
  if MaxInt64 <? s + d then MaxInt64
  else if s + d <? MinInt64 then - MaxInt64
  else s + d.

(** The wall seconds that Go can hold next to a monotonic reading: 33 bits since 1885. *)
Definition wallToInternal : Z := (1884 * 365 + 1884 / 4 - 1884 / 100 + 1884 / 400) * 86400.
Definition keeps_monotonic (sec : Z) : bool :=
  (0 <=? sec - wallToInternal) && (sec - wallToInternal <=? 2 ^ 33 - 1).

Definition Add (t : Time) (d : Z) : Time :=
  let nsec := t_nsec t + Z.rem d 1000000000 in
  let dsec := Z.quot d 1000000000 in
  let '(dsec, nsec) :=
    if 1000000000 <=? nsec then (dsec + 1, nsec - 1000000000)
    else if nsec <? 0 then (dsec - 1, nsec + 1000000000)
    else (dsec, nsec) in
  let sec := add_sec (t_sec t) dsec in
  let mono :=
    match t_mono t with
    | Some m =>
        if keeps_monotonic sec && (MinInt64 <=? m + d) && (m + d <=? MaxInt64)
        then Some (m + d) else None
    | None => None
    end in
  mkTime sec nsec mono (t_loc t).

(** [t.Sub(u)], saturating at the bounds of [time.Duration]. *)
Definition Sub (t u : Time) : Z :=
  match t_mono t, t_mono u with
  | Some m, Some n =>
      let d := i64 (m - n) in
      if (d <? 0) && (n <? m) then MaxInt64 else if (0 <? d) && (m <? n) then MinInt64 else d
  | _, _ =>
      let d := i64 (i64 ((t_sec t - t_sec u) * 1000000000) + (t_nsec t - t_nsec u)) in
      if Equal (Add u d) t then d else if Before t u then MinInt64 else MaxInt64
  end.

(** [value.Round(0).UTC()] *)
Definition canonicalTime (value : Time) : Time :=
  mkTime (t_sec value) (t_nsec value) None UTC.

(** The canonical form as a predicate. *)
Definition canonical (t : Time) : Prop := t_mono t = None /\ t_loc t = UTC.

(** ** Equality of instants, coarser than equality of representations *)

Definition same_instant (a b : Time) : Prop := t_sec a = t_sec b /\ t_nsec a = t_nsec b.

#[export] Instance same_instant_equiv : Equivalence same_instant.
Proof. split; repeat intro; unfold same_instant in *; intuition congruence. Qed.

#[export] Instance canonicalTime_proper : Proper (same_instant ==> eq) canonicalTime.
Proof. intros a b [H1 H2]. unfold canonicalTime. congruence. Qed.

#[export] Instance IsZero_proper : Proper (same_instant ==> eq) IsZero.
Proof. intros a b [H1 H2]. unfold IsZero. congruence. Qed.

Lemma canonicalTime_same t : same_instant (canonicalTime t) t.
Proof. by split. Qed.

Lemma canonicalTime_canonical t : canonical (canonicalTime t).
Proof. by split. Qed.

Lemma canonicalTime_fix t : canonical t -> canonicalTime t = t.
Proof. destruct t; unfold canonical, canonicalTime; simpl; intros [-> ->]; done. Qed.

Lemma canonicalTime_idem t : canonicalTime (canonicalTime t) = canonicalTime t.
Proof. done. Qed.

Lemma canonicalTime_zero : canonicalTime zeroTime = zeroTime.
Proof. done. Qed.

Lemma IsZero_canonicalTime t : IsZero (canonicalTime t) = IsZero t.
Proof. done. Qed.

Lemma IsZero_iff t : canonical t -> IsZero t = true <-> t = zeroTime.
Proof.
  destruct t as [s n m l]; unfold canonical, IsZero, zeroTime; simpl. intros [-> ->].
  rewrite andb_true_iff, !Z.eqb_eq. split; [intros [-> ->]; done | by intros [= -> ->]].
Qed.

(** One side without a monotonic reading: comparisons are on instants. *)
Lemma Before_canonical_r a b : canonical b -> Before a b = instant_ltb a b.
Proof. unfold Before. intros [-> _]. by destruct (t_mono a). Qed.

Lemma Before_canonical_l a b : canonical a -> Before a b = instant_ltb a b.
Proof. unfold Before. by intros [-> _]. Qed.

Lemma After_canonical_r a b : canonical b -> After a b = instant_ltb b a.
Proof. unfold After. intros [-> _]. by destruct (t_mono a). Qed.

Lemma After_canonical_l a b : canonical a -> After a b = instant_ltb b a.
Proof. unfold After. by intros [-> _]. Qed.

Lemma Before_canonicalTime_l a b : canonical b -> Before (canonicalTime a) b = Before a b.
Proof. intros H. by rewrite !Before_canonical_r. Qed.

Lemma instant_ltb_irrefl a : instant_ltb a a = false.
Proof. unfold instant_ltb. rewrite Z.ltb_irrefl, Z.eqb_refl, Z.ltb_irrefl. done. Qed.

Lemma instant_ltb_trans a b c :
  instant_ltb a b = true -> instant_ltb b c = true -> instant_ltb a c = true.
Proof. unfold instant_ltb. rewrite !orb_true_iff, !andb_true_iff. lia. Qed.

Lemma instant_leb_trans a b c :
  instant_ltb b a = false -> instant_ltb c b = false -> instant_ltb c a = false.
Proof. unfold instant_ltb. rewrite !orb_false_iff, !andb_false_iff. lia. Qed.

Lemma instant_ltb_asym a b : instant_ltb a b = true -> instant_ltb b a = false.
Proof. unfold instant_ltb. rewrite !orb_true_iff, !andb_true_iff, !orb_false_iff, !andb_false_iff. lia. Qed.

(** Adding a duration commutes with canonicalisation. *)
Lemma canonicalTime_Add t d : canonicalTime (Add (canonicalTime t) d) = canonicalTime (Add t d).
Proof. unfold Add. simpl. repeat case_match; simplify_eq; done. Qed.

Lemma Add_canonical t d : canonical t -> canonical (Add t d).
Proof. intros [Hm Hl]. unfold Add. repeat case_match; simplify_eq; split; simpl; congruence. Qed.

Create HintDb gotime.
#[export] Hint Resolve canonicalTime_canonical : gotime.
#[export] Hint Rewrite canonicalTime_idem canonicalTime_zero IsZero_canonicalTime canonicalTime_Add : gotime.

(** A canonical instant inside the int64 range. *)
Definition wf_time (t : Time) : Prop :=
  MinInt64 <= t_sec t <= MaxInt64 /\ 0 <= t_nsec t < 1000000000.

(** Without saturation an instant is its nanosecond count. *)
Definition nanos (t : Time) : Z := t_sec t * 1000000000 + t_nsec t.

Lemma nanos_ltb a b : wf_time a -> wf_time b -> instant_ltb a b = (nanos a <? nanos b).
Proof.
  unfold wf_time, instant_ltb, nanos. intros [_ Ha] [_ Hb].
  apply eq_true_iff_eq. rewrite orb_true_iff, andb_true_iff, !Z.ltb_lt, Z.eqb_eq. nia.
Qed.

(** Adding a duration moves the nanosecond count by it when the seconds stay in range. *)
Lemma nanos_Add t d :
  wf_time t -> MinInt64 * 1000000000 <= nanos t + d < (MaxInt64 + 1) * 1000000000 ->
  nanos (Add t d) = nanos t + d /\ wf_time (Add t d).
Proof.
  unfold wf_time, nanos, Add. intros [Hs Hn] Hr.
  pose proof (Z.quot_rem' d 1000000000) as Hq.
  pose proof (Z.rem_bound_abs d 1000000000 ltac:(lia)) as Hb.
  assert (Hb' : -1000000000 < Z.rem d 1000000000 < 1000000000) by lia.
  repeat case_match; simplify_eq; simpl; unfold add_sec, MaxInt64, MinInt64 in *;
    repeat case_match; bool_norm; lia.
Qed.

(** Two readings without a monotonic clock are equal when their counts are. *)
Lemma nanos_inj a b : wf_time a -> wf_time b -> nanos a = nanos b -> same_instant a b.
Proof. unfold wf_time, nanos, same_instant. lia. Qed.

(** Sub is exact on short distances. *)
Lemma Sub_exact t u d :
  t_mono t = None -> t_mono u = None -> wf_time t -> wf_time u ->
  nanos t = nanos u + d -> 0 <= d < 2 ^ 62 -> Sub t u = d.
Proof.
  intros Hmt Hmu Ht Hu Hd Hr. unfold Sub. rewrite Hmt.
  assert (He : i64 (i64 ((t_sec t - t_sec u) * 1000000000) + (t_nsec t - t_nsec u)) = d).
  { assert (Hn : (t_sec t - t_sec u) * 1000000000 + (t_nsec t - t_nsec u) = d) by (unfold nanos in *; lia).
    destruct Ht as [_ Ht], Hu as [_ Hu]. rewrite (i64_small ((t_sec t - t_sec u) * _)) by (unfold MinInt64, MaxInt64; lia).
    rewrite Hn. apply i64_small. unfold MinInt64, MaxInt64. lia. }
  rewrite He. unfold Equal. assert (Hma : t_mono (Add u d) = None).
  { unfold Add. rewrite Hmu. by repeat case_match. }
  rewrite Hma. destruct (nanos_Add u d Hu) as [Ha Hw].
  { destruct Ht as [Hts Htn]. unfold nanos in *. lia. }
  destruct (nanos_inj (Add u d) t Hw Ht ltac:(lia)) as [-> ->]. by rewrite !Z.eqb_refl.
Qed.
