(* ===== verification/Names.v ===== *)
(** * The anchored name patterns of definition.go and history.go

    Go's [regexp] matches runes; every class here is ASCII, so a byte outside
    the class (in particular any byte of a multi-byte or invalid sequence)
    makes the match fail and the byte-wise matcher below is exact. *)
From S2P Require Import Prelude.

Definition code_of (c : Ascii.ascii) : Z := Z.of_nat (Ascii.nat_of_ascii c).

Definition between (lo hi : Z) (c : Ascii.ascii) : bool := (lo <=? code_of c) && (code_of c <=? hi).

Definition isDigit := between 48 57.
Definition isLower := between 97 122.
Definition isUpper := between 65 90.
Definition isAlnum (c : Ascii.ascii) : bool := isLower c || isUpper c || isDigit c.

(** [[a-zA-Z0-9._/-]]: '.' 46, '_' 95, '/' 47, '-' 45 *)
Definition isNameChar (c : Ascii.ascii) : bool :=
  isAlnum c || (code_of c =? 46) || (code_of c =? 95) || (code_of c =? 47) || (code_of c =? 45).

(** [[a-zA-Z0-9._:/-]]: also ':' 58 *)
Definition isInstanceChar (c : Ascii.ascii) : bool := isNameChar c || (code_of c =? 58).

(** [[0-9a-f]] *)
Definition isHexLower (c : Ascii.ascii) : bool := isDigit c || between 97 102 c.

Fixpoint all_chars (p : Ascii.ascii -> bool) (s : string) : bool :=
  match s with
  | EmptyString => true
  | String c s' => p c && all_chars p s'
  end.

(** [^[first][rest]{0,max}$] *)
Definition match_name (first rest : Ascii.ascii -> bool) (max : Z) (s : string) : bool :=
  match s with
  | EmptyString => false
  | String c s' => first c && all_chars rest s' && (slen s' <=? max)
  end.

Definition stableName : string -> bool := match_name isAlnum isNameChar 127.
Definition instanceIDPattern : string -> bool := match_name isAlnum isInstanceChar 255.
Definition fingerprintPattern (s : string) : bool := all_chars isHexLower s && (slen s =? 64).

(** ** Facts *)

Lemma all_chars_impl p q s :
  (forall c, p c = true -> q c = true) -> all_chars p s = true -> all_chars q s = true.
Proof.
  intros Hpq. induction s as [| c s IH]; simpl; [done |].
  rewrite !andb_true_iff. intros [H1 H2]. auto.
Qed.

Lemma all_chars_app p s t : all_chars p (s +:+ t) = all_chars p s && all_chars p t.
Proof.
  induction s as [| c s IH]; [done |]. rewrite sapp_cons. simpl. by rewrite IH, andb_assoc.
Qed.

Lemma match_name_chars first rest max s :
  (forall c, first c = true -> rest c = true) ->
  match_name first rest max s = true -> all_chars rest s = true.
Proof.
  destruct s as [| c s]; simpl; [done |]. intros Hf.
  rewrite !andb_true_iff. intros [[H1 H2] _]. auto.
Qed.

Lemma match_name_slen first rest max s :
  match_name first rest max s = true -> 1 <= slen s <= max + 1.
Proof.
  destruct s as [| c s]; [done |]. cbn [match_name]. rewrite !andb_true_iff, Z.leb_le, slen_cons.
  pose proof (slen_nonneg s). lia.
Qed.

Lemma match_name_nonempty first rest max s : match_name first rest max s = true -> s <> EmptyString.
Proof. by destruct s. Qed.

Lemma isAlnum_isNameChar c : isAlnum c = true -> isNameChar c = true.
Proof. unfold isNameChar. by intros ->. Qed.

Lemma isNameChar_isInstanceChar c : isNameChar c = true -> isInstanceChar c = true.
Proof. unfold isInstanceChar. by intros ->. Qed.

Lemma isHexLower_isNameChar c : isHexLower c = true -> isNameChar c = true.
Proof.
  unfold isHexLower, isNameChar, isAlnum, isLower, isDigit, between.
  rewrite !orb_true_iff, !andb_true_iff, !Z.leb_le. lia.
Qed.

(** A stable name is a legal instance identity. *)
Lemma stableName_instanceID s : stableName s = true -> instanceIDPattern s = true.
Proof.
  destruct s as [| c s]; [done |]. unfold stableName, instanceIDPattern. cbn [match_name].
  rewrite !andb_true_iff, !Z.leb_le. intros [[H1 H2] H3]. repeat split; [done | | lia].
  eapply all_chars_impl; [apply isNameChar_isInstanceChar | done].
Qed.

Lemma stableName_slen s : stableName s = true -> 1 <= slen s <= 128.
Proof. apply match_name_slen. Qed.

Lemma instanceID_slen s : instanceIDPattern s = true -> 1 <= slen s <= 256.
Proof. apply match_name_slen. Qed.

Lemma fingerprint_slen s : fingerprintPattern s = true -> slen s = 64.
Proof. unfold fingerprintPattern. rewrite andb_true_iff, Z.eqb_eq. tauto. Qed.

Lemma instanceID_chars s : instanceIDPattern s = true -> all_chars isInstanceChar s = true.
Proof.
  apply match_name_chars. intros c H. by apply isNameChar_isInstanceChar, isAlnum_isNameChar.
Qed.

Lemma stableName_chars s : stableName s = true -> all_chars isInstanceChar s = true.
Proof. intros H. by apply instanceID_chars, stableName_instanceID. Qed.

Lemma fingerprint_chars s : fingerprintPattern s = true -> all_chars isInstanceChar s = true.
Proof.
  unfold fingerprintPattern. rewrite andb_true_iff. intros [H _].
  eapply all_chars_impl; [| exact H]. intros c Hc.
  by apply isNameChar_isInstanceChar, isHexLower_isNameChar.
Qed.

Lemma stableName_nonempty s : stableName s = true -> s <> EmptyString.
Proof. apply match_name_nonempty. Qed.

Lemma instanceID_nonempty s : instanceIDPattern s = true -> s <> EmptyString.
Proof. apply match_name_nonempty. Qed.

Create HintDb names.
#[export] Hint Resolve stableName_chars instanceID_chars fingerprint_chars stableName_instanceID : names.
