(* ===== verification/Sha256.v ===== *)
(** * crypto/sha256 and encoding/hex as the package uses them

    [sha256_hex] is [hex.EncodeToString(sha256.Sum256(encoded)[:])], the digest
    of every fingerprint, snapshot and derived identity. *)
From S2P Require Import Prelude Names.

Definition w32 (z : Z) : Z := Z.land z 4294967295.
Definition rotr (n x : Z) : Z := Z.lor (Z.shiftr x n) (w32 (Z.shiftl x (32 - n))).
Definition not32 (x : Z) : Z := Z.lxor x 4294967295.

Definition K256 : list Z :=
  [1116352408; 1899447441; 3049323471; 3921009573; 961987163; 1508970993; 2453635748; 2870763221;
   3624381080; 310598401; 607225278; 1426881987; 1925078388; 2162078206; 2614888103; 3248222580;
   3835390401; 4022224774; 264347078; 604807628; 770255983; 1249150122; 1555081692; 1996064986;
   2554220882; 2821834349; 2952996808; 3210313671; 3336571891; 3584528711; 113926993; 338241895;
   666307205; 773529912; 1294757372; 1396182291; 1695183700; 1986661051; 2177026350; 2456956037;
   2730485921; 2820302411; 3259730800; 3345764771; 3516065817; 3600352804; 4094571909; 275423344;
   430227734; 506948616; 659060556; 883997877; 958139571; 1322822218; 1537002063; 1747873779;
   1955562222; 2024104815; 2227730452; 2361852424; 2428436474; 2756734187; 3204031479; 3329325298].

Definition H0_256 : list Z :=
  [1779033703; 3144134277; 1013904242; 2773480762; 1359893119; 2600822924; 528734635; 1541459225].

(** The message as bytes, padded to a multiple of 64. *)
Fixpoint string_bytes (s : string) : list Z :=
  match s with
  | EmptyString => []
  | String c s' => code_of c :: string_bytes s'
  end.

Definition pad256 (m : list Z) : list Z :=
  let len := Z.of_nat (length m) in
  let zeros := (55 - len) mod 64 in
  let bits := len * 8 in
  m ++ [128] ++ repeat 0 (Z.to_nat zeros) ++
  map (fun k => Z.land (Z.shiftr bits (8 * k)) 255) [7; 6; 5; 4; 3; 2; 1; 0].

Fixpoint be_words (m : list Z) : list Z :=
  match m with
  | a :: b :: c :: d :: m' =>
      Z.lor (Z.lor (Z.shiftl a 24) (Z.shiftl b 16)) (Z.lor (Z.shiftl c 8) d) :: be_words m'
  | _ => []
  end.

Definition ssig0 (x : Z) : Z := Z.lxor (Z.lxor (rotr 7 x) (rotr 18 x)) (Z.shiftr x 3).
Definition ssig1 (x : Z) : Z := Z.lxor (Z.lxor (rotr 17 x) (rotr 19 x)) (Z.shiftr x 10).

(** The message schedule, newest word first. *)
Fixpoint schedule (n : nat) (w : list Z) : list Z :=
  match n with
  | O => w
  | S n' =>
      let at_ k := nth k w 0 in
      schedule n' (w32 (ssig1 (at_ 1%nat) + at_ 6%nat + ssig0 (at_ 14%nat) + at_ 15%nat) :: w)
  end.

Definition round256 (st : list Z) (kw : Z * Z) : list Z :=
  match st with
  | [a; b; c; d; e; f; g; h] =>
      let S1 := Z.lxor (Z.lxor (rotr 6 e) (rotr 11 e)) (rotr 25 e) in
      let ch := Z.lxor (Z.land e f) (Z.land (not32 e) g) in
      let t1 := h + S1 + ch + kw.1 + kw.2 in
      let S0 := Z.lxor (Z.lxor (rotr 2 a) (rotr 13 a)) (rotr 22 a) in
      let maj := Z.lxor (Z.lxor (Z.land a b) (Z.land a c)) (Z.land b c) in
      [w32 (t1 + S0 + maj); a; b; c; w32 (d + t1); e; f; g]
  | _ => st
  end.

Definition compress (st block : list Z) : list Z :=
  let w := rev (schedule 48 (rev block)) in
  zip_with (fun x y => w32 (x + y)) st (foldl round256 st (zip K256 w)).

Fixpoint blocks (fuel : nat) (st words : list Z) : list Z :=
  match fuel, words with
  | O, _ => st
  | _, [] => st
  | S fuel', _ => blocks fuel' (compress st (take 16 words)) (drop 16 words)
  end.

Definition sha256 (s : string) : list Z :=
  let words := be_words (pad256 (string_bytes s)) in
  blocks (length words) H0_256 words.

Definition hex_table : list Ascii.ascii := String.list_ascii_of_string "0123456789abcdef".

Definition hex_digit (n : Z) : Ascii.ascii :=
  nth (Z.to_nat n) hex_table (Ascii.ascii_of_nat 48).

Definition hex_word (w : Z) (rest : string) : string :=
  foldr (fun k s => String (hex_digit (Z.land (Z.shiftr w (4 * k)) 15)) s) rest
    [7; 6; 5; 4; 3; 2; 1; 0].

Definition hex_words (ws : list Z) : string := foldr hex_word EmptyString ws.

Definition sha256_hex (s : string) : string := hex_words (sha256 s).

(** ** The digest text is always a legal fingerprint *)

Lemma hex_digit_lower n : isHexLower (hex_digit n) = true.
Proof.
  assert (H : Forall (fun c => isHexLower c = true) hex_table).
  { repeat constructor. }
  unfold hex_digit. destruct (nth_in_or_default (Z.to_nat n) hex_table (Ascii.ascii_of_nat 48)) as [Hin | ->].
  - rewrite List.Forall_forall in H. by apply H.
  - done.
Qed.

Lemma round256_length st kw : length st = 8%nat -> length (round256 st kw) = 8%nat.
Proof. intros H. unfold round256. repeat (case_match; simplify_eq/=; try done). Qed.

Lemma rounds_length l st : length st = 8%nat -> length (foldl round256 st l) = 8%nat.
Proof. revert st. induction l as [| x l IH]; simpl; intros st H; [done |]. by apply IH, round256_length. Qed.

Lemma compress_length st block : length st = 8%nat -> length (compress st block) = 8%nat.
Proof. intros H. unfold compress. rewrite length_zip_with, rounds_length, H by done. done. Qed.

Lemma blocks_length n st ws : length st = 8%nat -> length (blocks n st ws) = 8%nat.
Proof.
  revert st ws. induction n as [| n IH]; intros st ws H; simpl; [done |].
  destruct ws; [done |]. by apply IH, compress_length.
Qed.

Lemma sha256_length s : length (sha256 s) = 8%nat.
Proof. by apply blocks_length. Qed.

Lemma foldr_String_slen {A} (f : A -> Ascii.ascii) rest l :
  slen (foldr (fun k s => String (f k) s) rest l) = Z.of_nat (length l) + slen rest.
Proof. induction l as [| a l IH]; [done |]. cbn [foldr length]. rewrite slen_cons, IH. lia. Qed.

Lemma foldr_String_chars {A} p (f : A -> Ascii.ascii) rest l :
  (forall a, p (f a) = true) ->
  all_chars p (foldr (fun k s => String (f k) s) rest l) = all_chars p rest.
Proof. intros Hp. induction l as [| a l IH]; [done |]. cbn [foldr all_chars]. by rewrite Hp, IH. Qed.

Lemma hex_words_slen ws : slen (hex_words ws) = 8 * Z.of_nat (length ws).
Proof.
  unfold hex_words. induction ws as [| w ws IH]; [done |].
  cbn [foldr]. unfold hex_word at 1. rewrite foldr_String_slen, IH. cbn [length]. lia.
Qed.

Lemma hex_words_lower ws : all_chars isHexLower (hex_words ws) = true.
Proof.
  unfold hex_words. induction ws as [| w ws IH]; [done |].
  cbn [foldr]. unfold hex_word at 1. rewrite foldr_String_chars; [done |].
  intros k. apply hex_digit_lower.
Qed.

Lemma sha256_hex_fingerprint s : fingerprintPattern (sha256_hex s) = true.
Proof.
  unfold fingerprintPattern, sha256_hex. rewrite hex_words_lower, hex_words_slen, sha256_length. done.
Qed.

Lemma sha256_hex_nonempty s : sha256_hex s <> EmptyString.
Proof.
  intros H. pose proof (sha256_hex_fingerprint s) as Hf. rewrite H in Hf. discriminate Hf.
Qed.

(** The published test vectors of FIPS 180-4 (one block, and two blocks). *)
Example sha256_abc :
  sha256_hex "abc" = "ba7816bf8f01cfea414140de5dae2223b00361a396177a9cb410ff61f20015ad"%string.
Proof. vm_compute. reflexivity. Qed.

Example sha256_two_blocks :
  sha256_hex "abcdbcdecdefdefgefghfghighijhijkijkljklmklmnlmnomnopnopq"
  = "248d6a61d20638b8e5c026930c3e6039a33ce45964ff2167f6ecedd419db06c1"%string.
Proof. vm_compute. reflexivity. Qed.
