(* ===== verification/Json.v ===== *)
(** * encoding/json as the package uses it

    The package marshals flat documents whose members are strings, integers,
    booleans, byte slices, UTC times, slices of such documents and pointers to
    them, and unmarshals documents whose members are strings and unsigned
    integers with [DisallowUnknownFields]. [quote] is Go's string encoder
    (with HTML escaping), [json] the values it marshals with [render] their
    text. [decode_object] reads one object followed by white space only, which
    is what [Decode] followed by a [Decode] that must report [io.EOF] accepts;
    it does not descend into arrays, objects and the literals true and false,
    because no field of a decoded document can hold one and the decoder rejects
    the document whatever they contain. *)
From S2P Require Import Prelude Names GoTime.
From Stdlib Require Import DecimalString DecimalN DecimalPos DecimalNat.

Definition chr (n : Z) : Ascii.ascii := Ascii.ascii_of_nat (Z.to_nat n).

(** ** Decimal numbers *)

Definition dec (n : Z) : string := NilZero.string_of_uint (N.to_uint (Z.to_N n)).

Definition dec_pad (width : nat) (n : Z) : string :=
  let s := dec n in
  foldr (fun _ acc => String (chr 48) acc) s (seq 0 (width - String.length s)).

(** ** UTF-8 *)

Definition cont (c : Ascii.ascii) : bool := between 128 191 c.

(** Continuation bytes of the well-formed sequence that starts with [c], or 0
    when the bytes there are not well formed. *)
Definition utf8_need (c : Ascii.ascii) (s : string) : nat :=
  let n := code_of c in
  if between 194 223 c then
    match s with String c2 _ => if cont c2 then 1 else 0 | _ => 0 end
  else if between 224 239 c then
    match s with
    | String c2 (String c3 _) =>
        let ok2 := if n =? 224 then between 160 191 c2
                   else if n =? 237 then between 128 159 c2 else cont c2 in
        if ok2 && cont c3 then 2 else 0
    | _ => 0
    end
  else if between 240 244 c then
    match s with
    | String c2 (String c3 (String c4 _)) =>
        let ok2 := if n =? 240 then between 144 191 c2
                   else if n =? 244 then between 128 143 c2 else cont c2 in
        if ok2 && cont c3 && cont c4 then 3 else 0
    | _ => 0
    end
  else 0%nat.

Definition encode_rune (r : Z) : string :=
  if r <? 128 then String (chr r) ""
  else if r <? 2048 then String (chr (192 + r / 64)) (String (chr (128 + r mod 64)) "")
  else if r <? 65536 then
    String (chr (224 + r / 4096)) (String (chr (128 + (r / 64) mod 64)) (String (chr (128 + r mod 64)) ""))
  else
    String (chr (240 + r / 262144)) (String (chr (128 + (r / 4096) mod 64))
      (String (chr (128 + (r / 64) mod 64)) (String (chr (128 + r mod 64)) ""))).

Definition rune_error : Z := 65533.

(** ** Strings *)

(** [htmlSafeSet]: every ASCII byte from 0x20 but the double quote, the backslash, <, > and &. *)
Definition html_safe (c : Ascii.ascii) : bool :=
  let n := code_of c in
  (32 <=? n) && (n <? 128) && negb (n =? 34) && negb (n =? 92) && negb (n =? 60)
  && negb (n =? 62) && negb (n =? 38).

Definition hex1 (n : Z) : Ascii.ascii := if n <? 10 then chr (48 + n) else chr (87 + n).

Definition escape_byte (c : Ascii.ascii) : string :=
  let n := code_of c in
  if (n =? 34) || (n =? 92) then String (chr 92) (String c "")
  else if n =? 8 then "\b" else if n =? 12 then "\f" else if n =? 10 then "\n"
  else if n =? 13 then "\r" else if n =? 9 then "\t"
  else "\u00" +:+ String (hex1 (n / 16)) (String (hex1 (n mod 16)) "").

Fixpoint quote_body (s : string) : string :=
  match s with
  | EmptyString => EmptyString
  | String c s1 =>
      if html_safe c then String c (quote_body s1)
      else if code_of c <? 128 then escape_byte c +:+ quote_body s1
      else
        match utf8_need c s1, s1 with
        | 1%nat, String c2 s2 => String c (String c2 (quote_body s2))
        | 2%nat, String c2 (String c3 s3) =>
            if (code_of c =? 226) && (code_of c2 =? 128) && ((code_of c3 =? 168) || (code_of c3 =? 169))
            then "\u202" +:+ String (hex1 (code_of c3 - 160)) (quote_body s3)
            else String c (String c2 (String c3 (quote_body s3)))
        | 3%nat, String c2 (String c3 (String c4 s4)) =>
            String c (String c2 (String c3 (String c4 (quote_body s4))))
        | _, _ => "\ufffd" +:+ quote_body s1
        end
  end.

Definition dquote : Ascii.ascii := chr 34.

Definition quote (s : string) : string := String dquote (quote_body s +:+ String dquote "").

(** ** Values the package marshals *)

Inductive json :=
  | JNull
  | JBool (b : bool)
  | JNum (n : Z)
  | JStr (s : string)
  | JArr (l : list json)
  | JObj (l : list (string * json)).

Fixpoint commas (l : list string) : string :=
  match l with
  | [] => ""
  | [s] => s
  | s :: l' => s +:+ "," +:+ commas l'
  end.

Fixpoint render (v : json) : string :=
  match v with
  | JNull => "null"
  | JBool b => if b then "true" else "false"
  | JNum n => if n <? 0 then "-" +:+ dec (- n) else dec n
  | JStr s => quote s
  | JArr l => "[" +:+ commas (map render l) +:+ "]"
  | JObj l => "{" +:+ commas (map (fun kv => quote kv.1 +:+ ":" +:+ render kv.2) l) +:+ "}"
  end.

(** [[]byte] is marshalled as standard base64, nil as null. *)
Definition b64_char (n : Z) : Ascii.ascii :=
  if n <? 26 then chr (65 + n) else if n <? 52 then chr (71 + n)
  else if n <? 62 then chr (n - 4) else if n =? 62 then chr 43 else chr 47.

Fixpoint base64 (s : string) : string :=
  match s with
  | EmptyString => ""
  | String a EmptyString =>
      let x := code_of a in
      String (b64_char (x / 4)) (String (b64_char ((x mod 4) * 16)) "==")
  | String a (String b EmptyString) =>
      let x := code_of a in let y := code_of b in
      String (b64_char (x / 4)) (String (b64_char ((x mod 4) * 16 + y / 16))
        (String (b64_char ((y mod 16) * 4)) "="))
  | String a (String b (String c s')) =>
      let x := code_of a in let y := code_of b in let z := code_of c in
      String (b64_char (x / 4)) (String (b64_char ((x mod 4) * 16 + y / 16))
        (String (b64_char ((y mod 16) * 4 + z / 64)) (String (b64_char (z mod 64)) (base64 s'))))
  end.

Definition json_bytes (b : bytes) : json :=
  match b with None => JNull | Some s => JStr (base64 s) end.

(** ** Times: RFC 3339 with nanoseconds; years outside [0, 9999] are errors *)

Definition civil (days : Z) : Z * Z * Z :=
  let z := days + 306 in
  let era := z / 146097 in
  let doe := z mod 146097 in
  let yoe := (doe - doe / 1460 + doe / 36524 - doe / 146096) / 365 in
  let doy := doe - (365 * yoe + yoe / 4 - yoe / 100) in
  let mp := (5 * doy + 2) / 153 in
  let day := doy - (153 * mp + 2) / 5 + 1 in
  let month := if mp <? 10 then mp + 3 else mp - 9 in
  let year := yoe + era * 400 + (if month <=? 2 then 1 else 0) in
  (year, month, day).

Definition year_of (t : Time) : Z := (civil (t_sec t / 86400)).1.1.

Fixpoint trim_zeros (l : list Ascii.ascii) : list Ascii.ascii :=
  match l with
  | [] => []
  | c :: l' => if code_of c =? 48 then trim_zeros l' else l
  end.

Definition fraction (nsec : Z) : string :=
  if nsec =? 0 then ""
  else "." +:+ String.string_of_list_ascii
         (rev (trim_zeros (rev (String.list_ascii_of_string (dec_pad 9 nsec))))).

Definition rfc3339 (t : Time) : string :=
  let '(y, m, d) := civil (t_sec t / 86400) in
  let s := t_sec t mod 86400 in
  dec_pad 4 y +:+ "-" +:+ dec_pad 2 m +:+ "-" +:+ dec_pad 2 d +:+ "T"
  +:+ dec_pad 2 (s / 3600) +:+ ":" +:+ dec_pad 2 ((s / 60) mod 60) +:+ ":" +:+ dec_pad 2 (s mod 60)
  +:+ fraction (t_nsec t) +:+ "Z".

(** [Time.MarshalJSON] of a UTC time. *)
Definition json_time (t : Time) : option json :=
  if (0 <=? year_of t) && (year_of t <=? 9999) then Some (JStr (rfc3339 t)) else None.

(** [encoded, _ := json.Marshal(document)]: nil when marshalling fails. *)
Definition marshal (doc : option json) : string :=
  match doc with Some v => render v | None => "" end.
