(* ===== verification/JsonDecode.v ===== *)
(** * Decoding of the durable dispatch and audit documents

    [json.NewDecoder] with [DisallowUnknownFields] on a document whose fields
    are strings and unsigned integers, followed by the decode that must report
    [io.EOF]; see Json.v for why nested values need no descent. *)
From S2P Require Import Prelude Names Json.
From Stdlib Require Import DecimalFacts DecimalString DecimalN DecimalPos DecimalNat.

(** ** Lexing *)

Definition is_ws (c : Ascii.ascii) : bool :=
  let n := code_of c in (n =? 32) || (n =? 9) || (n =? 10) || (n =? 13).

Fixpoint skip_ws (s : string) : string :=
  match s with
  | String c s' => if is_ws c then skip_ws s' else s
  | EmptyString => EmptyString
  end.

Definition hex_value (c : Ascii.ascii) : option Z :=
  let n := code_of c in
  if between 48 57 c then Some (n - 48)
  else if between 97 102 c then Some (n - 87)
  else if between 65 70 c then Some (n - 55)
  else None.

Definition hex4 (a b c d : Ascii.ascii) : option Z :=
  a ← hex_value a; b ← hex_value b; c ← hex_value c; d ← hex_value d;
  Some (((a * 16 + b) * 16 + c) * 16 + d).

Definition simple_escape (c : Ascii.ascii) : option Ascii.ascii :=
  let n := code_of c in
  if (n =? 34) || (n =? 92) || (n =? 47) then Some c
  else if n =? 98 then Some (chr 8) else if n =? 102 then Some (chr 12)
  else if n =? 110 then Some (chr 10) else if n =? 114 then Some (chr 13)
  else if n =? 116 then Some (chr 9) else None.

Definition is_high (r : Z) : bool := (55296 <=? r) && (r <? 56320).
Definition is_low (r : Z) : bool := (56320 <=? r) && (r <? 57344).

Definition prepend (p : string) (r : option (string * string)) : option (string * string) :=
  match r with Some (x, rest) => Some (p +:+ x, rest) | None => None end.

(** The content of a string literal after its opening quote, and what follows
    its closing quote: escapes are replaced and ill-formed bytes and lone
    surrogates become U+FFFD. *)
Fixpoint unquote (s : string) : option (string * string) :=
  match s with
  | EmptyString => None
  | String c s1 =>
      let n := code_of c in
      if n =? 34 then Some (EmptyString, s1)
      else if n =? 92 then
        match s1 with
        | String e s2 =>
            if code_of e =? 117 then
              match s2 with
              | String a (String b (String d (String f s3))) =>
                  match hex4 a b d f with
                  | None => None
                  | Some r =>
                      if is_high r then
                        match s3 with
                        | String bs (String u (String a' (String b' (String d' (String f' s4))))) =>
                            match (if (code_of bs =? 92) && (code_of u =? 117) then hex4 a' b' d' f' else None) with
                            | Some r' =>
                                if is_low r'
                                then prepend (encode_rune (65536 + (r - 55296) * 1024 + (r' - 56320))) (unquote s4)
                                else prepend (encode_rune rune_error) (unquote s3)
                            | None => prepend (encode_rune rune_error) (unquote s3)
                            end
                        | _ => prepend (encode_rune rune_error) (unquote s3)
                        end
                      else if is_low r then prepend (encode_rune rune_error) (unquote s3)
                      else prepend (encode_rune r) (unquote s3)
                  end
              | _ => None
              end
            else
              match simple_escape e with
              | Some x => prepend (String x EmptyString) (unquote s2)
              | None => None
              end
        | EmptyString => None
        end
      else if n <? 32 then None
      else if n <? 128 then prepend (String c EmptyString) (unquote s1)
      else
        match utf8_need c s1, s1 with
        | 1%nat, String c2 s2 => prepend (String c (String c2 EmptyString)) (unquote s2)
        | 2%nat, String c2 (String c3 s3) => prepend (String c (String c2 (String c3 EmptyString))) (unquote s3)
        | 3%nat, String c2 (String c3 (String c4 s4)) =>
            prepend (String c (String c2 (String c3 (String c4 EmptyString)))) (unquote s4)
        | _, _ => prepend (encode_rune rune_error) (unquote s1)
        end
  end.

(** The maximal run of characters a number can hold, and JSON's number grammar. *)
Definition is_num_char (c : Ascii.ascii) : bool :=
  let n := code_of c in isDigit c || (n =? 43) || (n =? 45) || (n =? 46) || (n =? 69) || (n =? 101).

Fixpoint span_num (s : string) : string * string :=
  match s with
  | String c s' =>
      if is_num_char c then let '(x, rest) := span_num s' in (String c x, rest) else (EmptyString, s)
  | EmptyString => (EmptyString, EmptyString)
  end.

Fixpoint drop_digits (s : string) : string :=
  match s with
  | String c s' => if isDigit c then drop_digits s' else s
  | EmptyString => EmptyString
  end.

(** One or more digits, then the rest. *)
Definition digits1 (s : string) : option string :=
  match s with
  | String c s' => if isDigit c then Some (drop_digits s') else None
  | EmptyString => None
  end.

Definition number_int (s : string) : option string :=
  match s with
  | String c s' => if code_of c =? 48 then Some s' else digits1 s
  | EmptyString => None
  end.

Definition number_frac (s : string) : option string :=
  match s with
  | String c s' => if code_of c =? 46 then digits1 s' else Some s
  | EmptyString => Some EmptyString
  end.

Definition number_exp (s : string) : option string :=
  match s with
  | String c s' =>
      if (code_of c =? 69) || (code_of c =? 101) then
        match s' with
        | String d s'' => if (code_of d =? 43) || (code_of d =? 45) then digits1 s'' else digits1 s'
        | EmptyString => None
        end
      else Some s
  | EmptyString => Some EmptyString
  end.

Definition valid_number (s : string) : bool :=
  let s := match s with String c s' => if code_of c =? 45 then s' else s | EmptyString => s end in
  match (r ← number_int s; r ← number_frac r; number_exp r) with
  | Some EmptyString => true
  | _ => false
  end.

(** ** Values and members *)

Inductive flat := FStr (s : string) | FNum (text : string) | FNull.

Definition parse_value (s : string) : option (flat * string) :=
  match s with
  | String c s' =>
      if code_of c =? 34 then
        match unquote s' with Some (x, rest) => Some (FStr x, rest) | None => None end
      else if code_of c =? 110 then
        match s' with
        | String u (String l (String l' rest)) =>
            if (code_of u =? 117) && (code_of l =? 108) && (code_of l' =? 108) then Some (FNull, rest) else None
        | _ => None
        end
      else
        let '(text, rest) := span_num s in
        if valid_number text then Some (FNum text, rest) else None
  | EmptyString => None
  end.

(** [first] says whether an immediate closing brace is allowed. *)
Fixpoint parse_members (fuel : nat) (first : bool) (s : string) : option (list (string * flat) * string) :=
  match fuel with
  | O => None
  | S fuel' =>
      match skip_ws s with
      | String c s1 =>
          if first && (code_of c =? 125) then Some ([], s1)
          else if code_of c =? 34 then
            '(key, s2) ← unquote s1;
            match skip_ws s2 with
            | String col s3 =>
                if code_of col =? 58 then
                  '(v, s4) ← parse_value (skip_ws s3);
                  match skip_ws s4 with
                  | String e s5 =>
                      if code_of e =? 125 then Some ([(key, v)], s5)
                      else if code_of e =? 44 then
                        '(ms, s6) ← parse_members fuel' false s5;
                        Some ((key, v) :: ms, s6)
                      else None
                  | EmptyString => None
                  end
                else None
            | EmptyString => None
            end
          else None
      | EmptyString => None
      end
  end.

(** One top-level object, or null (which leaves the document as it is), then
    nothing but white space. *)
Definition decode_object (s : string) : option (list (string * flat)) :=
  match skip_ws s with
  | String c s1 =>
      if code_of c =? 123 then
        '(ms, rest) ← parse_members (String.length s) true s1;
        match skip_ws rest with EmptyString => Some ms | _ => None end
      else if code_of c =? 110 then
        '(v, rest) ← parse_value (String c s1);
        match skip_ws rest with EmptyString => Some [] | _ => None end
      else None
  | EmptyString => None
  end.

(** ** Fields *)

(** [foldName]: ASCII letters in upper case, and the two non-ASCII runes whose
    simple case folding is an ASCII letter (U+017F to S, U+212A to K). *)
Fixpoint fold_name (s : string) : string :=
  match s with
  | EmptyString => EmptyString
  | String c s1 =>
      let n := code_of c in
      if isLower c then String (chr (n - 32)) (fold_name s1)
      else
        match s1 with
        | String c2 s2 =>
            if (n =? 197) && (code_of c2 =? 191) then String (chr 83) (fold_name s2)
            else
              match s2 with
              | String c3 s3 =>
                  if (n =? 226) && (code_of c2 =? 132) && (code_of c3 =? 170)
                  then String (chr 75) (fold_name s3)
                  else String c (fold_name s1)
              | EmptyString => String c (fold_name s1)
              end
        | EmptyString => String c (fold_name s1)
        end
  end.

Definition field_is (name key : string) : bool := bool_decide (fold_name key = fold_name name).

(** Storing a value in a string field and in an unsigned field bounded by [max]. *)
Definition store_string (cur : string) (v : flat) : option string :=
  match v with FStr s => Some s | FNull => Some cur | FNum _ => None end.

Definition parse_uint (max : Z) (text : string) : option Z :=
  match NilZero.uint_of_string text with
  | Some d => let n := Z.of_N (N.of_uint d) in if n <=? max then Some n else None
  | None => None
  end.

Definition store_uint (max cur : Z) (v : flat) : option Z :=
  match v with FNum t => parse_uint max t | FNull => Some cur | FStr _ => None end.

(** Members are stored in order, so the last of several wins. *)
Fixpoint store_members {D} (store : D -> string -> flat -> option D) (doc : D)
    (ms : list (string * flat)) : option D :=
  match ms with
  | [] => Some doc
  | (k, v) :: ms' => doc' ← store doc k v; store_members store doc' ms'
  end.

Definition decode_document {D} (store : D -> string -> flat -> option D) (zero : D) (s : string) : option D :=
  ms ← decode_object s; store_members store zero ms.

(** ** Round trip of flat documents of safe strings and unsigned numbers *)

(** The characters of every validated identity are copied verbatim. *)
Lemma isInstanceChar_code c :
  isInstanceChar c = true ->
  45 <= code_of c <= 122 /\ code_of c <> 92 /\ code_of c <> 60 /\ code_of c <> 62.
Proof.
  unfold isInstanceChar, isNameChar, isAlnum, isLower, isUpper, isDigit, between.
  rewrite !orb_true_iff, !andb_true_iff, !Z.leb_le, !Z.eqb_eq. lia.
Qed.

Lemma isInstanceChar_html_safe c : isInstanceChar c = true -> html_safe c = true.
Proof.
  intros H%isInstanceChar_code. unfold html_safe.
  rewrite !andb_true_iff, !negb_true_iff, !Z.eqb_neq, Z.leb_le, Z.ltb_lt. lia.
Qed.

Lemma quote_body_safe s : all_chars isInstanceChar s = true -> quote_body s = s.
Proof.
  induction s as [| c s IH]; simpl; [done |]. rewrite andb_true_iff. intros [Hc Hs].
  by rewrite isInstanceChar_html_safe, IH.
Qed.

Lemma unquote_safe s rest :
  all_chars isInstanceChar s = true -> unquote (s +:+ String dquote rest) = Some (s, rest).
Proof.
  induction s as [| c s IH]; [done |].
  cbn [all_chars]. rewrite andb_true_iff. intros [Hc Hs]. rewrite sapp_cons.
  apply isInstanceChar_code in Hc. cbn [unquote].
  rewrite !(proj2 (Z.eqb_neq _ _)) by lia.
  rewrite (proj2 (Z.ltb_ge _ _)) by lia. rewrite (proj2 (Z.ltb_lt _ _)) by lia.
  by rewrite IH.
Qed.

Lemma string_of_uint_digits d : all_chars isDigit (NilEmpty.string_of_uint d) = true.
Proof. induction d; simpl; done. Qed.

Lemma dec_digits n : all_chars isDigit (dec n) = true.
Proof.
  unfold dec, NilZero.string_of_uint. destruct (N.to_uint _); try done; apply string_of_uint_digits.
Qed.

Lemma dec_uint n :
  0 <= n -> exists d, N.to_uint (Z.to_N n) = d /\ dec n = NilZero.string_of_uint d
    /\ Decimal.unorm d = d /\ Z.of_N (N.of_uint d) = n.
Proof.
  intros Hn. exists (N.to_uint (Z.to_N n)). split_and!; [done | done | |].
  - rewrite <- DecimalN.Unsigned.to_of, DecimalN.Unsigned.of_to. done.
  - rewrite DecimalN.Unsigned.of_to. lia.
Qed.

Lemma parse_uint_dec n max : 0 <= n <= max -> parse_uint max (dec n) = Some n.
Proof.
  intros Hn. destruct (dec_uint n ltac:(lia)) as (d & _ & -> & Hu & Hz).
  unfold parse_uint. rewrite NilZero.usu.
  - rewrite Hz. by rewrite (proj2 (Z.leb_le n max)) by lia.
  - intros ->. done.
Qed.

Lemma store_uint_nonneg max cur v n : 0 <= cur -> store_uint max cur v = Some n -> 0 <= n.
Proof.
  destruct v as [| t |]; cbn [store_uint]; [done | | congruence]. intros _. unfold parse_uint.
  destruct (NilZero.uint_of_string t) as [d |]; [| done]. destruct (_ <=? max); [| done]. intros [= <-]. lia.
Qed.

(** What every member keeps, the document has. *)
Lemma store_members_ind {D} (store : D -> string -> flat -> option D) (P : D -> Prop) ms :
  (forall doc k v doc', P doc -> store doc k v = Some doc' -> P doc') ->
  forall doc doc', P doc -> store_members store doc ms = Some doc' -> P doc'.
Proof.
  intros Hs. induction ms as [| [k v] ms IH]; intros doc doc' Hd; cbn [store_members]; [congruence |].
  destruct (store doc k v) as [d |] eqn:E; [| done]. cbn [mbind option_bind]. eauto.
Qed.

Lemma is_num_char_digit c : isDigit c = true -> is_num_char c = true.
Proof. unfold is_num_char. by intros ->. Qed.

Lemma span_num_digits s c rest :
  all_chars isDigit s = true -> is_num_char c = false ->
  span_num (s +:+ String c rest) = (s, String c rest).
Proof.
  intros Hs Hc. induction s as [| a s IH].
  - rewrite sapp_nil. cbn [span_num]. by rewrite Hc.
  - cbn [all_chars] in Hs. apply andb_true_iff in Hs as [Ha Hs].
    rewrite sapp_cons. cbn [span_num]. by rewrite is_num_char_digit, IH.
Qed.

Lemma drop_digits_all s : all_chars isDigit s = true -> drop_digits s = EmptyString.
Proof. induction s as [| c s IH]; simpl; [done |]. rewrite andb_true_iff. intros [-> H]. auto. Qed.

Lemma valid_number_dec n : 0 <= n -> valid_number (dec n) = true.
Proof.
  intros Hn. destruct (dec_uint n Hn) as (d & _ & -> & Hu & _).
  assert (Hd : d = Decimal.D0 Decimal.Nil \/ exists c s, NilZero.string_of_uint d = String c s
             /\ isDigit c = true /\ code_of c <> 48 /\ all_chars isDigit s = true).
  { unfold Decimal.unorm in Hu. destruct (Decimal.nzhead d) eqn:E; [by left | | right ..].
    { exfalso. eapply DecimalFacts.nzhead_nonzero. exact E. }
    all: subst d; eexists _, _; repeat split; [done |]; apply string_of_uint_digits. }
  destruct Hd as [-> | (c & s & Hs & Hc & Hnz & Hd)]; [done |].
  rewrite Hs. unfold valid_number, number_int, digits1. cbv beta iota zeta.
  assert (Hr : 48 <= code_of c <= 57).
  { revert Hc. unfold isDigit, between. rewrite andb_true_iff, !Z.leb_le. lia. }
  rewrite (proj2 (Z.eqb_neq (code_of c) 45)) by lia. cbv beta iota zeta.
  rewrite (proj2 (Z.eqb_neq (code_of c) 48)) by lia. by rewrite Hc, drop_digits_all.
Qed.

(** A member of a document the package writes and reads back. *)
Inductive scalar := SStr (s : string) | SNum (n : Z).

Definition scalar_json (v : scalar) : json := match v with SStr s => JStr s | SNum n => JNum n end.
Definition scalar_flat (v : scalar) : flat := match v with SStr s => FStr s | SNum n => FNum (dec n) end.
Definition scalar_safe (v : scalar) : Prop :=
  match v with SStr s => all_chars isInstanceChar s = true | SNum n => 0 <= n end.

Lemma quote_safe s : all_chars isInstanceChar s = true -> quote s = String dquote (s +:+ String dquote "").
Proof. intros H. unfold quote. by rewrite quote_body_safe. Qed.

Lemma skip_ws_quote s : skip_ws (String dquote s) = String dquote s.
Proof. done. Qed.

Lemma dec_skip_ws n rest : exists c s, dec n = String c s /\ isDigit c = true /\ skip_ws (dec n +:+ rest) = dec n +:+ rest.
Proof.
  pose proof (dec_digits n) as Hd.
  destruct (dec n) as [| c s] eqn:E.
  - exfalso. revert E. unfold dec, NilZero.string_of_uint. by destruct (N.to_uint _).
  - exists c, s. cbn [all_chars] in Hd. apply andb_true_iff in Hd as [Hc _]. split_and!; [done | done |].
    rewrite sapp_cons. cbn [skip_ws]. unfold is_ws.
    revert Hc. unfold isDigit, between. rewrite andb_true_iff, !Z.leb_le. intros Hc.
    by rewrite !(proj2 (Z.eqb_neq _ _)) by lia.
Qed.

Lemma parse_scalar v c rest :
  scalar_safe v -> is_num_char c = false ->
  parse_value (skip_ws (render (scalar_json v) +:+ String c rest)) = Some (scalar_flat v, String c rest).
Proof.
  intros Hv Hc. destruct v as [s | n]; cbn [scalar_json scalar_flat render scalar_safe] in *.
  - rewrite quote_safe by done. rewrite sapp_cons, skip_ws_quote, <- sapp_assoc, sapp_cons, sapp_nil.
    unfold parse_value. cbn -[unquote]. by rewrite unquote_safe.
  - rewrite (proj2 (Z.ltb_ge n 0)) by lia.
    destruct (dec_skip_ws n (String c rest)) as (d & s & Hds & Hd & ->).
    unfold parse_value.
    assert (Hr : 48 <= code_of d <= 57).
    { revert Hd. unfold isDigit, between. rewrite andb_true_iff, !Z.leb_le. lia. }
    pose proof (span_num_digits (dec n) c rest (dec_digits n) Hc) as Hs.
    rewrite Hds at 1. rewrite sapp_cons.
    rewrite !(proj2 (Z.eqb_neq _ _)) by lia.
    rewrite Hs. by rewrite valid_number_dec.
Qed.

Definition member_json (m : string * scalar) : string * json := (m.1, scalar_json m.2).
Definition member_flat (m : string * scalar) : string * flat := (m.1, scalar_flat m.2).
Definition member_safe (m : string * scalar) : Prop :=
  all_chars isInstanceChar m.1 = true /\ scalar_safe m.2.

Definition member_text (m : string * scalar) : string :=
  quote m.1 +:+ ":" +:+ render (scalar_json m.2).

Lemma skip_ws_char c s : is_ws c = false -> skip_ws (String c s) = String c s.
Proof. intros H. cbn [skip_ws]. by rewrite H. Qed.

Lemma parse_members_step fuel first k v e tail :
  all_chars isInstanceChar k = true -> scalar_safe v ->
  is_num_char e = false -> is_ws e = false ->
  parse_members (S fuel) first
    (String dquote (k +:+ String dquote (String (chr 58) (render (scalar_json v) +:+ String e tail))))
  = if code_of e =? 125 then Some ([(k, scalar_flat v)], tail)
    else if code_of e =? 44 then
      '(ms, s6) ← parse_members fuel false tail; Some ((k, scalar_flat v) :: ms, s6)
    else None.
Proof.
  intros Hk Hv Hn Hw. cbn [parse_members]. rewrite skip_ws_quote.
  change (code_of dquote =? 125) with false. change (code_of dquote =? 34) with true.
  rewrite andb_false_r, unquote_safe by done. cbn [mbind option_bind].
  rewrite skip_ws_char by done. change (code_of (chr 58) =? 58) with true.
  rewrite parse_scalar by done. cbn [mbind option_bind]. by rewrite skip_ws_char by done.
Qed.

Lemma member_text_app k v tail :
  all_chars isInstanceChar k = true ->
  member_text (k, v) +:+ tail
  = String dquote (k +:+ String dquote (String (chr 58) (render (scalar_json v) +:+ tail))).
Proof.
  intros Hk. unfold member_text. cbn [fst snd]. rewrite quote_safe by done.
  by rewrite !sapp_cons, <- !sapp_assoc.
Qed.

Lemma parse_members_safe ms first fuel rest :
  Forall member_safe ms -> ms <> [] -> (length ms <= fuel)%nat ->
  parse_members fuel first (commas (map member_text ms) +:+ String (chr 125) rest)
  = Some (map member_flat ms, rest).
Proof.
  intros Hms. revert first fuel. induction Hms as [| [k v] ms [Hk Hv] Hms IH]; [done |].
  intros first [| fuel] _ Hlen; cbn [length] in Hlen; [lia |].
  destruct ms as [| m ms].
  - cbn [map commas]. by rewrite member_text_app, parse_members_step.
  - change (commas (map member_text ((k, v) :: m :: ms)))
      with (member_text (k, v) +:+ (String (chr 44) "" +:+ commas (map member_text (m :: ms)))).
    rewrite <- !sapp_assoc, member_text_app, sapp_cons, sapp_nil by done.
    rewrite parse_members_step by done.
    change (code_of (chr 44) =? 125) with false. change (code_of (chr 44) =? 44) with true.
    by rewrite IH by (done || lia).
Qed.

Lemma commas_length ms : (length ms <= String.length (commas (map member_text ms)) + 1)%nat.
Proof.
  induction ms as [| m ms IH]; [simpl; lia |]. destruct ms as [| m' ms]; [simpl; lia |].
  change (commas (map member_text (m :: m' :: ms)))
    with (member_text m +:+ "," +:+ commas (map member_text (m' :: ms))).
  pose proof (slen_app (member_text m) ("," +:+ commas (map member_text (m' :: ms)))) as H1.
  pose proof (slen_app "," (commas (map member_text (m' :: ms)))) as H2.
  pose proof (slen_nonneg (member_text m)). unfold slen in *. cbn [length String.length] in *. lia.
Qed.

(** Rendering a non-empty flat document and decoding it gives its members back. *)
Lemma decode_object_render ms :
  Forall member_safe ms -> ms <> [] ->
  decode_object (render (JObj (map member_json ms))) = Some (map member_flat ms).
Proof.
  intros Hms Hne. cbn [render]. rewrite map_map.
  set (body := commas _). assert (Hb : body = commas (map member_text ms)) by done. clearbody body.
  rewrite sapp_cons, sapp_nil.
  assert (Hfuel : (length ms <= String.length (String (chr 123) (body +:+ "}")))%nat).
  { pose proof (commas_length ms) as H1. pose proof (slen_app body "}") as H2.
    change (slen "}") with 1 in H2. unfold slen in H2. rewrite <- Hb in H1.
    cbn [String.length]. lia. }
  unfold decode_object. rewrite skip_ws_char by done.
  change (code_of (chr 123) =? 123) with true.
  rewrite Hb at 2. change "}"%string with (String (chr 125) EmptyString).
  by rewrite parse_members_safe.
Qed.

(** The exact length of a rendered flat document. *)
Lemma slen_quote_safe s : all_chars isInstanceChar s = true -> slen (quote s) = slen s + 2.
Proof.
  intros H. rewrite quote_safe by done. rewrite slen_cons, slen_app.
  change (slen (String dquote "")) with 1. lia.
Qed.

Definition scalar_size (v : scalar) : Z :=
  match v with SStr s => slen s + 2 | SNum n => slen (dec n) end.

Fixpoint members_size (ms : list (string * scalar)) : Z :=
  match ms with
  | [] => 1
  | (k, v) :: ms' => slen k + 4 + scalar_size v + members_size ms'
  end.

Lemma slen_member_text k v : member_safe (k, v) -> slen (member_text (k, v)) = slen k + 3 + scalar_size v.
Proof.
  intros [Hk Hv]. unfold member_text. cbn [fst snd] in *. rewrite !slen_app, slen_quote_safe by done.
  change (slen ":") with 1.
  destruct v as [s | n]; cbn [scalar_json render scalar_size scalar_safe] in *.
  - rewrite slen_quote_safe by done. lia.
  - rewrite (proj2 (Z.ltb_ge n 0)) by lia. lia.
Qed.

Lemma slen_render_members ms :
  Forall member_safe ms -> ms <> [] -> slen (render (JObj (map member_json ms))) = members_size ms.
Proof.
  intros Hms Hne. cbn [render]. rewrite map_map.
  set (body := commas _). assert (Hb : body = commas (map member_text ms)) by done. clearbody body.
  rewrite sapp_cons, sapp_nil, slen_cons, slen_app. change (slen "}") with 1. subst body.
  enough (slen (commas (map member_text ms)) + 2 = members_size ms) by lia.
  induction Hms as [| [k v] ms Hm Hms IH]; [done |]. pose proof (slen_member_text k v Hm) as Hsz.
  destruct ms as [| m ms].
  - cbn [map commas members_size]. lia.
  - change (commas (map member_text ((k, v) :: m :: ms)))
      with (member_text (k, v) +:+ ("," +:+ commas (map member_text (m :: ms)))).
    rewrite !slen_app. change (slen ",") with 1.
    cbn [members_size] in *. specialize (IH ltac:(done)). lia.
Qed.

(** A number below [2^32] is written with at most 33 digits (a coarse bound, enough
    for every dispatch document). *)
Lemma double_digits d :
  (Decimal.nb_digits (Decimal.Little.double d) <= S (Decimal.nb_digits d))%nat /\ (Decimal.nb_digits (Decimal.Little.succ_double d) <= S (Decimal.nb_digits d))%nat.
Proof. induction d; cbn [Decimal.Little.double Decimal.Little.succ_double Decimal.nb_digits]; lia. Qed.

Lemma little_digits p : (Decimal.nb_digits (Pos.to_little_uint p) <= Pos.size_nat p)%nat.
Proof.
  induction p as [p IH | p IH |]; cbn [Pos.to_little_uint Pos.size_nat]; [| | done].
  - pose proof (double_digits (Pos.to_little_uint p)). lia.
  - pose proof (double_digits (Pos.to_little_uint p)). lia.
Qed.

Lemma string_of_uint_digits_length d : (String.length (NilEmpty.string_of_uint d) = Decimal.nb_digits d)%nat.
Proof. induction d; cbn [NilEmpty.string_of_uint String.length Decimal.nb_digits]; congruence. Qed.

Lemma slen_dec n : 0 <= n < 2 ^ 32 -> slen (dec n) <= 33.
Proof.
  intros Hn. unfold dec, slen. destruct (Z.to_N n) as [| p] eqn:E; [cbn; lia |].
  assert (Hp : (p < 2 ^ 32)%positive) by lia. apply Pos.size_nat_monotone in Hp.
  change (Pos.size_nat (2 ^ 32)) with 33%nat in Hp.
  assert (Hd : (Decimal.nb_digits (Pos.to_uint p) <= 33)%nat).
  { unfold Pos.to_uint. rewrite DecimalFacts.nb_digits_rev. pose proof (little_digits p). lia. }
  unfold NilZero.string_of_uint. cbn [N.to_uint]. destruct (Pos.to_uint p) eqn:Eu; [cbn; lia | ..];
    rewrite <- Eu, string_of_uint_digits_length, Eu; lia.
Qed.
