(* ===== verification/Definitions.v ===== *)
(** * Workflow definitions (definition.go, and the reference of history.go)

    A definition is a validated list of steps with a fingerprint, the SHA-256
    of its Go JSON text. *)
From S2P Require Import Prelude Names Sha256 Json.

Definition MaxPayloadBytes : Z := 16777216.
Definition MaxFanOut : Z := 10000.

(** ** Data *)

(** Each enumeration is a [uint8]; the last constructor stands for its zero
    value and every undeclared value, which the code never tells apart. *)
Inductive ExecutionMode := Orchestration | Choreography | ExecutionModeUndeclared.

Inductive StepKind :=
  | StepActivity | StepSignal | StepTimer | StepChild
  | StepParallel | StepJoin | StepRace | StepApproval
  | StepKindUndeclared.

#[export] Instance ExecutionMode_eq_dec : EqDecision ExecutionMode.
Proof. solve_decision. Defined.
#[export] Instance StepKind_eq_dec : EqDecision StepKind.
Proof. solve_decision. Defined.

Definition ExecutionMode_code (mode : ExecutionMode) : Z :=
  match mode with Orchestration => 1 | Choreography => 2 | ExecutionModeUndeclared => 0 end.

Definition StepKind_code (kind : StepKind) : Z :=
  match kind with
  | StepActivity => 1 | StepSignal => 2 | StepTimer => 3 | StepChild => 4
  | StepParallel => 5 | StepJoin => 6 | StepRace => 7 | StepApproval => 8
  | StepKindUndeclared => 0
  end.

Record RetryPolicy := mkRetryPolicy {
  MaxAttempts : Z;      (** uint32 *)
  InitialDelay : Z;     (** time.Duration *)
  MaxDelay : Z          (** time.Duration *)
}.

Record CompensationSpec := mkCompensationSpec {
  cs_Target : string;
  cs_Timeout : Z;
  cs_ResultLimit : Z;
  cs_Retry : RetryPolicy
}.

Record DefinitionReference := mkDefinitionReference {
  ref_name : string;
  ref_version : string;
  ref_fingerprint : string
}.

#[export] Instance RetryPolicy_eq_dec : EqDecision RetryPolicy.
Proof. solve_decision. Defined.
#[export] Instance DefinitionReference_eq_dec : EqDecision DefinitionReference.
Proof. solve_decision. Defined.

(** [DefinitionReference{}] *)
Definition zeroReference : DefinitionReference := mkDefinitionReference "" "" "".

Record StepSpec := mkStepSpec {
  step_Name : string;
  step_Kind : StepKind;
  step_Target : string;
  step_ChildDefinition : DefinitionReference;
  step_Branches : list string;
  step_Timeout : Z;
  step_InputLimit : Z;
  step_ResultLimit : Z;
  step_Retry : RetryPolicy;
  step_FanOutLimit : Z;
  step_Compensation : option CompensationSpec
}.

(** [StepSpec{}] *)
Definition zeroStep : StepSpec :=
  mkStepSpec "" StepKindUndeclared "" zeroReference [] 0 0 0 (mkRetryPolicy 0 0 0) 0 None.

Record DefinitionSpec := mkDefinitionSpec {
  ds_Name : string;
  ds_Version : string;
  ds_Mode : ExecutionMode;
  ds_Deprecated : bool;
  ds_Steps : list StepSpec
}.

Record Definition_ := mkDefinition {
  def_spec : DefinitionSpec;
  def_fingerprint : string
}.

(** [Definition{}] *)
Definition zeroDefinition : Definition_ :=
  mkDefinition (mkDefinitionSpec "" "" ExecutionModeUndeclared false []) "".

Definition def_Name (definition : Definition_) : string := ds_Name (def_spec definition).
Definition def_Version (definition : Definition_) : string := ds_Version (def_spec definition).
Definition def_Mode (definition : Definition_) : ExecutionMode := ds_Mode (def_spec definition).

(** [Definition.Reference] *)
Definition Reference (definition : Definition_) : DefinitionReference :=
  mkDefinitionReference (def_Name definition) (def_Version definition) (def_fingerprint definition).

(** [DefinitionReference.valid] *)
Definition reference_valid (reference : DefinitionReference) : bool :=
  stableName (ref_name reference) && stableName (ref_version reference)
  && fingerprintPattern (ref_fingerprint reference).

Definition NewDefinitionReference (name version fingerprint : string) : result DefinitionReference :=
  let reference := mkDefinitionReference name version fingerprint in
  reject negb (reference_valid reference) with ErrInvalidDefinitionReference;
  Ok reference.

(** Deep copies; an empty branch slice becomes nil, which is [[]] here too. *)
Definition cloneStep (step : StepSpec) : StepSpec :=
  mkStepSpec (step_Name step) (step_Kind step) (step_Target step) (step_ChildDefinition step)
    (step_Branches step) (step_Timeout step) (step_InputLimit step) (step_ResultLimit step)
    (step_Retry step) (step_FanOutLimit step)
    (match step_Compensation step with Some c => Some c | None => None end).

Definition cloneSteps (steps : list StepSpec) : list StepSpec := map cloneStep steps.

Definition cloneDefinitionSpec (spec : DefinitionSpec) : DefinitionSpec :=
  mkDefinitionSpec (ds_Name spec) (ds_Version spec) (ds_Mode spec) (ds_Deprecated spec)
    (cloneSteps (ds_Steps spec)).

(** [Definition.Steps] *)
Definition Steps (definition : Definition_) : list StepSpec := cloneSteps (ds_Steps (def_spec definition)).

(** ** Validation *)

Definition invalidDefinition (field : string) : GoError := ErrInvalidDefinition field.

Definition validPayloadLimit (limit : Z) : bool := (0 <? limit) && (limit <=? MaxPayloadBytes).

Definition validRetry (policy : RetryPolicy) : bool :=
  (0 <? MaxAttempts policy) && (0 <? InitialDelay policy) && (InitialDelay policy <=? MaxDelay policy).

Fixpoint validBranchNames_from (seen : gset string) (branches : list string) : bool :=
  match branches with
  | [] => true
  | branch :: rest =>
      if negb (stableName branch) then false
      else if bool_decide (branch ∈ seen) then false
      else validBranchNames_from ({[branch]} ∪ seen) rest
  end.

Definition validBranchNames (branches : list string) : bool := validBranchNames_from ∅ branches.

Definition is_control (kind : StepKind) : bool :=
  match kind with StepParallel | StepJoin | StepRace => true | _ => false end.

(** The [switch step.Kind] of validateStep. *)
Definition validateStepKind (step : StepSpec) : result unit :=
  match step_Kind step with
  | StepActivity =>
      reject negb (stableName (step_Target step)) || (step_Timeout step <=? 0)
        || negb (validPayloadLimit (step_InputLimit step)) || negb (validPayloadLimit (step_ResultLimit step))
        || negb (validRetry (step_Retry step)) with invalidDefinition "step.activity";
      Ok tt
  | StepChild =>
      reject negb (stableName (step_Target step)) with invalidDefinition "step.child";
      reject negb (reference_valid (step_ChildDefinition step)) with invalidDefinition "step.child";
      reject negb (bool_decide (ref_name (step_ChildDefinition step) = step_Target step))
        || (step_Timeout step <=? 0)
        || negb (validPayloadLimit (step_InputLimit step)) || negb (validPayloadLimit (step_ResultLimit step))
        || negb (validRetry (step_Retry step)) with invalidDefinition "step.child";
      Ok tt
  | StepSignal | StepApproval =>
      reject negb (stableName (step_Target step)) || (step_Timeout step <=? 0)
        || negb (validPayloadLimit (step_InputLimit step)) with invalidDefinition "step.wait";
      Ok tt
  | StepTimer =>
      reject step_Timeout step <=? 0 with invalidDefinition "step.timer";
      Ok tt
  | StepParallel | StepJoin | StepRace =>
      reject (step_FanOutLimit step =? 0) || (MaxFanOut <? step_FanOutLimit step)
        || (Z.of_nat (length (step_Branches step)) =? 0)
        || (step_FanOutLimit step <? Z.of_nat (length (step_Branches step)))
        || negb (validBranchNames (step_Branches step)) with invalidDefinition "step.fan_out";
      Ok tt
  | StepKindUndeclared => Err (invalidDefinition "step.kind")
  end.

Definition validateStep (step : StepSpec) : result unit :=
  _ ← validateStepKind step;
  reject negb (is_control (step_Kind step)) && negb (Z.of_nat (length (step_Branches step)) =? 0)
    with invalidDefinition "step.branches";
  reject negb (bool_decide (step_Kind step = StepChild))
    && negb (bool_decide (step_ChildDefinition step = zeroReference))
    with invalidDefinition "step.child_definition";
  match step_Compensation step with
  | None => Ok tt
  | Some compensation =>
      reject negb (bool_decide (step_Kind step = StepActivity)) || negb (stableName (cs_Target compensation))
        || (cs_Timeout compensation <=? 0) || negb (validPayloadLimit (cs_ResultLimit compensation))
        || negb (validRetry (cs_Retry compensation)) with invalidDefinition "step.compensation";
      Ok tt
  end.

(** The first loop of validateDefinition: [names] maps each step to its kind. *)
Fixpoint collectNames (names : gmap string StepKind) (steps : list StepSpec) : result (gmap string StepKind) :=
  match steps with
  | [] => Ok names
  | step :: rest =>
      reject negb (stableName (step_Name step)) with invalidDefinition "step.name";
      reject bool_decide (is_Some (names !! step_Name step)) with invalidDefinition "step.name";
      _ ← validateStep step;
      collectNames (<[step_Name step := step_Kind step]> names) rest
  end.

Fixpoint checkBranches (names : gmap string StepKind) (self : string) (branches : list string) : result unit :=
  match branches with
  | [] => Ok tt
  | branch :: rest =>
      match names !! branch with
      | None => Err (invalidDefinition "step.branch")
      | Some kind =>
          reject bool_decide (branch = self) with invalidDefinition "step.branch";
          reject is_control kind with invalidDefinition "step.branch";
          checkBranches names self rest
      end
  end.

Fixpoint checkAllBranches (names : gmap string StepKind) (steps : list StepSpec) : result unit :=
  match steps with
  | [] => Ok tt
  | step :: rest =>
      _ ← checkBranches names (step_Name step) (step_Branches step);
      checkAllBranches names rest
  end.

(** ** Orchestration control flow *)

(** The three maps of validateOrchestrationControlFlow. *)
Record ControlFlow := mkControlFlow {
  owners : gmap string string;
  branchCounts : gmap string Z;
  joined : gset string
}.

(** Kinds a branch of a parallel or race control may have. *)
Definition branch_kind_ok (control kind : StepKind) : bool :=
  match control, kind with
  | StepParallel, StepActivity => true
  | StepRace, (StepSignal | StepApproval) => true
  | _, _ => false
  end.

Fixpoint claimBranches (control : StepKind) (field name : string) (kinds : gmap string StepKind)
    (owned : gmap string string) (branches : list string) : result (gmap string string) :=
  match branches with
  | [] => Ok owned
  | branch :: rest =>
      reject negb (branch_kind_ok control (default StepKindUndeclared (kinds !! branch)))
        with invalidDefinition field;
      reject bool_decide (is_Some (owned !! branch)) with invalidDefinition "step.branch_owner";
      claimBranches control field name kinds (<[branch := name]> owned) rest
  end.

Definition controlStep (kinds : gmap string StepKind) (flow : ControlFlow) (step : StepSpec) : result ControlFlow :=
  match step_Kind step with
  | StepParallel =>
      owned ← claimBranches StepParallel "step.parallel_branch" (step_Name step) kinds (owners flow) (step_Branches step);
      Ok (mkControlFlow owned
            (<[step_Name step := Z.of_nat (length (step_Branches step))]> (branchCounts flow)) (joined flow))
  | StepRace =>
      owned ← claimBranches StepRace "step.race_branch" (step_Name step) kinds (owners flow) (step_Branches step);
      Ok (mkControlFlow owned (branchCounts flow) (joined flow))
  | StepJoin =>
      match step_Branches step with
      | [] => Err Panic
      | first :: others =>
          match owners flow !! first with
          | None => Err (invalidDefinition "step.join")
          | Some owner =>
              reject negb (default 0 (branchCounts flow !! owner) =? Z.of_nat (length (step_Branches step)))
                with invalidDefinition "step.join";
              reject bool_decide (owner ∈ joined flow) with invalidDefinition "step.join";
              reject negb (forallb (fun branch => bool_decide (default "" (owners flow !! branch) = owner)) others)
                with invalidDefinition "step.join";
              Ok (mkControlFlow (owners flow) (branchCounts flow) ({[owner]} ∪ joined flow))
          end
      end
  | _ => Ok flow
  end.

Fixpoint controlSteps (kinds : gmap string StepKind) (flow : ControlFlow) (steps : list StepSpec) : result ControlFlow :=
  match steps with
  | [] => Ok flow
  | step :: rest => flow' ← controlStep kinds flow step; controlSteps kinds flow' rest
  end.

Definition validateOrchestrationControlFlow (steps : list StepSpec) (kinds : gmap string StepKind) : result unit :=
  _ ← controlSteps kinds (mkControlFlow ∅ ∅ ∅) steps; Ok tt.

Definition validateDefinition (spec : DefinitionSpec) : result unit :=
  reject negb (stableName (ds_Name spec)) with invalidDefinition "name";
  reject negb (stableName (ds_Version spec)) with invalidDefinition "version";
  reject negb (bool_decide (ds_Mode spec = Orchestration)) && negb (bool_decide (ds_Mode spec = Choreography))
    with invalidDefinition "mode";
  reject (Z.of_nat (length (ds_Steps spec)) =? 0) || (MaxFanOut <? Z.of_nat (length (ds_Steps spec)))
    with invalidDefinition "steps";
  names ← collectNames ∅ (ds_Steps spec);
  _ ← checkAllBranches names (ds_Steps spec);
  if bool_decide (ds_Mode spec = Orchestration)
  then validateOrchestrationControlFlow (ds_Steps spec) names
  else Ok tt.

(** ** The fingerprint document

    encoding/json writes the exported fields only: [DefinitionReference] has
    none, so a child pin is written as the empty object. *)

Definition retry_json (policy : RetryPolicy) : json :=
  JObj [("MaxAttempts", JNum (MaxAttempts policy)); ("InitialDelay", JNum (InitialDelay policy));
        ("MaxDelay", JNum (MaxDelay policy))].

Definition compensation_json (c : CompensationSpec) : json :=
  JObj [("Target", JStr (cs_Target c)); ("Timeout", JNum (cs_Timeout c));
        ("ResultLimit", JNum (cs_ResultLimit c)); ("Retry", retry_json (cs_Retry c))].

Definition reference_json (reference : DefinitionReference) : json := JObj [].

Definition strings_json (l : list string) : json :=
  match l with [] => JNull | _ => JArr (map JStr l) end.

Definition step_json (step : StepSpec) : json :=
  JObj [("Name", JStr (step_Name step)); ("Kind", JNum (StepKind_code (step_Kind step)));
        ("Target", JStr (step_Target step)); ("ChildDefinition", reference_json (step_ChildDefinition step));
        ("Branches", strings_json (step_Branches step)); ("Timeout", JNum (step_Timeout step));
        ("InputLimit", JNum (step_InputLimit step)); ("ResultLimit", JNum (step_ResultLimit step));
        ("Retry", retry_json (step_Retry step)); ("FanOutLimit", JNum (step_FanOutLimit step));
        ("Compensation", match step_Compensation step with Some c => compensation_json c | None => JNull end)].

Definition definition_json (spec : DefinitionSpec) : json :=
  JObj [("Name", JStr (ds_Name spec)); ("Version", JStr (ds_Version spec));
        ("Mode", JNum (ExecutionMode_code (ds_Mode spec))); ("Deprecated", JBool (ds_Deprecated spec));
        ("Steps", match ds_Steps spec with [] => JNull | l => JArr (map step_json l) end)].

Definition NewDefinition (spec : DefinitionSpec) : result Definition_ :=
  let owned := cloneDefinitionSpec spec in
  _ ← validateDefinition owned;
  Ok (mkDefinition owned (sha256_hex (render (definition_json owned)))).

(** ** Cloning is the identity on values *)

Lemma cloneStep_id step : cloneStep step = step.
Proof. destruct step as [? ? ? ? ? ? ? ? ? ? []]; done. Qed.

Lemma cloneSteps_id steps : cloneSteps steps = steps.
Proof. unfold cloneSteps. induction steps as [| s l IH]; simpl; [done |]. by rewrite cloneStep_id, IH. Qed.

Lemma cloneDefinitionSpec_id spec : cloneDefinitionSpec spec = spec.
Proof. destruct spec. unfold cloneDefinitionSpec. simpl. by rewrite cloneSteps_id. Qed.

Lemma Steps_spec d : Steps d = ds_Steps (def_spec d).
Proof. apply cloneSteps_id. Qed.

(** ** What validation establishes *)

Definition control_kind (kind : StepKind) : Prop := is_control kind = true.

(** The structure of the steps: unique names, each step valid on its own, and
    branches that name another, non-control step. *)
Record steps_wf (steps : list StepSpec) : Prop := {
  wf_nonempty : steps <> [];
  wf_names : NoDup (map step_Name steps);
  wf_stable : Forall (fun s => stableName (step_Name s) = true) steps;
  wf_steps : Forall (fun s => validateStep s = Ok tt) steps;
  wf_branches : forall s b, s ∈ steps -> b ∈ step_Branches s ->
    b <> step_Name s /\ exists s', s' ∈ steps /\ step_Name s' = b /\ is_control (step_Kind s') = false
}.

Lemma collectNames_ok steps names names' :
  collectNames names steps = Ok names' ->
  NoDup (map step_Name steps)
  /\ Forall (fun s => stableName (step_Name s) = true) steps
  /\ Forall (fun s => validateStep s = Ok tt) steps
  /\ (forall s, s ∈ steps -> names !! step_Name s = None)
  /\ (forall n k, names' !! n = Some k <->
        names !! n = Some k \/ exists s, s ∈ steps /\ step_Name s = n /\ step_Kind s = k).
Proof.
  revert names. induction steps as [| step steps IH]; cbn [collectNames]; intros names H.
  { injection H as <-. split_and!; [constructor .. | |]; intros *; rewrite ?elem_of_nil; [done |].
    split; [auto |]. intros [Hk | (s & Hs & _)]; [done |]. by apply elem_of_nil in Hs. }
  destruct (stableName (step_Name step)) eqn:Hs; [| done]. cbn [negb] in H.
  case_bool_decide as Hn; [done |]. apply eq_None_not_Some in Hn.
  destruct (validateStep step) as [[] |] eqn:Hv; [| done]. cbn [mbind result_bind] in H.
  apply IH in H as (Hnd & Hst & Hvs & Hfresh & Hlook). cbn [map].
  assert (Hne : forall s, s ∈ steps -> step_Name s <> step_Name step).
  { intros s Hin He. specialize (Hfresh s Hin). rewrite He, lookup_insert_eq in Hfresh. done. }
  split_and!; [| by constructor .. | |].
  - constructor; [| done]. intros (s & He & Hin)%list_elem_of_fmap. by apply (Hne s).
  - intros s [-> | Hin]%elem_of_cons; [done |].
    specialize (Hfresh s Hin). rewrite lookup_insert_ne in Hfresh; [done |]. by apply not_eq_sym, Hne.
  - intros n k. rewrite Hlook, lookup_insert_Some. setoid_rewrite elem_of_cons. split.
    + intros [[[<- <-] | [_ ?]] | (s & ? & ? & ?)]; eauto 7.
    + intros [Hk | (s & [-> | Hin] & <- & <-)]; eauto 7.
      left. right. split; [| done]. intros <-. congruence.
Qed.

Lemma checkBranches_ok names self branches :
  checkBranches names self branches = Ok tt ->
  Forall (fun b => b <> self /\ exists k, names !! b = Some k /\ is_control k = false) branches.
Proof.
  induction branches as [| b l IH]; cbn [checkBranches]; [constructor |].
  destruct (names !! b) as [k |] eqn:E; [| done].
  case_bool_decide as Hne; [done |]. destruct (is_control k) eqn:Ek; [done |].
  intros H%IH. constructor; eauto.
Qed.

Lemma checkAllBranches_ok names steps :
  checkAllBranches names steps = Ok tt ->
  Forall (fun s => checkBranches names (step_Name s) (step_Branches s) = Ok tt) steps.
Proof.
  induction steps as [| s l IH]; cbn [checkAllBranches]; [constructor |].
  destruct (checkBranches _ _ _) as [[] |] eqn:E; [| done]. intros H%IH. by constructor.
Qed.

(** The parts of a successful validation. *)
Lemma validateDefinition_inv spec :
  validateDefinition spec = Ok tt ->
  stableName (ds_Name spec) = true /\ stableName (ds_Version spec) = true
  /\ (ds_Mode spec = Orchestration \/ ds_Mode spec = Choreography)
  /\ 1 <= Z.of_nat (length (ds_Steps spec)) <= MaxFanOut
  /\ exists names, collectNames ∅ (ds_Steps spec) = Ok names
     /\ checkAllBranches names (ds_Steps spec) = Ok tt
     /\ (ds_Mode spec = Orchestration -> validateOrchestrationControlFlow (ds_Steps spec) names = Ok tt).
Proof.
  unfold validateDefinition. intros H.
  destruct (stableName (ds_Name spec)); [| done]. destruct (stableName (ds_Version spec)); [| done].
  destruct (negb (bool_decide (ds_Mode spec = Orchestration))
            && negb (bool_decide (ds_Mode spec = Choreography))) eqn:Hm; [done |].
  destruct ((Z.of_nat (length (ds_Steps spec)) =? 0) || _) eqn:Hl; [done |]. cbn [negb] in H.
  destruct (collectNames ∅ (ds_Steps spec)) as [names |] eqn:Hn; [| done].
  cbn [mbind result_bind] in H.
  destruct (checkAllBranches names _) as [[] |] eqn:Hb; [| done]. cbn [mbind result_bind] in H.
  bool_norm. split_and!; [done | done | | lia | lia |].
  - destruct Hm as [Hm | Hm]; bool_norm; auto.
  - exists names. split_and!; [done | done |]. intros Hmode. by rewrite bool_decide_eq_true_2 in H.
Qed.

Lemma validateDefinition_wf spec : validateDefinition spec = Ok tt -> steps_wf (ds_Steps spec).
Proof.
  intros (_ & _ & _ & Hl & names & Hn & Hb & _)%validateDefinition_inv.
  apply collectNames_ok in Hn as (Hnd & Hst & Hvs & _ & Hlook).
  apply checkAllBranches_ok in Hb. rewrite Forall_forall in Hb.
  split; [| done .. |].
  - intros He. rewrite He in Hl. simpl in Hl. lia.
  - intros s b Hs Hbin. specialize (Hb s Hs). apply checkBranches_ok in Hb.
    rewrite Forall_forall in Hb. destruct (Hb b Hbin) as (Hne & k & Hk & Hc).
    split; [done |]. apply Hlook in Hk as [Hk | (s' & Hin & <- & <-)]; [| eauto].
    by rewrite lookup_empty in Hk.
Qed.

(** A constructed definition is its validated specification with the digest of its text. *)
Lemma NewDefinition_inv spec d :
  NewDefinition spec = Ok d ->
  validateDefinition spec = Ok tt /\ d = mkDefinition spec (sha256_hex (render (definition_json spec))).
Proof.
  unfold NewDefinition. rewrite cloneDefinitionSpec_id.
  destruct (validateDefinition spec) as [[] |]; [| done]. by intros [= <-].
Qed.

(** ** Control flow: a join waits for exactly the branches of one earlier parallel *)

Lemma claimBranches_ok control field name kinds owned branches owned' :
  claimBranches control field name kinds owned branches = Ok owned' ->
  (forall b, b ∈ branches -> owned' !! b = Some name /\ owned !! b = None
     /\ exists k, kinds !! b = Some k /\ branch_kind_ok control k = true)
  /\ (forall b o, owned' !! b = Some o -> owned !! b = Some o \/ (o = name /\ b ∈ branches))
  /\ (forall b o, owned !! b = Some o -> owned' !! b = Some o).
Proof.
  revert owned. induction branches as [| b0 branches IH]; cbn [claimBranches]; intros owned H.
  { injection H as <-. split_and!; [by intros ? ?%elem_of_nil | by auto | done]. }
  destruct (branch_kind_ok control (default StepKindUndeclared (kinds !! b0))) eqn:Hk; [| done].
  cbn [negb] in H. case_bool_decide as Ho; [done |]. apply eq_None_not_Some in Ho.
  apply IH in H as (H1 & H2 & H3). split_and!.
  - intros b Hb. destruct (decide (b = b0)) as [-> | Hne].
    + split_and!; [apply H3, lookup_insert_eq | done |].
      destruct (kinds !! b0) as [k |]; [by exists k | by destruct control].
    + apply elem_of_cons in Hb as [? | Hb]; [done |]. destruct (H1 b Hb) as (? & Hn & ?).
      rewrite lookup_insert_ne in Hn by done. done.
  - intros b o Hb. apply H2 in Hb as [Hb | [-> Hb]]; [| right; split; [done |]; by right].
    apply lookup_insert_Some in Hb as [[<- <-] | [_ Hb]]; [right; split; [done |]; by left | by left].
  - intros b o Hb. apply H3. rewrite lookup_insert_ne; [done |]. intros ->. congruence.
Qed.

Record flow_inv (kinds : gmap string StepKind) (pre : list StepSpec) (flow : ControlFlow) : Prop := {
  flow_owner : forall b o, owners flow !! b = Some o ->
    exists s, s ∈ pre /\ step_Name s = o /\ b ∈ step_Branches s;
  flow_count : forall o n, branchCounts flow !! o = Some n ->
    exists s, s ∈ pre /\ step_Name s = o /\ step_Kind s = StepParallel
      /\ n = Z.of_nat (length (step_Branches s))
}.

Lemma flow_inv_mono kinds pre s flow : flow_inv kinds pre flow -> flow_inv kinds (pre ++ [s]) flow.
Proof.
  intros [H1 H2]. split.
  - intros b o Hb. destruct (H1 b o Hb) as (t & ? & ?). exists t. rewrite elem_of_app. auto.
  - intros o n Hn. destruct (H2 o n Hn) as (t & ? & ?). exists t. rewrite elem_of_app. auto.
Qed.

Lemma controlStep_inv kinds pre flow step flow' :
  flow_inv kinds pre flow -> controlStep kinds flow step = Ok flow' -> flow_inv kinds (pre ++ [step]) flow'.
Proof.
  intros Hinv H. unfold controlStep in H.
  assert (Hin : step ∈ pre ++ [step]) by (rewrite elem_of_app, list_elem_of_singleton; auto).
  assert (Hclaim : forall control field owned', claimBranches control field (step_Name step) kinds (owners flow)
      (step_Branches step) = Ok owned' -> forall b o, owned' !! b = Some o ->
      exists s, s ∈ pre ++ [step] /\ step_Name s = o /\ b ∈ step_Branches s).
  { intros control field owned' Hc b o Hb. apply claimBranches_ok in Hc as (_ & H2 & _).
    apply H2 in Hb as [Hb | [-> Hb]]; [| by exists step].
    by apply (flow_owner _ _ _ (flow_inv_mono _ _ _ _ Hinv)). }
  destruct (step_Kind step) eqn:Hk; try (injection H as <-; by apply flow_inv_mono).
  - destruct (claimBranches _ _ _ _ _ _) as [owned' |] eqn:Hc; [| done]. injection H as <-. split; cbn [owners branchCounts].
    + by apply (Hclaim StepParallel "step.parallel_branch").
    + intros o n [[<- <-] | [_ Hn]]%lookup_insert_Some; [by exists step |].
      by apply (flow_count _ _ _ (flow_inv_mono _ _ _ _ Hinv)).
  - destruct (step_Branches step) as [| b0 rest]; [done |].
    destruct (owners flow !! b0) as [o |]; [| done].
    repeat match type of H with (if ?c then _ else _) = _ => destruct c; [done |] end.
    injection H as <-. apply (flow_inv_mono kinds pre step) in Hinv. by destruct Hinv.
  - destruct (claimBranches _ _ _ _ _ _) as [owned' |] eqn:Hc; [| done]. injection H as <-. split; cbn [owners branchCounts].
    + by apply (Hclaim StepRace "step.race_branch").
    + apply (flow_count _ _ _ (flow_inv_mono _ _ _ _ Hinv)).
Qed.

Lemma controlSteps_split kinds flow pre step post flow' :
  controlSteps kinds flow (pre ++ step :: post) = Ok flow' ->
  exists mid mid', controlSteps kinds flow pre = Ok mid /\ controlStep kinds mid step = Ok mid'.
Proof.
  revert flow. induction pre as [| s pre IH]; cbn [controlSteps app]; intros flow H.
  - destruct (controlStep kinds flow step) as [mid |] eqn:E; [| done]. eauto.
  - destruct (controlStep kinds flow s) as [mid |] eqn:E; [| done]. cbn [mbind result_bind] in *. by apply IH.
Qed.

Lemma controlSteps_inv kinds steps : forall pre flow flow',
  flow_inv kinds pre flow -> controlSteps kinds flow steps = Ok flow' -> flow_inv kinds (pre ++ steps) flow'.
Proof.
  induction steps as [| s steps IH]; cbn [controlSteps]; intros pre flow flow' Hinv H.
  - injection H as <-. by rewrite app_nil_r.
  - destruct (controlStep kinds flow s) as [mid |] eqn:E; [| done]. cbn [mbind result_bind] in H.
    change (s :: steps) with ([s] ++ steps). rewrite app_assoc.
    eapply IH; [by eapply controlStep_inv | done].
Qed.

Lemma flow_inv_empty kinds : flow_inv kinds [] (mkControlFlow ∅ ∅ ∅).
Proof. split; cbn [owners branchCounts]; intros ? ? H; by rewrite lookup_empty in H. Qed.

Lemma validBranchNames_NoDup branches : validBranchNames branches = true -> NoDup branches.
Proof.
  unfold validBranchNames. assert (H : forall l seen, validBranchNames_from seen l = true ->
    NoDup l /\ forall b, b ∈ l -> b ∉ seen).
  { intros l. induction l as [| b l IH]; cbn [validBranchNames_from]; intros seen Hl.
    { split; [constructor |]. by intros ? ?%elem_of_nil. }
    destruct (stableName b); [| done]. cbn [negb] in Hl. case_bool_decide as Hb; [done |].
    apply IH in Hl as [Hnd Hfresh]. split.
    - constructor; [| done]. intros Hin. by apply (Hfresh b Hin), elem_of_union_l, elem_of_singleton.
    - intros b' [-> | Hin]%elem_of_cons; [done |]. specialize (Hfresh b' Hin). set_solver. }
  intros Hv. by apply (H branches ∅).
Qed.

Lemma validateStep_control step :
  validateStep step = Ok tt -> is_control (step_Kind step) = true ->
  validBranchNames (step_Branches step) = true
  /\ 1 <= Z.of_nat (length (step_Branches step)) <= step_FanOutLimit step
  /\ step_FanOutLimit step <= MaxFanOut.
Proof.
  unfold validateStep, validateStepKind. intros H Hc.
  destruct (step_Kind step) eqn:Hk; try done;
    destruct ((step_FanOutLimit step =? 0) || _ || _ || _ || _) eqn:E; try done;
    bool_norm; split_and!; (done || lia).
Qed.

(** ** A join waits for one earlier parallel step *)

(** Names are unique and every step is valid on its own. *)
Record steps_local (steps : list StepSpec) : Prop := {
  local_names : NoDup (map step_Name steps);
  local_stable : forall s, s ∈ steps -> stableName (step_Name s) = true;
  local_valid : forall s, s ∈ steps -> validateStep s = Ok tt
}.

Lemma steps_wf_local steps sub : steps_wf steps -> sublist sub steps -> steps_local sub.
Proof.
  intros [_ Hnd Hst Hv _] Hsub. rewrite Forall_forall in Hst, Hv. split.
  - eapply sublist_NoDup; [exact Hnd |]. by apply fmap_sublist.
  - intros s Hs. by eapply Hst, elem_of_sublist.
  - intros s Hs. by eapply Hv, elem_of_sublist.
Qed.

Lemma controlStep_join kinds pre flow step flow' :
  steps_local (pre ++ [step]) -> flow_inv kinds pre flow ->
  controlStep kinds flow step = Ok flow' -> step_Kind step = StepJoin ->
  exists par, par ∈ pre /\ step_Kind par = StepParallel
    /\ Permutation (step_Branches step) (step_Branches par).
Proof.
  intros [Hnames Hst Hv] [Ho Hc] H Hk. unfold controlStep in H. rewrite Hk in H.
  destruct (step_Branches step) as [| b0 rest] eqn:Hb; [done |].
  destruct (owners flow !! b0) as [o |] eqn:Hb0; [| done].
  destruct (default 0 (branchCounts flow !! o) =? _) eqn:Hn; [| done].
  case_bool_decide; [done |]. cbn [negb] in H.
  destruct (forallb _ rest) eqn:Hf; [| done]. clear H. rewrite forallb_forall in Hf.
  apply Z.eqb_eq in Hn. destruct (branchCounts flow !! o) as [n |] eqn:Hcnt; [| simpl in Hn; lia].
  simpl in Hn. destruct (Hc o n Hcnt) as (par & Hin & <- & Hpk & ->).
  exists par. split_and!; [done | done |].
  assert (Hsplit : forall s, s ∈ pre -> s ∈ pre ++ [step]) by (intros; rewrite elem_of_app; auto).
  assert (Hself : step ∈ pre ++ [step]) by (rewrite elem_of_app, list_elem_of_singleton; auto).
  apply NoDup_incl_Permutation.
  - rewrite <- Hb. apply validBranchNames_NoDup, (validateStep_control step); [by apply Hv | by rewrite Hk].
  - intros b Hbin. assert (Hob : owners flow !! b = Some (step_Name par)).
    { apply elem_of_cons in Hbin as [-> | Hbin]; [done |].
      specialize (Hf b (proj1 (list_elem_of_In _ _) Hbin)). apply bool_decide_eq_true in Hf.
      destruct (owners flow !! b) as [o' |]; simpl in Hf; [by subst |].
      exfalso. specialize (Hst par (Hsplit par Hin)). by rewrite <- Hf in Hst. }
    destruct (Ho b (step_Name par) Hob) as (s & Hs & Hname & Hbs).
    replace par with s; [done |]. by eapply (NoDup_map_unique step_Name); eauto.
  - cbn [length] in *. lia.
Qed.

Lemma validateOrchestration_join steps kinds pre join post :
  steps_wf steps -> validateOrchestrationControlFlow steps kinds = Ok tt ->
  steps = pre ++ join :: post -> step_Kind join = StepJoin ->
  exists par, par ∈ pre /\ step_Kind par = StepParallel
    /\ Permutation (step_Branches join) (step_Branches par).
Proof.
  unfold validateOrchestrationControlFlow. intros Hwf Hflow -> Hk.
  destruct (controlSteps kinds _ _) as [flow |] eqn:Hs; [| done]. clear Hflow.
  apply controlSteps_split in Hs as (mid & mid' & Hpre & Hstep).
  apply (controlSteps_inv _ _ []) in Hpre; [| apply flow_inv_empty].
  eapply controlStep_join; [| done ..].
  eapply steps_wf_local; [done |]. change (join :: post) with ([join] ++ post).
  rewrite app_assoc. by apply sublist_inserts_r.
Qed.

(** *** Validation is total: no input makes it panic *)

Lemma validateStep_no_panic step : validateStep step <> Err Panic.
Proof.
  unfold validateStep, validateStepKind, invalidDefinition.
  destruct (step_Kind step); repeat case_match; simplify_eq/=; repeat case_match; done.
Qed.

Lemma collectNames_no_panic steps : forall names, collectNames names steps <> Err Panic.
Proof.
  induction steps as [| s l IH]; cbn [collectNames]; intros names; [done |].
  destruct (negb _); [done |]. case_bool_decide; [done |].
  destruct (validateStep s) as [[] | e] eqn:E; cbn [mbind result_bind]; [apply IH |].
  intros [= ->]. by apply (validateStep_no_panic s).
Qed.

Lemma checkBranches_no_panic names self l : checkBranches names self l <> Err Panic.
Proof. induction l; cbn [checkBranches]; repeat case_match; done. Qed.

Lemma checkAllBranches_no_panic names l : checkAllBranches names l <> Err Panic.
Proof.
  induction l as [| s l IH]; cbn [checkAllBranches]; [done |].
  pose proof (checkBranches_no_panic names (step_Name s) (step_Branches s)) as Hb.
  destruct (checkBranches _ _ _) as [[] |]; cbn [mbind result_bind]; [done | congruence].
Qed.

Lemma claimBranches_no_panic control field name kinds l :
  forall owned, claimBranches control field name kinds owned l <> Err Panic.
Proof. induction l; cbn [claimBranches]; intros; repeat case_match; done. Qed.

(** Only a join with no branches would index out of range. *)
Lemma controlSteps_no_panic kinds l : forall flow,
  (forall s, s ∈ l -> validateStep s = Ok tt) -> controlSteps kinds flow l <> Err Panic.
Proof.
  induction l as [| s l IH]; cbn [controlSteps]; intros flow Hv; [done |].
  assert (Hs : controlStep kinds flow s <> Err Panic).
  { unfold controlStep. destruct (step_Kind s) eqn:Hk; try done.
    - pose proof (claimBranches_no_panic StepParallel "step.parallel_branch" (step_Name s) kinds
        (step_Branches s) (owners flow)). destruct (claimBranches _ _ _ _ _ _); cbn; congruence.
    - destruct (validateStep_control s) as (_ & Hlen & _); [apply Hv; by left | by rewrite Hk |].
      destruct (step_Branches s); [simpl in Hlen; lia |]. repeat case_match; done.
    - pose proof (claimBranches_no_panic StepRace "step.race_branch" (step_Name s) kinds
        (step_Branches s) (owners flow)). destruct (claimBranches _ _ _ _ _ _); cbn; congruence. }
  destruct (controlStep kinds flow s) as [flow' |]; cbn [mbind result_bind]; [| congruence].
  apply IH. intros s' Hin. apply Hv. by right.
Qed.

Lemma validateDefinition_no_panic spec : validateDefinition spec <> Err Panic.
Proof.
  unfold validateDefinition. do 4 (case_match; [done |]).
  pose proof (collectNames_no_panic (ds_Steps spec) ∅) as Hn.
  destruct (collectNames ∅ (ds_Steps spec)) as [names |] eqn:En; cbn [mbind result_bind]; [| congruence].
  pose proof (checkAllBranches_no_panic names (ds_Steps spec)) as Hb.
  destruct (checkAllBranches _ _) as [[] |]; cbn [mbind result_bind]; [| congruence].
  case_bool_decide; [| done]. unfold validateOrchestrationControlFlow.
  apply collectNames_ok in En as (_ & _ & Hvs & _). rewrite Forall_forall in Hvs.
  pose proof (controlSteps_no_panic names (ds_Steps spec) (mkControlFlow ∅ ∅ ∅) Hvs).
  destruct (controlSteps _ _ _); cbn; congruence.
Qed.

(** *** Properties *)

(** Drop the child pin of every step. *)
Definition unpin (step : StepSpec) : StepSpec :=
  mkStepSpec (step_Name step) (step_Kind step) (step_Target step) zeroReference
    (step_Branches step) (step_Timeout step) (step_InputLimit step) (step_ResultLimit step)
    (step_Retry step) (step_FanOutLimit step) (step_Compensation step).

Lemma steps_json_unpin l : map step_json l = map step_json (map unpin l).
Proof. induction l as [| s l IH]; cbn [map]; [done |]. rewrite <- IH. done. Qed.

Lemma definition_json_unpin a b :
  ds_Name a = ds_Name b -> ds_Version a = ds_Version b -> ds_Mode a = ds_Mode b ->
  ds_Deprecated a = ds_Deprecated b -> map unpin (ds_Steps a) = map unpin (ds_Steps b) ->
  definition_json a = definition_json b.
Proof.
  intros Hn Hv Hm Hd Hs. unfold definition_json. rewrite Hn, Hv, Hm, Hd. do 6 f_equal.
  assert (Hj : map step_json (ds_Steps a) = map step_json (ds_Steps b)).
  { by rewrite (steps_json_unpin (ds_Steps a)), (steps_json_unpin (ds_Steps b)), Hs. }
  destruct (ds_Steps a), (ds_Steps b); cbn [map] in *; congruence.
Qed.

Lemma NewDefinition_intro spec :
  validateDefinition spec = Ok tt ->
  NewDefinition spec = Ok (mkDefinition spec (sha256_hex (render (definition_json spec)))).
Proof. intros H. unfold NewDefinition. rewrite cloneDefinitionSpec_id, H. done. Qed.

(** A small orchestration: two parallel activities, their join, and a child. *)
Definition sample_retry : RetryPolicy := mkRetryPolicy 3 1000 4000.
Definition sample_activity (name : string) : StepSpec :=
  mkStepSpec name StepActivity "work" zeroReference [] 1000 64 64 sample_retry 0
    (Some (mkCompensationSpec "undo" 1000 64 sample_retry)).
Definition sample_control (name : string) (kind : StepKind) (branches : list string) : StepSpec :=
  mkStepSpec name kind "" zeroReference branches 0 0 0 (mkRetryPolicy 0 0 0) 2 None.
Definition sample_pin (version : string) : DefinitionReference :=
  mkDefinitionReference "child" version "aaaaaaaaaaaaaaaaaaaaaaaaaaaaaaaaaaaaaaaaaaaaaaaaaaaaaaaaaaaaaaaa".
Definition sample_child (version : string) : StepSpec :=
  mkStepSpec "kid" StepChild "child" (sample_pin version) [] 1000 64 64 sample_retry 0 None.
Definition sample_spec (version : string) : DefinitionSpec :=
  mkDefinitionSpec "order" "v1" Orchestration false
    [sample_activity "a"; sample_activity "b"; sample_control "fork" StepParallel ["a"; "b"];
     sample_control "meet" StepJoin ["b"; "a"]; sample_child version].

Lemma sample_valid_v1 : validateDefinition (sample_spec "v1") = Ok tt.
Proof. vm_compute. reflexivity. Qed.

Lemma sample_valid_v2 : validateDefinition (sample_spec "v2") = Ok tt.
Proof. vm_compute. reflexivity. Qed.

(** ** Properties *)

(** C27: A successful NewDefinition keeps the specification, yields a legal
    reference (a stable name, a stable version and a 64-digit lower-case hex
    fingerprint), and its steps are well formed: at most MaxFanOut steps, names
    unique and stable, each step valid for its kind, and every branch naming
    another, non-control step of the definition. *)
Theorem NewDefinition_sound spec d :
  NewDefinition spec = Ok d ->
  def_spec d = spec /\ reference_valid (Reference d) = true
  /\ Z.of_nat (length (Steps d)) <= MaxFanOut /\ steps_wf (Steps d).
Proof.
  intros [Hv ->]%NewDefinition_inv. rewrite !Steps_spec. cbn [def_spec].
  pose proof (validateDefinition_wf spec Hv) as Hwf.
  apply validateDefinition_inv in Hv as (Hn & Hver & _ & Hl & _).
  split_and!; [done | | lia | done].
  unfold reference_valid, Reference, def_Name, def_Version. cbn [ref_name ref_version ref_fingerprint def_spec def_fingerprint].
  by rewrite Hn, Hver, sha256_hex_fingerprint.
Qed.

Lemma NewDefinition_sound_witness : exists d, NewDefinition (sample_spec "v1") = Ok d /\ steps_wf (Steps d).
Proof.
  eexists. split; [apply (NewDefinition_intro _ sample_valid_v1) |].
  by apply (NewDefinition_sound (sample_spec "v1")), NewDefinition_intro, sample_valid_v1.
Defined.

(** In a valid orchestration every join step waits for exactly the branches,
    in any order, of one parallel step that comes before it. *)
Theorem join_follows_parallel spec pre join post :
  validateDefinition spec = Ok tt -> ds_Mode spec = Orchestration ->
  ds_Steps spec = pre ++ join :: post -> step_Kind join = StepJoin ->
  exists par, par ∈ pre /\ step_Kind par = StepParallel
    /\ Permutation (step_Branches join) (step_Branches par).
Proof.
  intros Hv Hm Hs Hk. pose proof (validateDefinition_wf spec Hv) as Hwf.
  apply validateDefinition_inv in Hv as (_ & _ & _ & _ & names & _ & _ & Hflow).
  eapply validateOrchestration_join; eauto.
Qed.

Lemma join_follows_parallel_witness :
  exists par, par ∈ [sample_activity "a"; sample_activity "b"; sample_control "fork" StepParallel ["a"; "b"]]
    /\ step_Kind par = StepParallel /\ Permutation ["b"; "a"] (step_Branches par).
Proof.
  apply (join_follows_parallel (sample_spec "v1")
    [sample_activity "a"; sample_activity "b"; sample_control "fork" StepParallel ["a"; "b"]]
    (sample_control "meet" StepJoin ["b"; "a"]) [sample_child "v1"] sample_valid_v1); reflexivity.
Defined.

(** Constructing a definition never panics, whatever the specification: the
    one index into a branch list is reached only with a non-empty list. *)
Theorem NewDefinition_no_panic spec : NewDefinition spec <> Err Panic.
Proof.
  unfold NewDefinition. pose proof (validateDefinition_no_panic (cloneDefinitionSpec spec)) as H.
  destruct (validateDefinition _) as [[] |]; cbn; congruence.
Qed.

(** The definition fingerprint does not cover the pinned child references: two
    valid specifications that differ only in their child pins have the same name,
    version and fingerprint, although the step they pin different children in
    differs (encoding/json writes no unexported field). *)
Theorem child_pin_not_fingerprinted a b da db :
  ds_Name a = ds_Name b -> ds_Version a = ds_Version b -> ds_Mode a = ds_Mode b ->
  ds_Deprecated a = ds_Deprecated b -> map unpin (ds_Steps a) = map unpin (ds_Steps b) ->
  NewDefinition a = Ok da -> NewDefinition b = Ok db ->
  Reference da = Reference db.
Proof.
  intros Hn Hv Hm Hd Hs [_ ->]%NewDefinition_inv [_ ->]%NewDefinition_inv.
  unfold Reference, def_Name, def_Version. cbn [def_spec def_fingerprint].
  by rewrite Hn, Hv, (definition_json_unpin a b).
Qed.

Lemma child_pin_not_fingerprinted_witness :
  exists da db, NewDefinition (sample_spec "v1") = Ok da /\ NewDefinition (sample_spec "v2") = Ok db
    /\ Steps da <> Steps db /\ Reference da = Reference db.
Proof.
  eexists _, _. split; [apply (NewDefinition_intro _ sample_valid_v1) |].
  split; [apply (NewDefinition_intro _ sample_valid_v2) |]. split; [by intros [=] |].
  apply (child_pin_not_fingerprinted (sample_spec "v1") (sample_spec "v2") _ _
    eq_refl eq_refl eq_refl eq_refl eq_refl
    (NewDefinition_intro _ sample_valid_v1) (NewDefinition_intro _ sample_valid_v2)).
Defined.
