(* ===== verification/Registry.v ===== *)
(** * The definition and migration registry (registry.go)

    A registry is compiled once from validated definitions and explicit
    migration edges. [None] stands for a nil registry pointer. *)
From S2P Require Import Prelude Definitions.

(** [definitionKey] and [migrationKey] *)
Abbreviation definitionKey := (string * string)%type.
Abbreviation migrationKey := (string * string * string)%type.

Record MigrationState := mkMigrationState { Data : bytes }.

Record Migration := mkMigration {
  mig_Name : string;
  FromVersion : string;
  ToVersion : string;
  Apply : option (MigrationState -> result MigrationState)  (** nil or a callback *)
}.

Record Registry := mkRegistry {
  definitions : gmap definitionKey Definition_;
  migrations : gmap migrationKey Migration
}.

Definition key_of (definition : Definition_) : definitionKey :=
  (def_Name definition, def_Version definition).

(** First loop of CompileRegistry. *)
Fixpoint addDefinitions (table : gmap definitionKey Definition_) (l : list Definition_)
    : result (gmap definitionKey Definition_) :=
  match l with
  | [] => Ok table
  | definition :: rest =>
      reject bool_decide (def_fingerprint definition = EmptyString) with invalidDefinition "compiled definition";
      reject bool_decide (is_Some (table !! key_of definition)) with ErrDuplicateDefinition;
      addDefinitions (<[key_of definition := definition]> table) rest
  end.

(** Second loop: exact child pins. *)
Fixpoint checkChildSteps (table : gmap definitionKey Definition_) (steps : list StepSpec) : result unit :=
  match steps with
  | [] => Ok tt
  | step :: rest =>
      if negb (bool_decide (step_Kind step = StepChild)) then checkChildSteps table rest
      else
        match table !! (ref_name (step_ChildDefinition step), ref_version (step_ChildDefinition step)) with
        | None => Err ErrDefinitionNotFound
        | Some child =>
            reject negb (bool_decide (Reference child = step_ChildDefinition step)) with ErrDefinitionMismatch;
            checkChildSteps table rest
        end
  end.

Fixpoint checkChildPins (table : gmap definitionKey Definition_) (l : list Definition_) : result unit :=
  match l with
  | [] => Ok tt
  | definition :: rest =>
      _ ← checkChildSteps table (ds_Steps (def_spec definition)); checkChildPins table rest
  end.

(** Third loop: migration edges. *)
Fixpoint addMigrations (table : gmap definitionKey Definition_) (edges : gmap migrationKey Migration)
    (l : list Migration) : result (gmap migrationKey Migration) :=
  match l with
  | [] => Ok edges
  | migration :: rest =>
      let from := (mig_Name migration, FromVersion migration) in
      let to := (mig_Name migration, ToVersion migration) in
      reject (match Apply migration with None => true | Some _ => false end)
        || bool_decide (FromVersion migration = ToVersion migration) with ErrInvalidMigration;
      reject negb (bool_decide (is_Some (table !! from))) with ErrInvalidMigration;
      reject negb (bool_decide (is_Some (table !! to))) with ErrInvalidMigration;
      let key := (mig_Name migration, FromVersion migration, ToVersion migration) in
      reject bool_decide (is_Some (edges !! key)) with ErrDuplicateMigration;
      addMigrations table (<[key := migration]> edges) rest
  end.

Definition CompileRegistry (defs : list Definition_) (edges : list Migration) : result Registry :=
  table ← addDefinitions ∅ defs;
  _ ← checkChildPins table defs;
  table_edges ← addMigrations table ∅ edges;
  Ok (mkRegistry table table_edges).

Definition CompileDefinitions (defs : list Definition_) : result Registry := CompileRegistry defs [].

(** The methods, on a possibly nil registry. *)
Definition Resolve (registry : option Registry) (name version : string) : result Definition_ :=
  match registry with
  | None => Err ErrDefinitionNotFound
  | Some r => match definitions r !! (name, version) with
              | None => Err ErrDefinitionNotFound
              | Some definition => Ok definition
              end
  end.

Definition registry_Migration (registry : option Registry) (name fromVersion toVersion : string) : result Migration :=
  match registry with
  | None => Err ErrMigrationNotFound
  | Some r => match migrations r !! (name, fromVersion, toVersion) with
              | None => Err ErrMigrationNotFound
              | Some migration => Ok migration
              end
  end.

(** ** The loops *)

Lemma addDefinitions_ok l : forall table table',
  addDefinitions table l = Ok table' ->
  NoDup (map key_of l) /\ Forall (fun d => def_fingerprint d <> EmptyString) l
  /\ (forall d, d ∈ l -> table !! key_of d = None)
  /\ (forall k d, table' !! k = Some d <-> table !! k = Some d \/ (d ∈ l /\ key_of d = k)).
Proof.
  induction l as [| x l IH]; cbn [addDefinitions map]; intros table table' H.
  { injection H as <-. split_and!; [constructor .. | |]; intros *; rewrite elem_of_nil; naive_solver. }
  case_bool_decide as Hf; [done |]. case_bool_decide as Hn; [done |]. apply eq_None_not_Some in Hn.
  apply IH in H as (Hnd & Hfp & Hfresh & Hlook).
  assert (Hne : forall d, d ∈ l -> key_of d <> key_of x).
  { intros d Hd He. specialize (Hfresh d Hd). by rewrite He, lookup_insert_eq in Hfresh. }
  split_and!; [| by constructor | |].
  - constructor; [| done]. intros (d & He & Hd)%list_elem_of_fmap. by apply (Hne d).
  - intros d [-> | Hd]%elem_of_cons; [done |]. specialize (Hfresh d Hd).
    rewrite lookup_insert_ne in Hfresh; [done |]. by apply not_eq_sym, Hne.
  - intros k d. rewrite Hlook, lookup_insert_Some, elem_of_cons. split; [naive_solver |].
    intros [Hk | [[-> | Hd] <-]]; [| by left; left | by right].
    left. right. split; [| done]. intros <-. congruence.
Qed.

Lemma checkChildSteps_ok table steps :
  checkChildSteps table steps = Ok tt <->
  (forall s, s ∈ steps -> step_Kind s = StepChild -> exists child,
    table !! (ref_name (step_ChildDefinition s), ref_version (step_ChildDefinition s)) = Some child
    /\ Reference child = step_ChildDefinition s).
Proof.
  induction steps as [| s steps IH]; cbn [checkChildSteps].
  { split; [by intros _ ? ?%elem_of_nil | done]. }
  setoid_rewrite elem_of_cons. case_bool_decide as Hk; cbn [negb].
  - destruct (table !! _) as [child |] eqn:E.
    + case_bool_decide as Hr; cbn [negb]; [rewrite IH; naive_solver |].
      split; [done |]. intros Hall. destruct (Hall s (or_introl eq_refl) Hk) as (? & ? & ?). congruence.
    + split; [done |]. intros Hall. destruct (Hall s (or_introl eq_refl) Hk) as (? & ? & ?). congruence.
  - rewrite IH. naive_solver.
Qed.

Lemma checkChildPins_ok table l :
  checkChildPins table l = Ok tt <->
  (forall d, d ∈ l -> checkChildSteps table (ds_Steps (def_spec d)) = Ok tt).
Proof.
  induction l as [| d l IH]; cbn [checkChildPins].
  { split; [by intros _ ? ?%elem_of_nil | done]. }
  setoid_rewrite elem_of_cons. destruct (checkChildSteps table _) as [[] |] eqn:E; cbn [mbind result_bind].
  - rewrite IH. naive_solver.
  - split; [done |]. intros H. specialize (H d (or_introl eq_refl)). congruence.
Qed.

Lemma addMigrations_ok table l : forall edges edges',
  addMigrations table edges l = Ok edges' ->
  (forall m, m ∈ l -> Apply m <> None /\ FromVersion m <> ToVersion m
     /\ is_Some (table !! (mig_Name m, FromVersion m)) /\ is_Some (table !! (mig_Name m, ToVersion m)))
  /\ (forall k m, edges' !! k = Some m <->
        edges !! k = Some m \/ (m ∈ l /\ (mig_Name m, FromVersion m, ToVersion m) = k)).
Proof.
  induction l as [| x l IH]; cbn [addMigrations]; intros edges edges' H.
  { injection H as <-. split; intros *; rewrite elem_of_nil; naive_solver. }
  destruct (Apply x) eqn:Ha; [| done]. cbn [orb] in H.
  destruct (bool_decide (FromVersion x = ToVersion x)) eqn:Hv; [done |].
  destruct (bool_decide (is_Some (table !! (mig_Name x, FromVersion x)))) eqn:Hf; [| done].
  destruct (bool_decide (is_Some (table !! (mig_Name x, ToVersion x)))) eqn:Ht; [| done].
  cbn [negb] in H. case_bool_decide as Hn; [done |]. apply eq_None_not_Some in Hn.
  apply bool_decide_eq_false in Hv. apply bool_decide_eq_true in Hf, Ht.
  apply IH in H as [Hm Hlook]. split.
  - intros m [-> | Hin]%elem_of_cons; [| by apply Hm]. split_and!; [congruence | done ..].
  - intros k m. rewrite Hlook, lookup_insert_Some, elem_of_cons. split; [naive_solver |].
    intros [Hk | [[-> | Hd] <-]]; [| by left; left | by right].
    left. right. split; [| done]. intros <-. congruence.
Qed.

Lemma CompileRegistry_inv defs edges r :
  CompileRegistry defs edges = Ok r ->
  addDefinitions ∅ defs = Ok (definitions r) /\ checkChildPins (definitions r) defs = Ok tt
  /\ addMigrations (definitions r) ∅ edges = Ok (migrations r).
Proof.
  unfold CompileRegistry. intros H.
  destruct (addDefinitions ∅ defs) as [t |]; [| done]. cbn [mbind result_bind] in H.
  destruct (checkChildPins t defs) as [[] |] eqn:E; [| done]. cbn [mbind result_bind] in H.
  destruct (addMigrations t ∅ edges) as [m |] eqn:Em; [| done]. injection H as <-. done.
Qed.

Lemma CompileRegistry_definitions defs edges r :
  CompileRegistry defs edges = Ok r ->
  NoDup (map key_of defs) /\ (forall k d, definitions r !! k = Some d <-> d ∈ defs /\ key_of d = k).
Proof.
  intros ((Hnd & _ & _ & Hlook)%addDefinitions_ok & _ & _)%CompileRegistry_inv.
  split; [done |]. intros k d. rewrite Hlook, lookup_empty. naive_solver.
Qed.

(** ** A sample registry *)

Definition sample_child_definition : Definition_ :=
  mkDefinition (mkDefinitionSpec "child" "v1" Orchestration false [sample_activity "a"])
    (ref_fingerprint (sample_pin "v1")).
Definition sample_parent (version : string) : Definition_ :=
  mkDefinition (mkDefinitionSpec "order" version Orchestration false (ds_Steps (sample_spec "v1")))
    (ref_fingerprint (sample_pin "v1")).
Definition sample_edge : Migration := mkMigration "order" "v1" "v2" (Some (fun state => Ok state)).
Definition sample_definitions : list Definition_ := [sample_child_definition; sample_parent "v1"; sample_parent "v2"].
Definition sample_compiled : Registry :=
  or_zero (mkRegistry ∅ ∅) (CompileRegistry sample_definitions [sample_edge]).

Lemma sample_compiles : CompileRegistry sample_definitions [sample_edge] = Ok sample_compiled.
Proof. vm_compute. reflexivity. Qed.

(** ** Properties *)

(** A compiled registry resolves exactly its inputs: a name and version
    resolve to a definition iff that definition was passed in under them, and no
    two inputs share a name and version. *)
Theorem Resolve_exact defs edges r name version d :
  CompileRegistry defs edges = Ok r ->
  NoDup (map key_of defs)
  /\ (Resolve (Some r) name version = Ok d <-> d ∈ defs /\ def_Name d = name /\ def_Version d = version).
Proof.
  intros [Hnd Hlook]%CompileRegistry_definitions. split; [done |].
  specialize (Hlook (name, version) d). unfold Resolve, key_of in *.
  destruct (definitions r !! (name, version)) as [d' |]; naive_solver.
Qed.

Lemma Resolve_exact_witness : sample_parent "v1" ∈ sample_definitions.
Proof.
  apply (Resolve_exact sample_definitions [sample_edge] sample_compiled "order" "v1" (sample_parent "v1") sample_compiles).
  vm_compute. reflexivity.
Defined.

(** A compiled registry is closed under child pins: every child step of every
    resolvable definition pins a definition that resolves, with exactly the pinned
    name, version and fingerprint. *)
Theorem Resolve_child_closed defs edges r name version d step :
  CompileRegistry defs edges = Ok r -> Resolve (Some r) name version = Ok d ->
  step ∈ ds_Steps (def_spec d) -> step_Kind step = StepChild ->
  exists child, Resolve (Some r) (ref_name (step_ChildDefinition step)) (ref_version (step_ChildDefinition step)) = Ok child
    /\ Reference child = step_ChildDefinition step.
Proof.
  intros Hc Hr Hs Hk. pose proof (CompileRegistry_definitions _ _ _ Hc) as [_ Hlook].
  apply CompileRegistry_inv in Hc as (_ & Hpins & _). rewrite checkChildPins_ok in Hpins.
  unfold Resolve in Hr. destruct (definitions r !! (name, version)) as [d' |] eqn:E; [| done]. injection Hr as ->.
  apply Hlook in E as [Hd _]. specialize (Hpins d Hd). rewrite checkChildSteps_ok in Hpins.
  destruct (Hpins step Hs Hk) as (child & Hl & Href). exists child. unfold Resolve. by rewrite Hl.
Qed.

Lemma Resolve_child_closed_witness :
  exists child, Resolve (Some sample_compiled) "child" "v1" = Ok child /\ Reference child = sample_pin "v1".
Proof.
  apply (Resolve_child_closed sample_definitions [sample_edge] sample_compiled "order" "v2" (sample_parent "v2")
    (sample_child "v1") sample_compiles); [vm_compute; reflexivity | | reflexivity].
  cbn. do 4 right. left.
Defined.

(** A migration edge is found iff it was declared; a declared edge has a
    callback, joins two different versions, and both its ends resolve. *)
Theorem Migration_exact defs edges r name from to m :
  CompileRegistry defs edges = Ok r ->
  (registry_Migration (Some r) name from to = Ok m <->
     m ∈ edges /\ mig_Name m = name /\ FromVersion m = from /\ ToVersion m = to)
  /\ (registry_Migration (Some r) name from to = Ok m ->
        Apply m <> None /\ from <> to
        /\ is_ok (Resolve (Some r) name from) = true /\ is_ok (Resolve (Some r) name to) = true).
Proof.
  intros (_ & _ & [Hm Hlook]%addMigrations_ok)%CompileRegistry_inv.
  assert (Hiff : registry_Migration (Some r) name from to = Ok m <->
     m ∈ edges /\ mig_Name m = name /\ FromVersion m = from /\ ToVersion m = to).
  { specialize (Hlook (name, from, to) m). rewrite lookup_empty in Hlook. unfold registry_Migration.
    destruct (migrations r !! (name, from, to)); naive_solver. }
  split; [done |]. rewrite Hiff. intros (Hin & <- & <- & <-).
  destruct (Hm m Hin) as (? & ? & [x Hx] & [y Hy]). unfold Resolve. by rewrite Hx, Hy.
Qed.

Lemma Migration_exact_witness : is_ok (Resolve (Some sample_compiled) "order" "v2") = true.
Proof.
  apply (Migration_exact sample_definitions [sample_edge] sample_compiled "order" "v1" "v2" sample_edge sample_compiles).
  vm_compute. reflexivity.
Defined.
