(* ===== verification/OperatorAudit.v ===== *)
(** * Operator actions and their audit document (operator.go)

    The audit record of an operator command is a JSON document of three fields
    inside the event data; the decoder refuses unknown fields and trailing data. *)
From S2P Require Import Prelude Names Json JsonDecode.

Definition MaxOperatorAuditBytes : Z := 1024.

(** [OperatorAction] is a [uint8]; the last constructor stands for zero and
    every undeclared value. *)
Inductive OperatorAction :=
  | OperatorPause | OperatorResume | OperatorCancel | OperatorTerminate
  | OperatorRetryActivity | OperatorCompensate | OperatorResolveCompensation | OperatorApprove
  | OperatorActionUndeclared.

#[export] Instance OperatorAction_eq_dec : EqDecision OperatorAction.
Proof. solve_decision. Defined.

Definition OperatorAction_code (action : OperatorAction) : Z :=
  match action with
  | OperatorPause => 1 | OperatorResume => 2 | OperatorCancel => 3 | OperatorTerminate => 4
  | OperatorRetryActivity => 5 | OperatorCompensate => 6 | OperatorResolveCompensation => 7
  | OperatorApprove => 8 | OperatorActionUndeclared => 0
  end.

Definition OperatorAction_of (code : Z) : OperatorAction :=
  if code =? 1 then OperatorPause else if code =? 2 then OperatorResume
  else if code =? 3 then OperatorCancel else if code =? 4 then OperatorTerminate
  else if code =? 5 then OperatorRetryActivity else if code =? 6 then OperatorCompensate
  else if code =? 7 then OperatorResolveCompensation else if code =? 8 then OperatorApprove
  else OperatorActionUndeclared.

(** [OperatorAction.String] *)
Definition OperatorAction_String (action : OperatorAction) : string :=
  match action with
  | OperatorPause => "pause" | OperatorResume => "resume" | OperatorCancel => "cancel"
  | OperatorTerminate => "terminate" | OperatorRetryActivity => "retry-activity"
  | OperatorCompensate => "compensate" | OperatorResolveCompensation => "resolve-compensation"
  | OperatorApprove => "approve" | OperatorActionUndeclared => EmptyString
  end.

Record operatorAuditDocument := mkAudit {
  audit_Action : OperatorAction;
  audit_Actor : string;
  audit_Reason : string
}.

(** The JSON object of an audit document, and its decoder's field store. *)
Definition audit_members (document : operatorAuditDocument) : list (string * scalar) :=
  [("action", SNum (OperatorAction_code (audit_Action document)));
   ("actor", SStr (audit_Actor document)); ("reason", SStr (audit_Reason document))].

Definition marshalAudit (document : operatorAuditDocument) : string :=
  render (JObj (map member_json (audit_members document))).

Definition audit_store (document : operatorAuditDocument) (key : string) (v : flat) : option operatorAuditDocument :=
  if field_is "action" key then
    code ← store_uint 255 (OperatorAction_code (audit_Action document)) v;
    Some (mkAudit (OperatorAction_of code) (audit_Actor document) (audit_Reason document))
  else if field_is "actor" key then
    actor ← store_string (audit_Actor document) v;
    Some (mkAudit (audit_Action document) actor (audit_Reason document))
  else if field_is "reason" key then
    reason ← store_string (audit_Reason document) v;
    Some (mkAudit (audit_Action document) (audit_Actor document) reason)
  else None.

Definition decodeOperatorAudit (data : bytes) : result operatorAuditDocument :=
  reject blen data =? 0 with ErrInvalidOperatorCommand;
  reject MaxOperatorAuditBytes <? blen data with ErrInvalidOperatorCommand;
  match decode_document audit_store (mkAudit OperatorActionUndeclared "" "") (bstr data) with
  | None => Err ErrInvalidOperatorCommand
  | Some document =>
      reject bool_decide (OperatorAction_String (audit_Action document) = EmptyString) with ErrInvalidOperatorCommand;
      reject negb (instanceIDPattern (audit_Actor document)) with ErrInvalidOperatorCommand;
      reject negb (stableName (audit_Reason document)) with ErrInvalidOperatorCommand;
      Ok document
  end.

(** ** Round trip *)

Lemma OperatorAction_of_code action : OperatorAction_of (OperatorAction_code action) = action.
Proof. by destruct action. Qed.

Lemma OperatorAction_String_declared action :
  OperatorAction_String action = EmptyString <-> action = OperatorActionUndeclared.
Proof. by destruct action. Qed.

Definition audit_wf (document : operatorAuditDocument) : Prop :=
  audit_Action document <> OperatorActionUndeclared
  /\ instanceIDPattern (audit_Actor document) = true /\ stableName (audit_Reason document) = true.

Lemma decodeOperatorAudit_wf data document :
  decodeOperatorAudit data = Ok document -> audit_wf document.
Proof.
  unfold decodeOperatorAudit. intros H. walk H. subst. bool_norm.
  split_and!; [| done | done]. by rewrite <- OperatorAction_String_declared.
Qed.

Lemma audit_members_safe document : audit_wf document -> Forall member_safe (audit_members document).
Proof.
  intros (_ & Ha & Hr).
  repeat constructor; cbn [fst snd scalar_safe]; eauto with names. by destruct (audit_Action document).
Qed.

Lemma marshalAudit_size document : audit_wf document -> 0 < slen (marshalAudit document) <= 424.
Proof.
  intros Hwf. pose proof (audit_members_safe _ Hwf) as Hs. destruct Hwf as (Hd & Ha & Hr).
  pose proof (instanceID_slen _ Ha). pose proof (stableName_slen _ Hr).
  unfold marshalAudit. rewrite slen_render_members by done.
  cbn [members_size audit_members scalar_size].
  change (slen "action") with 6. change (slen "actor") with 5. change (slen "reason") with 6.
  replace (slen (dec (OperatorAction_code (audit_Action document)))) with 1 by (by destruct (audit_Action document)).
  lia.
Qed.

(** Encoding a well-formed audit document and decoding it gives it back. *)
Lemma decode_marshalAudit document :
  audit_wf document -> decodeOperatorAudit (Some (marshalAudit document)) = Ok document.
Proof.
  intros Hwf. pose proof (marshalAudit_size _ Hwf) as Hsz. unfold decodeOperatorAudit.
  change (blen (Some (marshalAudit document))) with (slen (marshalAudit document)).
  change (bstr (Some (marshalAudit document))) with (marshalAudit document).
  unfold MaxOperatorAuditBytes. rewrite (proj2 (Z.eqb_neq _ _)), (proj2 (Z.ltb_ge _ _)) by lia.
  unfold decode_document, marshalAudit.
  rewrite decode_object_render by (done || by apply audit_members_safe).
  cbn [mbind option_bind map member_flat audit_members fst snd scalar_flat store_members].
  destruct Hwf as (Hd & Ha & Hr). unfold audit_store.
  change (field_is "action" "action") with true. cbn match.
  unfold store_uint. rewrite parse_uint_dec by (by destruct (audit_Action document)).
  cbn [mbind option_bind]. rewrite OperatorAction_of_code.
  change (field_is "action" "actor") with false. change (field_is "actor" "actor") with true.
  change (field_is "action" "reason") with false. change (field_is "actor" "reason") with false.
  change (field_is "reason" "reason") with true.
  cbn [mbind option_bind store_string audit_Action audit_Actor audit_Reason].
  rewrite bool_decide_eq_false_2 by (by rewrite OperatorAction_String_declared).
  rewrite Ha, Hr. by destruct document.
Qed.
