(* ===== verification/Event.v ===== *)
(** * History events (history.go, and the valid*EventFields functions)

    An event is a validated record of one decision; its kind says which fields
    are required and which must be zero. *)
From S2P Require Import Prelude GoTime Names Definitions OperatorAudit.

(** The 36 declared kinds, and one constructor for zero and every undeclared
    value of the [uint8]. *)
Inductive EventKind :=
  | EventInstanceStarted | EventInstancePaused | EventInstanceResumed
  | EventCancellationRequested | EventInstanceCancelled | EventInstanceCompleted
  | EventInstanceFailed | EventInstanceTerminated | EventDefinitionMigrated
  | EventContinuedAsNew
  | EventActivityScheduled | EventActivityAttemptStarted | EventActivityAttemptSucceeded
  | EventActivityAttemptFailed | EventActivityAttemptUnknown | EventActivityRetryScheduled
  | EventTimerScheduled | EventTimerFired | EventSignalReceived
  | EventCompensationScheduled | EventCompensationAttemptStarted
  | EventCompensationAttemptSucceeded | EventCompensationAttemptFailed
  | EventCompensationAttemptUnknown | EventCompensationRetryScheduled
  | EventCompensationManuallyResolved
  | EventOperatorCommandRecorded | EventRaceWon
  | EventChildScheduled | EventChildCompleted | EventChildFailed
  | EventChildStartAttempted | EventChildStarted | EventChildStartFailed
  | EventChildStartUnknown | EventChildStartRetryScheduled
  | EventKindUndeclared.

#[export] Instance EventKind_eq_dec : EqDecision EventKind.
Proof. solve_decision. Defined.

Definition EventKind_code (kind : EventKind) : Z :=
  match kind with
  | EventInstanceStarted => 1 | EventInstancePaused => 2 | EventInstanceResumed => 3
  | EventCancellationRequested => 4 | EventInstanceCancelled => 5 | EventInstanceCompleted => 6
  | EventInstanceFailed => 7 | EventInstanceTerminated => 8 | EventDefinitionMigrated => 9
  | EventContinuedAsNew => 10
  | EventActivityScheduled => 11 | EventActivityAttemptStarted => 12
  | EventActivityAttemptSucceeded => 13 | EventActivityAttemptFailed => 14
  | EventActivityAttemptUnknown => 15 | EventActivityRetryScheduled => 16
  | EventTimerScheduled => 17 | EventTimerFired => 18 | EventSignalReceived => 19
  | EventCompensationScheduled => 20 | EventCompensationAttemptStarted => 21
  | EventCompensationAttemptSucceeded => 22 | EventCompensationAttemptFailed => 23
  | EventCompensationAttemptUnknown => 24 | EventCompensationRetryScheduled => 25
  | EventCompensationManuallyResolved => 26
  | EventOperatorCommandRecorded => 27 | EventRaceWon => 28
  | EventChildScheduled => 29 | EventChildCompleted => 30 | EventChildFailed => 31
  | EventChildStartAttempted => 32 | EventChildStarted => 33 | EventChildStartFailed => 34
  | EventChildStartUnknown => 35 | EventChildStartRetryScheduled => 36
  | EventKindUndeclared => 0
  end.

(** [lo <= kind && kind <= hi] *)
Definition kind_within (lo hi kind : EventKind) : bool :=
  (EventKind_code lo <=? EventKind_code kind) && (EventKind_code kind <=? EventKind_code hi).

Record HistoryEventSpec := mkEventSpec {
  es_Sequence : Z;                       (** uint64 *)
  es_InstanceID : string;
  es_Kind : EventKind;
  es_OccurredAt : Time;
  es_Definition : DefinitionReference;
  es_SuccessorID : string;
  es_StepName : string;
  es_Attempt : Z;                        (** uint32 *)
  es_IdempotencyKey : string;
  es_DueAt : Time;
  es_Code : string;
  es_Retryable : bool;
  es_Data : bytes
}.

Record HistoryEvent := mkEvent {
  ev_sequence : Z;
  ev_instanceID : string;
  ev_kind : EventKind;
  ev_occurredAt : Time;
  ev_definition : DefinitionReference;
  ev_successorID : string;
  ev_stepName : string;
  ev_attempt : Z;
  ev_idempotencyKey : string;
  ev_dueAt : Time;
  ev_code : string;
  ev_retryable : bool;
  ev_data : bytes
}.

#[export] Instance HistoryEvent_eq_dec : EqDecision HistoryEvent.
Proof. solve_decision. Defined.

(** [HistoryEvent{}] *)
Definition zeroEvent : HistoryEvent :=
  mkEvent 0 "" EventKindUndeclared zeroTime zeroReference "" "" 0 "" zeroTime "" false None.

(** ** Field rules per group of kinds *)

Section Fields.
Context (spec : HistoryEventSpec).

Abbreviation no_key := (bool_decide (es_IdempotencyKey spec = EmptyString)).
Abbreviation no_due := (IsZero (es_DueAt spec)).
Abbreviation no_code := (bool_decide (es_Code spec = EmptyString)).
Abbreviation no_data := (blen (es_Data spec) =? 0).
Abbreviation no_definition := (bool_decide (es_Definition spec = zeroReference)).
Abbreviation no_successor := (bool_decide (es_SuccessorID spec = EmptyString)).
Abbreviation due_later := (After (es_DueAt spec) (es_OccurredAt spec)).

Definition validActivityEventFields : bool :=
  if negb (stableName (es_StepName spec)) || negb no_definition || negb no_successor then false
  else match es_Kind spec with
  | EventActivityScheduled =>
      (es_Attempt spec =? 0) && no_key && no_due && no_code && negb (es_Retryable spec)
  | EventActivityAttemptStarted =>
      (0 <? es_Attempt spec) && instanceIDPattern (es_IdempotencyKey spec) && due_later
      && no_code && negb (es_Retryable spec) && no_data
  | EventActivityAttemptSucceeded =>
      (0 <? es_Attempt spec) && no_key && no_due && no_code && negb (es_Retryable spec)
  | EventActivityAttemptFailed =>
      (0 <? es_Attempt spec) && no_key && no_due && stableName (es_Code spec)
  | EventActivityAttemptUnknown =>
      (0 <? es_Attempt spec) && no_key && no_due && stableName (es_Code spec) && negb (es_Retryable spec)
  | _ =>
      (0 <? es_Attempt spec) && no_key && due_later && no_code && negb (es_Retryable spec) && no_data
  end.

Definition validWaitEventFields : bool :=
  if negb (stableName (es_StepName spec)) || negb no_definition || negb no_successor
     || negb (es_Attempt spec =? 0) || negb no_code || es_Retryable spec then false
  else match es_Kind spec with
  | EventTimerScheduled => no_key && due_later && no_data
  | EventTimerFired => no_key && no_due && no_data
  | _ => instanceIDPattern (es_IdempotencyKey spec) && no_due
  end.

Definition validCompensationEventFields : bool :=
  if negb (stableName (es_StepName spec)) || negb no_definition || negb no_successor then false
  else match es_Kind spec with
  | EventCompensationScheduled =>
      (es_Attempt spec =? 0) && no_key && no_due && no_code && negb (es_Retryable spec)
  | EventCompensationAttemptStarted =>
      (0 <? es_Attempt spec) && instanceIDPattern (es_IdempotencyKey spec) && due_later
      && no_code && negb (es_Retryable spec) && no_data
  | EventCompensationAttemptSucceeded =>
      (0 <? es_Attempt spec) && no_key && no_due && no_code && negb (es_Retryable spec)
  | EventCompensationAttemptFailed =>
      (0 <? es_Attempt spec) && no_key && no_due && stableName (es_Code spec)
  | EventCompensationAttemptUnknown =>
      (0 <? es_Attempt spec) && no_key && no_due && stableName (es_Code spec) && negb (es_Retryable spec)
  | EventCompensationRetryScheduled =>
      (0 <? es_Attempt spec) && no_key && due_later && no_code && negb (es_Retryable spec) && no_data
  | _ =>
      (es_Attempt spec =? 0) && no_key && no_due && stableName (es_Code spec) && negb (es_Retryable spec)
  end.

Definition validOperatorEventFields : bool :=
  if negb (bool_decide (es_StepName spec = EmptyString)) then false
  else if negb (es_Attempt spec =? 0) then false
  else if negb no_due then false
  else if negb no_code then false
  else if es_Retryable spec then false
  else if negb (instanceIDPattern (es_IdempotencyKey spec)) then false
  else is_ok (decodeOperatorAudit (es_Data spec)).

Definition validRaceEventFields : bool :=
  stableName (es_StepName spec) && stableName (bstr (es_Data spec))
  && no_definition && no_successor && (es_Attempt spec =? 0)
  && no_key && no_due && no_code && negb (es_Retryable spec).

Definition validChildEventFields : bool :=
  if negb (stableName (es_StepName spec)) then false
  else if bool_decide (es_Kind spec = EventChildScheduled) then
    reference_valid (es_Definition spec) && (es_Attempt spec =? 0) && no_key && no_due
    && no_code && negb (es_Retryable spec)
  else if negb no_definition then false
  else match es_Kind spec with
  | EventChildStartAttempted =>
      (0 <? es_Attempt spec) && instanceIDPattern (es_IdempotencyKey spec) && due_later
      && no_code && negb (es_Retryable spec) && no_data
  | EventChildStarted =>
      (0 <? es_Attempt spec) && no_key && no_due && no_code && negb (es_Retryable spec) && no_data
  | EventChildStartFailed =>
      (0 <? es_Attempt spec) && no_key && no_due && stableName (es_Code spec) && no_data
  | EventChildStartUnknown =>
      (0 <? es_Attempt spec) && no_key && no_due && stableName (es_Code spec)
      && negb (es_Retryable spec) && no_data
  | EventChildStartRetryScheduled =>
      (0 <? es_Attempt spec) && no_key && due_later && no_code && negb (es_Retryable spec) && no_data
  | _ =>
      if negb (es_Attempt spec =? 0) || negb no_key || negb no_due || es_Retryable spec then false
      else if bool_decide (es_Kind spec = EventChildCompleted) then no_code
      else stableName (es_Code spec)
  end.

Definition validEventFields : bool :=
  if kind_within EventActivityScheduled EventActivityRetryScheduled (es_Kind spec) then validActivityEventFields
  else if kind_within EventTimerScheduled EventSignalReceived (es_Kind spec) then validWaitEventFields
  else if kind_within EventCompensationScheduled EventCompensationManuallyResolved (es_Kind spec)
    then validCompensationEventFields
  else if bool_decide (es_Kind spec = EventOperatorCommandRecorded) then validOperatorEventFields
  else if bool_decide (es_Kind spec = EventRaceWon) then validRaceEventFields
  else if kind_within EventChildScheduled EventChildStartRetryScheduled (es_Kind spec) then validChildEventFields
  else bool_decide (es_StepName spec = EmptyString) && (es_Attempt spec =? 0) && no_key && no_due
       && no_code && negb (es_Retryable spec).

Definition requiresDefinition (kind : EventKind) : bool :=
  match kind with
  | EventInstanceStarted | EventDefinitionMigrated | EventContinuedAsNew | EventChildScheduled => true
  | _ => false
  end.

Definition childEvent (kind : EventKind) : bool :=
  kind_within EventChildScheduled EventChildStartRetryScheduled kind.

Definition validHistoryEventSpec : bool :=
  if (es_Sequence spec =? 0) || negb (instanceIDPattern (es_InstanceID spec))
     || negb (kind_within EventInstanceStarted EventChildStartRetryScheduled (es_Kind spec))
     || IsZero (es_OccurredAt spec) || (MaxPayloadBytes <? blen (es_Data spec)) then false
  else if requiresDefinition (es_Kind spec) && negb (reference_valid (es_Definition spec)) then false
  else if negb (requiresDefinition (es_Kind spec)) && negb no_definition then false
  else if (bool_decide (es_Kind spec = EventContinuedAsNew) || childEvent (es_Kind spec))
          && negb (instanceIDPattern (es_SuccessorID spec)) then false
  else if negb (bool_decide (es_Kind spec = EventContinuedAsNew)) && negb (childEvent (es_Kind spec))
          && negb no_successor then false
  else validEventFields.
End Fields.

(** [spec.OccurredAt = canonicalTime(...); spec.DueAt = canonicalTime(...)] *)
Definition canonicalSpec (spec : HistoryEventSpec) : HistoryEventSpec :=
  mkEventSpec (es_Sequence spec) (es_InstanceID spec) (es_Kind spec) (canonicalTime (es_OccurredAt spec))
    (es_Definition spec) (es_SuccessorID spec) (es_StepName spec) (es_Attempt spec)
    (es_IdempotencyKey spec) (canonicalTime (es_DueAt spec)) (es_Code spec) (es_Retryable spec) (es_Data spec).

Definition NewHistoryEvent (spec : HistoryEventSpec) : result HistoryEvent :=
  reject IsZero (es_OccurredAt spec) with ErrInvalidHistoryEvent;
  let spec := canonicalSpec spec in
  reject negb (validHistoryEventSpec spec) with ErrInvalidHistoryEvent;
  Ok (mkEvent (es_Sequence spec) (es_InstanceID spec) (es_Kind spec) (es_OccurredAt spec)
        (es_Definition spec) (es_SuccessorID spec) (es_StepName spec) (es_Attempt spec)
        (es_IdempotencyKey spec) (es_DueAt spec) (es_Code spec) (es_Retryable spec)
        (cloneBytes (es_Data spec))).

(** ** Reading a validated event *)

(** The specification that describes an event. *)
Definition spec_of (e : HistoryEvent) : HistoryEventSpec :=
  mkEventSpec (ev_sequence e) (ev_instanceID e) (ev_kind e) (ev_occurredAt e) (ev_definition e)
    (ev_successorID e) (ev_stepName e) (ev_attempt e) (ev_idempotencyKey e) (ev_dueAt e) (ev_code e)
    (ev_retryable e) (ev_data e).

(** The event that holds a specification's fields as they are. *)
Definition event_of (spec : HistoryEventSpec) : HistoryEvent :=
  mkEvent (es_Sequence spec) (es_InstanceID spec) (es_Kind spec) (es_OccurredAt spec)
    (es_Definition spec) (es_SuccessorID spec) (es_StepName spec) (es_Attempt spec)
    (es_IdempotencyKey spec) (es_DueAt spec) (es_Code spec) (es_Retryable spec) (es_Data spec).

Lemma spec_of_event_of spec : spec_of (event_of spec) = spec.
Proof. by destruct spec. Qed.

Lemma canonicalSpec_idem spec : canonicalSpec (canonicalSpec spec) = canonicalSpec spec.
Proof. done. Qed.

Lemma NewHistoryEvent_spec spec e :
  NewHistoryEvent spec = Ok e <->
  validHistoryEventSpec (canonicalSpec spec) = true /\ e = event_of (canonicalSpec spec).
Proof.
  unfold NewHistoryEvent. rewrite cloneBytes_id.
  destruct (IsZero (es_OccurredAt spec)) eqn:Hz.
  - split; [done |]. unfold validHistoryEventSpec. cbn [es_OccurredAt canonicalSpec].
    rewrite IsZero_canonicalTime, Hz, orb_true_r. by intros [??].
  - destruct (validHistoryEventSpec (canonicalSpec spec)); cbn [negb]; [| naive_solver].
    split; [by intros [= <-] | by intros [_ ->]].
Qed.

Lemma NewHistoryEvent_not_panic spec : NewHistoryEvent spec <> Err Panic.
Proof. unfold NewHistoryEvent. repeat case_match; done. Qed.

(** A well-formed event: what a constructor call on machine-width fields returns. *)
Record event_wf (e : HistoryEvent) : Prop := {
  event_valid : validHistoryEventSpec (spec_of e) = true;
  event_occurred : canonical (ev_occurredAt e);
  event_due : canonical (ev_dueAt e);
  event_sequence_range : 0 <= ev_sequence e < 2 ^ 64;
  event_attempt_range : 0 <= ev_attempt e < 2 ^ 32
}.

Definition spec_in_range (spec : HistoryEventSpec) : Prop :=
  0 <= es_Sequence spec < 2 ^ 64 /\ 0 <= es_Attempt spec < 2 ^ 32.

Lemma NewHistoryEvent_wf spec e : spec_in_range spec -> NewHistoryEvent spec = Ok e -> event_wf e.
Proof.
  intros [Hs Ha] [Hv ->]%NewHistoryEvent_spec.
  split; [by rewrite spec_of_event_of | apply canonicalTime_canonical .. | done | done].
Qed.

Lemma event_wf_new e : event_wf e -> NewHistoryEvent (spec_of e) = Ok e.
Proof.
  intros [Hv Ho Hd _ _]. apply NewHistoryEvent_spec.
  assert (Hc : canonicalSpec (spec_of e) = spec_of e).
  { unfold canonicalSpec, spec_of. cbn [es_Sequence es_InstanceID es_Kind es_OccurredAt es_Definition
      es_SuccessorID es_StepName es_Attempt es_IdempotencyKey es_DueAt es_Code es_Retryable es_Data].
    by rewrite !canonicalTime_fix. }
  rewrite Hc. split; [done |]. by destruct e.
Qed.

(** *** The table of fields *)

Definition carries_attempt (kind : EventKind) : bool :=
  kind_within EventActivityAttemptStarted EventActivityRetryScheduled kind
  || kind_within EventCompensationAttemptStarted EventCompensationRetryScheduled kind
  || kind_within EventChildStartAttempted EventChildStartRetryScheduled kind.

Definition carries_key (kind : EventKind) : bool :=
  match kind with
  | EventActivityAttemptStarted | EventCompensationAttemptStarted | EventChildStartAttempted
  | EventSignalReceived | EventOperatorCommandRecorded => true
  | _ => false
  end.

Definition carries_due (kind : EventKind) : bool :=
  match kind with
  | EventActivityAttemptStarted | EventActivityRetryScheduled | EventTimerScheduled
  | EventCompensationAttemptStarted | EventCompensationRetryScheduled
  | EventChildStartAttempted | EventChildStartRetryScheduled => true
  | _ => false
  end.

Definition carries_code (kind : EventKind) : bool :=
  match kind with
  | EventActivityAttemptFailed | EventActivityAttemptUnknown
  | EventCompensationAttemptFailed | EventCompensationAttemptUnknown
  | EventCompensationManuallyResolved
  | EventChildFailed | EventChildStartFailed | EventChildStartUnknown => true
  | _ => false
  end.

Definition may_retry (kind : EventKind) : bool :=
  match kind with
  | EventActivityAttemptFailed | EventCompensationAttemptFailed | EventChildStartFailed => true
  | _ => false
  end.

Definition carries_step (kind : EventKind) : bool :=
  kind_within EventActivityScheduled EventCompensationManuallyResolved kind
  || kind_within EventRaceWon EventChildStartRetryScheduled kind.

(** Evaluate decisions between two given kinds. *)
Ltac decide_kinds :=
  repeat match goal with
  | H : context [@bool_decide (@eq EventKind ?a ?b) ?d] |- _ =>
      let v := eval vm_compute in (@bool_decide (@eq EventKind a b) d) in
      match v with true => idtac | false => idtac end;
      change (@bool_decide (@eq EventKind a b) d) with v in H
  | |- context [@bool_decide (@eq EventKind ?a ?b) ?d] =>
      let v := eval vm_compute in (@bool_decide (@eq EventKind a b) d) in
      match v with true => idtac | false => idtac end;
      change (@bool_decide (@eq EventKind a b) d) with v
  end.

(** Which fields a kind carries: the shape of every event the code accepts. *)
Record event_shape (e : HistoryEvent) : Prop := {
  shape_declared : ev_kind e <> EventKindUndeclared;
  shape_sequence : ev_sequence e <> 0;
  shape_instance : instanceIDPattern (ev_instanceID e) = true;
  shape_occurred : IsZero (ev_occurredAt e) = false;
  shape_data : blen (ev_data e) <= MaxPayloadBytes;
  shape_definition : if requiresDefinition (ev_kind e) then reference_valid (ev_definition e) = true
    else ev_definition e = zeroReference;
  shape_successor : if bool_decide (ev_kind e = EventContinuedAsNew) || childEvent (ev_kind e)
    then instanceIDPattern (ev_successorID e) = true else ev_successorID e = EmptyString;
  shape_step : if carries_step (ev_kind e) then stableName (ev_stepName e) = true
    else ev_stepName e = EmptyString;
  shape_attempt : if carries_attempt (ev_kind e) then 0 < ev_attempt e else ev_attempt e = 0;
  shape_key : if carries_key (ev_kind e) then instanceIDPattern (ev_idempotencyKey e) = true
    else ev_kind e <> EventOperatorCommandRecorded -> ev_idempotencyKey e = EmptyString;
  shape_due : if carries_due (ev_kind e) then After (ev_dueAt e) (ev_occurredAt e) = true
    else IsZero (ev_dueAt e) = true;
  shape_code : if carries_code (ev_kind e) then stableName (ev_code e) = true else ev_code e = EmptyString;
  shape_retryable : may_retry (ev_kind e) = false -> ev_retryable e = false
}.

Lemma valid_event_shape e : validHistoryEventSpec (spec_of e) = true -> event_shape e.
Proof.
  unfold validHistoryEventSpec. cbn [spec_of es_Sequence es_InstanceID es_Kind es_OccurredAt es_Definition
      es_SuccessorID es_StepName es_Attempt es_IdempotencyKey es_DueAt es_Code es_Retryable es_Data].
  destruct e as [sq id k oc df su st at_ ky du co re da]. cbn [ev_sequence ev_instanceID ev_kind
    ev_occurredAt ev_definition ev_successorID ev_stepName ev_attempt ev_idempotencyKey ev_dueAt
    ev_code ev_retryable ev_data].
  intros H. destruct k; cbn in H; decide_kinds; cbn in H.
  37: by rewrite orb_true_r in H.
  all: unfold validEventFields in H; cbn in H; decide_kinds;
    unfold validActivityEventFields, validWaitEventFields, validCompensationEventFields,
      validOperatorEventFields, validRaceEventFields, validChildEventFields in H; cbn in H; decide_kinds; cbn in H.
  all: repeat match type of H with (if ?b then false else _) = true => destruct b eqn:?; [discriminate H |] end.
  all: bool_norm; split; cbn; decide_kinds; cbn; try done; try lia.
Qed.

Lemma event_wf_shape e : event_wf e -> event_shape e.
Proof. intros [H _ _ _ _]. by apply valid_event_shape. Qed.

(** Replacing the two instants of a specification. *)
Definition with_times (occurred due : Time) (spec : HistoryEventSpec) : HistoryEventSpec :=
  mkEventSpec (es_Sequence spec) (es_InstanceID spec) (es_Kind spec) occurred (es_Definition spec)
    (es_SuccessorID spec) (es_StepName spec) (es_Attempt spec) (es_IdempotencyKey spec) due
    (es_Code spec) (es_Retryable spec) (es_Data spec).

Definition sample_start_spec : HistoryEventSpec :=
  mkEventSpec 1 "wf-1" EventInstanceStarted (mkTime 63800000000 5 (Some 17) (InLocation "Europe/Paris"))
    (mkDefinitionReference "order" "v1" "aaaaaaaaaaaaaaaaaaaaaaaaaaaaaaaaaaaaaaaaaaaaaaaaaaaaaaaaaaaaaaaa")
    "" "" 0 "" zeroTime "" false (Some "input"%string).

(** ** Properties *)

(** C28: An accepted event has exactly the fields of its kind: its kind is one of
    the 36 declared ones, its sequence is positive, its data is at most
    MaxPayloadBytes, and definition, successor, step, attempt, key, due time, code
    and retry flag are present and legal when the kind carries them and zero when
    it does not. *)
Theorem NewHistoryEvent_shape spec e :
  NewHistoryEvent spec = Ok e -> event_shape e.
Proof. intros [Hv ->]%NewHistoryEvent_spec. apply valid_event_shape. by rewrite spec_of_event_of. Qed.

Lemma NewHistoryEvent_shape_witness :
  exists e, NewHistoryEvent sample_start_spec = Ok e /\ event_shape e.
Proof.
  eexists. split; [reflexivity |]. apply (NewHistoryEvent_shape sample_start_spec). reflexivity.
Defined.

(** Event construction is a normal form: it depends on the two times only
    through their instants, not on locations or monotonic readings; the event
    holds canonical times; and constructing an event again from an accepted
    event's own fields gives the same event. *)
Theorem NewHistoryEvent_normal spec e occurred due :
  NewHistoryEvent spec = Ok e ->
  same_instant occurred (es_OccurredAt spec) -> same_instant due (es_DueAt spec) ->
  NewHistoryEvent (with_times occurred due spec) = Ok e
  /\ canonical (ev_occurredAt e) /\ canonical (ev_dueAt e)
  /\ NewHistoryEvent (spec_of e) = Ok e.
Proof.
  intros [Hv ->]%NewHistoryEvent_spec Ho Hd. split_and!.
  - apply NewHistoryEvent_spec.
    assert (Hc : canonicalSpec (with_times occurred due spec) = canonicalSpec spec).
    { pose proof (canonicalTime_proper _ _ Ho) as Ho'. pose proof (canonicalTime_proper _ _ Hd) as Hd'.
      unfold canonicalSpec, with_times. cbn. congruence. }
    by rewrite Hc.
  - apply canonicalTime_canonical.
  - apply canonicalTime_canonical.
  - apply NewHistoryEvent_spec. by rewrite spec_of_event_of, canonicalSpec_idem.
Qed.

Lemma NewHistoryEvent_normal_witness :
  exists e, NewHistoryEvent (with_times (mkTime 63800000000 5 None UTC) zeroTime sample_start_spec) = Ok e.
Proof.
  eexists. apply (NewHistoryEvent_normal sample_start_spec); [reflexivity | split; reflexivity | split; reflexivity].
Defined.
