(* ===== verification/Instances.v ===== *)
(** * The replayed instance (history.go, and the progress types of the *_history.go files)

    An [Instance] is the state that replaying a history reconstructs: the
    lifecycle status and one map of progress records per kind of step. *)
From S2P Require Import Prelude GoTime Definitions OperatorAudit.

(** Each status is a [uint8]; the last constructor stands for zero and every
    undeclared value: it is what the code reads for a step without progress. *)
Inductive InstanceStatus :=
  | StatusRunning | StatusPaused | StatusCancelling | StatusCompleted
  | StatusFailed | StatusCancelled | StatusTerminated | StatusContinuedAsNew
  | InstanceStatusUndeclared.

Inductive ActivityProgressStatus :=
  | ActivityProgressReady | ActivityProgressRunning | ActivityProgressSucceeded
  | ActivityProgressFailed | ActivityProgressUnknown | ActivityProgressRetryWaiting
  | ActivityProgressUndeclared.

Inductive TimerProgressStatus := TimerWaiting | TimerFired | TimerProgressUndeclared.

Inductive CompensationProgressStatus :=
  | CompensationReady | CompensationRunning | CompensationSucceeded | CompensationFailed
  | CompensationUnknown | CompensationRetryWaiting | CompensationManuallyResolved
  | CompensationProgressUndeclared.

Inductive ChildProgressStatus :=
  | ChildScheduled | ChildSucceeded | ChildFailed | ChildStartRunning | ChildActive
  | ChildStartFailedStatus | ChildStartUnknownStatus | ChildStartRetryWaiting
  | ChildProgressUndeclared.

#[export] Instance InstanceStatus_eq_dec : EqDecision InstanceStatus.
Proof. solve_decision. Defined.
#[export] Instance ActivityProgressStatus_eq_dec : EqDecision ActivityProgressStatus.
Proof. solve_decision. Defined.
#[export] Instance TimerProgressStatus_eq_dec : EqDecision TimerProgressStatus.
Proof. solve_decision. Defined.
#[export] Instance CompensationProgressStatus_eq_dec : EqDecision CompensationProgressStatus.
Proof. solve_decision. Defined.
#[export] Instance ChildProgressStatus_eq_dec : EqDecision ChildProgressStatus.
Proof. solve_decision. Defined.

Record ActivityProgress := mkActivityProgress {
  ap_stepName : string;
  ap_status : ActivityProgressStatus;
  ap_attempt : Z;
  ap_idempotencyKey : string;
  ap_dueAt : Time;
  ap_input : bytes;
  ap_result : bytes;
  ap_code : string;
  ap_retryable : bool
}.

Record TimerProgress := mkTimerProgress {
  tp_stepName : string;
  tp_status : TimerProgressStatus;
  tp_dueAt : Time;
  tp_firedAt : Time
}.

Record SignalProgress := mkSignalProgress {
  sp_stepName : string;
  sp_signalID : string;
  sp_receivedAt : Time;
  sp_payload : bytes
}.

Record RaceProgress := mkRaceProgress {
  rp_stepName : string;
  rp_winnerStepName : string;
  rp_decidedAt : Time
}.

Record CompensationProgress := mkCompensationProgress {
  cp_stepName : string;
  cp_status : CompensationProgressStatus;
  cp_scheduledSequence : Z;
  cp_attempt : Z;
  cp_idempotencyKey : string;
  cp_dueAt : Time;
  cp_input : bytes;
  cp_result : bytes;
  cp_code : string;
  cp_retryable : bool
}.

Record ChildProgress := mkChildProgress {
  hp_stepName : string;
  hp_childID : string;
  hp_definition : DefinitionReference;
  hp_status : ChildProgressStatus;
  hp_input : bytes;
  hp_result : bytes;
  hp_code : string;
  hp_attempt : Z;
  hp_idempotencyKey : string;
  hp_dueAt : Time;
  hp_retryable : bool
}.

Record OperatorActionRecord := mkOperatorRecord {
  or_commandID : string;
  or_action : OperatorAction;
  or_actor : string;
  or_reason : string;
  or_occurredAt : Time
}.

(** The zero values a map read yields for an absent key. *)
Definition zeroActivityProgress : ActivityProgress :=
  mkActivityProgress "" ActivityProgressUndeclared 0 "" zeroTime None None "" false.
Definition zeroTimerProgress : TimerProgress := mkTimerProgress "" TimerProgressUndeclared zeroTime zeroTime.
Definition zeroCompensationProgress : CompensationProgress :=
  mkCompensationProgress "" CompensationProgressUndeclared 0 0 "" zeroTime None None "" false.
Definition zeroChildProgress : ChildProgress :=
  mkChildProgress "" "" zeroReference ChildProgressUndeclared None None "" 0 "" zeroTime false.

Record Instance_ := mkInstance {
  in_id : string;
  in_definition : DefinitionReference;
  in_status : InstanceStatus;
  in_sequence : Z;
  in_startedAt : Time;
  in_updatedAt : Time;
  in_input : bytes;
  in_result : bytes;
  in_successorID : string;
  in_activities : gmap string ActivityProgress;
  in_timers : gmap string TimerProgress;
  in_signals : gmap string SignalProgress;
  in_races : gmap string RaceProgress;
  in_children : gmap string ChildProgress;
  in_compensations : gmap string CompensationProgress;
  in_operatorActions : list OperatorActionRecord;
  in_pendingOperator : OperatorAction
}.

(** [Instance{}]; a nil map reads like an empty one. *)
Definition zeroInstance : Instance_ :=
  mkInstance "" zeroReference InstanceStatusUndeclared 0 zeroTime zeroTime None None "" ∅ ∅ ∅ ∅ ∅ ∅ []
    OperatorActionUndeclared.

(** Assignments to single fields, in the order the code writes them. *)
Section Updates.
Context (i : Instance_).

Definition set_status (v : InstanceStatus) : Instance_ :=
  mkInstance (in_id i) (in_definition i) v (in_sequence i) (in_startedAt i) (in_updatedAt i) (in_input i)
    (in_result i) (in_successorID i) (in_activities i) (in_timers i) (in_signals i) (in_races i)
    (in_children i) (in_compensations i) (in_operatorActions i) (in_pendingOperator i).
Definition set_result (v : bytes) : Instance_ :=
  mkInstance (in_id i) (in_definition i) (in_status i) (in_sequence i) (in_startedAt i) (in_updatedAt i) (in_input i)
    v (in_successorID i) (in_activities i) (in_timers i) (in_signals i) (in_races i)
    (in_children i) (in_compensations i) (in_operatorActions i) (in_pendingOperator i).
Definition set_definition_input (d : DefinitionReference) (v : bytes) : Instance_ :=
  mkInstance (in_id i) d (in_status i) (in_sequence i) (in_startedAt i) (in_updatedAt i) v
    (in_result i) (in_successorID i) (in_activities i) (in_timers i) (in_signals i) (in_races i)
    (in_children i) (in_compensations i) (in_operatorActions i) (in_pendingOperator i).
Definition set_successorID (v : string) : Instance_ :=
  mkInstance (in_id i) (in_definition i) (in_status i) (in_sequence i) (in_startedAt i) (in_updatedAt i) (in_input i)
    (in_result i) v (in_activities i) (in_timers i) (in_signals i) (in_races i)
    (in_children i) (in_compensations i) (in_operatorActions i) (in_pendingOperator i).
Definition set_activity (name : string) (p : ActivityProgress) : Instance_ :=
  mkInstance (in_id i) (in_definition i) (in_status i) (in_sequence i) (in_startedAt i) (in_updatedAt i) (in_input i)
    (in_result i) (in_successorID i) (<[name := p]> (in_activities i)) (in_timers i) (in_signals i) (in_races i)
    (in_children i) (in_compensations i) (in_operatorActions i) (in_pendingOperator i).
Definition set_timer (name : string) (p : TimerProgress) : Instance_ :=
  mkInstance (in_id i) (in_definition i) (in_status i) (in_sequence i) (in_startedAt i) (in_updatedAt i) (in_input i)
    (in_result i) (in_successorID i) (in_activities i) (<[name := p]> (in_timers i)) (in_signals i) (in_races i)
    (in_children i) (in_compensations i) (in_operatorActions i) (in_pendingOperator i).
Definition set_signal (name : string) (p : SignalProgress) : Instance_ :=
  mkInstance (in_id i) (in_definition i) (in_status i) (in_sequence i) (in_startedAt i) (in_updatedAt i) (in_input i)
    (in_result i) (in_successorID i) (in_activities i) (in_timers i) (<[name := p]> (in_signals i)) (in_races i)
    (in_children i) (in_compensations i) (in_operatorActions i) (in_pendingOperator i).
Definition set_race (name : string) (p : RaceProgress) : Instance_ :=
  mkInstance (in_id i) (in_definition i) (in_status i) (in_sequence i) (in_startedAt i) (in_updatedAt i) (in_input i)
    (in_result i) (in_successorID i) (in_activities i) (in_timers i) (in_signals i) (<[name := p]> (in_races i))
    (in_children i) (in_compensations i) (in_operatorActions i) (in_pendingOperator i).
Definition set_child (name : string) (p : ChildProgress) : Instance_ :=
  mkInstance (in_id i) (in_definition i) (in_status i) (in_sequence i) (in_startedAt i) (in_updatedAt i) (in_input i)
    (in_result i) (in_successorID i) (in_activities i) (in_timers i) (in_signals i) (in_races i)
    (<[name := p]> (in_children i)) (in_compensations i) (in_operatorActions i) (in_pendingOperator i).
Definition set_compensation (name : string) (p : CompensationProgress) : Instance_ :=
  mkInstance (in_id i) (in_definition i) (in_status i) (in_sequence i) (in_startedAt i) (in_updatedAt i) (in_input i)
    (in_result i) (in_successorID i) (in_activities i) (in_timers i) (in_signals i) (in_races i)
    (in_children i) (<[name := p]> (in_compensations i)) (in_operatorActions i) (in_pendingOperator i).
Definition set_operator (records : list OperatorActionRecord) (pending : OperatorAction) : Instance_ :=
  mkInstance (in_id i) (in_definition i) (in_status i) (in_sequence i) (in_startedAt i) (in_updatedAt i) (in_input i)
    (in_result i) (in_successorID i) (in_activities i) (in_timers i) (in_signals i) (in_races i)
    (in_children i) (in_compensations i) records pending.
Definition set_position (sequence : Z) (updatedAt : Time) : Instance_ :=
  mkInstance (in_id i) (in_definition i) (in_status i) sequence (in_startedAt i) updatedAt (in_input i)
    (in_result i) (in_successorID i) (in_activities i) (in_timers i) (in_signals i) (in_races i)
    (in_children i) (in_compensations i) (in_operatorActions i) (in_pendingOperator i).
End Updates.

Definition terminalStatus (status : InstanceStatus) : bool :=
  match status with
  | StatusCompleted | StatusFailed | StatusCancelled | StatusTerminated | StatusContinuedAsNew => true
  | _ => false
  end.

(** ** Lookup of steps in a definition *)

(** [definitionStep]: the first step with the name and kind. *)
Fixpoint find_step (name : string) (kind : StepKind) (steps : list StepSpec) : option StepSpec :=
  match steps with
  | [] => None
  | step :: rest =>
      if bool_decide (step_Name step = name) && bool_decide (step_Kind step = kind) then Some step
      else find_step name kind rest
  end.

Definition definitionStep (definition : Definition_) (name : string) (kind : StepKind) : option StepSpec :=
  find_step name kind (ds_Steps (def_spec definition)).

Definition definitionActivityStep (definition : Definition_) (name : string) : option StepSpec :=
  definitionStep definition name StepActivity.

Definition containsBranch (branches : list string) (candidate : string) : bool :=
  existsb (fun branch => bool_decide (branch = candidate)) branches.

Lemma find_step_Some name kind steps step :
  find_step name kind steps = Some step -> step ∈ steps /\ step_Name step = name /\ step_Kind step = kind.
Proof.
  induction steps as [| s l IH]; cbn [find_step]; [done |].
  destruct (bool_decide (step_Name s = name) && _) eqn:E.
  - intros [= <-]. bool_norm. split_and!; [by left | done | done].
  - intros (? & ? & ?)%IH. split_and!; [by right | done | done].
Qed.

(** With unique names the lookup is exact. *)
Lemma find_step_iff name kind steps step :
  NoDup (map step_Name steps) ->
  find_step name kind steps = Some step <-> step ∈ steps /\ step_Name step = name /\ step_Kind step = kind.
Proof.
  intros Hnd. split; [apply find_step_Some |]. intros (Hin & Hn & Hk).
  induction steps as [| s l IH]; [by apply elem_of_nil in Hin |]. cbn [find_step map] in *.
  apply NoDup_cons in Hnd as [Hni Hnd]. apply elem_of_cons in Hin as [<- | Hin].
  - by rewrite !bool_decide_eq_true_2.
  - rewrite (bool_decide_eq_false_2 (step_Name s = name)); [by apply IH |].
    intros He. apply Hni. rewrite He, <- Hn. by apply list_elem_of_fmap_2.
Qed.

Lemma containsBranch_spec branches candidate : containsBranch branches candidate = true <-> candidate ∈ branches.
Proof.
  unfold containsBranch. rewrite existsb_exists. setoid_rewrite bool_decide_eq_true.
  rewrite list_elem_of_In. naive_solver.
Qed.
