(* ===== verification/ActivityHistory.v ===== *)
(** * Replaying activity events (activity_history.go)

    One [applyActivity] step per activity event, and the retry delay that the
    schedule of a retry must match exactly. *)
From S2P Require Import Prelude GoTime Definitions Registry OperatorAudit Event Instances.

(** The definition an instance is pinned to, as every apply function reads it:
    the error is dropped and the zero definition has no steps. *)
Definition pinnedDefinition (registry : option Registry) (i : Instance_) : Definition_ :=
  or_zero zeroDefinition (Resolve registry (ref_name (in_definition i)) (ref_version (in_definition i))).

(** *** Retry delay *)

Definition doubleDelay (policy : RetryPolicy) (delay : Z) : Z :=
  i64 (Z.min (u64 (u64 delay * 2)) (u64 (MaxDelay policy))).

Definition retryDelay (policy : RetryPolicy) (attempt : Z) : Z :=
  Nat.iter (Z.to_nat (Z.min (u32 (attempt - 1)) 63)) (doubleDelay policy) (InitialDelay policy).

(** *** The transitions of one activity *)

Definition activityOutcomeAllowed (progress : ActivityProgress) (event : HistoryEvent) : bool :=
  bool_decide (ap_status progress = ActivityProgressRunning) && (ev_attempt event =? ap_attempt progress).

(** [progress] with an outcome: the three outcome branches write these fields. *)
Definition with_outcome (progress : ActivityProgress) (status : ActivityProgressStatus)
    (result : bytes) (code : string) (retryable : bool) : ActivityProgress :=
  mkActivityProgress (ap_stepName progress) status (ap_attempt progress) (ap_idempotencyKey progress)
    zeroTime (ap_input progress) result code retryable.

Definition applyActivity (registry : option Registry) (i : Instance_) (event : HistoryEvent) : result Instance_ :=
  match definitionActivityStep (pinnedDefinition registry i) (ev_stepName event) with
  | None => Err ErrInvalidTransition
  | Some step =>
      let entry := in_activities i !! ev_stepName event in
      let progress := default zeroActivityProgress entry in
      match ev_kind event with
      | EventActivityScheduled =>
          reject negb (bool_decide (in_status i = StatusRunning)) || bool_decide (is_Some entry)
            || (step_InputLimit step <? blen (ev_data event)) with ErrInvalidTransition;
          Ok (set_activity i (ev_stepName event)
            (mkActivityProgress (ev_stepName event) ActivityProgressReady 0 "" zeroTime
               (cloneBytes (ev_data event)) None "" false))
      | EventActivityAttemptStarted =>
          reject negb (bool_decide (in_status i = StatusRunning))
            || (negb (bool_decide (ap_status progress = ActivityProgressReady))
                && negb (bool_decide (ap_status progress = ActivityProgressRetryWaiting)))
            || negb (ev_attempt event =? u32 (ap_attempt progress + 1))
            || (MaxAttempts (step_Retry step) <? ev_attempt event)
            || negb (bool_decide (ev_dueAt event = canonicalTime (Add (ev_occurredAt event) (step_Timeout step))))
            || (bool_decide (ap_status progress = ActivityProgressRetryWaiting)
                && Before (ev_occurredAt event) (ap_dueAt progress)) with ErrInvalidTransition;
          Ok (set_activity i (ev_stepName event)
            (mkActivityProgress (ap_stepName progress) ActivityProgressRunning (ev_attempt event)
               (ev_idempotencyKey event) (ev_dueAt event) (ap_input progress) None "" false))
      | EventActivityAttemptSucceeded =>
          reject negb (activityOutcomeAllowed progress event) || (step_ResultLimit step <? blen (ev_data event))
            with ErrInvalidTransition;
          Ok (set_activity i (ev_stepName event)
            (with_outcome progress ActivityProgressSucceeded (cloneBytes (ev_data event)) "" false))
      | EventActivityAttemptFailed =>
          reject negb (activityOutcomeAllowed progress event) || (step_ResultLimit step <? blen (ev_data event))
            with ErrInvalidTransition;
          Ok (set_activity i (ev_stepName event)
            (with_outcome progress ActivityProgressFailed (cloneBytes (ev_data event)) (ev_code event)
               (ev_retryable event)))
      | EventActivityAttemptUnknown =>
          reject negb (activityOutcomeAllowed progress event) || (step_ResultLimit step <? blen (ev_data event))
            with ErrInvalidTransition;
          Ok (set_activity i (ev_stepName event)
            (with_outcome progress ActivityProgressUnknown (cloneBytes (ev_data event)) (ev_code event) false))
      | EventActivityRetryScheduled =>
          reject negb (bool_decide (in_status i = StatusRunning))
            || negb (bool_decide (ap_status progress = ActivityProgressFailed))
            || negb (ap_retryable progress)
            || (MaxAttempts (step_Retry step) <=? ap_attempt progress)
            || negb (ev_attempt event =? ap_attempt progress)
            || negb (bool_decide (ev_dueAt event
                 = canonicalTime (Add (ev_occurredAt event) (retryDelay (step_Retry step) (ev_attempt event)))))
            with ErrInvalidTransition;
          Ok (set_activity i (ev_stepName event)
            (mkActivityProgress (ap_stepName progress) ActivityProgressRetryWaiting (ap_attempt progress)
               (ap_idempotencyKey progress) (ev_dueAt event) (ap_input progress) (ap_result progress)
               (ap_code progress) (ap_retryable progress)))
      | _ => Ok i
      end
  end.

(** ** The retry delay is exponential and capped *)

Definition retry_in_range (policy : RetryPolicy) : Prop :=
  MaxAttempts policy < 2 ^ 32 /\ MaxDelay policy <= MaxInt64.

Lemma doubleDelay_spec policy delay :
  retry_in_range policy -> 0 < delay <= MaxDelay policy ->
  doubleDelay policy delay = Z.min (delay * 2) (MaxDelay policy).
Proof.
  unfold retry_in_range, doubleDelay, MaxInt64. intros [_ Hr] Hd.
  rewrite (u64_small delay), (u64_small (MaxDelay policy)), (u64_small (delay * 2)) by lia.
  apply i64_small. unfold MinInt64, MaxInt64. lia.
Qed.

Lemma iter_doubleDelay policy n :
  retry_in_range policy -> 0 < InitialDelay policy <= MaxDelay policy ->
  Nat.iter n (doubleDelay policy) (InitialDelay policy)
  = Z.min (InitialDelay policy * 2 ^ Z.of_nat n) (MaxDelay policy).
Proof.
  intros Hr Hd. induction n as [| n IH]; [change (2 ^ Z.of_nat 0) with 1; cbn; lia |].
  assert (Hp : 0 < InitialDelay policy * 2 ^ Z.of_nat n) by (apply Z.mul_pos_pos; lia).
  change (Nat.iter (S n) (doubleDelay policy) (InitialDelay policy))
    with (doubleDelay policy (Nat.iter n (doubleDelay policy) (InitialDelay policy))).
  rewrite IH, doubleDelay_spec by (done || lia).
  rewrite Nat2Z.inj_succ, Z.pow_succ_r by lia. lia.
Qed.

Lemma retryDelay_closed policy attempt :
  validRetry policy = true -> retry_in_range policy -> 1 <= attempt < 2 ^ 32 ->
  retryDelay policy attempt = Z.min (InitialDelay policy * 2 ^ (attempt - 1)) (MaxDelay policy).
Proof.
  intros Hv Hr Ha. unfold validRetry in Hv. bool_norm.
  unfold retryDelay. rewrite u32_small, iter_doubleDelay by (done || lia).
  rewrite Z2Nat.id by lia. destruct (Z.min_spec (attempt - 1) 63) as [[Hle ->] | [Hgt ->]]; [done |].
  assert (Hb : 2 ^ 63 <= 2 ^ (attempt - 1)) by (apply Z.pow_le_mono_r; lia).
  destruct Hr as [_ Hm]. unfold MaxInt64 in Hm.
  rewrite !Z.min_r; [done | nia | nia].
Qed.

(** ** The activity state machine, as rules *)

Definition activityEvent (kind : EventKind) : bool :=
  kind_within EventActivityScheduled EventActivityRetryScheduled kind.

Section Rules.
Context (step : StepSpec) (status : InstanceStatus) (e : HistoryEvent).

(** An attempt may start from Ready, or from RetryWaiting once it is due. *)
Definition startable (p : ActivityProgress) : Prop :=
  ap_status p = ActivityProgressReady
  \/ (ap_status p = ActivityProgressRetryWaiting /\ Before (ev_occurredAt e) (ap_dueAt p) = false).

Definition running_attempt (p : ActivityProgress) : Prop :=
  ap_status p = ActivityProgressRunning /\ ev_attempt e = ap_attempt p
  /\ blen (ev_data e) <= step_ResultLimit step.

Inductive activity_step : option ActivityProgress -> ActivityProgress -> Prop :=
  | activity_schedule :
      ev_kind e = EventActivityScheduled -> status = StatusRunning ->
      blen (ev_data e) <= step_InputLimit step ->
      activity_step None
        (mkActivityProgress (ev_stepName e) ActivityProgressReady 0 "" zeroTime (ev_data e) None "" false)
  | activity_start p :
      ev_kind e = EventActivityAttemptStarted -> status = StatusRunning -> startable p ->
      ev_attempt e = u32 (ap_attempt p + 1) -> ev_attempt e <= MaxAttempts (step_Retry step) ->
      ev_dueAt e = canonicalTime (Add (ev_occurredAt e) (step_Timeout step)) ->
      activity_step (Some p)
        (mkActivityProgress (ap_stepName p) ActivityProgressRunning (ev_attempt e)
           (ev_idempotencyKey e) (ev_dueAt e) (ap_input p) None "" false)
  | activity_succeed p :
      ev_kind e = EventActivityAttemptSucceeded -> running_attempt p ->
      activity_step (Some p) (with_outcome p ActivityProgressSucceeded (ev_data e) "" false)
  | activity_fail p :
      ev_kind e = EventActivityAttemptFailed -> running_attempt p ->
      activity_step (Some p) (with_outcome p ActivityProgressFailed (ev_data e) (ev_code e) (ev_retryable e))
  | activity_unknown p :
      ev_kind e = EventActivityAttemptUnknown -> running_attempt p ->
      activity_step (Some p) (with_outcome p ActivityProgressUnknown (ev_data e) (ev_code e) false)
  | activity_retry p :
      ev_kind e = EventActivityRetryScheduled -> status = StatusRunning ->
      ap_status p = ActivityProgressFailed -> ap_retryable p = true ->
      ap_attempt p < MaxAttempts (step_Retry step) -> ev_attempt e = ap_attempt p ->
      ev_dueAt e = canonicalTime (Add (ev_occurredAt e) (retryDelay (step_Retry step) (ev_attempt e))) ->
      activity_step (Some p)
        (mkActivityProgress (ap_stepName p) ActivityProgressRetryWaiting (ap_attempt p)
           (ap_idempotencyKey p) (ev_dueAt e) (ap_input p) (ap_result p) (ap_code p) (ap_retryable p)).
End Rules.

Lemma activityOutcomeAllowed_spec step p e :
  negb (activityOutcomeAllowed p e) || (step_ResultLimit step <? blen (ev_data e)) = false
  <-> running_attempt step e p.
Proof.
  unfold activityOutcomeAllowed, running_attempt. rewrite orb_false_iff, negb_false_iff, andb_true_iff,
    bool_decide_eq_true, Z.eqb_eq, Z.ltb_ge. tauto.
Qed.

(** The code takes exactly the steps of the rules. *)
Lemma applyActivity_iff registry i e i' :
  activityEvent (ev_kind e) = true ->
  applyActivity registry i e = Ok i' <->
  exists step p', definitionActivityStep (pinnedDefinition registry i) (ev_stepName e) = Some step
    /\ activity_step step (in_status i) e (in_activities i !! ev_stepName e) p'
    /\ i' = set_activity i (ev_stepName e) p'.
Proof.
  intros Hk. unfold applyActivity. rewrite cloneBytes_id.
  destruct (definitionActivityStep _ _) as [step |]; [| split; [done | by intros (? & ? & ? & _)]].
  set (entry := in_activities i !! ev_stepName e). clearbody entry. split.
  - intros H. exists step. destruct (ev_kind e) eqn:Ek; try done.
    all: match type of H with (if ?b then _ else _) = _ => destruct b eqn:E; [done | injection H as <-] end.
    all: try (apply (activityOutcomeAllowed_spec step) in E; destruct entry as [p |]; [| by destruct E]).
    all: eexists; split_and!; [done | | reflexivity].
    + bool_norm. destruct entry as [p |]; [by exfalso; eauto |]. by apply activity_schedule.
    + bool_norm. destruct entry as [p |]; [| naive_solver].
      apply activity_start; unfold startable; naive_solver.
    + by apply activity_succeed.
    + by apply activity_fail.
    + by apply activity_unknown.
    + bool_norm. destruct entry as [p |]; [| naive_solver]. by apply activity_retry.
  - intros (step' & p' & [= <-] & Hs & ->). inversion Hs as [Ek Hst Hl Hn | p Ek Hst Hsp Ha Hm Hd Hp
      | p Ek Hr Hp | p Ek Hr Hp | p Ek Hr Hp | p Ek Hst Hf Hr Hm Ha Hd Hp]; subst; rewrite Ek; cbn [default from_option id].
    all: try (apply (activityOutcomeAllowed_spec step) in Hr; by rewrite Hr).
    all: unfold startable in *; guard_ok; reflexivity.
Qed.
