(* ===== verification/WaitHistory.v ===== *)
(** * Replaying timer, signal and race events (wait_history.go, race_history.go) *)
From S2P Require Import Prelude GoTime Definitions Registry OperatorAudit Event Instances.
From S2P Require Import ActivityHistory.

Definition applyWait (registry : option Registry) (i : Instance_) (event : HistoryEvent) : result Instance_ :=
  reject negb (bool_decide (ev_kind event = EventTimerScheduled))
    && negb (bool_decide (ev_kind event = EventTimerFired))
    && negb (bool_decide (ev_kind event = EventSignalReceived)) with ErrInvalidTransition;
  let definition := pinnedDefinition registry i in
  if bool_decide (ev_kind event = EventSignalReceived) then
    let found :=
      match definitionStep definition (ev_stepName event) StepSignal with
      | Some step => Some step
      | None => definitionStep definition (ev_stepName event) StepApproval
      end in
    match found with
    | None => Err ErrInvalidTransition
    | Some step =>
        reject (negb (bool_decide (in_status i = StatusRunning)) && negb (bool_decide (in_status i = StatusPaused)))
          || bool_decide (is_Some (in_signals i !! ev_stepName event))
          || (step_InputLimit step <? blen (ev_data event)) with ErrInvalidTransition;
        Ok (set_signal i (ev_stepName event)
          (mkSignalProgress (ev_stepName event) (ev_idempotencyKey event) (ev_occurredAt event)
             (cloneBytes (ev_data event))))
    end
  else
    match definitionStep definition (ev_stepName event) StepTimer with
    | None => Err ErrInvalidTransition
    | Some step =>
        let entry := in_timers i !! ev_stepName event in
        let progress := default zeroTimerProgress entry in
        if bool_decide (ev_kind event = EventTimerScheduled) then
          reject negb (bool_decide (in_status i = StatusRunning)) || bool_decide (is_Some entry)
            || negb (bool_decide (ev_dueAt event = canonicalTime (Add (ev_occurredAt event) (step_Timeout step))))
            with ErrInvalidTransition;
          Ok (set_timer i (ev_stepName event)
            (mkTimerProgress (ev_stepName event) TimerWaiting (ev_dueAt event) zeroTime))
        else
          reject negb (bool_decide (in_status i = StatusRunning)) || negb (bool_decide (is_Some entry))
            || negb (bool_decide (tp_status progress = TimerWaiting))
            || Before (ev_occurredAt event) (tp_dueAt progress) with ErrInvalidTransition;
          Ok (set_timer i (ev_stepName event)
            (mkTimerProgress (tp_stepName progress) TimerFired (tp_dueAt progress) (ev_occurredAt event)))
    end.

Definition applyRace (registry : option Registry) (i : Instance_) (event : HistoryEvent) : result Instance_ :=
  let winner := bstr (ev_data event) in
  match definitionStep (pinnedDefinition registry i) (ev_stepName event) StepRace with
  | None => Err ErrInvalidTransition
  | Some step =>
      reject negb (bool_decide (in_status i = StatusRunning))
        || negb (bool_decide (is_Some (in_signals i !! winner)))
        || negb (containsBranch (step_Branches step) winner) with ErrInvalidTransition;
      reject bool_decide (is_Some (in_races i !! ev_stepName event)) with ErrInvalidTransition;
      Ok (set_race i (ev_stepName event) (mkRaceProgress (ev_stepName event) winner (ev_occurredAt event)))
  end.

(** ** The wait state machines, as rules *)

(** The step a signal event answers: a signal step, or else an approval step. *)
Definition signalStep (definition : Definition_) (name : string) : option StepSpec :=
  match definitionStep definition name StepSignal with
  | Some step => Some step
  | None => definitionStep definition name StepApproval
  end.

Section Rules.
Context (registry : option Registry) (i : Instance_) (e : HistoryEvent).

Inductive wait_step : Instance_ -> Prop :=
  | wait_signal step :
      ev_kind e = EventSignalReceived ->
      signalStep (pinnedDefinition registry i) (ev_stepName e) = Some step ->
      in_status i = StatusRunning \/ in_status i = StatusPaused ->
      in_signals i !! ev_stepName e = None -> blen (ev_data e) <= step_InputLimit step ->
      wait_step (set_signal i (ev_stepName e)
        (mkSignalProgress (ev_stepName e) (ev_idempotencyKey e) (ev_occurredAt e) (ev_data e)))
  | wait_timer_scheduled step :
      ev_kind e = EventTimerScheduled ->
      definitionStep (pinnedDefinition registry i) (ev_stepName e) StepTimer = Some step ->
      in_status i = StatusRunning -> in_timers i !! ev_stepName e = None ->
      ev_dueAt e = canonicalTime (Add (ev_occurredAt e) (step_Timeout step)) ->
      wait_step (set_timer i (ev_stepName e)
        (mkTimerProgress (ev_stepName e) TimerWaiting (ev_dueAt e) zeroTime))
  | wait_timer_fired step p :
      ev_kind e = EventTimerFired ->
      definitionStep (pinnedDefinition registry i) (ev_stepName e) StepTimer = Some step ->
      in_status i = StatusRunning -> in_timers i !! ev_stepName e = Some p ->
      tp_status p = TimerWaiting -> Before (ev_occurredAt e) (tp_dueAt p) = false ->
      wait_step (set_timer i (ev_stepName e)
        (mkTimerProgress (tp_stepName p) TimerFired (tp_dueAt p) (ev_occurredAt e))).
End Rules.

Lemma applyWait_iff registry i e i' :
  applyWait registry i e = Ok i' <-> wait_step registry i e i'.
Proof.
  unfold applyWait. rewrite cloneBytes_id. split.
  - intros H. destruct (ev_kind e) eqn:Ek; decide_kinds; try discriminate H; cbv beta iota in H;
      cbn [negb andb] in H; walk H; subst; bool_norm.
    + eapply wait_timer_scheduled; eauto. by apply eq_None_not_Some.
    + destruct (in_timers i !! ev_stepName e) as [p |] eqn:Hp; [| naive_solver].
      eapply wait_timer_fired; eauto.
    + eapply wait_signal; eauto; first [by apply eq_None_not_Some | done | naive_solver].
  - intros [step Ek Hs Hst Hn Hl | step Ek Hs Hst Hn Hd | step p Ek Hs Hst Hp Hw Hb]; rewrite Ek; decide_kinds.
    + unfold signalStep in Hs. rewrite Hs. rewrite Hn. guard_ok. reflexivity.
    + rewrite Hs, Hn. guard_ok. reflexivity.
    + rewrite Hs, Hp. cbn [default from_option id]. guard_ok. reflexivity.
Qed.

Lemma applyRace_iff registry i e i' :
  applyRace registry i e = Ok i' <->
  exists step, definitionStep (pinnedDefinition registry i) (ev_stepName e) StepRace = Some step
    /\ in_status i = StatusRunning /\ is_Some (in_signals i !! bstr (ev_data e))
    /\ bstr (ev_data e) ∈ step_Branches step /\ in_races i !! ev_stepName e = None
    /\ i' = set_race i (ev_stepName e) (mkRaceProgress (ev_stepName e) (bstr (ev_data e)) (ev_occurredAt e)).
Proof.
  unfold applyRace. destruct (definitionStep _ _ _) as [step |]; [| split; [done | by intros (? & [=] & _)]].
  split.
  - intros H. walk H. subst. exists step. bool_norm. split_and!; try done.
    + by apply containsBranch_spec.
    + by apply eq_None_not_Some.
  - intros (? & [= <-] & Hst & Hs & Hb & Hn & ->). apply containsBranch_spec in Hb. rewrite Hn. guard_ok. reflexivity.
Qed.
