(* ===== verification/ChildHistory.v ===== *)
(** * Replaying child-workflow events (child_history.go) *)
From S2P Require Import Prelude GoTime Definitions Registry OperatorAudit Event Instances.
From S2P Require Import ActivityHistory.

(** [validateReference] of history.go: the pinned definition resolves with the
    pinned fingerprint. *)
Definition validateReference (registry : option Registry) (reference : DefinitionReference) : result unit :=
  definition ← Resolve registry (ref_name reference) (ref_version reference);
  reject negb (bool_decide (def_fingerprint definition = ref_fingerprint reference)) with ErrDefinitionMismatch;
  Ok tt.

(** [childTerminalOutcomeAllowed] of child_transition.go. *)
Definition childTerminalOutcomeAllowed (status : ChildProgressStatus) : bool :=
  match status with
  | ChildScheduled | ChildStartRunning | ChildActive | ChildStartUnknownStatus => true
  | _ => false
  end.

(** The [switch event.kind] on an existing child. *)
Definition applyChildProgress (step : StepSpec) (progress : ChildProgress) (event : HistoryEvent)
    : result ChildProgress :=
  let with_start (status : ChildProgressStatus) (code : string) (retryable : bool) :=
    mkChildProgress (hp_stepName progress) (hp_childID progress) (hp_definition progress) status
      (hp_input progress) (hp_result progress) code (hp_attempt progress) (hp_idempotencyKey progress)
      zeroTime retryable in
  match ev_kind event with
  | EventChildStartAttempted =>
      reject (match hp_status progress with
              | ChildScheduled => false
              | ChildStartRetryWaiting => Before (ev_occurredAt event) (hp_dueAt progress)
              | _ => true
              end) with ErrInvalidTransition;
      reject negb (ev_attempt event =? u32 (hp_attempt progress + 1))
        || (MaxAttempts (step_Retry step) <? ev_attempt event)
        || negb (bool_decide (ev_dueAt event = canonicalTime (Add (ev_occurredAt event) (step_Timeout step))))
        with ErrInvalidTransition;
      Ok (mkChildProgress (hp_stepName progress) (hp_childID progress) (hp_definition progress)
            ChildStartRunning (hp_input progress) (hp_result progress) "" (ev_attempt event)
            (ev_idempotencyKey event) (ev_dueAt event) false)
  | EventChildStarted =>
      reject negb (bool_decide (hp_status progress = ChildStartRunning))
        || negb (ev_attempt event =? hp_attempt progress) with ErrInvalidTransition;
      Ok (with_start ChildActive (hp_code progress) (hp_retryable progress))
  | EventChildStartFailed =>
      reject negb (bool_decide (hp_status progress = ChildStartRunning))
        || negb (ev_attempt event =? hp_attempt progress) with ErrInvalidTransition;
      Ok (with_start ChildStartFailedStatus (ev_code event) (ev_retryable event))
  | EventChildStartUnknown =>
      reject negb (bool_decide (hp_status progress = ChildStartRunning))
        || negb (ev_attempt event =? hp_attempt progress) with ErrInvalidTransition;
      Ok (with_start ChildStartUnknownStatus (ev_code event) false)
  | EventChildStartRetryScheduled =>
      reject negb (bool_decide (hp_status progress = ChildStartFailedStatus))
        || negb (hp_retryable progress)
        || (MaxAttempts (step_Retry step) <=? hp_attempt progress)
        || negb (ev_attempt event =? hp_attempt progress)
        || negb (bool_decide (ev_dueAt event
             = canonicalTime (Add (ev_occurredAt event) (retryDelay (step_Retry step) (ev_attempt event)))))
        with ErrInvalidTransition;
      Ok (mkChildProgress (hp_stepName progress) (hp_childID progress) (hp_definition progress)
            ChildStartRetryWaiting (hp_input progress) (hp_result progress) (hp_code progress)
            (hp_attempt progress) (hp_idempotencyKey progress) (ev_dueAt event) (hp_retryable progress))
  | _ =>
      reject negb (childTerminalOutcomeAllowed (hp_status progress))
        || (step_ResultLimit step <? blen (ev_data event)) with ErrInvalidTransition;
      Ok (mkChildProgress (hp_stepName progress) (hp_childID progress) (hp_definition progress)
            (if bool_decide (ev_kind event = EventChildCompleted) then ChildSucceeded else ChildFailed)
            (hp_input progress) (cloneBytes (ev_data event)) (ev_code event) (hp_attempt progress)
            (hp_idempotencyKey progress) (hp_dueAt progress) (hp_retryable progress))
  end.

Definition applyChild (registry : option Registry) (i : Instance_) (event : HistoryEvent) : result Instance_ :=
  match definitionStep (pinnedDefinition registry i) (ev_stepName event) StepChild with
  | None => Err ErrInvalidTransition
  | Some step =>
      reject negb (bool_decide (in_status i = StatusRunning)) with ErrInvalidTransition;
      let entry := in_children i !! ev_stepName event in
      if bool_decide (ev_kind event = EventChildScheduled) then
        reject bool_decide (is_Some entry)
          || negb (bool_decide (step_ChildDefinition step = ev_definition event))
          || (step_InputLimit step <? blen (ev_data event))
          || negb (is_ok (validateReference registry (ev_definition event))) with ErrInvalidTransition;
        Ok (set_child i (ev_stepName event)
          (mkChildProgress (ev_stepName event) (ev_successorID event) (ev_definition event) ChildScheduled
             (cloneBytes (ev_data event)) None "" 0 "" zeroTime false))
      else
        match entry with
        | None => Err ErrInvalidTransition
        | Some progress =>
            reject negb (bool_decide (hp_childID progress = ev_successorID event)) with ErrInvalidTransition;
            progress' ← applyChildProgress step progress event;
            Ok (set_child i (ev_stepName event) progress')
        end
  end.

(** ** The child state machine, as rules *)

Definition childStartEvent (kind : EventKind) : bool :=
  kind_within EventChildStartAttempted EventChildStartRetryScheduled kind.

Section Rules.
Context (registry : option Registry) (step : StepSpec) (e : HistoryEvent).

Definition child_startable (p : ChildProgress) : Prop :=
  hp_status p = ChildScheduled
  \/ (hp_status p = ChildStartRetryWaiting /\ Before (ev_occurredAt e) (hp_dueAt p) = false).

Definition child_attempt (p : ChildProgress) : Prop :=
  hp_status p = ChildStartRunning /\ ev_attempt e = hp_attempt p.

Definition child_with (p : ChildProgress) (status : ChildProgressStatus) (result : bytes) (code : string)
    (due : Time) (retryable : bool) : ChildProgress :=
  mkChildProgress (hp_stepName p) (hp_childID p) (hp_definition p) status (hp_input p) result code
    (hp_attempt p) (hp_idempotencyKey p) due retryable.

Definition child_outcome_status (kind : EventKind) : ChildProgressStatus :=
  match kind with EventChildCompleted => ChildSucceeded | _ => ChildFailed end.

Inductive child_step : option ChildProgress -> ChildProgress -> Prop :=
  | child_schedule :
      ev_kind e = EventChildScheduled -> step_ChildDefinition step = ev_definition e ->
      blen (ev_data e) <= step_InputLimit step ->
      is_ok (validateReference registry (ev_definition e)) = true ->
      child_step None
        (mkChildProgress (ev_stepName e) (ev_successorID e) (ev_definition e) ChildScheduled
           (ev_data e) None "" 0 "" zeroTime false)
  | child_start p :
      ev_kind e = EventChildStartAttempted -> hp_childID p = ev_successorID e -> child_startable p ->
      ev_attempt e = u32 (hp_attempt p + 1) -> ev_attempt e <= MaxAttempts (step_Retry step) ->
      ev_dueAt e = canonicalTime (Add (ev_occurredAt e) (step_Timeout step)) ->
      child_step (Some p)
        (mkChildProgress (hp_stepName p) (hp_childID p) (hp_definition p) ChildStartRunning (hp_input p)
           (hp_result p) "" (ev_attempt e) (ev_idempotencyKey e) (ev_dueAt e) false)
  | child_started p :
      ev_kind e = EventChildStarted -> hp_childID p = ev_successorID e -> child_attempt p ->
      child_step (Some p) (child_with p ChildActive (hp_result p) (hp_code p) zeroTime (hp_retryable p))
  | child_start_failed p :
      ev_kind e = EventChildStartFailed -> hp_childID p = ev_successorID e -> child_attempt p ->
      child_step (Some p)
        (child_with p ChildStartFailedStatus (hp_result p) (ev_code e) zeroTime (ev_retryable e))
  | child_start_unknown p :
      ev_kind e = EventChildStartUnknown -> hp_childID p = ev_successorID e -> child_attempt p ->
      child_step (Some p) (child_with p ChildStartUnknownStatus (hp_result p) (ev_code e) zeroTime false)
  | child_retry p :
      ev_kind e = EventChildStartRetryScheduled -> hp_childID p = ev_successorID e ->
      hp_status p = ChildStartFailedStatus -> hp_retryable p = true ->
      hp_attempt p < MaxAttempts (step_Retry step) -> ev_attempt e = hp_attempt p ->
      ev_dueAt e = canonicalTime (Add (ev_occurredAt e) (retryDelay (step_Retry step) (ev_attempt e))) ->
      child_step (Some p)
        (child_with p ChildStartRetryWaiting (hp_result p) (hp_code p) (ev_dueAt e) (hp_retryable p))
  | child_outcome p :
      ev_kind e = EventChildCompleted \/ ev_kind e = EventChildFailed -> hp_childID p = ev_successorID e ->
      childTerminalOutcomeAllowed (hp_status p) = true ->
      blen (ev_data e) <= step_ResultLimit step ->
      child_step (Some p)
        (child_with p (child_outcome_status (ev_kind e))
           (ev_data e) (ev_code e) (hp_dueAt p) (hp_retryable p)).
End Rules.

Lemma applyChild_iff registry i e i' :
  childEvent (ev_kind e) = true ->
  applyChild registry i e = Ok i' <->
  exists step p', definitionStep (pinnedDefinition registry i) (ev_stepName e) StepChild = Some step
    /\ in_status i = StatusRunning
    /\ child_step registry step e (in_children i !! ev_stepName e) p'
    /\ i' = set_child i (ev_stepName e) p'.
Proof.
  intros Hk. unfold applyChild, applyChildProgress. rewrite !cloneBytes_id.
  destruct (definitionStep _ _ _) as [step |]; [| split; [done | by intros (? & ? & ? & _)]].
  set (entry := in_children i !! ev_stepName e). clearbody entry. split.
  - intros H. exists step. destruct (ev_kind e) eqn:Ek; try done; decide_kinds; cbv beta iota in H;
      walk H; subst; bool_norm; subst.
    all: eexists; split_and!; [done | done | | reflexivity].
    all: try (destruct entry; [by exfalso; eauto |]; by apply child_schedule).
    all: try (apply child_start; unfold child_startable; by repeat case_match; naive_solver).
    all: try (by apply child_started).
    all: try (by apply child_start_failed).
    all: try (by apply child_start_unknown).
    all: try (by apply child_retry).
    all: pose proof (f_equal child_outcome_status Ek) as Ho; cbn [child_outcome_status] in Ho; rewrite <- Ho;
      apply child_outcome; naive_solver.
  - intros (step' & p' & [= <-] & Hst & Hs & ->). rewrite Hst.
    inversion Hs as [Ek Hd Hl Hv Hn | p Ek Hc Hsp Ha Hm Hd | p Ek Hc [Hp Ha] | p Ek Hc [Hp Ha] | p Ek Hc [Hp Ha]
      | p Ek Hc Hp Hr Hm Ha Hd | p Ek Hc Ho Hl]; subst.
    + rewrite Ek, Hv. guard_ok. reflexivity.
    + rewrite Ek. decide_kinds. destruct Hsp as [Hp | [Hp Hb]]; rewrite Hp, ?Hb; guard_ok; reflexivity.
    + rewrite Ek. decide_kinds. guard_ok. reflexivity.
    + rewrite Ek. decide_kinds. guard_ok. reflexivity.
    + rewrite Ek. decide_kinds. guard_ok. reflexivity.
    + rewrite Ek. decide_kinds. guard_ok. reflexivity.
    + destruct Ek as [Ek | Ek]; rewrite Ek; decide_kinds; rewrite Ho; guard_ok; reflexivity.
Qed.
