(* ===== verification/CompensationHistory.v ===== *)
(** * Replaying compensation events (compensation_history.go) *)
From S2P Require Import Prelude GoTime Definitions Registry OperatorAudit Event Instances.
From S2P Require Import ActivityHistory.

Definition applyCompensation (registry : option Registry) (i : Instance_) (event : HistoryEvent) : result Instance_ :=
  reject EventKind_code (ev_kind event) <? EventKind_code EventCompensationScheduled with ErrInvalidTransition;
  reject EventKind_code EventCompensationManuallyResolved <? EventKind_code (ev_kind event) with ErrInvalidTransition;
  match definitionActivityStep (pinnedDefinition registry i) (ev_stepName event) with
  | None => Err ErrInvalidTransition
  | Some step =>
  match step_Compensation step with
  | None => Err ErrInvalidTransition
  | Some policy =>
      let entry := in_compensations i !! ev_stepName event in
      match ev_kind event with
      | EventCompensationScheduled =>
          let activity := in_activities i !! ev_stepName event in
          reject negb (bool_decide (in_status i = StatusRunning))
            && negb (bool_decide (in_status i = StatusCancelling)) with ErrInvalidTransition;
          reject bool_decide (is_Some entry) with ErrInvalidTransition;
          match activity with
          | None => Err ErrInvalidTransition
          | Some activity =>
              reject negb (bool_decide (ap_status activity = ActivityProgressSucceeded)) with ErrInvalidTransition;
              Ok (set_compensation i (ev_stepName event)
                (mkCompensationProgress (ev_stepName event) CompensationReady (ev_sequence event) 0 "" zeroTime
                   (cloneBytes (ev_data event)) None "" false))
          end
      | EventCompensationAttemptStarted =>
          match entry with
          | None => Err ErrInvalidTransition
          | Some progress =>
              reject negb (bool_decide (cp_status progress = CompensationReady))
                && negb (bool_decide (cp_status progress = CompensationRetryWaiting)) with ErrInvalidTransition;
              reject negb (ev_attempt event =? u32 (cp_attempt progress + 1)) with ErrInvalidTransition;
              reject MaxAttempts (cs_Retry policy) <? ev_attempt event with ErrInvalidTransition;
              reject negb (bool_decide (ev_dueAt event = canonicalTime (Add (ev_occurredAt event) (cs_Timeout policy))))
                with ErrInvalidTransition;
              reject bool_decide (cp_status progress = CompensationRetryWaiting)
                && Before (ev_occurredAt event) (cp_dueAt progress) with ErrInvalidTransition;
              Ok (set_compensation i (ev_stepName event)
                (mkCompensationProgress (cp_stepName progress) CompensationRunning (cp_scheduledSequence progress)
                   (ev_attempt event) (ev_idempotencyKey event) (ev_dueAt event) (cp_input progress) None "" false))
          end
      | EventCompensationAttemptSucceeded | EventCompensationAttemptFailed | EventCompensationAttemptUnknown =>
          match entry with
          | None => Err ErrInvalidTransition
          | Some progress =>
              reject negb (bool_decide (cp_status progress = CompensationRunning)) with ErrInvalidTransition;
              reject negb (ev_attempt event =? cp_attempt progress) with ErrInvalidTransition;
              reject cs_ResultLimit policy <? blen (ev_data event) with ErrInvalidTransition;
              Ok (set_compensation i (ev_stepName event)
                (mkCompensationProgress (cp_stepName progress)
                   (match ev_kind event with
                    | EventCompensationAttemptSucceeded => CompensationSucceeded
                    | EventCompensationAttemptFailed => CompensationFailed
                    | _ => CompensationUnknown
                    end)
                   (cp_scheduledSequence progress) (cp_attempt progress) (cp_idempotencyKey progress) zeroTime
                   (cp_input progress) (cloneBytes (ev_data event)) (ev_code event) (ev_retryable event)))
          end
      | EventCompensationRetryScheduled =>
          match entry with
          | None => Err ErrInvalidTransition
          | Some progress =>
              reject negb (bool_decide (cp_status progress = CompensationFailed)) with ErrInvalidTransition;
              reject negb (cp_retryable progress) with ErrInvalidTransition;
              reject MaxAttempts (cs_Retry policy) <=? cp_attempt progress with ErrInvalidTransition;
              reject negb (ev_attempt event =? cp_attempt progress) with ErrInvalidTransition;
              reject negb (bool_decide (ev_dueAt event
                   = canonicalTime (Add (ev_occurredAt event) (retryDelay (cs_Retry policy) (ev_attempt event)))))
                with ErrInvalidTransition;
              Ok (set_compensation i (ev_stepName event)
                (mkCompensationProgress (cp_stepName progress) CompensationRetryWaiting
                   (cp_scheduledSequence progress) (cp_attempt progress) (cp_idempotencyKey progress)
                   (ev_dueAt event) (cp_input progress) (cp_result progress) (cp_code progress)
                   (cp_retryable progress)))
          end
      | EventCompensationManuallyResolved =>
          match entry with
          | None => Err ErrInvalidTransition
          | Some progress =>
              reject negb (bool_decide (cp_status progress = CompensationFailed))
                && negb (bool_decide (cp_status progress = CompensationUnknown)) with ErrInvalidTransition;
              reject cs_ResultLimit policy <? blen (ev_data event) with ErrInvalidTransition;
              Ok (set_compensation i (ev_stepName event)
                (mkCompensationProgress (cp_stepName progress) CompensationManuallyResolved
                   (cp_scheduledSequence progress) (cp_attempt progress) (cp_idempotencyKey progress)
                   (cp_dueAt progress) (cp_input progress) (cloneBytes (ev_data event)) (ev_code event) false))
          end
      | _ => Ok i
      end
  end
  end.

(** ** The compensation state machine, as rules *)

Definition compensationEvent (kind : EventKind) : bool :=
  kind_within EventCompensationScheduled EventCompensationManuallyResolved kind.

Section Rules.
Context (policy : CompensationSpec) (status : InstanceStatus) (activity : option ActivityProgress)
  (e : HistoryEvent).

Definition comp_startable (p : CompensationProgress) : Prop :=
  cp_status p = CompensationReady
  \/ (cp_status p = CompensationRetryWaiting /\ Before (ev_occurredAt e) (cp_dueAt p) = false).

Definition outcome_status (kind : EventKind) : CompensationProgressStatus :=
  match kind with
  | EventCompensationAttemptSucceeded => CompensationSucceeded
  | EventCompensationAttemptFailed => CompensationFailed
  | _ => CompensationUnknown
  end.

Inductive compensation_step : option CompensationProgress -> CompensationProgress -> Prop :=
  | compensation_schedule a :
      ev_kind e = EventCompensationScheduled -> status = StatusRunning \/ status = StatusCancelling ->
      activity = Some a -> ap_status a = ActivityProgressSucceeded ->
      compensation_step None
        (mkCompensationProgress (ev_stepName e) CompensationReady (ev_sequence e) 0 "" zeroTime
           (ev_data e) None "" false)
  | compensation_start p :
      ev_kind e = EventCompensationAttemptStarted -> comp_startable p ->
      ev_attempt e = u32 (cp_attempt p + 1) -> ev_attempt e <= MaxAttempts (cs_Retry policy) ->
      ev_dueAt e = canonicalTime (Add (ev_occurredAt e) (cs_Timeout policy)) ->
      compensation_step (Some p)
        (mkCompensationProgress (cp_stepName p) CompensationRunning (cp_scheduledSequence p)
           (ev_attempt e) (ev_idempotencyKey e) (ev_dueAt e) (cp_input p) None "" false)
  | compensation_outcome p :
      ev_kind e = EventCompensationAttemptSucceeded \/ ev_kind e = EventCompensationAttemptFailed
        \/ ev_kind e = EventCompensationAttemptUnknown ->
      cp_status p = CompensationRunning -> ev_attempt e = cp_attempt p ->
      blen (ev_data e) <= cs_ResultLimit policy ->
      compensation_step (Some p)
        (mkCompensationProgress (cp_stepName p) (outcome_status (ev_kind e)) (cp_scheduledSequence p)
           (cp_attempt p) (cp_idempotencyKey p) zeroTime (cp_input p) (ev_data e) (ev_code e) (ev_retryable e))
  | compensation_retry p :
      ev_kind e = EventCompensationRetryScheduled -> cp_status p = CompensationFailed ->
      cp_retryable p = true -> cp_attempt p < MaxAttempts (cs_Retry policy) ->
      ev_attempt e = cp_attempt p ->
      ev_dueAt e = canonicalTime (Add (ev_occurredAt e) (retryDelay (cs_Retry policy) (ev_attempt e))) ->
      compensation_step (Some p)
        (mkCompensationProgress (cp_stepName p) CompensationRetryWaiting (cp_scheduledSequence p)
           (cp_attempt p) (cp_idempotencyKey p) (ev_dueAt e) (cp_input p) (cp_result p) (cp_code p)
           (cp_retryable p))
  | compensation_resolve p :
      ev_kind e = EventCompensationManuallyResolved ->
      cp_status p = CompensationFailed \/ cp_status p = CompensationUnknown ->
      blen (ev_data e) <= cs_ResultLimit policy ->
      compensation_step (Some p)
        (mkCompensationProgress (cp_stepName p) CompensationManuallyResolved (cp_scheduledSequence p)
           (cp_attempt p) (cp_idempotencyKey p) (cp_dueAt p) (cp_input p) (ev_data e) (ev_code e) false).
End Rules.

Lemma applyCompensation_iff registry i e i' :
  compensationEvent (ev_kind e) = true ->
  applyCompensation registry i e = Ok i' <->
  exists step policy p', definitionActivityStep (pinnedDefinition registry i) (ev_stepName e) = Some step
    /\ step_Compensation step = Some policy
    /\ compensation_step policy (in_status i) (in_activities i !! ev_stepName e) e
         (in_compensations i !! ev_stepName e) p'
    /\ i' = set_compensation i (ev_stepName e) p'.
Proof.
  intros Hk. unfold applyCompensation. rewrite !cloneBytes_id.
  assert (Hr : (EventKind_code (ev_kind e) <? EventKind_code EventCompensationScheduled) = false
    /\ (EventKind_code EventCompensationManuallyResolved <? EventKind_code (ev_kind e)) = false)
    by (unfold compensationEvent, kind_within in Hk; bool_norm; split; apply Z.ltb_ge; lia).
  destruct Hr as [-> ->].
  destruct (definitionActivityStep _ _) as [step |]; [| split; [done | by intros (? & ? & ? & [=] & _)]].
  destruct (step_Compensation step) as [policy |] eqn:Hpol; [| split; [done | by intros (? & ? & ? & [= <-] & ? & _); congruence]].
  set (entry := in_compensations i !! ev_stepName e). clearbody entry.
  set (activity := in_activities i !! ev_stepName e). clearbody activity. split.
  - intros H. exists step, policy. destruct (ev_kind e) eqn:Ek; try done; rewrite <- ?Ek in H; walk H; subst i'; bool_norm.
    all: eexists; split_and!; [done | done | | reflexivity].
    1: destruct entry; [by exfalso; eauto |]; eapply compensation_schedule; naive_solver.
    1: apply compensation_start; unfold comp_startable; naive_solver.
    1-3: pose proof (f_equal outcome_status Ek) as Ho; cbn [outcome_status] in Ho; rewrite <- Ho;
      apply compensation_outcome; naive_solver.
    1: by apply compensation_retry.
    1: apply compensation_resolve; naive_solver.
  - intros (step' & policy' & p' & [= <-] & Hp' & Hs & ->). assert (policy' = policy) as -> by congruence.
    inversion Hs as [a Ek Hst Ha Hsu | p Ek Hsp Ha Hm Hd | p Ek Hr Ha Hl | p Ek Hf Hr Hm Ha Hd | p Ek Hf Hl]; subst.
    + rewrite Ek. guard_ok. reflexivity.
    + rewrite Ek. unfold comp_startable in *. guard_ok. reflexivity.
    + destruct Ek as [Ek | [Ek | Ek]]; rewrite Ek; guard_ok; reflexivity.
    + rewrite Ek. guard_ok. reflexivity.
    + rewrite Ek. guard_ok. reflexivity.
Qed.
