(* ===== verification/Replay.v ===== *)
(** * Replay (history.go, operator.go)

    [apply] is one history event on an instance, with every guard in the order
    of the code; [Replay] folds it over a history. *)
From S2P Require Import Prelude GoTime Names Definitions Registry OperatorAudit Event.
From S2P Require Import Instances ActivityHistory WaitHistory ChildHistory CompensationHistory.

Definition operatorEventKind (action : OperatorAction) : EventKind :=
  match action with
  | OperatorPause => EventInstancePaused
  | OperatorResume => EventInstanceResumed
  | OperatorCancel => EventCancellationRequested
  | OperatorTerminate => EventInstanceTerminated
  | OperatorRetryActivity => EventActivityRetryScheduled
  | OperatorCompensate => EventCompensationScheduled
  | OperatorResolveCompensation => EventCompensationManuallyResolved
  | OperatorApprove => EventSignalReceived
  | OperatorActionUndeclared => EventKindUndeclared
  end.

Definition applyOperator (i : Instance_) (event : HistoryEvent) : result Instance_ :=
  reject negb (bool_decide (in_pendingOperator i = OperatorActionUndeclared)) with ErrInvalidTransition;
  document <~ decodeOperatorAudit (ev_data event) else ErrInvalidTransition;
  Ok (set_operator i
        (in_operatorActions i ++
          [mkOperatorRecord (ev_idempotencyKey event) (audit_Action document) (audit_Actor document)
             (audit_Reason document) (ev_occurredAt event)])
        (audit_Action document)).

Definition applyStart (registry : option Registry) (i : Instance_) (event : HistoryEvent) : result Instance_ :=
  reject negb (bool_decide (ev_kind event = EventInstanceStarted)) with ErrInvalidTransition;
  reject negb (ev_sequence event =? 1) with ErrHistoryConflict;
  _ ← validateReference registry (ev_definition event);
  Ok (mkInstance (ev_instanceID event) (ev_definition event) StatusRunning (ev_sequence event)
        (ev_occurredAt event) (ev_occurredAt event) (cloneBytes (ev_data event)) (in_result i) (in_successorID i)
        ∅ ∅ ∅ ∅ ∅ ∅ [] OperatorActionUndeclared).

(** The [switch event.kind] of apply. *)
Definition applyKind (registry : option Registry) (i : Instance_) (event : HistoryEvent) : result Instance_ :=
  match ev_kind event with
  | EventInstanceStarted => Err ErrInvalidTransition
  | EventInstancePaused =>
      reject negb (bool_decide (in_status i = StatusRunning)) with ErrInvalidTransition;
      Ok (set_status i StatusPaused)
  | EventInstanceResumed =>
      reject negb (bool_decide (in_status i = StatusPaused)) with ErrInvalidTransition;
      Ok (set_status i StatusRunning)
  | EventCancellationRequested =>
      reject negb (bool_decide (in_status i = StatusRunning)) && negb (bool_decide (in_status i = StatusPaused))
        with ErrInvalidTransition;
      Ok (set_status i StatusCancelling)
  | EventInstanceCancelled =>
      reject negb (bool_decide (in_status i = StatusCancelling)) with ErrInvalidTransition;
      Ok (set_result (set_status i StatusCancelled) (cloneBytes (ev_data event)))
  | EventInstanceCompleted =>
      reject negb (bool_decide (in_status i = StatusRunning)) with ErrInvalidTransition;
      Ok (set_result (set_status i StatusCompleted) (cloneBytes (ev_data event)))
  | EventInstanceFailed =>
      reject negb (bool_decide (in_status i = StatusRunning)) with ErrInvalidTransition;
      Ok (set_result (set_status i StatusFailed) (cloneBytes (ev_data event)))
  | EventInstanceTerminated =>
      Ok (set_result (set_status i StatusTerminated) (cloneBytes (ev_data event)))
  | EventDefinitionMigrated =>
      reject negb (bool_decide (in_status i = StatusPaused)) with ErrInvalidTransition;
      reject negb (bool_decide (ref_name (ev_definition event) = ref_name (in_definition i))) with ErrInvalidMigration;
      _ ← validateReference registry (ev_definition event);
      _ ← registry_Migration registry (ref_name (in_definition i)) (ref_version (in_definition i))
            (ref_version (ev_definition event));
      Ok (set_definition_input i (ev_definition event) (cloneBytes (ev_data event)))
  | EventContinuedAsNew =>
      reject negb (bool_decide (in_status i = StatusRunning)) with ErrInvalidTransition;
      _ ← validateReference registry (ev_definition event);
      Ok (set_successorID (set_status i StatusContinuedAsNew) (ev_successorID event))
  | EventActivityScheduled | EventActivityAttemptStarted | EventActivityAttemptSucceeded
  | EventActivityAttemptFailed | EventActivityAttemptUnknown | EventActivityRetryScheduled =>
      applyActivity registry i event
  | EventTimerScheduled | EventTimerFired | EventSignalReceived => applyWait registry i event
  | EventRaceWon => applyRace registry i event
  | EventChildScheduled | EventChildCompleted | EventChildFailed
  | EventChildStartAttempted | EventChildStarted | EventChildStartFailed
  | EventChildStartUnknown | EventChildStartRetryScheduled => applyChild registry i event
  | EventCompensationScheduled | EventCompensationAttemptStarted
  | EventCompensationAttemptSucceeded | EventCompensationAttemptFailed
  | EventCompensationAttemptUnknown | EventCompensationRetryScheduled
  | EventCompensationManuallyResolved => applyCompensation registry i event
  | EventOperatorCommandRecorded => applyOperator i event
  | EventKindUndeclared => Ok i
  end.

Definition apply (registry : option Registry) (i : Instance_) (event : HistoryEvent) : result Instance_ :=
  if in_sequence i =? 0 then applyStart registry i event
  else
    reject negb (bool_decide (ev_instanceID event = in_id i))
      || negb (ev_sequence event =? u64 (in_sequence i + 1))
      || Before (ev_occurredAt event) (in_updatedAt i) with ErrHistoryConflict;
    reject terminalStatus (in_status i) with ErrInvalidTransition;
    let pending := negb (bool_decide (in_pendingOperator i = OperatorActionUndeclared)) in
    let completesOperator :=
      pending && bool_decide (ev_kind event = operatorEventKind (in_pendingOperator i)) in
    reject pending && negb completesOperator with ErrInvalidTransition;
    i' ← applyKind registry i event;
    let i'' := set_position i' (ev_sequence event) (ev_occurredAt event) in
    Ok (if completesOperator then set_operator i'' (in_operatorActions i'') OperatorActionUndeclared else i'').

Fixpoint applyAll (registry : option Registry) (i : Instance_) (events : list HistoryEvent) : result Instance_ :=
  match events with
  | [] => Ok i
  | event :: rest => i' ← apply registry i event; applyAll registry i' rest
  end.

Definition Replay (registry : option Registry) (events : list HistoryEvent) : result Instance_ :=
  match events with
  | [] => Err ErrEmptyHistory
  | _ =>
      i ← applyAll registry zeroInstance events;
      reject negb (bool_decide (in_pendingOperator i = OperatorActionUndeclared)) with ErrInvalidTransition;
      Ok i
  end.

(** ** One step, inverted *)

(** What [apply] writes after the switch. *)
Definition advanced (i m : Instance_) (e : HistoryEvent) : Instance_ :=
  let i'' := set_position m (ev_sequence e) (ev_occurredAt e) in
  if negb (bool_decide (in_pendingOperator i = OperatorActionUndeclared))
  then set_operator i'' (in_operatorActions i'') OperatorActionUndeclared else i''.

(** The guards common to every event after the first. *)
Record admissible (i : Instance_) (e : HistoryEvent) : Prop := {
  adm_id : ev_instanceID e = in_id i;
  adm_sequence : ev_sequence e = u64 (in_sequence i + 1);
  adm_time : Before (ev_occurredAt e) (in_updatedAt i) = false;
  adm_alive : terminalStatus (in_status i) = false;
  adm_operator : in_pendingOperator i = OperatorActionUndeclared
    \/ ev_kind e = operatorEventKind (in_pendingOperator i)
}.

Lemma apply_iff registry i e i' :
  in_sequence i <> 0 ->
  apply registry i e = Ok i' <->
  admissible i e /\ exists m, applyKind registry i e = Ok m /\ i' = advanced i m e.
Proof.
  intros Hs. unfold apply, advanced. rewrite (proj2 (Z.eqb_neq _ _) Hs). split.
  - intros H. destruct (negb (bool_decide (ev_instanceID e = in_id i)) || _ || _) eqn:G1; [done |].
    destruct (terminalStatus (in_status i)) eqn:Ht; [done |].
    destruct (negb (bool_decide (in_pendingOperator i = OperatorActionUndeclared))) eqn:Hp; cbn [andb] in H.
    + destruct (bool_decide (ev_kind e = operatorEventKind (in_pendingOperator i))) eqn:Hk; [| done].
      cbn [negb] in H. walk H. subst i'. bool_norm. split; [split; auto | eauto].
    + walk H. subst i'. bool_norm. split; [split; auto | eauto].
  - intros [[Hid Hsq Ht Ha Ho] (m & Hm & ->)]. rewrite Ha, Hm.
    assert (Hg : negb (bool_decide (ev_instanceID e = in_id i)) || negb (ev_sequence e =? u64 (in_sequence i + 1))
      || Before (ev_occurredAt e) (in_updatedAt i) = false) by guard_fact. rewrite Hg.
    destruct Ho as [Ho | Ho].
    + rewrite Ho. reflexivity.
    + rewrite (bool_decide_eq_true_2 _ Ho), andb_true_r, andb_negb_r. reflexivity.
Qed.

Lemma apply_first registry i e :
  in_sequence i = 0 -> apply registry i e = applyStart registry i e.
Proof. intros Hs. unfold apply. by rewrite Hs. Qed.

Lemma finish_frame i m e :
  in_id (advanced i m e) = in_id m /\ in_definition (advanced i m e) = in_definition m
  /\ in_status (advanced i m e) = in_status m /\ in_startedAt (advanced i m e) = in_startedAt m
  /\ in_activities (advanced i m e) = in_activities m /\ in_timers (advanced i m e) = in_timers m
  /\ in_signals (advanced i m e) = in_signals m /\ in_races (advanced i m e) = in_races m
  /\ in_children (advanced i m e) = in_children m /\ in_compensations (advanced i m e) = in_compensations m
  /\ in_operatorActions (advanced i m e) = in_operatorActions m
  /\ in_sequence (advanced i m e) = ev_sequence e /\ in_updatedAt (advanced i m e) = ev_occurredAt e.
Proof. unfold advanced. by case_match. Qed.

(** ** The lifecycle, as a table *)

(** The status after an event of a kind in a status, [None] where no event of the
    kind is legal. *)
Definition lifecycle (status : InstanceStatus) (kind : EventKind) : option InstanceStatus :=
  if terminalStatus status then None
  else match kind, status with
  | EventInstanceStarted, _ => None
  | EventInstancePaused, StatusRunning => Some StatusPaused
  | EventInstanceResumed, StatusPaused => Some StatusRunning
  | EventCancellationRequested, (StatusRunning | StatusPaused) => Some StatusCancelling
  | EventInstanceCancelled, StatusCancelling => Some StatusCancelled
  | EventInstanceCompleted, StatusRunning => Some StatusCompleted
  | EventInstanceFailed, StatusRunning => Some StatusFailed
  | EventInstanceTerminated, _ => Some StatusTerminated
  | EventDefinitionMigrated, StatusPaused => Some StatusPaused
  | EventContinuedAsNew, StatusRunning => Some StatusContinuedAsNew
  | (EventInstancePaused | EventInstanceResumed | EventCancellationRequested | EventInstanceCancelled
    | EventInstanceCompleted | EventInstanceFailed | EventDefinitionMigrated | EventContinuedAsNew), _ => None
  | EventSignalReceived, (StatusRunning | StatusPaused) => Some status
  | EventSignalReceived, _ => None
  | EventCompensationScheduled, (StatusRunning | StatusCancelling) => Some status
  | EventCompensationScheduled, _ => None
  | (EventActivityAttemptSucceeded | EventActivityAttemptFailed | EventActivityAttemptUnknown
    | EventCompensationAttemptStarted | EventCompensationAttemptSucceeded | EventCompensationAttemptFailed
    | EventCompensationAttemptUnknown | EventCompensationRetryScheduled | EventCompensationManuallyResolved
    | EventOperatorCommandRecorded | EventKindUndeclared), _ => Some status
  | _, StatusRunning => Some StatusRunning
  | _, _ => None
  end.

(** The three groups of fields the switch may write. *)
Record same_header (i m : Instance_) : Prop := {
  header_id : in_id m = in_id i;
  header_sequence : in_sequence m = in_sequence i;
  header_started : in_startedAt m = in_startedAt i;
  header_updated : in_updatedAt m = in_updatedAt i
}.

Lemma applyKind_lifecycle registry i e m :
  terminalStatus (in_status i) = false -> applyKind registry i e = Ok m ->
  lifecycle (in_status i) (ev_kind e) = Some (in_status m) /\ same_header i m.
Proof.
  intros Ht H. unfold applyKind in H. unfold lifecycle. rewrite Ht.
  destruct (ev_kind e) eqn:Ek.
  1-10, 37: walk H; try (destruct H; bool_norm; split; [| split; reflexivity]);
    cbn [in_status set_status set_result set_definition_input set_successorID];
    try (destruct (in_status i); (done || naive_solver)).
  1-6: apply applyActivity_iff in H as (step & p' & _ & Hs & ->); [| by rewrite Ek];
    (split; [| split; reflexivity]); cbn [in_status set_activity];
    inversion Hs; subst; try congruence;
    try (match goal with E : _ = StatusRunning |- _ => rewrite E end); reflexivity.
  1-3: apply applyWait_iff in H as [step Ek' Hst Hs | step Ek' Hst Hs | step p Ek' Hst Hs]; try congruence;
    (split; [| split; reflexivity]); cbn [in_status set_signal set_timer];
    first [by rewrite Hs | by destruct Hs as [-> | ->]].
  1-7: apply applyCompensation_iff in H as (step & policy & p' & _ & _ & Hs & ->); [| by rewrite Ek];
    (split; [| split; reflexivity]); cbn [in_status set_compensation]; inversion Hs; subst; try done;
    destruct_or?; try congruence; match goal with E : _ = _ |- _ => by rewrite E end.
  1: { unfold applyOperator in H. walk H. subst m. by split. }
  1: { apply applyRace_iff in H as (step & _ & Hs & _ & _ & _ & ->). cbn [in_status set_race]. split; [by rewrite Hs | by split]. }
  all: apply applyChild_iff in H as (step & p' & _ & Hs & _ & ->); [| by rewrite Ek]; split; [cbn [in_status set_child]; by rewrite Hs | by split].
Qed.

(** ** Histories *)

Lemma applyAll_app registry es es' : forall i,
  applyAll registry i (es ++ es') = i' ← applyAll registry i es; applyAll registry i' es'.
Proof.
  induction es as [| e es IH]; cbn [applyAll app]; intros i; [done |].
  destruct (apply registry i e) as [i' |]; cbn [mbind result_bind]; [apply IH | done].
Qed.

Lemma Replay_iff registry es i :
  Replay registry es = Ok i <->
  es <> [] /\ applyAll registry zeroInstance es = Ok i /\ in_pendingOperator i = OperatorActionUndeclared.
Proof.
  unfold Replay. destruct es as [| e es]; [split; [done | by intros [? _]] |].
  destruct (applyAll registry zeroInstance (e :: es)) as [j |]; cbn [mbind result_bind].
  - case_bool_decide as Hp; cbn [negb].
    + split; [intros [= <-] | intros (_ & [= <-] & _)]; done.
    + split; [done |]. intros (_ & [= <-] & ?). done.
  - split; [done | by intros (_ & ? & _)].
Qed.

(** A history of well-formed events that has been applied so far. *)
Inductive run (registry : option Registry) : list HistoryEvent -> Instance_ -> Prop :=
  | run_start e i :
      event_wf e -> applyStart registry zeroInstance e = Ok i -> run registry [e] i
  | run_step es e i m :
      run registry es i -> event_wf e -> admissible i e ->
      applyKind registry i e = Ok m -> run registry (es ++ [e]) (advanced i m e).

Lemma event_wf_sequence e : event_wf e -> ev_sequence e <> 0.
Proof. intros H. apply (shape_sequence e). by apply event_wf_shape. Qed.

Lemma applyStart_inv registry j e i :
  applyStart registry j e = Ok i ->
  ev_kind e = EventInstanceStarted /\ ev_sequence e = 1
  /\ validateReference registry (ev_definition e) = Ok tt
  /\ i = mkInstance (ev_instanceID e) (ev_definition e) StatusRunning 1 (ev_occurredAt e) (ev_occurredAt e)
       (ev_data e) (in_result j) (in_successorID j) ∅ ∅ ∅ ∅ ∅ ∅ [] OperatorActionUndeclared.
Proof.
  unfold applyStart. rewrite cloneBytes_id. intros H. walk H. bool_norm. destruct a.
  split_and!; [done | done | done |]. by rewrite <- H, G0.
Qed.

(** The position of a run. *)
Lemma run_sequence registry es i : run registry es i -> in_sequence i = Z.of_nat (length es) /\ 1 <= in_sequence i < 2 ^ 64.
Proof.
  induction 1 as [e i He Hs | es e i m Hr [IH Hb] He Ha Hm].
  - apply applyStart_inv in Hs as (_ & _ & _ & ->). cbn. lia.
  - destruct (finish_frame i m e) as (_ & _ & _ & _ & _ & _ & _ & _ & _ & _ & _ & -> & _).
    pose proof (event_wf_sequence e He) as Hne. pose proof (adm_sequence _ _ Ha) as Hsq.
    rewrite Hsq in *. apply u64_succ_nonzero in Hne; [| lia]. pose proof (u64_range (in_sequence i + 1)).
    rewrite length_app. cbn [length]. lia.
Qed.

Lemma run_nonempty registry es i : run registry es i -> es <> [].
Proof. destruct 1; [done |]. by destruct es. Qed.

Lemma run_wf registry es i : run registry es i -> Forall event_wf es.
Proof. induction 1; [by constructor |]. apply Forall_app. split; [done | by constructor]. Qed.

Lemma run_extend registry es i e i' :
  run registry es i -> event_wf e -> apply registry i e = Ok i' -> run registry (es ++ [e]) i'.
Proof.
  intros Hr He Ha. pose proof (run_sequence _ _ _ Hr) as [_ Hs].
  apply apply_iff in Ha as (Hadm & m & Hm & ->); [| lia]. by apply run_step.
Qed.

Lemma run_applyAll registry es es' i i' :
  run registry es i -> Forall event_wf es' -> applyAll registry i es' = Ok i' -> run registry (es ++ es') i'.
Proof.
  revert es i. induction es' as [| e es' IH]; intros es i Hr Hw H; cbn [applyAll] in H.
  - injection H as <-. by rewrite app_nil_r.
  - destruct (apply registry i e) as [j |] eqn:E; [| done]. cbn [mbind result_bind] in H.
    apply Forall_cons in Hw as [He Hw]. change (e :: es') with ([e] ++ es'). rewrite app_assoc.
    eapply IH; [by eapply run_extend | done | done].
Qed.

(** Runs are exactly the non-empty histories of well-formed events that apply. *)
Lemma run_iff registry es i :
  run registry es i <-> es <> [] /\ Forall event_wf es /\ applyAll registry zeroInstance es = Ok i.
Proof.
  split.
  - intros Hr. split_and!; [by eapply run_nonempty | by eapply run_wf |].
    induction Hr as [e i He Hs | es e i m Hr IH He Ha Hm].
    + cbn [applyAll]. rewrite apply_first, Hs by done. done.
    + rewrite applyAll_app, IH. cbn [mbind result_bind applyAll].
      pose proof (run_sequence _ _ _ Hr) as [_ Hsq].
      rewrite (proj2 (apply_iff registry i e (advanced i m e) ltac:(lia))); [done | eauto].
  - intros (Hne & Hw & H). destruct es as [| e es]; [done |]. apply Forall_cons in Hw as [He Hw].
    cbn [applyAll] in H. rewrite apply_first in H by done.
    destruct (applyStart registry zeroInstance e) as [j |] eqn:Hs; [| done]. cbn [mbind result_bind] in H.
    change (e :: es) with ([e] ++ es). eapply run_applyAll; [by apply run_start | done | done].
Qed.

Lemma Replay_run registry es i : Forall event_wf es -> Replay registry es = Ok i -> run registry es i.
Proof. intros Hw (Hne & Ha & _)%Replay_iff. by apply run_iff. Qed.

Lemma run_Replay registry es i :
  run registry es i -> in_pendingOperator i = OperatorActionUndeclared -> Replay registry es = Ok i.
Proof. intros (? & ? & ?)%run_iff Hp. by apply Replay_iff. Qed.

(** Replay is incremental: a plan that extends a replayed history replays iff its
    events apply to the replayed instance and leave no operator command open. *)
Lemma Replay_extend registry es es' i i' :
  Replay registry es = Ok i ->
  Replay registry (es ++ es') = Ok i' <->
  applyAll registry i es' = Ok i' /\ in_pendingOperator i' = OperatorActionUndeclared.
Proof.
  intros (Hne & Ha & Hp)%Replay_iff. rewrite Replay_iff, applyAll_app, Ha. cbn [mbind result_bind].
  split; [by intros (_ & ? & ?) |]. intros [? ?]. split_and!; [by destruct es | done | done].
Qed.
