(* ===== verification/ReplayInvariant.v ===== *)
(** * The invariant of replayed instances

    Every progress record of a replayed instance is coherent: its fields agree
    with its status, it is stored under its own step name, and the records of
    different maps agree with each other. *)
From S2P Require Import Prelude GoTime Names Definitions Registry OperatorAudit Event.
From S2P Require Import Instances ActivityHistory WaitHistory ChildHistory CompensationHistory Replay.

(** ** Coherence of one record *)

Record activity_wf (name : string) (p : ActivityProgress) : Prop := {
  activity_name : ap_stepName p = name;
  activity_stable : stableName name = true;
  activity_attempt : 0 <= ap_attempt p < 2 ^ 32;
  activity_due : canonical (ap_dueAt p);
  activity_key : if ap_attempt p =? 0 then ap_idempotencyKey p = EmptyString
    else instanceIDPattern (ap_idempotencyKey p) = true;
  activity_fields :
    match ap_status p with
    | ActivityProgressReady =>
        ap_attempt p = 0 /\ ap_dueAt p = zeroTime /\ ap_result p = None /\ ap_code p = EmptyString /\ ap_retryable p = false
    | ActivityProgressRunning =>
        0 < ap_attempt p /\ ap_result p = None /\ ap_code p = EmptyString /\ ap_retryable p = false
    | ActivityProgressSucceeded =>
        0 < ap_attempt p /\ ap_dueAt p = zeroTime /\ ap_code p = EmptyString /\ ap_retryable p = false
    | ActivityProgressFailed => 0 < ap_attempt p /\ ap_dueAt p = zeroTime /\ stableName (ap_code p) = true
    | ActivityProgressUnknown =>
        0 < ap_attempt p /\ ap_dueAt p = zeroTime /\ stableName (ap_code p) = true /\ ap_retryable p = false
    | ActivityProgressRetryWaiting => 0 < ap_attempt p /\ stableName (ap_code p) = true /\ ap_retryable p = true
    | ActivityProgressUndeclared => False
    end
}.

Record compensation_wf (name : string) (p : CompensationProgress) : Prop := {
  comp_name : cp_stepName p = name;
  comp_stable : stableName name = true;
  comp_attempt : 0 <= cp_attempt p < 2 ^ 32;
  comp_due : canonical (cp_dueAt p);
  comp_key : if cp_attempt p =? 0 then cp_idempotencyKey p = EmptyString
    else instanceIDPattern (cp_idempotencyKey p) = true;
  comp_fields :
    match cp_status p with
    | CompensationReady =>
        cp_attempt p = 0 /\ cp_dueAt p = zeroTime /\ cp_result p = None /\ cp_code p = EmptyString /\ cp_retryable p = false
    | CompensationRunning =>
        0 < cp_attempt p /\ cp_result p = None /\ cp_code p = EmptyString /\ cp_retryable p = false
    | CompensationSucceeded =>
        0 < cp_attempt p /\ cp_dueAt p = zeroTime /\ cp_code p = EmptyString /\ cp_retryable p = false
    | CompensationFailed => 0 < cp_attempt p /\ cp_dueAt p = zeroTime /\ stableName (cp_code p) = true
    | CompensationUnknown =>
        0 < cp_attempt p /\ cp_dueAt p = zeroTime /\ stableName (cp_code p) = true /\ cp_retryable p = false
    | CompensationRetryWaiting => 0 < cp_attempt p /\ stableName (cp_code p) = true /\ cp_retryable p = true
    | CompensationManuallyResolved =>
        0 < cp_attempt p /\ cp_dueAt p = zeroTime /\ stableName (cp_code p) = true /\ cp_retryable p = false
    | CompensationProgressUndeclared => False
    end
}.

Record child_wf (name : string) (p : ChildProgress) : Prop := {
  child_name : hp_stepName p = name;
  child_stable : stableName name = true;
  child_id : instanceIDPattern (hp_childID p) = true;
  child_definition : reference_valid (hp_definition p) = true;
  child_attempt_range : 0 <= hp_attempt p < 2 ^ 32;
  child_due : canonical (hp_dueAt p);
  child_key : if hp_attempt p =? 0 then hp_idempotencyKey p = EmptyString
    else instanceIDPattern (hp_idempotencyKey p) = true;
  child_fields :
    match hp_status p with
    | ChildScheduled =>
        hp_attempt p = 0 /\ hp_dueAt p = zeroTime /\ hp_result p = None /\ hp_code p = EmptyString /\ hp_retryable p = false
    | ChildStartRunning =>
        0 < hp_attempt p /\ hp_result p = None /\ hp_code p = EmptyString /\ hp_retryable p = false
    | ChildActive =>
        0 < hp_attempt p /\ hp_result p = None /\ hp_dueAt p = zeroTime /\ hp_code p = EmptyString /\ hp_retryable p = false
    | ChildStartFailedStatus =>
        0 < hp_attempt p /\ hp_result p = None /\ hp_dueAt p = zeroTime /\ stableName (hp_code p) = true
    | ChildStartUnknownStatus =>
        0 < hp_attempt p /\ hp_result p = None /\ hp_dueAt p = zeroTime /\ stableName (hp_code p) = true
        /\ hp_retryable p = false
    | ChildStartRetryWaiting =>
        0 < hp_attempt p /\ hp_result p = None /\ stableName (hp_code p) = true /\ hp_retryable p = true
    | ChildSucceeded => hp_code p = EmptyString /\ hp_retryable p = false
    | ChildFailed => stableName (hp_code p) = true /\ hp_retryable p = false
    | ChildProgressUndeclared => False
    end
}.

Definition timer_wf (name : string) (p : TimerProgress) : Prop :=
  tp_stepName p = name /\ stableName name = true /\ canonical (tp_dueAt p) /\ canonical (tp_firedAt p)
  /\ match tp_status p with
     | TimerWaiting => tp_firedAt p = zeroTime
     | TimerFired => instant_ltb (tp_firedAt p) (tp_dueAt p) = false
     | TimerProgressUndeclared => False
     end.

Definition signal_wf (name : string) (p : SignalProgress) : Prop :=
  sp_stepName p = name /\ stableName name = true /\ instanceIDPattern (sp_signalID p) = true
  /\ canonical (sp_receivedAt p) /\ IsZero (sp_receivedAt p) = false.

Definition race_wf (signals : gmap string SignalProgress) (name : string) (p : RaceProgress) : Prop :=
  rp_stepName p = name /\ stableName name = true /\ canonical (rp_decidedAt p)
  /\ is_Some (signals !! rp_winnerStepName p).

Definition operator_wf (r : OperatorActionRecord) : Prop :=
  instanceIDPattern (or_commandID r) = true /\ or_action r <> OperatorActionUndeclared
  /\ instanceIDPattern (or_actor r) = true /\ stableName (or_reason r) = true /\ canonical (or_occurredAt r).

(** Only a succeeded activity has a compensation. *)
Definition compensates_success (i : Instance_) : Prop :=
  forall name c, in_compensations i !! name = Some c ->
  exists a, in_activities i !! name = Some a /\ ap_status a = ActivityProgressSucceeded.

Record progress_wf (i : Instance_) : Prop := {
  wf_activities : map_Forall activity_wf (in_activities i);
  wf_timers : map_Forall timer_wf (in_timers i);
  wf_signals : map_Forall signal_wf (in_signals i);
  wf_races : map_Forall (race_wf (in_signals i)) (in_races i);
  wf_children : map_Forall child_wf (in_children i);
  wf_compensations : map_Forall compensation_wf (in_compensations i);
  wf_operators : Forall operator_wf (in_operatorActions i);
  wf_compensated : compensates_success i
}.

(** ** The rules preserve it *)

Section StepInvariant.
Context (e : HistoryEvent) (He : event_wf e).

Let Hsh : event_shape e := event_wf_shape e He.

Lemma shape_facts :
  (carries_step (ev_kind e) = true -> stableName (ev_stepName e) = true)
  /\ (carries_attempt (ev_kind e) = true -> 0 < ev_attempt e)
  /\ (carries_key (ev_kind e) = true -> instanceIDPattern (ev_idempotencyKey e) = true)
  /\ (carries_code (ev_kind e) = true -> stableName (ev_code e) = true)
  /\ (carries_code (ev_kind e) = false -> ev_code e = EmptyString)
  /\ (may_retry (ev_kind e) = false -> ev_retryable e = false)
  /\ (childEvent (ev_kind e) = true -> instanceIDPattern (ev_successorID e) = true).
Proof.
  destruct Hsh as [_ _ _ _ _ _ Hsu Hst Hat Hk _ Hc Hr].
  split_and!; intros H; [rewrite H in Hst | rewrite H in Hat | rewrite H in Hk | rewrite H in Hc
    | rewrite H in Hc | by apply Hr | rewrite H, orb_true_r in Hsu]; done.
Qed.

Lemma activity_step_wf step status old p' :
  carries_step (ev_kind e) = true ->
  activity_step step status e old p' ->
  (forall p, old = Some p -> activity_wf (ev_stepName e) p) -> activity_wf (ev_stepName e) p'.
Proof.
  intros Hcs Hs Hold. destruct shape_facts as (Hst & Hat & Hk & Hc & Hnc & Hr & _). specialize (Hst Hcs).
  pose proof (event_attempt_range e He) as Har. pose proof (event_due e He) as Hdue.
  inversion Hs as [Ek | p Ek _ Hsp Ha | p Ek [Hp _] | p Ek [Hp _] | p Ek [Hp _] | p Ek _ Hf Hrt]; subst;
    rewrite Ek in *; try specialize (Hold p eq_refl); try destruct Hold as [Hn _ Ha' Hd' Hk' Hf'];
    try rewrite Hp in Hf'; try (rewrite Hf in Hf'); unfold with_outcome;
    split; cbn -[Z.eqb]; try done; try tauto; try (split; reflexivity).
  all: try specialize (Hat eq_refl); try specialize (Hk eq_refl); try specialize (Hc eq_refl);
    try specialize (Hnc eq_refl); try specialize (Hr eq_refl).
  all: try (rewrite (proj2 (Z.eqb_neq _ _)); [done | lia]); try tauto.
Qed.

Lemma compensation_step_wf policy status activity old p' :
  compensation_step policy status activity e old p' ->
  (forall p, old = Some p -> compensation_wf (ev_stepName e) p) -> compensation_wf (ev_stepName e) p'.
Proof.
  intros Hs Hold. destruct shape_facts as (Hst & Hat & Hk & Hc & Hnc & Hr & _).
  pose proof (event_attempt_range e He) as Har. pose proof (event_due e He) as Hdue.
  inversion Hs as [a Ek | p Ek Hsp Ha | p Ek Hp | p Ek Hf Hrt | p Ek Hf]; subst;
    destruct_or?; rewrite Ek in *; cbn [outcome_status]; try specialize (Hold p eq_refl);
    try destruct Hold as [Hn _ Ha' Hd' Hk' Hf'];
    try rewrite Hp in Hf'; try (rewrite Hf in Hf');
    specialize (Hst eq_refl); try specialize (Hat eq_refl); try specialize (Hk eq_refl); try specialize (Hc eq_refl);
    try specialize (Hnc eq_refl); try specialize (Hr eq_refl);
    split; cbn -[Z.eqb]; try done; try tauto; try (split; reflexivity).
  all: try (rewrite (proj2 (Z.eqb_neq _ _)); [done | lia]); try tauto.
Qed.

Lemma child_step_wf registry step old p' :
  child_step registry step e old p' ->
  (forall p, old = Some p -> child_wf (ev_stepName e) p) -> child_wf (ev_stepName e) p'.
Proof.
  intros Hs Hold. destruct shape_facts as (Hst & Hat & Hk & Hc & Hnc & Hr & Hsu).
  pose proof (event_attempt_range e He) as Har. pose proof (event_due e He) as Hdue.
  pose proof (shape_definition e Hsh) as Hdef.
  inversion Hs as [Ek | p Ek _ Hsp Ha | p Ek _ [Hp _] | p Ek _ [Hp _] | p Ek _ [Hp _] | p Ek _ Hp Hrt | p Ek _ Ho]; subst;
    destruct_or?; rewrite Ek in *; try specialize (Hold p eq_refl);
    try destruct Hold as [Hn _ Hid' Hdf' Ha' Hd' Hk' Hf'];
    try rewrite Hp in Hf'; unfold child_with; cbn [child_outcome_status];
    specialize (Hst eq_refl); try specialize (Hat eq_refl); try specialize (Hk eq_refl); try specialize (Hc eq_refl);
    try specialize (Hnc eq_refl); try specialize (Hr eq_refl); try specialize (Hsu eq_refl);
    split; cbn -[Z.eqb]; try done; try tauto; try (split; reflexivity).
  all: try (rewrite (proj2 (Z.eqb_neq _ _)); [done | lia]); try tauto.
  1: destruct Hsp as [Hp | [Hp _]]; rewrite Hp in Hf'; tauto.
  all: destruct (hp_status p); try done; tauto.
Qed.
End StepInvariant.

(** ** The invariant along a run *)

Lemma map_Forall_set {A} (P : string -> A -> Prop) (m : gmap string A) name a :
  map_Forall P m -> P name a -> map_Forall P (<[name := a]> m).
Proof. intros. by apply map_Forall_insert_2. Qed.

Lemma map_Forall_entry {A} (P : string -> A -> Prop) (m : gmap string A) name :
  map_Forall P m -> forall p, m !! name = Some p -> P name p.
Proof. intros H p Hp. by apply H. Qed.

Create HintDb replay.
#[export] Hint Resolve map_Forall_set map_Forall_empty : replay.

Lemma progress_wf_transport i m :
  in_activities m = in_activities i -> in_timers m = in_timers i -> in_signals m = in_signals i ->
  in_races m = in_races i -> in_children m = in_children i -> in_compensations m = in_compensations i ->
  in_operatorActions m = in_operatorActions i -> progress_wf i -> progress_wf m.
Proof.
  intros E1 E2 E3 E4 E5 E6 E7 [H1 H2 H3 H4 H5 H6 H7 H8].
  split; unfold compensates_success; rewrite ?E1, ?E2, ?E3, ?E4, ?E5, ?E6, ?E7; done.
Qed.

Lemma finish_progress i m e : progress_wf m -> progress_wf (advanced i m e).
Proof. destruct (finish_frame i m e) as (_ & _ & _ & _ & ? & ? & ? & ? & ? & ? & ? & _). by apply progress_wf_transport. Qed.

(** A succeeded activity takes no further step. *)
Lemma activity_step_not_succeeded step status e p p' :
  activity_step step status e (Some p) p' -> ap_status p <> ActivityProgressSucceeded.
Proof.
  intros Hs. inversion Hs as [| q _ _ Hsp | q _ [Hp _] | q _ [Hp _] | q _ [Hp _] | q _ _ Hf]; subst; try congruence.
  destruct Hsp as [Hp | [Hp _]]; congruence.
Qed.

Lemma applyActivity_wf registry i e m :
  event_wf e -> activityEvent (ev_kind e) = true -> progress_wf i ->
  applyActivity registry i e = Ok m -> progress_wf m.
Proof.
  intros He Hk [H1 H2 H3 H4 H5 H6 H7 H8] (step & p' & _ & Hs & ->)%applyActivity_iff; [| done].
  split; cbn [in_activities in_timers in_signals in_races in_children in_compensations in_operatorActions set_activity]; try done.
  - apply map_Forall_set; [done |]. eapply activity_step_wf; [done | | exact Hs | exact (map_Forall_entry _ _ _ H1)].
    revert Hk. unfold activityEvent, carries_step, kind_within. by destruct (ev_kind e).
  - intros name c Hc. destruct (H8 name c Hc) as (a & Ha & Hst). exists a. split; [| done].
    cbn [in_activities set_activity]. rewrite lookup_insert_ne; [done |]. intros <-.
    rewrite Ha in Hs. by apply activity_step_not_succeeded in Hs.
Qed.

Lemma applyCompensation_wf registry i e m :
  event_wf e -> compensationEvent (ev_kind e) = true -> progress_wf i ->
  applyCompensation registry i e = Ok m -> progress_wf m.
Proof.
  intros He Hk [H1 H2 H3 H4 H5 H6 H7 H8] (step & policy & p' & _ & _ & Hs & ->)%applyCompensation_iff; [| done].
  split; cbn [in_activities in_timers in_signals in_races in_children in_compensations in_operatorActions set_compensation]; try done.
  - apply map_Forall_set; [done |]. eapply compensation_step_wf; [done | exact Hs | exact (map_Forall_entry _ _ _ H6)].
  - intros name c. cbn [in_compensations in_activities set_compensation].
    intros [[<- _] | [_ Hc]]%lookup_insert_Some; [| by eapply H8].
    inversion Hs as [a Ek Hst Ha Hsu Hn | p Ek _ _ _ _ Hp | p Ek _ _ _ Hp | p Ek _ _ _ _ _ Hp | p Ek _ _ Hp];
      [by eauto | by eapply H8 ..].
Qed.

Lemma applyChild_wf registry i e m :
  event_wf e -> childEvent (ev_kind e) = true -> progress_wf i ->
  applyChild registry i e = Ok m -> progress_wf m.
Proof.
  intros He Hk [H1 H2 H3 H4 H5 H6 H7 H8] (step & p' & _ & _ & Hs & ->)%applyChild_iff; [| done].
  split; cbn [in_activities in_timers in_signals in_races in_children in_compensations in_operatorActions set_child]; try done.
  apply map_Forall_set; [done |]. eapply child_step_wf; [done | exact Hs | exact (map_Forall_entry _ _ _ H5)].
Qed.

Lemma applyWait_wf registry i e m :
  event_wf e -> progress_wf i -> applyWait registry i e = Ok m -> progress_wf m.
Proof.
  intros He [H1 H2 H3 H4 H5 H6 H7 H8] Hs%applyWait_iff.
  destruct (shape_facts e He) as (Hst & _ & Hk & _).
  destruct Hs as [step Ek _ _ Hn _ | step Ek _ _ _ Hd | step p Ek _ _ Hp Hw Hb]; rewrite Ek in *;
    specialize (Hst eq_refl); split;
    cbn [in_activities in_timers in_signals in_races in_children in_compensations in_operatorActions set_signal set_timer]; try done.
  - apply map_Forall_set; [done |]. split_and!; [done | done | by apply Hk | apply He | apply (event_wf_shape e He)].
  - intros name r Hr. destruct (H4 name r Hr) as (? & ? & ? & Hw). split_and!; try done.
    destruct (decide (ev_stepName e = rp_winnerStepName r)) as [-> |];
      [by rewrite lookup_insert_eq | by rewrite lookup_insert_ne].
  - apply map_Forall_set; [done |]. split_and!; try done; apply He.
  - apply map_Forall_set; [done |]. destruct (H2 _ p Hp) as (Hn & _ & Hc & _ & _).
    split_and!; cbn; try done; [apply He |]. by rewrite <- Before_canonical_r.
Qed.

Lemma applyRace_wf registry i e m :
  event_wf e -> ev_kind e = EventRaceWon -> progress_wf i -> applyRace registry i e = Ok m -> progress_wf m.
Proof.
  intros He Ek [H1 H2 H3 H4 H5 H6 H7 H8] (step & _ & _ & Hs & _ & _ & ->)%applyRace_iff.
  destruct (shape_facts e He) as (Hst & _). rewrite Ek in Hst. specialize (Hst eq_refl).
  split; cbn [in_activities in_timers in_signals in_races in_children in_compensations in_operatorActions set_race]; try done.
  apply map_Forall_set; [done |]. split_and!; try done; apply He.
Qed.

Lemma applyOperator_wf i e m :
  event_wf e -> ev_kind e = EventOperatorCommandRecorded -> progress_wf i -> applyOperator i e = Ok m -> progress_wf m.
Proof.
  intros He Ek [H1 H2 H3 H4 H5 H6 H7 H8] H. unfold applyOperator in H.
  destruct (decodeOperatorAudit (ev_data e)) as [document |] eqn:C; [| by walk H].
  apply decodeOperatorAudit_wf in C as (Hd & Ha & Hr). walk H. destruct H.
  destruct (shape_facts e He) as (_ & _ & Hk & _). rewrite Ek in Hk. specialize (Hk eq_refl).
  split; try done. cbn [in_operatorActions set_operator]. apply Forall_app. split; [done |].
  apply Forall_singleton. split_and!; try done; apply He.
Qed.

Lemma applyKind_wf registry i e m :
  event_wf e -> progress_wf i -> applyKind registry i e = Ok m -> progress_wf m.
Proof.
  intros He Hi H. unfold applyKind in H. destruct (ev_kind e) eqn:Ek.
  1-10, 37: walk H; destruct H; by apply (progress_wf_transport i).
  1-6: by eapply applyActivity_wf; [..| exact H]; rewrite ?Ek.
  1-3: by eapply applyWait_wf; [..| exact H]; rewrite ?Ek.
  1-7: by eapply applyCompensation_wf; [..| exact H]; rewrite ?Ek.
  1: by eapply applyOperator_wf; [..| exact H]; rewrite ?Ek.
  1: by eapply applyRace_wf; [..| exact H]; rewrite ?Ek.
  all: by eapply applyChild_wf; [..| exact H]; rewrite ?Ek.
Qed.

Lemma run_progress registry es i : run registry es i -> progress_wf i.
Proof.
  induction 1 as [e i He Hs | es e i m Hr IH He Ha Hm].
  - apply applyStart_inv in Hs as (_ & _ & _ & ->).
    split; cbn; [apply map_Forall_empty .. | constructor |]. intros name c Hc. cbn [in_compensations] in Hc. by rewrite lookup_empty in Hc.
  - by apply finish_progress, (applyKind_wf registry i e).
Qed.

(** ** What each event leaves alone *)

Record frames (kind : EventKind) (i m : Instance_) : Prop := {
  frame_activities : activityEvent kind = false -> in_activities m = in_activities i;
  frame_children : childEvent kind = false -> in_children m = in_children i;
  frame_compensations : compensationEvent kind = false -> in_compensations m = in_compensations i;
  frame_timers : kind <> EventTimerScheduled -> kind <> EventTimerFired -> in_timers m = in_timers i;
  frame_signals : kind <> EventSignalReceived -> in_signals m = in_signals i;
  frame_races : kind <> EventRaceWon -> in_races m = in_races i;
  frame_definition : kind <> EventDefinitionMigrated ->
    in_definition m = in_definition i /\ in_input m = in_input i;
  frame_operator : kind <> EventOperatorCommandRecorded ->
    in_operatorActions m = in_operatorActions i /\ in_pendingOperator m = in_pendingOperator i
}.

Lemma applyKind_frames registry i e m : applyKind registry i e = Ok m -> frames (ev_kind e) i m.
Proof.
  intros H. unfold applyKind in H. destruct (ev_kind e) eqn:Ek.
  1-10, 37: walk H; destruct H; split; done.
  1-6: apply applyActivity_iff in H as (step & p' & _ & Hs & ->); [| by rewrite Ek]; split; done.
  1-3: apply applyWait_iff in H as [? Ek' | ? Ek' | ? ? Ek']; split; try done; congruence.
  1-7: apply applyCompensation_iff in H as (step & pol & p' & _ & _ & Hs & ->); [| by rewrite Ek]; split; done.
  1: { unfold applyOperator in H. walk H. destruct H. split; done. }
  1: { apply applyRace_iff in H as (step & _ & _ & _ & _ & _ & ->). split; done. }
  all: apply applyChild_iff in H as (step & p' & _ & _ & Hs & ->); [| by rewrite Ek]; split; done.
Qed.

(** ** Attempts are counted *)

Definition starts (name : string) (e : HistoryEvent) : bool :=
  bool_decide (ev_kind e = EventActivityAttemptStarted) && bool_decide (ev_stepName e = name).

Definition starts_of (name : string) (es : list HistoryEvent) : Z :=
  Z.of_nat (length (filter (fun e => starts name e = true) es)).

Definition attempt_of (i : Instance_) (name : string) : Z :=
  match in_activities i !! name with Some p => ap_attempt p | None => 0 end.

Lemma starts_of_app name es e :
  starts_of name (es ++ [e]) = starts_of name es + (if starts name e then 1 else 0).
Proof.
  unfold starts_of. rewrite filter_app, length_app, Nat2Z.inj_add. f_equal.
  rewrite filter_cons, filter_nil. by destruct (starts name e).
Qed.

Lemma applyKind_attempt registry i e m name :
  event_wf e -> progress_wf i -> applyKind registry i e = Ok m ->
  attempt_of m name = attempt_of i name + (if starts name e then 1 else 0).
Proof.
  intros He Hi H. pose proof (applyKind_frames _ _ _ _ H) as [Hf _ _ _ _ _ _ _].
  unfold attempt_of, starts. destruct (activityEvent (ev_kind e)) eqn:Hk.
  - assert (Ha : applyActivity registry i e = Ok m) by (unfold applyKind in H; by destruct (ev_kind e)).
    apply applyActivity_iff in Ha as (step & p' & _ & Hs & ->); [| done]. cbn [in_activities set_activity].
    destruct (decide (ev_stepName e = name)) as [<- | Hne].
    + rewrite lookup_insert_eq, (bool_decide_eq_true_2 (ev_stepName e = ev_stepName e)), andb_true_r by done.
      inversion Hs as [Ek _ _ Hn | p Ek _ _ Ha _ _ Hp | p Ek _ Hp | p Ek _ Hp | p Ek _ Hp | p Ek _ _ _ _ _ _ Hp];
        rewrite Ek; decide_kinds; cbn [ap_attempt with_outcome]; try lia.
      pose proof (wf_activities _ Hi _ p (eq_sym Hp)) as [_ _ Hr _ _ _].
      destruct (shape_facts e He) as (_ & Hat & _). rewrite Ek in Hat. specialize (Hat eq_refl).
      rewrite Ha in Hat |- *. rewrite u32_succ_nonzero; lia.
    + rewrite lookup_insert_ne by done. rewrite (bool_decide_eq_false_2 (_ = name)) by done. rewrite andb_false_r. lia.
  - rewrite Hf by done. rewrite (bool_decide_eq_false_2 (ev_kind e = _)); [simpl; lia |].
    intros Ek. by rewrite Ek in Hk.
Qed.

Lemma finish_attempt i m e name : attempt_of (advanced i m e) name = attempt_of m name.
Proof. unfold attempt_of. by destruct (finish_frame i m e) as (_ & _ & _ & _ & -> & _). Qed.

Lemma run_attempts registry es i name : run registry es i -> starts_of name es = attempt_of i name.
Proof.
  induction 1 as [e i He Hs | es e i m Hr IH He Ha Hm].
  - apply applyStart_inv in Hs as (Hk & _ & _ & ->). unfold attempt_of. cbn [in_activities]. rewrite lookup_empty.
    unfold starts_of, starts. rewrite filter_cons, filter_nil, Hk. done.
  - rewrite starts_of_app, finish_attempt, IH. symmetry.
    apply (applyKind_attempt registry); [done | by eapply run_progress | done].
Qed.

(** Without a migration the pinned definition never changes, so the bound of each
    attempt is the bound of the final definition. *)
Definition migrates (e : HistoryEvent) : Prop := ev_kind e = EventDefinitionMigrated.

Lemma run_bounded registry es i name p :
  run registry es i -> Forall (fun e => ~ migrates e) es -> in_activities i !! name = Some p ->
  exists step, definitionActivityStep (pinnedDefinition registry i) name = Some step
    /\ ap_attempt p <= Z.max 0 (MaxAttempts (step_Retry step)).
Proof.
  intros Hr. revert p. induction Hr as [e i He Hs | es e i m Hr IH He Ha Hm]; intros p Hn Hp.
  - apply applyStart_inv in Hs as (_ & _ & _ & ->). cbn [in_activities] in Hp. by rewrite lookup_empty in Hp.
  - apply Forall_app in Hn as [Hn Hne]. rewrite Forall_singleton in Hne. specialize (fun q => IH q Hn).
    pose proof (applyKind_frames _ _ _ _ Hm) as Hf. destruct (frame_definition _ _ _ Hf Hne) as [Hd _].
    destruct (finish_frame i m e) as (_ & Hfd & _ & _ & Hfa & _).
    unfold pinnedDefinition. rewrite Hfd, Hd. rewrite Hfa in Hp.
    destruct (activityEvent (ev_kind e)) eqn:Hk.
    + assert (Happ : applyActivity registry i e = Ok m) by (unfold applyKind in Hm; by destruct (ev_kind e)).
      apply applyActivity_iff in Happ as (step & p' & Hstep & Hs & ->); [| done]. cbn [in_activities set_activity] in Hp.
      destruct (decide (ev_stepName e = name)) as [<- | Hne']; [| rewrite lookup_insert_ne in Hp by done; eauto].
      rewrite lookup_insert_eq in Hp. injection Hp as <-. exists step. split; [done |].
      inversion Hs as [Ek _ _ Hnone | q Ek _ _ _ Hmax _ Hq | q Ek _ Hq | q Ek _ Hq | q Ek _ Hq | q Ek _ _ _ _ _ _ Hq];
        cbn [ap_attempt with_outcome]; try lia;
        destruct (IH q (eq_sym Hq)) as (step' & Hstep' & Hle); unfold pinnedDefinition in *; congruence.
    + rewrite (frame_activities _ _ _ Hf Hk) in Hp. eauto.
Qed.
