(* ===== verification/ReplayProperties.v ===== *)
(** * What replay guarantees

    The theorems about [Replay], each over every history of well-formed events. *)
From S2P Require Import Prelude GoTime Names Definitions Registry OperatorAudit Event.
From S2P Require Import Instances ActivityHistory WaitHistory ChildHistory CompensationHistory Replay ReplayInvariant.

(** ** The shape of a history *)

Record history_wf (es : list HistoryEvent) (i : Instance_) : Prop := {
  history_positions : forall k e, es !! k = Some e ->
    ev_sequence e = Z.of_nat k + 1 /\ ev_instanceID e = in_id i;
  history_length : in_sequence i = Z.of_nat (length es);
  history_order : forall j k a b, (j <= k)%nat -> es !! j = Some a -> es !! k = Some b ->
    instant_ltb (ev_occurredAt b) (ev_occurredAt a) = false;
  history_started : exists e, head es = Some e /\ ev_kind e = EventInstanceStarted
    /\ in_startedAt i = ev_occurredAt e;
  history_updated : exists e, last es = Some e /\ in_updatedAt i = ev_occurredAt e
}.

Lemma applyKind_header registry i e m :
  terminalStatus (in_status i) = false -> applyKind registry i e = Ok m -> same_header i m.
Proof. intros Ht H. by destruct (applyKind_lifecycle _ _ _ _ Ht H). Qed.

Lemma lookup_snoc {A} (l : list A) x k y :
  (l ++ [x]) !! k = Some y <-> l !! k = Some y \/ (k = length l /\ y = x).
Proof.
  rewrite lookup_app_Some, list_lookup_singleton_Some. split.
  - intros [H | (Hk & H & ->)]; [by left | right]. split; [lia | done].
  - intros [H | [-> ->]]; [by left | right]. split_and!; [lia | lia | done].
Qed.

Lemma run_history registry es i : run registry es i -> history_wf es i.
Proof.
  induction 1 as [e i He Hs | es e i m Hr IH He Ha Hm].
  - apply applyStart_inv in Hs as (Hk & Hsq & _ & ->). split; cbn.
    + intros [| k] x [=]; subst. split; [done | reflexivity].
    + done.
    + intros [| j] [| k] a b _ [=] [=]; subst. apply instant_ltb_irrefl.
    + eauto.
    + eauto.
  - destruct (applyKind_header _ _ _ _ (adm_alive _ _ Ha) Hm) as [Hid Hsq Hst Hup].
    destruct (finish_frame i m e) as (Fid & _ & _ & Fst & _ & _ & _ & _ & _ & _ & _ & Fsq & Fup).
    pose proof (run_step _ _ _ _ _ Hr He Ha Hm) as Hr'. apply run_sequence in Hr' as [Hlen _].
    destruct IH as [H1 H2 H3 (h & Hh1 & Hh2 & Hh3) (l & Hl1 & Hl2)]. split.
    + intros k x [Hx | [-> ->]]%lookup_snoc; rewrite Fid, Hid.
      * by apply H1.
      * rewrite Fsq, length_app in Hlen. cbn [length] in Hlen. split; [lia | apply Ha].
    + done.
    + assert (Hlast : forall j a, es !! j = Some a -> instant_ltb (ev_occurredAt e) (ev_occurredAt a) = false).
      { intros j a Hj. apply (instant_leb_trans (ev_occurredAt a) (ev_occurredAt l)).
        - apply (H3 j (pred (length es)) a l); [apply lookup_lt_Some in Hj; lia | done |]. by rewrite <- last_lookup.
        - rewrite <- Hl2. rewrite <- Before_canonical_l; [apply Ha | apply He]. }
      intros j k a b Hjk [Hj | [-> ->]]%lookup_snoc [Hk | [-> ->]]%lookup_snoc.
      * by eapply H3.
      * by eapply Hlast.
      * apply lookup_lt_Some in Hk. lia.
      * apply instant_ltb_irrefl.
    + exists h. rewrite Fst, Hst. split_and!; [by destruct es | done | done].
    + exists e. split; [by rewrite last_snoc | done].
Qed.

(** ** Settled activities *)

Definition settled (status : ActivityProgressStatus) : Prop :=
  status = ActivityProgressSucceeded \/ status = ActivityProgressUnknown.

Lemma activity_step_settled step status e p p' :
  activity_step step status e (Some p) p' -> ~ settled (ap_status p).
Proof.
  intros Hs. unfold settled.
  inversion Hs as [| q _ _ Hsp | q _ [Hp _] | q _ [Hp _] | q _ [Hp _] | q _ _ Hf]; subst;
    [destruct Hsp as [Hp | [Hp _]] | ..]; intros [? | ?]; congruence.
Qed.

Lemma applyKind_settled registry i e m name p :
  applyKind registry i e = Ok m -> in_activities i !! name = Some p -> settled (ap_status p) ->
  in_activities m !! name = Some p.
Proof.
  intros H Hp Hs. destruct (activityEvent (ev_kind e)) eqn:Hk.
  - assert (Ha : applyActivity registry i e = Ok m) by (unfold applyKind in H; by destruct (ev_kind e)).
    apply applyActivity_iff in Ha as (step & p' & _ & Hstep & ->); [| done]. cbn [in_activities set_activity].
    rewrite lookup_insert_ne; [done |]. intros <-. rewrite Hp in Hstep. by apply activity_step_settled in Hstep.
  - by rewrite (frame_activities _ _ _ (applyKind_frames _ _ _ _ H) Hk).
Qed.

Lemma run_settled registry es es' i i' name p :
  run registry es i -> Forall event_wf es' -> applyAll registry i es' = Ok i' ->
  in_activities i !! name = Some p -> settled (ap_status p) -> in_activities i' !! name = Some p.
Proof.
  revert es i. induction es' as [| e es' IH]; intros es i Hr Hw H Hp Hs; cbn [applyAll] in H; [by injection H as <- |].
  destruct (apply registry i e) as [j |] eqn:E; [| done]. cbn [mbind result_bind] in H.
  apply Forall_cons in Hw as [He Hw]. eapply IH; [by eapply run_extend | done | done | | done].
  pose proof (run_sequence _ _ _ Hr) as [_ Hsq]. apply apply_iff in E as (_ & m & Hm & ->); [| lia].
  destruct (finish_frame i m e) as (_ & _ & _ & _ & -> & _). by eapply applyKind_settled.
Qed.

(** ** Operator commands *)

Definition is_command (e : HistoryEvent) : Prop := ev_kind e = EventOperatorCommandRecorded.

(** The command at a position is completed by the next event, or it is the last
    event and still open. *)
Definition command_followed (es : list HistoryEvent) (pending : OperatorAction) : Prop :=
  forall k e, es !! k = Some e -> is_command e ->
  exists document, decodeOperatorAudit (ev_data e) = Ok document
    /\ ((exists e', es !! S k = Some e' /\ ev_kind e' = operatorEventKind (audit_Action document))
        \/ (S k = length es /\ pending = audit_Action document)).

Lemma operatorEventKind_not_command action : operatorEventKind action <> EventOperatorCommandRecorded.
Proof. by destruct action. Qed.

Lemma finish_pending i m e :
  in_pendingOperator (advanced i m e)
  = if bool_decide (in_pendingOperator i = OperatorActionUndeclared) then in_pendingOperator m
    else OperatorActionUndeclared.
Proof. unfold advanced. by case_bool_decide. Qed.

Lemma run_commands registry es i : run registry es i -> command_followed es (in_pendingOperator i).
Proof.
  induction 1 as [e i He Hs | es e i m Hr IH He Ha Hm].
  - apply applyStart_inv in Hs as (Hk & _). intros [| k] x [=] Hx; subst. unfold is_command in Hx. congruence.
  - intros k x [Hx | [-> ->]]%lookup_snoc Hc.
    + destruct (IH k x Hx Hc) as (document & Hd & [(e' & He' & Hk') | [Hlast Hp]]); exists document; (split; [done |]); left.
      * exists e'. split; [| done]. apply lookup_snoc. by left.
      * exists e. split; [apply lookup_snoc; by right |].
        destruct (adm_operator _ _ Ha) as [Hu | Ho]; [| congruence].
        apply decodeOperatorAudit_wf in Hd as (Hne & _). congruence.
    + unfold is_command in Hc. unfold applyKind in Hm. rewrite Hc in Hm. unfold applyOperator in Hm.
      case_bool_decide as Hu; [| done]. cbn [negb] in Hm.
      destruct (decodeOperatorAudit (ev_data e)) as [document |]; [| done]. walk Hm. destruct Hm.
      exists document. split; [done |]. right. rewrite finish_pending, length_app, bool_decide_eq_true_2 by done.
      cbn. split; [lia | done].
Qed.

(** ** A sample history *)

Definition sample_fingerprint : string := "aaaaaaaaaaaaaaaaaaaaaaaaaaaaaaaaaaaaaaaaaaaaaaaaaaaaaaaaaaaaaaaa".
Definition sample_definition : Definition_ := mkDefinition (sample_spec "v1") sample_fingerprint.
Definition sample_registry : option Registry :=
  Some (mkRegistry (<[("order", "v1")%string := sample_definition]> ∅) ∅).
Definition sample_time (s : Z) : Time := mkTime (63800000000 + s) 0 None UTC.
Definition sample_event (sequence : Z) (kind : EventKind) (step : string) (attempt : Z) (key : string)
    (due : Time) (code : string) (retryable : bool) (data : bytes) : HistoryEvent :=
  mkEvent sequence "wf-1" kind (sample_time sequence)
    (if requiresDefinition kind then Reference sample_definition else zeroReference)
    "" step attempt key due code retryable data.
(** The activity timeout and delays of the sample definition are nanoseconds. *)
Definition sample_due (sequence : Z) (delay : Z) : Time := Add (sample_time sequence) delay.

Definition sample_history : list HistoryEvent :=
  [sample_event 1 EventInstanceStarted "" 0 "" zeroTime "" false (Some "in"%string);
   sample_event 2 EventActivityScheduled "a" 0 "" zeroTime "" false (Some "x"%string);
   sample_event 3 EventActivityAttemptStarted "a" 1 "key-1" (sample_due 3 1000) "" false None;
   sample_event 4 EventActivityAttemptFailed "a" 1 "" zeroTime "busy" true None;
   sample_event 5 EventActivityRetryScheduled "a" 1 "" (sample_due 5 1000) "" false None;
   sample_event 6 EventActivityAttemptStarted "a" 2 "key-2" (sample_due 6 1000) "" false None;
   sample_event 7 EventActivityAttemptSucceeded "a" 2 "" zeroTime "" false (Some "y"%string);
   sample_event 8 EventCompensationScheduled "a" 0 "" zeroTime "" false (Some "y"%string)].

Definition sample_audit : operatorAuditDocument := mkAudit OperatorPause "ops:1" "drill".
Definition sample_command : list HistoryEvent :=
  [mkEvent 9 "wf-1" EventOperatorCommandRecorded (sample_time 9) zeroReference "" "" 0 "cmd-1" zeroTime "" false
     (Some (marshalAudit sample_audit));
   sample_event 10 EventInstancePaused "" 0 "" zeroTime "" false None].

Definition sample_instance : Instance_ := or_zero zeroInstance (Replay sample_registry sample_history).

Lemma event_wf_check e :
  validHistoryEventSpec (spec_of e) && bool_decide (canonicalTime (ev_occurredAt e) = ev_occurredAt e)
  && bool_decide (canonicalTime (ev_dueAt e) = ev_dueAt e)
  && (0 <=? ev_sequence e) && (ev_sequence e <? 2 ^ 64) && (0 <=? ev_attempt e) && (ev_attempt e <? 2 ^ 32) = true ->
  event_wf e.
Proof.
  intros H. bool_norm. split; [done | | | lia | lia].
  - match goal with E : canonicalTime (ev_occurredAt e) = _ |- _ => rewrite <- E end. apply canonicalTime_canonical.
  - match goal with E : canonicalTime (ev_dueAt e) = _ |- _ => rewrite <- E end. apply canonicalTime_canonical.
Qed.

Lemma sample_history_wf : Forall event_wf sample_history.
Proof. repeat constructor; apply event_wf_check; vm_compute; reflexivity. Qed.

Lemma sample_replay : Replay sample_registry sample_history = Ok sample_instance.
Proof. vm_compute. reflexivity. Qed.

Lemma sample_command_wf : Forall event_wf (sample_history ++ sample_command).
Proof.
  apply Forall_app. split; [apply sample_history_wf |].
  repeat constructor; apply event_wf_check; vm_compute; reflexivity.
Qed.

(** ** Properties *)

(** C1: A replayed history is contiguous: event k has sequence k+1 and the
    instance's identity, the instance's sequence is the number of events, no
    event is earlier than a previous one, the first event is the start and gives
    the start time, and the last event gives the update time. *)
Theorem replay_contiguous registry es i :
  Forall event_wf es -> Replay registry es = Ok i -> history_wf es i.
Proof. intros Hw Hr. eapply run_history, Replay_run; eauto. Qed.

Lemma replay_contiguous_witness : history_wf sample_history sample_instance.
Proof. exact (replay_contiguous _ _ _ sample_history_wf sample_replay). Defined.

(** C25: Every progress record of a replayed instance is coherent: it is stored
    under its own stable step name, its attempt, key, due time, result, code and
    retry flag agree with its status, a fired timer fired no earlier than it was
    due, a race winner is an accepted signal, every recorded operator action is
    legal, and only an activity that succeeded has a compensation. *)
Theorem replay_progress_wf registry es i :
  Forall event_wf es -> Replay registry es = Ok i -> progress_wf i.
Proof. intros Hw Hr. eapply run_progress, Replay_run; eauto. Qed.

Lemma replay_progress_wf_witness : progress_wf sample_instance.
Proof. exact (replay_progress_wf _ _ _ sample_history_wf sample_replay). Defined.

(** C26: The lifecycle is the table [lifecycle]: an event that applies to an
    instance is legal for its status, and the table gives the next status; a
    terminal status admits no event at all, and an event of the start kind never
    applies twice. *)
Theorem apply_lifecycle registry i e i' :
  in_sequence i <> 0 -> apply registry i e = Ok i' ->
  lifecycle (in_status i) (ev_kind e) = Some (in_status i').
Proof.
  intros Hs (Ha & m & Hm & ->)%apply_iff; [| done].
  destruct (finish_frame i m e) as (_ & _ & -> & _).
  by destruct (applyKind_lifecycle _ _ _ _ (adm_alive _ _ Ha) Hm).
Qed.

Lemma apply_lifecycle_witness :
  lifecycle (in_status sample_instance) EventInstancePaused
  = Some (in_status (or_zero zeroInstance
      (apply sample_registry sample_instance (sample_event 9 EventInstancePaused "" 0 "" zeroTime "" false None)))).
Proof.
  apply (apply_lifecycle sample_registry sample_instance (sample_event 9 EventInstancePaused "" 0 "" zeroTime "" false None));
    [vm_compute; discriminate | vm_compute; reflexivity].
Defined.

(** C10: A terminal instance is final: once a history replays to a terminal status,
    no longer history with the same beginning replays. *)
Theorem terminal_is_final registry es i e es' :
  Forall event_wf es -> Replay registry es = Ok i -> terminalStatus (in_status i) = true ->
  is_ok (Replay registry (es ++ e :: es')) = false.
Proof.
  intros Hw Hr Ht. destruct (Replay registry (es ++ e :: es')) as [i' |] eqn:E; [| done].
  apply (Replay_extend registry es (e :: es') i i' Hr) in E as [E _]. cbn [applyAll] in E.
  pose proof (Replay_run _ _ _ Hw Hr) as Hrun. apply run_sequence in Hrun as [_ Hs].
  destruct (apply registry i e) as [j |] eqn:Ea; [| done].
  apply apply_iff in Ea as [[_ _ _ Ha _] _]; [congruence | lia].
Qed.

Definition sample_terminated : list HistoryEvent :=
  sample_history ++ [sample_event 9 EventInstanceTerminated "" 0 "" zeroTime "" false None].

Lemma terminal_is_final_witness :
  is_ok (Replay sample_registry (sample_terminated ++ [sample_event 10 EventInstanceResumed "" 0 "" zeroTime "" false None])) = false.
Proof.
  apply (terminal_is_final sample_registry sample_terminated (or_zero zeroInstance (Replay sample_registry sample_terminated))).
  - apply Forall_app. split; [apply sample_history_wf |]. repeat constructor; apply event_wf_check; vm_compute; reflexivity.
  - vm_compute. reflexivity.
  - vm_compute. reflexivity.
Defined.

(** Attempts are counted and bounded: the attempt number of an activity is the
    number of its attempt-started events in the history, and in a history without
    a migration that number is at most MaxAttempts of the activity's step. *)
Theorem attempts_counted registry es i name p :
  Forall event_wf es -> Replay registry es = Ok i -> in_activities i !! name = Some p ->
  starts_of name es = ap_attempt p
  /\ (Forall (fun e => ~ migrates e) es ->
      exists step, definitionActivityStep (pinnedDefinition registry i) name = Some step
        /\ starts_of name es <= Z.max 0 (MaxAttempts (step_Retry step))).
Proof.
  intros Hw Hr%Replay_run Hp; [| done].
  assert (Hc : starts_of name es = ap_attempt p).
  { rewrite (run_attempts registry es i name Hr). unfold attempt_of. by rewrite Hp. }
  split; [done |]. intros Hn. rewrite Hc. by eapply run_bounded.
Qed.

Lemma attempts_counted_witness :
  exists p, in_activities sample_instance !! "a"%string = Some p /\ starts_of "a" sample_history = ap_attempt p.
Proof.
  eexists. split; [vm_compute; reflexivity |].
  apply (attempts_counted sample_registry sample_history sample_instance "a" _ sample_history_wf sample_replay).
  vm_compute. reflexivity.
Defined.

(** A known success and an unknown outcome are settled: whatever well-formed
    events follow, the progress record of the activity never changes again; in
    particular an attempt that may have committed is never retried. *)
Theorem settled_activity_absorbing registry es es' i i' name p :
  Forall event_wf (es ++ es') -> Replay registry es = Ok i -> Replay registry (es ++ es') = Ok i' ->
  in_activities i !! name = Some p -> settled (ap_status p) -> in_activities i' !! name = Some p.
Proof.
  intros [Hw Hw']%Forall_app Hr Hr' Hp Hs.
  apply (Replay_extend registry es es' i i' Hr) in Hr' as [Ha _].
  by apply (run_settled registry es es' i i' name p (Replay_run _ _ _ Hw Hr)).
Qed.

Lemma settled_activity_absorbing_witness :
  exists p i', Replay sample_registry (sample_history ++ sample_command) = Ok i'
    /\ in_activities sample_instance !! "a"%string = Some p /\ in_activities i' !! "a"%string = Some p.
Proof.
  eexists _, (or_zero zeroInstance (Replay sample_registry (sample_history ++ sample_command))).
  split; [vm_compute; reflexivity |]. split; [vm_compute; reflexivity |].
  eapply (settled_activity_absorbing sample_registry sample_history sample_command sample_instance).
  - apply sample_command_wf.
  - apply sample_replay.
  - vm_compute. reflexivity.
  - vm_compute. reflexivity.
  - left. reflexivity.
Defined.

(** C3: Operator commands are atomic: in a history that replays, every recorded
    command is followed at once by an event of exactly the kind its audited
    action asks for. *)
Theorem operator_commands_paired registry es i k e :
  Forall event_wf es -> Replay registry es = Ok i -> es !! k = Some e -> is_command e ->
  exists document e', decodeOperatorAudit (ev_data e) = Ok document /\ es !! S k = Some e'
    /\ ev_kind e' = operatorEventKind (audit_Action document).
Proof.
  intros Hw Hr Hk Hc. pose proof (Replay_run _ _ _ Hw Hr) as Hrun.
  apply Replay_iff in Hr as (_ & _ & Hp).
  destruct (run_commands _ _ _ Hrun k e Hk Hc) as (document & Hd & [(e' & He' & Hk') | [_ Hpend]]); [eauto |].
  apply decodeOperatorAudit_wf in Hd as (Hne & _). congruence.
Qed.

Lemma operator_commands_paired_witness :
  exists e', (sample_history ++ sample_command) !! 9%nat = Some e' /\ ev_kind e' = EventInstancePaused.
Proof.
  destruct (operator_commands_paired sample_registry (sample_history ++ sample_command)
    (or_zero zeroInstance (Replay sample_registry (sample_history ++ sample_command))) 8
    (mkEvent 9 "wf-1" EventOperatorCommandRecorded (sample_time 9) zeroReference "" "" 0 "cmd-1" zeroTime "" false
       (Some (marshalAudit sample_audit))) sample_command_wf) as (document & e' & Hd & He & Hk);
    [vm_compute; reflexivity | reflexivity | reflexivity |].
  exists e'. split; [exact He |]. injection He as <-. reflexivity.
Defined.

(** The code's activity transitions are exactly the rules of the activity state
    machine [activity_step]: an activity event applies iff the pinned definition
    has the activity step and one rule takes the stored progress to the new one,
    and nothing else of the instance changes. *)
Theorem activity_refines_rules registry i e i' :
  activityEvent (ev_kind e) = true ->
  applyActivity registry i e = Ok i' <->
  exists step p', definitionActivityStep (pinnedDefinition registry i) (ev_stepName e) = Some step
    /\ activity_step step (in_status i) e (in_activities i !! ev_stepName e) p'
    /\ i' = set_activity i (ev_stepName e) p'.
Proof. apply applyActivity_iff. Qed.

Lemma activity_refines_rules_witness :
  exists step p', definitionActivityStep (pinnedDefinition sample_registry sample_instance) "b" = Some step
    /\ activity_step step StatusRunning (sample_event 9 EventActivityScheduled "b" 0 "" zeroTime "" false None) None p'.
Proof.
  destruct (proj1 (activity_refines_rules sample_registry sample_instance
    (sample_event 9 EventActivityScheduled "b" 0 "" zeroTime "" false None)
    (set_activity sample_instance "b" (mkActivityProgress "b" ActivityProgressReady 0 "" zeroTime None None "" false)) eq_refl))
    as (step & p' & Hs & Ha & _); [vm_compute; reflexivity |]. exists step, p'. split; [exact Hs | exact Ha].
Defined.

(** C14: The retry delay is exponential and capped: attempt n of a valid policy waits
    min (InitialDelay * 2^(n-1)) MaxDelay, for every 32-bit attempt number; the
    63 doublings the code stops at lose nothing and the 64-bit product never
    wraps. *)
Theorem retryDelay_exponential policy attempt :
  validRetry policy = true -> retry_in_range policy -> 1 <= attempt < 2 ^ 32 ->
  retryDelay policy attempt = Z.min (InitialDelay policy * 2 ^ (attempt - 1)) (MaxDelay policy)
  /\ InitialDelay policy <= retryDelay policy attempt <= MaxDelay policy.
Proof.
  intros Hv Hr Ha. pose proof (retryDelay_closed _ _ Hv Hr Ha) as He. split; [done |]. rewrite He.
  unfold validRetry in Hv. bool_norm. pose proof (Z.pow_pos_nonneg 2 (attempt - 1) ltac:(lia) ltac:(lia)). nia.
Qed.

Lemma retryDelay_exponential_witness : retryDelay sample_retry 3 = Z.min (1000 * 2 ^ (3 - 1)) 4000.
Proof.
  apply (retryDelay_exponential sample_retry 3); [reflexivity | split; [reflexivity | discriminate] | lia].
Defined.
