(* ===== verification/Work.v ===== *)
(** * Durable work and its leases (transition.go, work.go)

    Pending work is created atomically with history; a lease is claimed work
    with an owner and a fencing token. *)
From S2P Require Import Prelude GoTime Names Definitions.

Definition MaxWorkClaimItems : Z := 100.
(** 15 minutes in nanoseconds *)
Definition MaxWorkLeaseDuration : Z := 15 * 60 * 1000000000.

Inductive WorkKind :=
  | WorkActivity | WorkTimer | WorkChild | WorkPublication | WorkReconciliation | WorkCompensation
  | WorkKindUndeclared.

Inductive WorkDisposition := WorkRetry | WorkDeadLetter | WorkDispositionUndeclared.

#[export] Instance WorkKind_eq_dec : EqDecision WorkKind.
Proof. solve_decision. Defined.
#[export] Instance WorkDisposition_eq_dec : EqDecision WorkDisposition.
Proof. solve_decision. Defined.

Definition WorkKind_code (kind : WorkKind) : Z :=
  match kind with
  | WorkActivity => 1 | WorkTimer => 2 | WorkChild => 3 | WorkPublication => 4
  | WorkReconciliation => 5 | WorkCompensation => 6 | WorkKindUndeclared => 0
  end.

(** [PendingWorkSpec] and [PendingWork] hold the same fields. *)
Record PendingWorkSpec := mkWorkSpec {
  ws_ID : string;
  ws_Kind : WorkKind;
  ws_InstanceID : string;
  ws_Sequence : Z;
  ws_AvailableAt : Time;
  ws_Deadline : Time;
  ws_Payload : bytes;
  ws_TenantID : string;
  ws_CorrelationID : string
}.

Record PendingWork := mkWork {
  wk_id : string;
  wk_kind : WorkKind;
  wk_instanceID : string;
  wk_sequence : Z;
  wk_availableAt : Time;
  wk_deadline : Time;
  wk_payload : bytes;
  wk_tenantID : string;
  wk_correlationID : string
}.

#[export] Instance PendingWork_eq_dec : EqDecision PendingWork.
Proof. solve_decision. Defined.

Definition zeroWork : PendingWork := mkWork "" WorkKindUndeclared "" 0 zeroTime zeroTime None "" "".

(** [optionalMetadataValid] of activity.go *)
Definition optionalMetadataValid (value : string) : bool :=
  bool_decide (value = EmptyString) || instanceIDPattern value.

(** [PendingWork.valid] *)
Definition work_valid (work : PendingWork) : bool :=
  instanceIDPattern (wk_id work)
  && (1 <=? WorkKind_code (wk_kind work)) && (WorkKind_code (wk_kind work) <=? 6)
  && instanceIDPattern (wk_instanceID work) && (0 <? wk_sequence work)
  && negb (IsZero (wk_availableAt work)) && After (wk_deadline work) (wk_availableAt work)
  && (blen (wk_payload work) <=? MaxPayloadBytes)
  && optionalMetadataValid (wk_tenantID work) && optionalMetadataValid (wk_correlationID work).

Definition NewPendingWork (spec : PendingWorkSpec) : result PendingWork :=
  let work := mkWork (ws_ID spec) (ws_Kind spec) (ws_InstanceID spec) (ws_Sequence spec)
    (canonicalTime (ws_AvailableAt spec)) (canonicalTime (ws_Deadline spec)) (ws_Payload spec)
    (ws_TenantID spec) (ws_CorrelationID spec) in
  reject negb (work_valid work) with ErrInvalidPendingWork;
  Ok (mkWork (wk_id work) (wk_kind work) (wk_instanceID work) (wk_sequence work) (wk_availableAt work)
        (wk_deadline work) (cloneBytes (wk_payload work)) (wk_tenantID work) (wk_correlationID work)).

Definition clonePendingWork (items : list PendingWork) : list PendingWork :=
  map (fun work => mkWork (wk_id work) (wk_kind work) (wk_instanceID work) (wk_sequence work)
    (wk_availableAt work) (wk_deadline work) (cloneBytes (wk_payload work)) (wk_tenantID work)
    (wk_correlationID work)) items.

(** ** Claims, leases, renewals, completions and failures *)

(** A spec and the value built from it have the same fields; the constructor
    makes the times canonical and checks the value. *)
Record WorkClaimRequest := mkClaimRequest {
  cr_owner : string;
  cr_now : Time;
  cr_leaseDuration : Z;
  cr_limit : Z
}.

Definition claim_Valid (request : WorkClaimRequest) : bool :=
  instanceIDPattern (cr_owner request) && negb (IsZero (cr_now request))
  && (0 <? cr_leaseDuration request) && (cr_leaseDuration request <=? MaxWorkLeaseDuration)
  && (0 <? cr_limit request) && (cr_limit request <=? MaxWorkClaimItems).

Definition NewWorkClaimRequest (spec : WorkClaimRequest) : result WorkClaimRequest :=
  let request := mkClaimRequest (cr_owner spec) (canonicalTime (cr_now spec)) (cr_leaseDuration spec) (cr_limit spec) in
  reject negb (claim_Valid request) with ErrInvalidWorkLease;
  Ok request.

Record WorkLease := mkLease {
  le_work : PendingWork;
  le_owner : string;
  le_token : Z;      (** uint64 *)
  le_attempt : Z;    (** uint32 *)
  le_claimedAt : Time;
  le_expiresAt : Time
}.

(** [lease.Work().ID()] *)
Definition lease_id (lease : WorkLease) : string := wk_id (le_work lease).

(** [leaseIdentityValid] *)
Definition leaseIdentityValid (workID owner : string) (token : Z) : bool :=
  instanceIDPattern workID && instanceIDPattern owner && (0 <? token).

Definition lease_Valid (lease : WorkLease) : bool :=
  work_valid (le_work lease) && instanceIDPattern (le_owner lease)
  && (0 <? le_token lease) && (0 <? le_attempt lease) && negb (IsZero (le_claimedAt lease))
  && After (le_expiresAt lease) (le_claimedAt lease)
  && (Sub (le_expiresAt lease) (le_claimedAt lease) <=? MaxWorkLeaseDuration)
  && negb (After (le_expiresAt lease) (wk_deadline (le_work lease))).

Definition NewWorkLease (spec : WorkLease) : result WorkLease :=
  let work := le_work spec in
  let lease := mkLease
    (mkWork (wk_id work) (wk_kind work) (wk_instanceID work) (wk_sequence work) (wk_availableAt work)
       (wk_deadline work) (cloneBytes (wk_payload work)) (wk_tenantID work) (wk_correlationID work))
    (le_owner spec) (le_token spec) (le_attempt spec)
    (canonicalTime (le_claimedAt spec)) (canonicalTime (le_expiresAt spec)) in
  reject negb (lease_Valid lease) with ErrInvalidWorkLease;
  Ok lease.

Record WorkLeaseRenewal := mkRenewal {
  rn_workID : string;
  rn_owner : string;
  rn_token : Z;
  rn_now : Time;
  rn_extendBy : Z
}.

Definition renewal_Valid (renewal : WorkLeaseRenewal) : bool :=
  leaseIdentityValid (rn_workID renewal) (rn_owner renewal) (rn_token renewal)
  && negb (IsZero (rn_now renewal)) && (0 <? rn_extendBy renewal) && (rn_extendBy renewal <=? MaxWorkLeaseDuration).

Definition NewWorkLeaseRenewal (spec : WorkLeaseRenewal) : result WorkLeaseRenewal :=
  let renewal := mkRenewal (rn_workID spec) (rn_owner spec) (rn_token spec) (canonicalTime (rn_now spec)) (rn_extendBy spec) in
  reject negb (renewal_Valid renewal) with ErrInvalidWorkLease;
  Ok renewal.

Record WorkCompletion := mkCompletion {
  co_workID : string;
  co_owner : string;
  co_token : Z;
  co_completedAt : Time
}.

Definition completion_Valid (completion : WorkCompletion) : bool :=
  leaseIdentityValid (co_workID completion) (co_owner completion) (co_token completion)
  && negb (IsZero (co_completedAt completion)).

Definition NewWorkCompletion (spec : WorkCompletion) : result WorkCompletion :=
  let completion := mkCompletion (co_workID spec) (co_owner spec) (co_token spec) (canonicalTime (co_completedAt spec)) in
  reject negb (completion_Valid completion) with ErrInvalidWorkLease;
  Ok completion.

Record WorkFailure := mkFailure {
  fa_workID : string;
  fa_owner : string;
  fa_token : Z;
  fa_failedAt : Time;
  fa_code : string;
  fa_disposition : WorkDisposition;
  fa_retryAt : Time
}.

Definition failure_Valid (failure : WorkFailure) : bool :=
  if negb (leaseIdentityValid (fa_workID failure) (fa_owner failure) (fa_token failure))
     || IsZero (fa_failedAt failure) || negb (stableName (fa_code failure)) then false
  else match fa_disposition failure with
  | WorkRetry => After (fa_retryAt failure) (fa_failedAt failure)
  | WorkDeadLetter => IsZero (fa_retryAt failure)
  | WorkDispositionUndeclared => false
  end.

Definition NewWorkFailure (spec : WorkFailure) : result WorkFailure :=
  let failure := mkFailure (fa_workID spec) (fa_owner spec) (fa_token spec) (canonicalTime (fa_failedAt spec))
    (fa_code spec) (fa_disposition spec) (canonicalTime (fa_retryAt spec)) in
  reject negb (failure_Valid failure) with ErrInvalidWorkLease;
  Ok failure.

(** ** Facts *)

Lemma clonePendingWork_id items : clonePendingWork items = items.
Proof.
  unfold clonePendingWork. induction items as [| w items IH]; cbn [map]; [done |].
  rewrite cloneBytes_id, IH. by destruct w.
Qed.

(** Well-formed work: what [NewPendingWork] returns. *)
Definition work_wf (work : PendingWork) : Prop :=
  work_valid work = true /\ canonical (wk_availableAt work) /\ canonical (wk_deadline work).

Definition work_of (spec : PendingWorkSpec) : PendingWork :=
  mkWork (ws_ID spec) (ws_Kind spec) (ws_InstanceID spec) (ws_Sequence spec)
    (canonicalTime (ws_AvailableAt spec)) (canonicalTime (ws_Deadline spec)) (ws_Payload spec)
    (ws_TenantID spec) (ws_CorrelationID spec).

Lemma NewPendingWork_spec spec work :
  NewPendingWork spec = Ok work <-> work_valid (work_of spec) = true /\ work = work_of spec.
Proof.
  unfold NewPendingWork. rewrite cloneBytes_id. fold (work_of spec).
  destruct (work_valid (work_of spec)); cbn [negb]; [| naive_solver].
  split; [by intros [= <-] | by intros [_ ->]].
Qed.

Lemma NewPendingWork_wf spec work : NewPendingWork spec = Ok work -> work_wf work.
Proof. intros [Hv ->]%NewPendingWork_spec. split; [done |]. split; apply canonicalTime_canonical. Qed.
