(* ===== verification/Transition.v ===== *)
(** * Atomic transitions (transition.go)

    A transition is a bounded, contiguous batch of history events with the work
    they create, identified by the digest of its Go JSON text. *)
From S2P Require Import Prelude GoTime Names Sha256 Json Definitions Event.
From S2P Require Import Work.

Definition MaxTransitionEvents : Z := 100.
Definition MaxTransitionWork : Z := 1000.
Definition MaxTransitionBytes : Z := MaxPayloadBytes.

Record TransitionSpec := mkTransitionSpec {
  ts_ID : string;
  ts_InstanceID : string;
  ts_ExpectedSequence : Z;
  ts_Definition : DefinitionReference;
  ts_Events : list HistoryEvent;
  ts_Work : list PendingWork
}.

Record Transition := mkTransition {
  tr_id : string;
  tr_instanceID : string;
  tr_expectedSequence : Z;
  tr_definition : DefinitionReference;
  tr_events : list HistoryEvent;
  tr_work : list PendingWork;
  tr_fingerprint : string
}.

(** [Transition{}] *)
Definition zeroTransition : Transition := mkTransition "" "" 0 zeroReference [] [] "".

(** [Transition.Valid]: constructed by [NewTransition]. *)
Definition transition_Valid (transition : Transition) : bool :=
  negb (bool_decide (tr_fingerprint transition = EmptyString)).

(** *** Validation *)

(** The event loop: the expected sequence, the previous time, the times by
    sequence and the byte total are the loop's variables. *)
Fixpoint checkEvents (instanceID : string) (next : Z) (previousTime : Time) (times : gmap Z Time)
    (totalBytes : Z) (events : list HistoryEvent) : option (gmap Z Time * Z) :=
  match events with
  | [] => Some (times, totalBytes)
  | event :: rest =>
      if negb (bool_decide (ev_instanceID event = instanceID))
         || negb (ev_sequence event =? next)
         || (negb (IsZero previousTime) && Before (ev_occurredAt event) previousTime) then None
      else checkEvents instanceID (u64 (next + 1)) (ev_occurredAt event)
             (<[ev_sequence event := ev_occurredAt event]> times)
             (u64 (totalBytes + blen (ev_data event))) rest
  end.

(** The work loop: [seen] holds the work identities. *)
Fixpoint checkWork (instanceID : string) (times : gmap Z Time) (seen : gset string) (totalBytes : Z)
    (work : list PendingWork) : option Z :=
  match work with
  | [] => Some totalBytes
  | item :: rest =>
      match times !! wk_sequence item with
      | None => None
      | Some eventTime =>
          if negb (bool_decide (wk_instanceID item = instanceID)) || Before (wk_availableAt item) eventTime then None
          else if bool_decide (wk_id item ∈ seen) then None
          else checkWork instanceID times ({[wk_id item]} ∪ seen) (u64 (totalBytes + blen (wk_payload item))) rest
      end
  end.

(** [Transition.valid] *)
Definition transition_valid (transition : Transition) : bool :=
  if negb (instanceIDPattern (tr_id transition)) || negb (instanceIDPattern (tr_instanceID transition))
     || negb (reference_valid (tr_definition transition))
     || (tr_expectedSequence transition =? MaxUint64)
     || (Z.of_nat (length (tr_events transition)) =? 0)
     || (MaxTransitionEvents <? Z.of_nat (length (tr_events transition)))
     || (MaxTransitionWork <? Z.of_nat (length (tr_work transition))) then false
  else
    match checkEvents (tr_instanceID transition) (u64 (tr_expectedSequence transition + 1)) zeroTime ∅ 0
            (tr_events transition) with
    | None => false
    | Some (times, totalBytes) =>
        let first := default zeroEvent (head (tr_events transition)) in
        if (if tr_expectedSequence transition =? 0
            then negb (bool_decide (ev_kind first = EventInstanceStarted))
                 || negb (bool_decide (ev_definition first = tr_definition transition))
            else bool_decide (ev_kind first = EventInstanceStarted)) then false
        else
          match checkWork (tr_instanceID transition) times ∅ totalBytes (tr_work transition) with
          | None => false
          | Some totalBytes => totalBytes <=? MaxTransitionBytes
          end
    end.

(** [historyEventValid] *)
Definition historyEventValid (event : HistoryEvent) : bool := validHistoryEventSpec (spec_of event).

(** *** The fingerprint document *)

Definition event_json (event : HistoryEvent) : option json :=
  occurredAt ← json_time (ev_occurredAt event);
  dueAt ← json_time (ev_dueAt event);
  Some (JObj [("Sequence", JNum (ev_sequence event)); ("InstanceID", JStr (ev_instanceID event));
    ("Kind", JNum (EventKind_code (ev_kind event))); ("OccurredAt", occurredAt);
    ("DefinitionName", JStr (ref_name (ev_definition event)));
    ("DefinitionVersion", JStr (ref_version (ev_definition event)));
    ("DefinitionFingerprint", JStr (ref_fingerprint (ev_definition event)));
    ("SuccessorID", JStr (ev_successorID event)); ("StepName", JStr (ev_stepName event));
    ("Attempt", JNum (ev_attempt event)); ("IdempotencyKey", JStr (ev_idempotencyKey event));
    ("DueAt", dueAt); ("Code", JStr (ev_code event)); ("Retryable", JBool (ev_retryable event));
    ("Data", json_bytes (ev_data event))]).

Definition work_json (work : PendingWork) : option json :=
  availableAt ← json_time (wk_availableAt work);
  deadline ← json_time (wk_deadline work);
  Some (JObj [("ID", JStr (wk_id work)); ("Kind", JNum (WorkKind_code (wk_kind work)));
    ("InstanceID", JStr (wk_instanceID work)); ("Sequence", JNum (wk_sequence work));
    ("AvailableAt", availableAt); ("Deadline", deadline); ("Payload", json_bytes (wk_payload work));
    ("TenantID", JStr (wk_tenantID work)); ("CorrelationID", JStr (wk_correlationID work))]).

Definition transition_json (transition : Transition) : option json :=
  events ← mapM event_json (tr_events transition);
  work ← mapM work_json (tr_work transition);
  Some (JObj [("ID", JStr (tr_id transition)); ("InstanceID", JStr (tr_instanceID transition));
    ("ExpectedSequence", JNum (tr_expectedSequence transition));
    ("DefinitionName", JStr (ref_name (tr_definition transition)));
    ("DefinitionVersion", JStr (ref_version (tr_definition transition)));
    ("DefinitionFingerprint", JStr (ref_fingerprint (tr_definition transition)));
    ("Events", JArr events); ("Work", JArr work)]).

(** The encoding error is dropped: a time outside the years 0 to 9999 leaves the
    empty text. *)
Definition transitionFingerprint (transition : Transition) : string :=
  sha256_hex (marshal (transition_json transition)).

Definition NewTransition (spec : TransitionSpec) : result Transition :=
  let transition := mkTransition (ts_ID spec) (ts_InstanceID spec) (ts_ExpectedSequence spec)
    (ts_Definition spec) (ts_Events spec) (ts_Work spec) "" in
  reject negb (transition_valid transition) with ErrInvalidTransitionPlan;
  let owned := mkTransition (tr_id transition) (tr_instanceID transition) (tr_expectedSequence transition)
    (tr_definition transition) (tr_events transition) (clonePendingWork (tr_work transition)) "" in
  Ok (mkTransition (tr_id owned) (tr_instanceID owned) (tr_expectedSequence owned) (tr_definition owned)
        (tr_events owned) (tr_work owned) (transitionFingerprint owned)).

(** ** What validation establishes *)

Definition event_bytes (events : list HistoryEvent) : Z :=
  foldr (fun e total => blen (ev_data e) + total) 0 events.
Definition work_bytes (work : list PendingWork) : Z :=
  foldr (fun w total => blen (wk_payload w) + total) 0 work.

Lemma event_bytes_cons e events : event_bytes (e :: events) = blen (ev_data e) + event_bytes events.
Proof. done. Qed.

Lemma work_bytes_cons w work : work_bytes (w :: work) = blen (wk_payload w) + work_bytes work.
Proof. done. Qed.

Lemma event_bytes_nonneg events : 0 <= event_bytes events.
Proof.
  induction events as [| e events IH]; [done |]. rewrite event_bytes_cons.
  pose proof (blen_nonneg (ev_data e)). lia.
Qed.

Lemma work_bytes_nonneg work : 0 <= work_bytes work.
Proof.
  induction work as [| w work IH]; [done |]. rewrite work_bytes_cons.
  pose proof (blen_nonneg (wk_payload w)). lia.
Qed.

(** The structure of an accepted batch. *)
Record batch_wf (transition : Transition) : Prop := {
  batch_id : instanceIDPattern (tr_id transition) = true;
  batch_instance : instanceIDPattern (tr_instanceID transition) = true;
  batch_definition : reference_valid (tr_definition transition) = true;
  batch_events : 1 <= Z.of_nat (length (tr_events transition)) <= MaxTransitionEvents;
  batch_work : Z.of_nat (length (tr_work transition)) <= MaxTransitionWork;
  batch_positions : forall k e, tr_events transition !! k = Some e ->
    ev_instanceID e = tr_instanceID transition
    /\ ev_sequence e = tr_expectedSequence transition + 1 + Z.of_nat k;
  batch_order : forall k a b, tr_events transition !! k = Some a -> tr_events transition !! S k = Some b ->
    Before (ev_occurredAt b) (ev_occurredAt a) = false;
  batch_first : forall e, head (tr_events transition) = Some e ->
    if tr_expectedSequence transition =? 0
    then ev_kind e = EventInstanceStarted /\ ev_definition e = tr_definition transition
    else ev_kind e <> EventInstanceStarted;
  batch_tied : forall w, w ∈ tr_work transition ->
    wk_instanceID w = tr_instanceID transition
    /\ exists e, e ∈ tr_events transition /\ ev_sequence e = wk_sequence w
       /\ Before (wk_availableAt w) (ev_occurredAt e) = false;
  batch_unique : NoDup (map wk_id (tr_work transition));
  batch_bytes : event_bytes (tr_events transition) + work_bytes (tr_work transition) <= MaxTransitionBytes
}.

Lemma checkEvents_ok instanceID events : forall next previousTime times total times' total',
  Forall event_wf events -> 0 <= next < 2 ^ 64 ->
  checkEvents instanceID next previousTime times total events = Some (times', total') ->
  (forall k e, events !! k = Some e -> ev_instanceID e = instanceID /\ ev_sequence e = next + Z.of_nat k)
  /\ (forall s t, times' !! s = Some t -> times !! s = Some t
        \/ exists e, e ∈ events /\ ev_sequence e = s /\ ev_occurredAt e = t)
  /\ (forall e, head events = Some e -> IsZero previousTime = false -> Before (ev_occurredAt e) previousTime = false)
  /\ (forall k a b, events !! k = Some a -> events !! S k = Some b -> Before (ev_occurredAt b) (ev_occurredAt a) = false)
  /\ (0 <= total -> total + event_bytes events < 2 ^ 64 -> total' = total + event_bytes events).
Proof.
  induction events as [| e events IH]; intros next previousTime times total times' total' Hw Hn H; cbn [checkEvents] in H.
  { injection H as <- <-. split_and!; try done; [by left |]. cbn. lia. }
  apply Forall_cons in Hw as [He Hw].
  destruct (_ || _ || _) eqn:Hg in H; [done |]. bool_norm.
  pose proof (u64_range (next + 1)) as Hu.
  apply IH in H as (Hpos & Htimes & Hhead & Hord & Hbytes); [| done | done].
  assert (Hnext : events <> [] -> u64 (next + 1) = next + 1).
  { destruct events as [| e' events]; [done |]. intros _. apply u64_succ_nonzero; [done |].
    destruct (Hpos 0%nat e' eq_refl) as [_ Hs]. apply Forall_cons in Hw as [He' _].
    pose proof (shape_sequence _ (event_wf_shape e' He')). lia. }
  split_and!.
  - intros [| k] x Hx; cbn in Hx; [injection Hx as <-; split; [done | lia] |].
    destruct (Hpos k x Hx) as [? Hs]. split; [done |]. rewrite Hnext in Hs; [lia |]. by destruct events.
  - intros s t Hst. destruct (Htimes s t Hst) as [Hl | (x & Hx & ? & ?)].
    + apply lookup_insert_Some in Hl as [[<- <-] | [_ Hl]]; [right | by left]. exists e. split_and!; [by left | done | done].
    + right. exists x. split_and!; [by right | done | done].
  - intros x [=]. subst x. intros Hz. destruct_or?; [congruence | done].
  - intros [| k] a b; cbn [lookup list_lookup]; [| by apply Hord]. intros [=] Hb. subst a.
    apply Hhead; [by destruct events |]. apply (shape_occurred _ (event_wf_shape e He)).
  - rewrite event_bytes_cons. intros Ht Hb. pose proof (blen_nonneg (ev_data e)).
    pose proof (event_bytes_nonneg events). rewrite u64_small in Hbytes by lia. rewrite Hbytes by lia. lia.
Qed.

Lemma checkWork_ok instanceID times work : forall seen total total',
  checkWork instanceID times seen total work = Some total' ->
  (forall w, w ∈ work -> wk_instanceID w = instanceID /\ ~ (wk_id w ∈ seen)
     /\ exists t, times !! wk_sequence w = Some t /\ Before (wk_availableAt w) t = false)
  /\ NoDup (map wk_id work)
  /\ (0 <= total -> total + work_bytes work < 2 ^ 64 -> total' = total + work_bytes work).
Proof.
  induction work as [| w work IH]; intros seen total total' H; cbn [checkWork] in H.
  { injection H as <-. split_and!; [by intros ? ?%elem_of_nil | constructor | cbn; lia]. }
  destruct (times !! wk_sequence w) as [t |] eqn:Ht; [| done].
  destruct (_ || _) eqn:Hg in H; [done |]. destruct (bool_decide _) eqn:Hs in H; [done |]. bool_norm.
  apply IH in H as (Htied & Hnd & Hbytes). split_and!.
  - intros x [-> | Hx]%elem_of_cons; [split_and!; eauto |].
    destruct (Htied x Hx) as (? & Hni & ?). split_and!; [done | set_solver | done].
  - cbn [map]. constructor; [| done]. intros (x & Hx & Hin)%list_elem_of_fmap.
    destruct (Htied x Hin) as (_ & Hni & _). set_solver.
  - rewrite work_bytes_cons. intros Htot Hb. pose proof (blen_nonneg (wk_payload w)).
    pose proof (work_bytes_nonneg work). rewrite u64_small in Hbytes by lia. rewrite Hbytes by lia. lia.
Qed.

Lemma event_bytes_bound events :
  Forall event_wf events -> 0 <= event_bytes events <= Z.of_nat (length events) * MaxPayloadBytes.
Proof.
  induction 1 as [| e events He Hw IH]; [done |]. rewrite event_bytes_cons. cbn [length].
  pose proof (shape_data _ (event_wf_shape e He)). pose proof (blen_nonneg (ev_data e)).
  lia.
Qed.

Lemma work_bytes_bound work :
  Forall work_wf work -> 0 <= work_bytes work <= Z.of_nat (length work) * MaxPayloadBytes.
Proof.
  induction 1 as [| w work [Hw _] Hws IH]; [done |]. rewrite work_bytes_cons. cbn [length].
  assert (blen (wk_payload w) <= MaxPayloadBytes) by (unfold work_valid in Hw; bool_norm; lia).
  pose proof (blen_nonneg (wk_payload w)). lia.
Qed.

(** The fields of a constructed transition. *)
Lemma NewTransition_inv spec transition :
  NewTransition spec = Ok transition ->
  let plan := mkTransition (ts_ID spec) (ts_InstanceID spec) (ts_ExpectedSequence spec) (ts_Definition spec)
    (ts_Events spec) (ts_Work spec) "" in
  transition_valid plan = true
  /\ transition = mkTransition (ts_ID spec) (ts_InstanceID spec) (ts_ExpectedSequence spec) (ts_Definition spec)
       (ts_Events spec) (ts_Work spec) (transitionFingerprint plan).
Proof.
  unfold NewTransition. rewrite clonePendingWork_id. cbn zeta.
  cbn [tr_id tr_instanceID tr_expectedSequence tr_definition tr_events tr_work].
  destruct (transition_valid _); [| done]. by intros [= <-].
Qed.

Lemma transition_valid_wf transition :
  Forall event_wf (tr_events transition) -> Forall work_wf (tr_work transition) ->
  0 <= tr_expectedSequence transition < 2 ^ 64 ->
  transition_valid transition = true -> batch_wf transition.
Proof.
  intros Hes Hws Hr H. unfold transition_valid in H.
  destruct (_ || _ || _ || _ || _ || _ || _) eqn:Hg in H; [done |].
  destruct (checkEvents _ _ _ _ _ _) as [[times total] |] eqn:He in H; [| done].
  set (guard := if tr_expectedSequence transition =? 0 then _ else _) in H.
  destruct guard eqn:Hf; [done |].
  destruct (checkWork _ _ _ _ _) as [total' |] eqn:Hw; [| done]. bool_norm. unfold MaxUint64 in *.
  assert (Hfirst : u64 (tr_expectedSequence transition + 1) = tr_expectedSequence transition + 1) by (apply u64_small; lia).
  rewrite Hfirst in He. apply checkEvents_ok in He as (Hpos & Htimes & _ & Hord & Hbytes); [| done | lia].
  apply checkWork_ok in Hw as (Htied & Hnd & Hwbytes).
  pose proof (event_bytes_bound _ Hes). pose proof (work_bytes_bound _ Hws).
  unfold MaxTransitionEvents, MaxTransitionWork, MaxPayloadBytes, MaxTransitionBytes in *.
  split; unfold MaxTransitionEvents, MaxTransitionWork, MaxTransitionBytes; try done; try lia.
  - intros e He. subst guard. rewrite He in Hf. cbn [default from_option id] in Hf.
    destruct (tr_expectedSequence transition =? 0); bool_norm; [by split | done].
  - intros w Hin. destruct (Htied w Hin) as (Hid & _ & t & Ht & Hb). split; [done |].
    destruct (Htimes _ _ Ht) as [Hl | (e & ? & ? & <-)]; [by rewrite lookup_empty in Hl | eauto].
Qed.

Lemma NewTransition_intro spec :
  let plan := mkTransition (ts_ID spec) (ts_InstanceID spec) (ts_ExpectedSequence spec) (ts_Definition spec)
    (ts_Events spec) (ts_Work spec) "" in
  transition_valid plan = true ->
  NewTransition spec = Ok (mkTransition (ts_ID spec) (ts_InstanceID spec) (ts_ExpectedSequence spec)
    (ts_Definition spec) (ts_Events spec) (ts_Work spec) (transitionFingerprint plan)).
Proof.
  intros plan H. unfold NewTransition. rewrite clonePendingWork_id. cbn zeta.
  cbn [tr_id tr_instanceID tr_expectedSequence tr_definition tr_events tr_work].
  fold plan. by rewrite H.
Qed.

(** A time that encoding/json refuses empties the whole fingerprint document. *)
Lemma transition_json_late transition e :
  e ∈ tr_events transition -> json_time (ev_occurredAt e) = None -> transition_json transition = None.
Proof.
  intros Hin Ht. unfold transition_json.
  assert (Hn : mapM event_json (tr_events transition) = None).
  { apply mapM_None. apply Exists_exists. exists e. split; [done |]. unfold event_json. by rewrite Ht. }
  by rewrite Hn.
Qed.

(** ** Samples *)

Definition sample_reference : DefinitionReference :=
  mkDefinitionReference "order" "v1" "aaaaaaaaaaaaaaaaaaaaaaaaaaaaaaaaaaaaaaaaaaaaaaaaaaaaaaaaaaaaaaaa".
Definition sample_start (sec : Z) (data : bytes) : HistoryEvent :=
  mkEvent 1 "wf-1" EventInstanceStarted (mkTime sec 0 None UTC) sample_reference "" "" 0 "" zeroTime "" false data.
Definition sample_work (sec : Z) : PendingWork :=
  mkWork "work-1" WorkActivity "wf-1" 1 (mkTime sec 0 None UTC) (mkTime (sec + 60) 0 None UTC) (Some "p"%string) "" "".
Definition sample_plan (sec : Z) (data : bytes) : TransitionSpec :=
  mkTransitionSpec "tr-1" "wf-1" 0 sample_reference [sample_start sec data] [sample_work sec].

Lemma sample_start_wf sec data :
  0 < sec -> blen data <= MaxPayloadBytes -> event_wf (sample_start sec data).
Proof.
  intros Hs Hd. split; try (by split); [| split; done..].
  unfold validHistoryEventSpec, sample_start. cbn -[blen MaxPayloadBytes].
  unfold IsZero. cbn -[blen MaxPayloadBytes Z.eqb].
  rewrite (proj2 (Z.eqb_neq sec 0)), (proj2 (Z.ltb_ge _ _)) by lia. reflexivity.
Qed.

(** ** Properties *)

(** An accepted transition is a bounded, contiguous, atomic batch: 1 to 100
    events of one instance at consecutive positions after the expected sequence,
    in time order, a start event exactly when the expected sequence is zero and
    then of the pinned definition, at most 1000 work items with distinct
    identities, each tied to an event of the batch and available no earlier than
    it, and at most 16 MiB of data; its fingerprint is a legal SHA-256 text. *)
Theorem NewTransition_sound spec transition :
  Forall event_wf (ts_Events spec) -> Forall work_wf (ts_Work spec) -> 0 <= ts_ExpectedSequence spec < 2 ^ 64 ->
  NewTransition spec = Ok transition ->
  batch_wf transition /\ fingerprintPattern (tr_fingerprint transition) = true
  /\ transition_Valid transition = true.
Proof.
  intros Hes Hws Hr [Hv ->]%NewTransition_inv. split_and!.
  - by apply transition_valid_wf in Hv as [].
  - apply sha256_hex_fingerprint.
  - unfold transition_Valid. cbn [tr_fingerprint]. by rewrite bool_decide_eq_false_2 by apply sha256_hex_nonempty.
Qed.

Lemma NewTransition_sound_witness :
  exists transition, NewTransition (sample_plan 63800000000 (Some "in"%string)) = Ok transition /\ batch_wf transition.
Proof.
  eexists. split; [apply NewTransition_intro; vm_compute; reflexivity |].
  apply (NewTransition_sound (sample_plan 63800000000 (Some "in"%string))).
  - constructor; [apply sample_start_wf; [lia | vm_compute; discriminate] | constructor].
  - constructor; [| constructor]. split; [vm_compute; reflexivity | split; split; reflexivity].
  - cbn. lia.
  - apply NewTransition_intro. vm_compute. reflexivity.
Defined.

(** The fingerprint does not identify plans in years after 9999: the encoding
    error is dropped, so every accepted transition with an event in such a year
    has the digest of the empty text, whatever else it contains. *)
Theorem late_fingerprint_constant spec transition e :
  NewTransition spec = Ok transition -> e ∈ tr_events transition -> 9999 < year_of (ev_occurredAt e) ->
  tr_fingerprint transition = sha256_hex "".
Proof.
  intros [_ ->]%NewTransition_inv Hin Hy. cbn [tr_fingerprint tr_events] in *. unfold transitionFingerprint.
  rewrite (transition_json_late _ e); [done | done |].
  unfold json_time. by rewrite (proj2 (Z.leb_gt (year_of _) 9999)), andb_false_r by lia.
Qed.

Lemma late_fingerprint_constant_witness :
  exists a b, NewTransition (sample_plan 315537897600 (Some "x"%string)) = Ok a
    /\ NewTransition (sample_plan 315537897600 (Some "y"%string)) = Ok b
    /\ tr_events a <> tr_events b /\ tr_fingerprint a = tr_fingerprint b.
Proof.
  eexists _, _. split; [apply NewTransition_intro; vm_compute; reflexivity |].
  split; [apply NewTransition_intro; vm_compute; reflexivity |]. split; [by intros [=] |].
  transitivity (sha256_hex "").
  - apply (late_fingerprint_constant (sample_plan 315537897600 (Some "x"%string)) _ (sample_start 315537897600 (Some "x"%string)));
      [apply NewTransition_intro; vm_compute; reflexivity | left | reflexivity].
  - symmetry. apply (late_fingerprint_constant (sample_plan 315537897600 (Some "y"%string)) _ (sample_start 315537897600 (Some "y"%string)));
      [apply NewTransition_intro; vm_compute; reflexivity | left | reflexivity].
Defined.
