(* ===== verification/Plans.v ===== *)
(** * Plans and histories

    A constructor of a transition is right when committing its events keeps the
    history replayable. The lemmas here reduce that to one [applyKind] step, for
    every constructor. *)
From S2P Require Import Prelude GoTime Names Definitions Registry OperatorAudit Event.
From S2P Require Import Instances ActivityHistory WaitHistory ChildHistory CompensationHistory Replay ReplayInvariant.
From S2P Require Import Work Transition.

(** The situation of every constructor: the instance given to it is the replay of
    the committed history, and the definition given to it is the registered one. *)
Record committed (registry : option Registry) (es : list HistoryEvent) (i : Instance_) : Prop := {
  committed_events : Forall event_wf es;
  committed_replay : Replay registry es = Ok i
}.

Definition registered (registry : option Registry) (d : Definition_) : Prop :=
  Resolve registry (def_Name d) (def_Version d) = Ok d.

Lemma committed_run registry es i : committed registry es i -> run registry es i.
Proof. intros [Hw Hr]. by apply Replay_run. Qed.

Lemma committed_sequence registry es i :
  committed registry es i -> in_sequence i = Z.of_nat (length es) /\ 1 <= in_sequence i < 2 ^ 64.
Proof. intros H%committed_run. by eapply run_sequence. Qed.

Lemma committed_pending registry es i :
  committed registry es i -> in_pendingOperator i = OperatorActionUndeclared.
Proof. by intros [_ (_ & _ & ?)%Replay_iff]. Qed.

Lemma committed_progress registry es i : committed registry es i -> progress_wf i.
Proof. intros H%committed_run. by eapply run_progress. Qed.

Lemma registered_pinned registry d i :
  registered registry d -> Reference d = in_definition i -> pinnedDefinition registry i = d.
Proof. unfold registered, pinnedDefinition. intros Hr <-. cbn [Reference ref_name ref_version]. by rewrite Hr. Qed.

(** The header of a run: a legal identity and a pin that resolves. *)
Record header_wf (registry : option Registry) (i : Instance_) : Prop := {
  hw_id : instanceIDPattern (in_id i) = true;
  hw_definition : reference_valid (in_definition i) = true;
  hw_pinned : validateReference registry (in_definition i) = Ok tt;
  hw_updated : canonical (in_updatedAt i) /\ IsZero (in_updatedAt i) = false
}.

Lemma run_header registry es i : run registry es i -> header_wf registry i.
Proof.
  induction 1 as [e i He Hs | es e i m Hr IH He Ha Hm].
  - apply applyStart_inv in Hs as (Hk & _ & Hv & ->). pose proof (event_wf_shape e He) as Hsh.
    pose proof (shape_definition e Hsh) as Hd. rewrite Hk in Hd.
    split; cbn [in_id in_definition in_updatedAt]; [apply Hsh | done | done | split; [apply He | apply Hsh]].
  - destruct (applyKind_lifecycle registry i e m (adm_alive _ _ Ha) Hm) as [_ [Hid _ _ _]].
    destruct (finish_frame i m e) as (Fid & Fd & _ & _ & _ & _ & _ & _ & _ & _ & _ & _ & Fup).
    destruct IH as [H1 H2 H3 _]. pose proof (event_wf_shape e He) as Hsh.
    assert (Hdef : reference_valid (in_definition m) = true /\ validateReference registry (in_definition m) = Ok tt).
    { destruct (decide (ev_kind e = EventDefinitionMigrated)) as [Hk | Hk].
      - unfold applyKind in Hm. rewrite Hk in Hm. walk Hm. destruct Hm. cbn [in_definition set_definition_input].
        pose proof (shape_definition e Hsh) as Hd. rewrite Hk in Hd. by destruct a.
      - destruct (frame_definition _ _ _ (applyKind_frames _ _ _ _ Hm) Hk) as [-> _]. done. }
    destruct Hdef as [Hd1 Hd2]. split; rewrite ?Fid, ?Fd, ?Fup, ?Hid; [done .. |]. split; [apply He | apply Hsh].
Qed.

Lemma committed_header registry es i : committed registry es i -> header_wf registry i.
Proof. intros H%committed_run. by eapply run_header. Qed.

(** ** Extending a committed history *)

(** The event a constructor builds for the next position of an instance. *)
Record next_event (i : Instance_) (e : HistoryEvent) : Prop := {
  next_wf : event_wf e;
  next_id : ev_instanceID e = in_id i;
  next_sequence : ev_sequence e = in_sequence i + 1;
  next_time : Before (ev_occurredAt e) (in_updatedAt i) = false
}.

Lemma next_event_new registry es i spec e :
  committed registry es i -> NewHistoryEvent spec = Ok e -> 0 <= es_Attempt spec < 2 ^ 32 ->
  es_Sequence spec = u64 (in_sequence i + 1) -> es_InstanceID spec = in_id i ->
  Before (es_OccurredAt spec) (in_updatedAt i) = false ->
  next_event i e /\ e = event_of (canonicalSpec spec).
Proof.
  intros Hc He Ha Hs Hid Ht. pose proof (committed_sequence _ _ _ Hc) as [_ Hr].
  pose proof (hw_updated _ _ (committed_header _ _ _ Hc)) as [Hcan _].
  assert (Hwf : event_wf e).
  { eapply NewHistoryEvent_wf; [| exact He]. split; [rewrite Hs; apply u64_range | done]. }
  apply NewHistoryEvent_spec in He as [_ ->]. split; [| done]. split; [done | done | |].
  - pose proof (event_wf_sequence _ Hwf) as Hne. cbn in Hne |- *. rewrite Hs in *. apply u64_succ_nonzero; [lia | done].
  - cbn [ev_occurredAt event_of canonicalSpec es_OccurredAt]. by rewrite Before_canonicalTime_l.
Qed.

Lemma next_admissible registry es i e :
  committed registry es i -> next_event i e -> terminalStatus (in_status i) = false -> admissible i e.
Proof.
  intros Hc [Hw Hid Hsq Ht] Hst. pose proof (committed_sequence _ _ _ Hc) as [_ Hr].
  pose proof (event_sequence_range e Hw). split; [done | | done | done | left; by eapply committed_pending].
  rewrite u64_small; lia.
Qed.

(** One further event that applies keeps the history committed. *)
Lemma committed_extend registry es i e m :
  committed registry es i -> next_event i e -> terminalStatus (in_status i) = false ->
  ev_kind e <> EventOperatorCommandRecorded -> applyKind registry i e = Ok m ->
  committed registry (es ++ [e]) (advanced i m e).
Proof.
  intros Hc Hn Hst Hk Hm. split.
  - apply Forall_app. split; [apply Hc | constructor; [apply Hn | constructor]].
  - apply run_Replay.
    + apply run_step; [by apply committed_run | apply Hn | by eapply next_admissible | done].
    + pose proof (committed_pending _ _ _ Hc) as Hp.
      destruct (frame_operator _ _ _ (applyKind_frames _ _ _ _ Hm) Hk) as [_ Hpm].
      unfold advanced. rewrite Hp, bool_decide_eq_true_2 by done. cbn. congruence.
Qed.

(** A plan of one event with its work, as the constructors build it. *)
Lemma NewTransition_single id instanceID expected d e work transition err :
  map_err err (NewTransition (mkTransitionSpec id instanceID expected d [e] work)) = Ok transition ->
  tr_id transition = id /\ tr_instanceID transition = instanceID /\ tr_expectedSequence transition = expected
  /\ tr_definition transition = d /\ tr_events transition = [e] /\ tr_work transition = work.
Proof.
  destruct (NewTransition _) as [tr |] eqn:E; [| done]. cbn [map_err]. intros [= <-].
  apply NewTransition_inv in E as [_ ->]. done.
Qed.

(** Conversely a plan of a single event for the next position is always accepted. *)
Lemma NewTransition_one tid instanceID sequence d e :
  instanceIDPattern tid = true -> instanceIDPattern instanceID = true -> reference_valid d = true ->
  1 <= sequence -> sequence + 1 < 2 ^ 64 -> ev_instanceID e = instanceID -> ev_sequence e = sequence + 1 ->
  blen (ev_data e) <= MaxPayloadBytes -> ev_kind e <> EventInstanceStarted ->
  exists transition, NewTransition (mkTransitionSpec tid instanceID sequence d [e] []) = Ok transition.
Proof.
  intros Hi H1 H2 Hlo Hhi Hid Hsq Hd Hk. pose proof (blen_nonneg (ev_data e)). unfold MaxPayloadBytes in Hd.
  eexists. apply NewTransition_intro.
  unfold transition_valid. cbn [tr_id tr_instanceID tr_definition tr_expectedSequence tr_events tr_work ts_ID
    ts_InstanceID ts_ExpectedSequence ts_Definition ts_Events ts_Work length head checkEvents checkWork].
  rewrite Hi, H1, H2. unfold MaxUint64. rewrite (proj2 (Z.eqb_neq sequence _)) by lia.
  cbn [negb orb]. rewrite (bool_decide_eq_true_2 _ Hid), (u64_small (sequence + 1)), <- Hsq, Z.eqb_refl by lia.
  cbn [negb orb andb]. change (IsZero zeroTime) with true. cbn [negb andb default from_option id].
  rewrite (proj2 (Z.eqb_neq sequence 0)) by lia. rewrite (bool_decide_eq_false_2 _ Hk).
  rewrite u64_small by lia. unfold MaxTransitionBytes, MaxPayloadBytes. apply Z.leb_le. lia.
Qed.

(** An event that only names its step. *)
Definition step_event (sequence : Z) (instanceID : string) (kind : EventKind) (occurredAt : Time) (stepName : string)
    (attempt : Z) (idempotencyKey : string) (dueAt : Time) (code : string) (retryable : bool) (data : bytes)
    : HistoryEventSpec :=
  mkEventSpec sequence instanceID kind occurredAt zeroReference "" stepName attempt idempotencyKey dueAt code
    retryable data.

(** Exactly when a history extended by one event for the next position replays. *)
Lemma single_replays_exact registry es i e :
  committed registry es i -> event_wf e -> ev_instanceID e = in_id i -> ev_sequence e = in_sequence i + 1 ->
  ev_kind e <> EventOperatorCommandRecorded ->
  is_ok (Replay registry (es ++ [e])) = true <->
  Before (ev_occurredAt e) (in_updatedAt i) = false /\ terminalStatus (in_status i) = false
  /\ is_ok (applyKind registry i e) = true.
Proof.
  intros Hc Hw Hid Hsq Hk. pose proof (committed_sequence _ _ _ Hc) as [_ Hr]. split.
  - destruct (Replay registry (es ++ [e])) as [i' |] eqn:E; [| done]. intros _.
    apply (Replay_extend registry es [e] i i' (committed_replay _ _ _ Hc)) in E as [E _]. cbn [applyAll] in E.
    destruct (apply registry i e) as [j |] eqn:Ea; [| done].
    apply apply_iff in Ea as [Ha (m & Hm & _)]; [| lia]. rewrite Hm.
    split_and!; [apply (adm_time _ _ Ha) | apply (adm_alive _ _ Ha) | done].
  - intros (Ht & Hst & Hm). destruct (applyKind registry i e) as [m |] eqn:E; [| done].
    destruct (committed_extend registry es i e m Hc) as [_ ->]; [by split | done .. |]. done.
Qed.

(** ** What committing a plan yields *)

Section Commits.
Context (registry : option Registry) (es : list HistoryEvent).

(** The plan is a well-formed batch for the next position of the instance, and the
    extended history replays to [i']. *)
Definition commits (i : Instance_) (transition : Transition) (i' : Instance_) : Prop :=
  batch_wf transition /\ tr_instanceID transition = in_id i /\ tr_expectedSequence transition = in_sequence i
  /\ tr_definition transition = in_definition i /\ committed registry (es ++ tr_events transition) i'.

(** The common end of the proofs: one next event with its work, one step. *)
Lemma commits_single i tid e work transition err m :
  map_err err (NewTransition (mkTransitionSpec tid (in_id i) (in_sequence i) (in_definition i) [e] work)) = Ok transition ->
  committed registry es i -> next_event i e -> Forall work_wf work ->
  terminalStatus (in_status i) = false -> ev_kind e <> EventOperatorCommandRecorded ->
  applyKind registry i e = Ok m ->
  commits i transition (advanced i m e) /\ tr_events transition = [e] /\ tr_work transition = work.
Proof.
  intros Htr Hc Hn Hw Hst Hk Hm. pose proof Htr as Hf.
  apply NewTransition_single in Hf as (_ & Hid & Hsq & Hd & Hev & Hwk).
  split; [| done]. split_and!; [| done | done | done | rewrite Hev; by apply committed_extend].
  destruct (NewTransition _) as [tr |] eqn:E; [| done]. cbn [map_err] in Htr. injection Htr as <-.
  pose proof (committed_sequence _ _ _ Hc) as [_ Hr].
  apply NewTransition_inv in E as [Hv ->].
  apply (transition_valid_wf (mkTransition tid (in_id i) (in_sequence i) (in_definition i) [e] work "")) in Hv as [];
    [by split | constructor; [apply Hn | constructor] | done | cbn; lia].
Qed.
End Commits.

(** Open a constructor's success: its guards, its lookups, and the event and work
    it makes. *)
Ltac open_plan H :=
  cbn zeta in H;
  repeat match type of H with
  | (if ?b then _ else _) = Ok _ => let G := fresh "G" in destruct b eqn:G; [discriminate H |]
  | match ?m with Some _ => _ | None => _ end = Ok _ =>
      let E := fresh "Hfound" in destruct m eqn:E; [| discriminate H]
  | (map_err _ ?m ≫= ?f) = Ok ?r =>
      let E := fresh "Hmade" in let x := fresh "made" in
      destruct m as [x |] eqn:E; [| discriminate H]; change (f x = Ok r) in H; cbv beta in H
  end;
  bool_norm.

(** The maps of an instance after one step. *)
Lemma finish_activity i name p e : in_activities (advanced i (set_activity i name p) e) = <[name := p]> (in_activities i).
Proof. by destruct (finish_frame i (set_activity i name p) e) as (_ & _ & _ & _ & -> & _). Qed.

Lemma finish_compensation i name p e :
  in_compensations (advanced i (set_compensation i name p) e) = <[name := p]> (in_compensations i).
Proof. by destruct (finish_frame i (set_compensation i name p) e) as (_ & _ & _ & _ & _ & _ & _ & _ & _ & -> & _). Qed.

Lemma finish_child i name p e : in_children (advanced i (set_child i name p) e) = <[name := p]> (in_children i).
Proof. by destruct (finish_frame i (set_child i name p) e) as (_ & _ & _ & _ & _ & _ & _ & _ & -> & _). Qed.

Lemma finish_timer i name p e : in_timers (advanced i (set_timer i name p) e) = <[name := p]> (in_timers i).
Proof. by destruct (finish_frame i (set_timer i name p) e) as (_ & _ & _ & _ & _ & -> & _). Qed.

Lemma finish_signal i name p e : in_signals (advanced i (set_signal i name p) e) = <[name := p]> (in_signals i).
Proof. by destruct (finish_frame i (set_signal i name p) e) as (_ & _ & _ & _ & _ & _ & -> & _). Qed.

Lemma finish_race i name p e : in_races (advanced i (set_race i name p) e) = <[name := p]> (in_races i).
Proof. by destruct (finish_frame i (set_race i name p) e) as (_ & _ & _ & _ & _ & _ & _ & -> & _). Qed.

Lemma finish_status i m e : in_status (advanced i m e) = in_status m.
Proof. by destruct (finish_frame i m e) as (_ & _ & -> & _). Qed.

Lemma finish_updatedAt i m e : in_updatedAt (advanced i m e) = ev_occurredAt e.
Proof. by destruct (finish_frame i m e) as (_ & _ & _ & _ & _ & _ & _ & _ & _ & _ & _ & _ & ->). Qed.

Lemma next_event_stable i e : next_event i e -> carries_step (ev_kind e) = true -> stableName (ev_stepName e) = true.
Proof. intros [Hw _ _ _] Hk. pose proof (shape_step _ (event_wf_shape e Hw)) as H. by rewrite Hk in H. Qed.

Lemma NewHistoryEvent_step spec e :
  NewHistoryEvent spec = Ok e -> carries_step (es_Kind spec) = true -> stableName (es_StepName spec) = true.
Proof.
  intros [Hv _]%NewHistoryEvent_spec Hk. rewrite <- (spec_of_event_of (canonicalSpec spec)) in Hv.
  pose proof (shape_step _ (valid_event_shape _ Hv)) as H. cbn in H. by rewrite Hk in H.
Qed.
