(* ===== verification/Activity.v ===== *)
(** * Activity requests, outcomes and the activity registry (activity.go)

    The handler, the context and its deadline are the caller's: a handler acts on
    whatever state [S] it reaches and may panic ([None]), a context is its two
    observable answers. *)
From S2P Require Import Prelude GoTime Names Definitions Work.

(** [ActivityRequestSpec] and [ActivityRequest] hold the same fields. *)
Record ActivityRequest := mkActivityRequest {
  rq_instanceID : string;
  rq_definition : DefinitionReference;
  rq_stepName : string;
  rq_attempt : Z;
  rq_maxAttempts : Z;
  rq_idempotencyKey : string;
  rq_startedAt : Time;
  rq_deadline : Time;
  rq_input : bytes;
  rq_inputLimit : Z;
  rq_resultLimit : Z;
  rq_tenantID : string;
  rq_correlationID : string
}.

(** [ActivityRequest.valid] *)
Definition request_valid (request : ActivityRequest) : bool :=
  instanceIDPattern (rq_instanceID request) && reference_valid (rq_definition request)
  && stableName (rq_stepName request) && (0 <? rq_attempt request)
  && (rq_attempt request <=? rq_maxAttempts request)
  && instanceIDPattern (rq_idempotencyKey request)
  && negb (IsZero (rq_startedAt request)) && After (rq_deadline request) (rq_startedAt request)
  && validPayloadLimit (rq_inputLimit request) && validPayloadLimit (rq_resultLimit request)
  && (blen (rq_input request) <=? rq_inputLimit request) && optionalMetadataValid (rq_tenantID request)
  && optionalMetadataValid (rq_correlationID request).

Definition NewActivityRequest (spec : ActivityRequest) : result ActivityRequest :=
  let request := mkActivityRequest (rq_instanceID spec) (rq_definition spec) (rq_stepName spec) (rq_attempt spec)
    (rq_maxAttempts spec) (rq_idempotencyKey spec) (canonicalTime (rq_startedAt spec))
    (canonicalTime (rq_deadline spec)) (rq_input spec) (rq_inputLimit spec) (rq_resultLimit spec)
    (rq_tenantID spec) (rq_correlationID spec) in
  reject negb (request_valid request) with ErrInvalidActivityRequest;
  Ok request.

Inductive ActivityOutcomeKind := ActivitySucceeded | ActivityFailed | ActivityUnknown | ActivityOutcomeUndeclared.

#[export] Instance ActivityOutcomeKind_eq_dec : EqDecision ActivityOutcomeKind.
Proof. solve_decision. Defined.

(** [ActivityOutcomeSpec] and [ActivityOutcome] hold the same fields. *)
Record ActivityOutcome := mkOutcome {
  oc_kind : ActivityOutcomeKind;
  oc_code : string;
  oc_retryable : bool;
  oc_data : bytes
}.

(** [ActivityOutcome.valid] *)
Definition outcome_valid (outcome : ActivityOutcome) : bool :=
  if MaxPayloadBytes <? blen (oc_data outcome) then false
  else match oc_kind outcome with
  | ActivitySucceeded => bool_decide (oc_code outcome = EmptyString) && negb (oc_retryable outcome)
  | ActivityFailed => stableName (oc_code outcome)
  | ActivityUnknown => stableName (oc_code outcome) && negb (oc_retryable outcome)
  | ActivityOutcomeUndeclared => false
  end.

Definition NewActivityOutcome (spec : ActivityOutcome) : result ActivityOutcome :=
  reject negb (outcome_valid spec) with ErrInvalidActivityOutcome;
  Ok (mkOutcome (oc_kind spec) (oc_code spec) (oc_retryable spec) (cloneBytes (oc_data spec))).

(** ** Handlers *)

(** What Execute asks of a context: [ctx.Err()], and the error of the derived
    context with a deadline. *)
Record Context := mkContext {
  ctx_Err : option GoError;
  deadline_Err : Time -> option GoError
}.

Definition ActivityHandler (S : Type) : Type := Context -> ActivityRequest -> S -> option ActivityOutcome * S.

Record Activity (S : Type) := mkActivity {
  act_name : string;
  act_handler : option (ActivityHandler S)
}.
Arguments mkActivity {S}.
Arguments act_name {S}.
Arguments act_handler {S}.

Abbreviation ActivityRegistry S := (gmap string (Activity S)).

Section Handlers.
Context {S : Type}.

Definition NewActivity (name : string) (handler : option (ActivityHandler S)) : result (Activity S) :=
  reject negb (stableName name) || (match handler with None => true | Some _ => false end) with ErrInvalidActivity;
  Ok (mkActivity name handler).

(** [Activity.Execute] on a possibly nil context. *)
Definition Execute (activity : Activity S) (ctx : option Context) (request : ActivityRequest) (s : S)
    : result ActivityOutcome * S :=
  match act_handler activity with
  | None => (Err ErrInvalidActivity, s)
  | Some handler =>
      match ctx with
      | None => (Err ErrInvalidActivityRequest, s)
      | Some ctx =>
          if negb (request_valid request) then (Err ErrInvalidActivityRequest, s) else
          match ctx_Err ctx with
          | Some err => (Err err, s)
          | None =>
              match deadline_Err ctx (rq_deadline request) with
              | Some err => (Err err, s)
              | None =>
                  let '(answer, s) := handler ctx request s in
                  match answer with
                  | None => (Err Panic, s)
                  | Some outcome =>
                      if negb (outcome_valid outcome) || (rq_resultLimit request <? blen (oc_data outcome))
                      then (Err ErrInvalidActivityOutcome, s) else (Ok outcome, s)
                  end
              end
          end
      end
  end.


Fixpoint addActivities (table : ActivityRegistry S) (activities : list (Activity S)) : result (ActivityRegistry S) :=
  match activities with
  | [] => Ok table
  | activity :: rest =>
      reject (match act_handler activity with None => true | Some _ => false end) with ErrInvalidActivity;
      reject bool_decide (is_Some (table !! act_name activity)) with ErrDuplicateActivity;
      addActivities (<[act_name activity := activity]> table) rest
  end.

Definition CompileActivities (activities : list (Activity S)) : result (ActivityRegistry S) := addActivities ∅ activities.

Definition resolveActivity (registry : option (ActivityRegistry S)) (name : string) : result (Activity S) :=
  match registry with
  | None => Err ErrActivityNotFound
  | Some table => match table !! name with None => Err ErrActivityNotFound | Some activity => Ok activity end
  end.
End Handlers.
