(* ===== verification/ActivityTransition.v ===== *)
(** * Activity transitions (activity_transition.go)

    Each constructor checks the replayed instance and builds the event and the
    work of one atomic transition. *)
From S2P Require Import Prelude GoTime Names Json JsonDecode Definitions Registry.
From S2P Require Import OperatorAudit Event Instances ActivityHistory Replay ReplayInvariant.
From S2P Require Import Work Transition Plans Activity.

Definition MaxActivityDispatchBytes : Z := 1024.

(** [ActivityDispatch] and its JSON document hold the same fields. *)
Record ActivityDispatch := mkActivityDispatch {
  ad_stepName : string;
  ad_attempt : Z;
  ad_idempotencyKey : string
}.

Definition dispatch_members (document : ActivityDispatch) : list (string * scalar) :=
  [("step_name", SStr (ad_stepName document)); ("attempt", SNum (ad_attempt document));
   ("idempotency_key", SStr (ad_idempotencyKey document))].

Definition encodeActivityDispatch (stepName : string) (attempt : Z) (idempotencyKey : string) : bytes :=
  Some (render (JObj (map member_json (dispatch_members (mkActivityDispatch stepName attempt idempotencyKey))))).

Definition dispatch_store (document : ActivityDispatch) (key : string) (v : flat) : option ActivityDispatch :=
  if field_is "step_name" key then
    name ← store_string (ad_stepName document) v;
    Some (mkActivityDispatch name (ad_attempt document) (ad_idempotencyKey document))
  else if field_is "attempt" key then
    attempt ← store_uint 4294967295 (ad_attempt document) v;
    Some (mkActivityDispatch (ad_stepName document) attempt (ad_idempotencyKey document))
  else if field_is "idempotency_key" key then
    idempotencyKey ← store_string (ad_idempotencyKey document) v;
    Some (mkActivityDispatch (ad_stepName document) (ad_attempt document) idempotencyKey)
  else None.

Definition DecodeActivityDispatch (payload : bytes) : result ActivityDispatch :=
  reject blen payload =? 0 with ErrInvalidActivityTransition;
  reject MaxActivityDispatchBytes <? blen payload with ErrInvalidActivityTransition;
  match decode_document dispatch_store (mkActivityDispatch "" 0 "") (bstr payload) with
  | None => Err ErrInvalidActivityTransition
  | Some dispatch =>
      reject negb (stableName (ad_stepName dispatch)) with ErrInvalidActivityTransition;
      reject ad_attempt dispatch =? 0 with ErrInvalidActivityTransition;
      reject negb (instanceIDPattern (ad_idempotencyKey dispatch)) with ErrInvalidActivityTransition;
      Ok dispatch
  end.

(** ** Schedule *)

Record ActivityScheduleSpec := mkActivityScheduleSpec {
  as_TransitionID : string;
  as_WorkID : string;
  as_Instance : Instance_;
  as_Definition : Definition_;
  as_StepName : string;
  as_Attempt : Z;
  as_IdempotencyKey : string;
  as_ScheduledAt : Time;
  as_Deadline : Time;
  as_Input : bytes;
  as_TenantID : string;
  as_CorrelationID : string
}.

Definition NewActivitySchedule (spec : ActivityScheduleSpec) : result Transition :=
  let i := as_Instance spec in
  match definitionActivityStep (as_Definition spec) (as_StepName spec) with
  | None => Err ErrInvalidActivityTransition
  | Some step =>
      reject negb (as_Attempt spec =? 1) with ErrInvalidActivityTransition;
      reject step_InputLimit step <? blen (as_Input spec) with ErrInvalidActivityTransition;
      reject negb (instanceIDPattern (as_IdempotencyKey spec)) with ErrInvalidActivityTransition;
      reject negb (bool_decide (in_status i = StatusRunning)) with ErrInvalidActivityTransition;
      reject negb (bool_decide (Reference (as_Definition spec) = in_definition i)) with ErrInvalidActivityTransition;
      reject bool_decide (is_Some (in_activities i !! as_StepName spec)) with ErrInvalidActivityTransition;
      reject Before (as_ScheduledAt spec) (in_updatedAt i) with ErrInvalidActivityTransition;
      let payload := encodeActivityDispatch (as_StepName spec) (as_Attempt spec) (as_IdempotencyKey spec) in
      event <~ NewHistoryEvent (step_event (u64 (in_sequence i + 1)) (in_id i) EventActivityScheduled
          (as_ScheduledAt spec) (as_StepName spec) 0 "" zeroTime "" false (as_Input spec))
        else ErrInvalidActivityTransition;
      work <~ NewPendingWork (mkWorkSpec (as_WorkID spec) WorkActivity (in_id i) (ev_sequence event)
          (as_ScheduledAt spec) (as_Deadline spec) payload (as_TenantID spec) (as_CorrelationID spec))
        else ErrInvalidActivityTransition;
      map_err ErrInvalidActivityTransition
        (NewTransition (mkTransitionSpec (as_TransitionID spec) (in_id i) (in_sequence i) (in_definition i) [event] [work]))
  end.

(** ** Attempt start *)

Record ActivityAttemptStartSpec := mkActivityAttemptStartSpec {
  aa_TransitionID : string;
  aa_Lease : WorkLease;
  aa_Instance : Instance_;
  aa_Definition : Definition_;
  aa_StartedAt : Time
}.

Definition NewActivityAttemptStart (spec : ActivityAttemptStartSpec) : result Transition :=
  let i := aa_Instance spec in
  reject negb (lease_Valid (aa_Lease spec)) with ErrInvalidActivityTransition;
  reject negb (bool_decide (wk_kind (le_work (aa_Lease spec)) = WorkActivity)) with ErrInvalidActivityTransition;
  let work := le_work (aa_Lease spec) in
  dispatch <~ DecodeActivityDispatch (wk_payload work) else ErrInvalidActivityTransition;
  reject in_sequence i <? wk_sequence work with ErrInvalidActivityTransition;
  reject negb (bool_decide (wk_instanceID work = in_id i)) with ErrInvalidActivityTransition;
  match definitionActivityStep (aa_Definition spec) (ad_stepName dispatch) with
  | None => Err ErrInvalidActivityTransition
  | Some step =>
      reject MaxAttempts (step_Retry step) <? ad_attempt dispatch with ErrInvalidActivityTransition;
      match in_activities i !! ad_stepName dispatch with
      | None => Err ErrInvalidActivityTransition
      | Some progress =>
          reject negb (bool_decide (Reference (aa_Definition spec) = in_definition i)) with ErrInvalidActivityTransition;
          reject negb (bool_decide (in_status i = StatusRunning)) with ErrInvalidActivityTransition;
          reject negb (bool_decide (ap_status progress = ActivityProgressReady))
            && negb (bool_decide (ap_status progress = ActivityProgressRetryWaiting)) with ErrInvalidActivityTransition;
          reject negb (ad_attempt dispatch =? u32 (ap_attempt progress + 1)) with ErrInvalidActivityTransition;
          let startedAt := canonicalTime (aa_StartedAt spec) in
          let dueAt := canonicalTime (Add startedAt (step_Timeout step)) in
          reject Before startedAt (wk_availableAt work) with ErrInvalidActivityTransition;
          reject negb (Before startedAt (wk_deadline work)) with ErrInvalidActivityTransition;
          reject After dueAt (wk_deadline work) with ErrInvalidActivityTransition;
          reject Before startedAt (le_claimedAt (aa_Lease spec)) with ErrInvalidActivityTransition;
          reject negb (Before startedAt (le_expiresAt (aa_Lease spec))) with ErrInvalidActivityTransition;
          reject Before startedAt (in_updatedAt i) with ErrInvalidActivityTransition;
          reject bool_decide (ap_status progress = ActivityProgressRetryWaiting) && Before startedAt (ap_dueAt progress)
            with ErrInvalidActivityTransition;
          event <~ NewHistoryEvent (step_event (u64 (in_sequence i + 1)) (wk_instanceID work) EventActivityAttemptStarted
              startedAt (ad_stepName dispatch) (ad_attempt dispatch) (ad_idempotencyKey dispatch) dueAt "" false None)
            else ErrInvalidActivityTransition;
          map_err ErrInvalidActivityTransition
            (NewTransition (mkTransitionSpec (aa_TransitionID spec) (wk_instanceID work) (in_sequence i)
               (in_definition i) [event] []))
      end
  end.

(** ** Attempt outcome *)

Record ActivityAttemptOutcomeSpec := mkActivityAttemptOutcomeSpec {
  ao_TransitionID : string;
  ao_Instance : Instance_;
  ao_Definition : Definition_;
  ao_StepName : string;
  ao_Attempt : Z;
  ao_OccurredAt : Time;
  ao_Outcome : ActivityOutcome
}.

Definition activityOutcomeEventKind (kind : ActivityOutcomeKind) : EventKind :=
  match kind with
  | ActivitySucceeded => EventActivityAttemptSucceeded
  | ActivityFailed => EventActivityAttemptFailed
  | ActivityUnknown => EventActivityAttemptUnknown
  | ActivityOutcomeUndeclared => EventKindUndeclared
  end.

Definition NewActivityAttemptOutcome (spec : ActivityAttemptOutcomeSpec) : result Transition :=
  let i := ao_Instance spec in
  match definitionActivityStep (ao_Definition spec) (ao_StepName spec) with
  | None => Err ErrInvalidActivityTransition
  | Some step =>
      match in_activities i !! ao_StepName spec with
      | None => Err ErrInvalidActivityTransition
      | Some progress =>
          reject negb (bool_decide (Reference (ao_Definition spec) = in_definition i)) with ErrInvalidActivityTransition;
          reject negb (bool_decide (ap_status progress = ActivityProgressRunning)) with ErrInvalidActivityTransition;
          reject negb (ap_attempt progress =? ao_Attempt spec) with ErrInvalidActivityTransition;
          reject negb (outcome_valid (ao_Outcome spec)) with ErrInvalidActivityTransition;
          reject step_ResultLimit step <? blen (oc_data (ao_Outcome spec)) with ErrInvalidActivityTransition;
          reject Before (ao_OccurredAt spec) (in_updatedAt i) with ErrInvalidActivityTransition;
          event <~ NewHistoryEvent (step_event (u64 (in_sequence i + 1)) (in_id i)
              (activityOutcomeEventKind (oc_kind (ao_Outcome spec))) (ao_OccurredAt spec) (ao_StepName spec)
              (ao_Attempt spec) "" zeroTime (oc_code (ao_Outcome spec)) (oc_retryable (ao_Outcome spec))
              (oc_data (ao_Outcome spec)))
            else ErrInvalidActivityTransition;
          map_err ErrInvalidActivityTransition
            (NewTransition (mkTransitionSpec (ao_TransitionID spec) (in_id i) (in_sequence i) (in_definition i) [event] []))
      end
  end.

(** ** Retry *)

Record ActivityRetrySpec := mkActivityRetrySpec {
  ar_TransitionID : string;
  ar_WorkID : string;
  ar_Instance : Instance_;
  ar_Definition : Definition_;
  ar_StepName : string;
  ar_IdempotencyKey : string;
  ar_ScheduledAt : Time;
  ar_Deadline : Time;
  ar_TenantID : string;
  ar_CorrelationID : string
}.

Definition NewActivityRetry (spec : ActivityRetrySpec) : result Transition :=
  let i := ar_Instance spec in
  match definitionActivityStep (ar_Definition spec) (ar_StepName spec) with
  | None => Err ErrInvalidActivityTransition
  | Some step =>
      match in_activities i !! ar_StepName spec with
      | None => Err ErrInvalidActivityTransition
      | Some progress =>
          reject negb (bool_decide (Reference (ar_Definition spec) = in_definition i)) with ErrInvalidActivityTransition;
          reject negb (bool_decide (ap_status progress = ActivityProgressFailed)) with ErrInvalidActivityTransition;
          reject negb (ap_retryable progress) with ErrInvalidActivityTransition;
          reject MaxAttempts (step_Retry step) <=? ap_attempt progress with ErrInvalidActivityTransition;
          reject negb (instanceIDPattern (ar_IdempotencyKey spec)) with ErrInvalidActivityTransition;
          reject Before (ar_ScheduledAt spec) (in_updatedAt i) with ErrInvalidActivityTransition;
          let dueAt := canonicalTime (Add (ar_ScheduledAt spec) (retryDelay (step_Retry step) (ap_attempt progress))) in
          event <~ NewHistoryEvent (step_event (u64 (in_sequence i + 1)) (in_id i) EventActivityRetryScheduled
              (ar_ScheduledAt spec) (ar_StepName spec) (ap_attempt progress) "" dueAt "" false None)
            else ErrInvalidActivityTransition;
          let payload := encodeActivityDispatch (ar_StepName spec) (u32 (ap_attempt progress + 1)) (ar_IdempotencyKey spec) in
          work <~ NewPendingWork (mkWorkSpec (ar_WorkID spec) WorkActivity (in_id i) (ev_sequence event)
              dueAt (ar_Deadline spec) payload (ar_TenantID spec) (ar_CorrelationID spec))
            else ErrInvalidActivityTransition;
          map_err ErrInvalidActivityTransition
            (NewTransition (mkTransitionSpec (ar_TransitionID spec) (in_id i) (in_sequence i) (in_definition i) [event] [work]))
      end
  end.

(** ** The dispatch document round trip *)

Definition dispatch_wf (dispatch : ActivityDispatch) : Prop :=
  stableName (ad_stepName dispatch) = true /\ 0 < ad_attempt dispatch < 2 ^ 32
  /\ instanceIDPattern (ad_idempotencyKey dispatch) = true.

Lemma dispatch_members_safe dispatch : dispatch_wf dispatch -> Forall member_safe (dispatch_members dispatch).
Proof.
  intros (Hn & Ha & Hk). repeat constructor; cbn [fst snd scalar_safe]; eauto with names. lia.
Qed.

Lemma dispatch_size dispatch :
  dispatch_wf dispatch ->
  0 < blen (encodeActivityDispatch (ad_stepName dispatch) (ad_attempt dispatch) (ad_idempotencyKey dispatch)) <= MaxActivityDispatchBytes.
Proof.
  intros Hwf. pose proof (dispatch_members_safe _ Hwf) as Hs. destruct Hwf as (Hn & Ha & Hk).
  pose proof (stableName_slen _ Hn). pose proof (instanceID_slen _ Hk).
  pose proof (slen_dec (ad_attempt dispatch) ltac:(lia)). pose proof (slen_nonneg (dec (ad_attempt dispatch))).
  destruct dispatch as [name attempt key]. cbn [ad_stepName ad_attempt ad_idempotencyKey] in *.
  unfold encodeActivityDispatch. change (blen (Some ?s)) with (slen s).
  rewrite slen_render_members by done. cbn [dispatch_members members_size scalar_size ad_stepName ad_attempt ad_idempotencyKey].
  change (slen "step_name") with 9. change (slen "attempt") with 7. change (slen "idempotency_key") with 15.
  unfold MaxActivityDispatchBytes. lia.
Qed.

Lemma decode_encodeActivityDispatch dispatch :
  dispatch_wf dispatch ->
  DecodeActivityDispatch (encodeActivityDispatch (ad_stepName dispatch) (ad_attempt dispatch) (ad_idempotencyKey dispatch))
  = Ok dispatch.
Proof.
  intros Hwf. pose proof (dispatch_size _ Hwf) as Hsz. unfold DecodeActivityDispatch.
  rewrite (proj2 (Z.eqb_neq _ _)), (proj2 (Z.ltb_ge _ _)) by lia. clear Hsz.
  destruct dispatch as [name attempt key]. cbn [ad_stepName ad_attempt ad_idempotencyKey].
  unfold encodeActivityDispatch. change (bstr (Some ?s)) with s. unfold decode_document.
  rewrite decode_object_render by (done || by apply dispatch_members_safe).
  cbn [mbind option_bind map member_flat dispatch_members fst snd scalar_flat store_members ad_stepName ad_attempt ad_idempotencyKey].
  destruct Hwf as (Hn & Ha & Hk). unfold dispatch_store. cbn [ad_stepName ad_attempt ad_idempotencyKey] in *.
  change (field_is "step_name" "step_name") with true. change (field_is "step_name" "attempt") with false.
  change (field_is "attempt" "attempt") with true. change (field_is "step_name" "idempotency_key") with false.
  change (field_is "attempt" "idempotency_key") with false. change (field_is "idempotency_key" "idempotency_key") with true.
  unfold store_uint. rewrite parse_uint_dec by lia.
  cbn [mbind option_bind store_string ad_stepName ad_attempt ad_idempotencyKey].
  rewrite Hn, Hk, (proj2 (Z.eqb_neq attempt 0)) by lia. done.
Qed.

Lemma DecodeActivityDispatch_wf payload dispatch :
  DecodeActivityDispatch payload = Ok dispatch ->
  stableName (ad_stepName dispatch) = true /\ ad_attempt dispatch <> 0
  /\ instanceIDPattern (ad_idempotencyKey dispatch) = true.
Proof. unfold DecodeActivityDispatch. intros H. walk H. subst. bool_norm. done. Qed.

(** ** Every constructor's plan replays *)

Section Constructors.
Context (registry : option Registry) (es : list HistoryEvent).

(** The one step of an activity plan. *)
Lemma activity_plan_step i d e step p' :
  registered registry d -> Reference d = in_definition i -> activityEvent (ev_kind e) = true ->
  definitionActivityStep d (ev_stepName e) = Some step ->
  activity_step step (in_status i) e (in_activities i !! ev_stepName e) p' ->
  applyKind registry i e = Ok (set_activity i (ev_stepName e) p').
Proof.
  intros Hreg Hd Hk Hstep Hs.
  assert (Ha : applyActivity registry i e = Ok (set_activity i (ev_stepName e) p')).
  { apply applyActivity_iff; [done |]. rewrite (registered_pinned registry d) by done. eauto. }
  unfold applyKind. by destruct (ev_kind e).
Qed.

Lemma NewActivitySchedule_commits spec transition :
  committed registry es (as_Instance spec) -> registered registry (as_Definition spec) ->
  NewActivitySchedule spec = Ok transition ->
  exists i', commits registry es (as_Instance spec) transition i'
    /\ in_activities i' = <[as_StepName spec :=
         mkActivityProgress (as_StepName spec) ActivityProgressReady 0 "" zeroTime (as_Input spec) None "" false]>
         (in_activities (as_Instance spec)).
Proof.
  intros Hc Hreg H. unfold NewActivitySchedule in H. open_plan H.
  apply (next_event_new registry es (as_Instance spec)) in Hmade as [Hn ->]; [| done | cbn; lia | done | done | done].
  apply NewPendingWork_wf in Hmade0.
  eapply commits_single in H as (Hcm & _); [| done | done | by constructor | by destruct (in_status _) | done |].
  2: eapply activity_plan_step; [done | done | done | done |].
  2: { match goal with G : ~ is_Some _ |- _ => apply eq_None_not_Some in G end.
       cbn -[Z.leb]. match goal with G : _ = None |- _ => rewrite G end. by apply activity_schedule. }
  eexists. split; [exact Hcm | apply finish_activity].
Qed.

(** The record an attempt start leaves. *)
Definition started_progress (progress : ActivityProgress) (dispatch : ActivityDispatch) (dueAt : Time) : ActivityProgress :=
  mkActivityProgress (ap_stepName progress) ActivityProgressRunning (ad_attempt dispatch)
    (ad_idempotencyKey dispatch) dueAt (ap_input progress) None "" false.

Lemma NewActivityAttemptStart_commits spec transition :
  committed registry es (aa_Instance spec) -> registered registry (aa_Definition spec) ->
  NewActivityAttemptStart spec = Ok transition ->
  exists i' dispatch progress step,
    commits registry es (aa_Instance spec) transition i'
    /\ DecodeActivityDispatch (wk_payload (le_work (aa_Lease spec))) = Ok dispatch
    /\ definitionActivityStep (aa_Definition spec) (ad_stepName dispatch) = Some step
    /\ in_activities (aa_Instance spec) !! ad_stepName dispatch = Some progress
    /\ in_activities i' = <[ad_stepName dispatch := started_progress progress dispatch
         (canonicalTime (Add (aa_StartedAt spec) (step_Timeout step)))]> (in_activities (aa_Instance spec)).
Proof.
  intros Hc Hreg H. unfold NewActivityAttemptStart in H. open_plan H. rename made into dispatch.
  match goal with E : wk_instanceID _ = in_id _ |- _ => rewrite E in * end.
  match goal with E : ad_attempt dispatch = u32 _ |- _ => rename E into Hatt end.
  rewrite canonicalTime_Add in *.
  apply (next_event_new registry es (aa_Instance spec)) in Hmade0 as [Hn ->];
    [| done | cbn; rewrite Hatt; apply u32_range | done | done | done].
  eapply commits_single in H as (Hcm & _); [| done | done | constructor | by destruct (in_status _) | done |].
  2: eapply activity_plan_step; [done | done | done | exact Hfound |].
  2: { cbn -[Z.leb]. rewrite Hfound0. apply activity_start; cbn; try done.
       - unfold startable. cbn. destruct_or?; first [by left | by right | congruence].
       - by rewrite !canonicalTime_idem, canonicalTime_Add. }
  eexists _, dispatch, _, _. split_and!; [exact Hcm | done | done | done |].
  rewrite finish_activity. unfold started_progress. cbn. by rewrite canonicalTime_idem.
Qed.

Lemma outcome_event_kind kind :
  activityOutcomeEventKind kind <> EventKindUndeclared -> activityEvent (activityOutcomeEventKind kind) = true.
Proof. by destruct kind. Qed.

Definition outcome_progress (progress : ActivityProgress) (outcome : ActivityOutcome) : ActivityProgress :=
  with_outcome progress
    (match oc_kind outcome with
     | ActivitySucceeded => ActivityProgressSucceeded
     | ActivityFailed => ActivityProgressFailed
     | _ => ActivityProgressUnknown
     end) (oc_data outcome) (oc_code outcome) (oc_retryable outcome).

Lemma NewActivityAttemptOutcome_commits spec transition :
  committed registry es (ao_Instance spec) -> registered registry (ao_Definition spec) ->
  terminalStatus (in_status (ao_Instance spec)) = false ->
  NewActivityAttemptOutcome spec = Ok transition ->
  exists i' progress, commits registry es (ao_Instance spec) transition i'
    /\ in_activities (ao_Instance spec) !! ao_StepName spec = Some progress
    /\ in_activities i' = <[ao_StepName spec := outcome_progress progress (ao_Outcome spec)]>
         (in_activities (ao_Instance spec)).
Proof.
  intros Hc Hreg Hst H. unfold NewActivityAttemptOutcome in H. open_plan H.
  match goal with E : outcome_valid _ = true |- _ => rename E into Hout end.
  match goal with E : ap_attempt _ = ao_Attempt _ |- _ => rename E into Hatt end.
  pose proof (wf_activities _ (committed_progress _ _ _ Hc) _ _ Hfound0) as [_ _ Hrange _ _ _].
  apply (next_event_new registry es (ao_Instance spec)) in Hmade as [Hn ->];
    [| done | cbn; by rewrite <- Hatt | done | done | done].
  eapply commits_single in H as (Hcm & _);
    [| done | done | constructor | done | by destruct (oc_kind (ao_Outcome spec)) |].
  2: eapply (activity_plan_step _ _ _ _ (outcome_progress a (ao_Outcome spec))); [done | done | | exact Hfound |].
  2: { cbn. unfold outcome_valid in Hout. destruct (oc_kind (ao_Outcome spec)); try done. by destruct (_ <? _). }
  2: { cbn [ev_stepName event_of canonicalSpec es_StepName step_event]. rewrite Hfound0.
       unfold outcome_valid in Hout. destruct (_ <? _); [done |]. unfold outcome_progress.
       destruct (oc_kind (ao_Outcome spec)) eqn:Ek; try done; bool_norm.
       - match goal with E : oc_code _ = _, E' : oc_retryable _ = _ |- _ => rewrite E, E' end.
         refine (activity_succeed _ _ (event_of _) a _ _); cbn; rewrite ?Ek; done.
       - refine (activity_fail _ _ (event_of _) a _ _); cbn; rewrite ?Ek; done.
       - match goal with E : oc_retryable _ = _ |- _ => rewrite E end.
         refine (activity_unknown _ _ (event_of _) a _ _); cbn; rewrite ?Ek; done. }
  eexists _, a. split_and!; [exact Hcm | done | apply finish_activity].
Qed.

(** The integer widths of a definition's retry policies. *)
Definition in_width (d : Definition_) : Prop :=
  forall step, step ∈ ds_Steps (def_spec d) -> retry_in_range (step_Retry step).

(** The record a scheduled retry leaves. *)
Definition retry_progress (progress : ActivityProgress) (dueAt : Time) : ActivityProgress :=
  mkActivityProgress (ap_stepName progress) ActivityProgressRetryWaiting (ap_attempt progress)
    (ap_idempotencyKey progress) dueAt (ap_input progress) (ap_result progress) (ap_code progress)
    (ap_retryable progress).

Lemma NewActivityRetry_commits spec transition :
  committed registry es (ar_Instance spec) -> registered registry (ar_Definition spec) ->
  in_status (ar_Instance spec) = StatusRunning ->
  NewActivityRetry spec = Ok transition ->
  exists i' progress step, commits registry es (ar_Instance spec) transition i'
    /\ definitionActivityStep (ar_Definition spec) (ar_StepName spec) = Some step
    /\ in_activities (ar_Instance spec) !! ar_StepName spec = Some progress
    /\ in_activities i' = <[ar_StepName spec := retry_progress progress
         (canonicalTime (Add (ar_ScheduledAt spec) (retryDelay (step_Retry step) (ap_attempt progress))))]>
         (in_activities (ar_Instance spec)).
Proof.
  intros Hc Hreg Hst H. unfold NewActivityRetry in H. open_plan H.
  pose proof (wf_activities _ (committed_progress _ _ _ Hc) _ _ Hfound0) as [_ _ Hrange _ _ _].
  apply (next_event_new registry es (ar_Instance spec)) in Hmade as [Hn ->]; [| done | done | done | done | done].
  apply NewPendingWork_wf in Hmade0.
  eapply commits_single in H as (Hcm & _); [| done | done | by constructor | by rewrite Hst | done |].
  2: eapply activity_plan_step; [done | done | done | exact Hfound |].
  2: { cbn -[Z.leb]. rewrite Hfound0. apply activity_retry; cbn; try done.
       by rewrite canonicalTime_idem, canonicalTime_Add. }
  eexists _, _, _. split_and!; [exact Hcm | done | done |].
  rewrite finish_activity. unfold retry_progress. cbn. by rewrite canonicalTime_idem.
Qed.
End Constructors.

(** ** The work a plan creates *)

Lemma NewActivitySchedule_work spec transition :
  NewActivitySchedule spec = Ok transition ->
  exists w, tr_work transition = [w] /\ wk_id w = as_WorkID spec /\ wk_kind w = WorkActivity
    /\ DecodeActivityDispatch (wk_payload w)
       = Ok (mkActivityDispatch (as_StepName spec) 1 (as_IdempotencyKey spec)).
Proof.
  intros H. unfold NewActivitySchedule in H. open_plan H.
  apply NewTransition_single in H as (_ & _ & _ & _ & _ & ->).
  apply NewPendingWork_spec in Hmade0 as [_ ->]. eexists. split_and!; [reflexivity | done | done |].
  apply NewHistoryEvent_step in Hmade as Hv; [| done].
  match goal with E : as_Attempt spec = 1 |- _ => cbn; rewrite E end.
  apply (decode_encodeActivityDispatch (mkActivityDispatch (as_StepName spec) 1 (as_IdempotencyKey spec))).
  split_and!; [exact Hv | cbn; lia | cbn; lia | done].
Qed.

Lemma NewActivityRetry_work spec transition :
  in_width (ar_Definition spec) -> NewActivityRetry spec = Ok transition ->
  exists w progress, tr_work transition = [w] /\ wk_id w = ar_WorkID spec /\ wk_kind w = WorkActivity
    /\ in_activities (ar_Instance spec) !! ar_StepName spec = Some progress
    /\ (0 <= ap_attempt progress -> DecodeActivityDispatch (wk_payload w)
       = Ok (mkActivityDispatch (ar_StepName spec) (ap_attempt progress + 1) (ar_IdempotencyKey spec))).
Proof.
  intros Hwid H. unfold NewActivityRetry in H. open_plan H.
  apply NewTransition_single in H as (_ & _ & _ & _ & _ & ->).
  apply NewPendingWork_spec in Hmade0 as [_ ->]. eexists _, a. split_and!; [reflexivity | done | done | done |].
  apply NewHistoryEvent_step in Hmade as Hv; [| done].
  apply find_step_Some in Hfound as (Hin & _). apply Hwid in Hin as [Hmax _].
  intros Ha. cbn. rewrite u32_small by lia.
  apply (decode_encodeActivityDispatch (mkActivityDispatch (ar_StepName spec) (ap_attempt a + 1) (ar_IdempotencyKey spec))).
  split_and!; [exact Hv | cbn; lia | cbn; lia | done].
Qed.
