(* ===== verification/ActivityPlans.v ===== *)
(** * What the activity constructors guarantee

    Committing any plan an activity constructor accepts keeps the history
    replayable, with two exceptions that are proved here as they are. *)
From S2P Require Import Prelude GoTime Names Definitions Registry OperatorAudit Event.
From S2P Require Import Instances ActivityHistory Replay ReplayInvariant ReplayProperties.
From S2P Require Import Work Transition Plans Activity ActivityTransition.

(** ** Samples *)

Definition sample_second (n : Z) : Z := n * 1000000000.
Definition sample_running : list HistoryEvent := firstn 6 sample_history.
Definition sample_failed : list HistoryEvent := firstn 4 sample_history.
Definition sample_ready : list HistoryEvent := firstn 2 sample_history.
Definition replayed (es : list HistoryEvent) : Instance_ := or_zero zeroInstance (Replay sample_registry es).

Lemma sample_committed n :
  is_ok (Replay sample_registry (firstn n sample_history)) = true ->
  committed sample_registry (firstn n sample_history) (replayed (firstn n sample_history)).
Proof.
  intros H. split; [apply Forall_take, sample_history_wf |].
  unfold replayed. by destruct (Replay sample_registry (firstn n sample_history)).
Qed.

Lemma sample_registered : registered sample_registry sample_definition.
Proof. vm_compute. reflexivity. Qed.

Definition sample_schedule : ActivityScheduleSpec :=
  mkActivityScheduleSpec "tr-9" "work-9" sample_instance sample_definition "b" 1 "key-b" (sample_time 9)
    (sample_time 90) (Some "go"%string) "" "".

Definition sample_lease (work : PendingWork) : WorkLease :=
  mkLease work "worker-1" 7 1 (sample_time 3) (sample_time 30).
Definition sample_attempt_work : PendingWork :=
  mkWork "work-2" WorkActivity "wf-1" 2 (sample_time 2) (sample_time 60) (encodeActivityDispatch "a" 1 "key-1") "" "".
Definition sample_start_plan : ActivityAttemptStartSpec :=
  mkActivityAttemptStartSpec "tr-3" (sample_lease sample_attempt_work) (replayed sample_ready) sample_definition (sample_time 3).

Definition sample_outcome : ActivityAttemptOutcomeSpec :=
  mkActivityAttemptOutcomeSpec "tr-7" (replayed sample_running) sample_definition "a" 2 (sample_time 7)
    (mkOutcome ActivityUnknown "lost" false None).

Definition sample_retry_plan : ActivityRetrySpec :=
  mkActivityRetrySpec "tr-5" "work-5" (replayed sample_failed) sample_definition "a" "key-2" (sample_time 5)
    (sample_time 90) "" "".

Lemma NewTransition_ok_intro err spec :
  let plan := mkTransition (ts_ID spec) (ts_InstanceID spec) (ts_ExpectedSequence spec) (ts_Definition spec)
    (ts_Events spec) (ts_Work spec) "" in
  transition_valid plan = true ->
  map_err err (NewTransition spec) = Ok (mkTransition (ts_ID spec) (ts_InstanceID spec) (ts_ExpectedSequence spec)
    (ts_Definition spec) (ts_Events spec) (ts_Work spec) (transitionFingerprint plan)).
Proof. intros plan H. by rewrite NewTransition_intro. Qed.

(** ** Properties *)

(** Scheduling an activity keeps the history replayable: for a committed
    history and the registered definition, every plan NewActivitySchedule accepts
    is a well-formed batch for the next position; the extended history replays
    with the activity Ready on the given input and nothing else of the activities
    changed; and the one work item it creates decodes to the first attempt with
    the given key. *)
Theorem activity_schedule_replays registry es spec transition :
  committed registry es (as_Instance spec) -> registered registry (as_Definition spec) ->
  NewActivitySchedule spec = Ok transition ->
  exists i' w, commits registry es (as_Instance spec) transition i'
    /\ in_activities i' = <[as_StepName spec :=
         mkActivityProgress (as_StepName spec) ActivityProgressReady 0 "" zeroTime (as_Input spec) None "" false]>
         (in_activities (as_Instance spec))
    /\ tr_work transition = [w] /\ wk_id w = as_WorkID spec /\ wk_kind w = WorkActivity
    /\ DecodeActivityDispatch (wk_payload w) = Ok (mkActivityDispatch (as_StepName spec) 1 (as_IdempotencyKey spec)).
Proof.
  intros Hc Hr H. destruct (NewActivitySchedule_commits registry es _ _ Hc Hr H) as (i' & Hcm & Ha).
  destruct (NewActivitySchedule_work _ _ H) as (w & Hw). exists i', w. split_and!; tauto.
Qed.

Lemma activity_schedule_replays_witness :
  is_ok (NewActivitySchedule sample_schedule) = true
  /\ exists transition i', committed sample_registry (sample_history ++ tr_events transition) i'.
Proof.
  assert (H : exists transition, NewActivitySchedule sample_schedule = Ok transition).
  { eexists. unfold NewActivitySchedule. cbn -[NewTransition]. apply NewTransition_ok_intro. vm_compute. reflexivity. }
  destruct H as [transition H]. split; [by rewrite H |]. exists transition.
  destruct (activity_schedule_replays sample_registry sample_history sample_schedule transition) as (i' & w & (_ & _ & _ & _ & Hc) & _).
  - split; [apply sample_history_wf | apply sample_replay].
  - apply sample_registered.
  - exact H.
  - exists i'. exact Hc.
Defined.

(** Starting an attempt keeps the history replayable: every plan
    NewActivityAttemptStart accepts extends the committed history by the start of
    exactly the attempt its leased work dispatches, with that work's key and the
    deadline startedAt + timeout, within the lease and the work's deadline. *)
Theorem activity_start_replays registry es spec transition :
  committed registry es (aa_Instance spec) -> registered registry (aa_Definition spec) ->
  NewActivityAttemptStart spec = Ok transition ->
  exists i' dispatch progress step,
    commits registry es (aa_Instance spec) transition i'
    /\ DecodeActivityDispatch (wk_payload (le_work (aa_Lease spec))) = Ok dispatch
    /\ definitionActivityStep (aa_Definition spec) (ad_stepName dispatch) = Some step
    /\ in_activities (aa_Instance spec) !! ad_stepName dispatch = Some progress
    /\ in_activities i' = <[ad_stepName dispatch := started_progress progress dispatch
         (canonicalTime (Add (aa_StartedAt spec) (step_Timeout step)))]> (in_activities (aa_Instance spec)).
Proof. apply NewActivityAttemptStart_commits. Qed.

Lemma activity_start_replays_witness :
  exists transition i', NewActivityAttemptStart sample_start_plan = Ok transition
    /\ committed sample_registry (sample_ready ++ tr_events transition) i'.
Proof.
  assert (H : exists transition, NewActivityAttemptStart sample_start_plan = Ok transition).
  { eexists. vm_compute NewActivityAttemptStart. vm_compute. reflexivity. }
  destruct H as [transition H].
  destruct (activity_start_replays sample_registry sample_ready sample_start_plan transition) as (i' & _ & _ & _ & (_ & _ & _ & _ & Hc) & _).
  - apply (sample_committed 2). vm_compute. reflexivity.
  - apply sample_registered.
  - exact H.
  - exists transition, i'. split; [exact H | exact Hc].
Defined.

(** Recording an outcome keeps a live history replayable: when the instance is
    not terminal, every plan NewActivityAttemptOutcome accepts extends the
    committed history, and the running attempt becomes exactly the success, known
    failure or unknown outcome the caller reported. *)
Theorem activity_outcome_replays registry es spec transition :
  committed registry es (ao_Instance spec) -> registered registry (ao_Definition spec) ->
  terminalStatus (in_status (ao_Instance spec)) = false ->
  NewActivityAttemptOutcome spec = Ok transition ->
  exists i' progress, commits registry es (ao_Instance spec) transition i'
    /\ in_activities (ao_Instance spec) !! ao_StepName spec = Some progress
    /\ in_activities i' = <[ao_StepName spec := outcome_progress progress (ao_Outcome spec)]>
         (in_activities (ao_Instance spec)).
Proof. apply NewActivityAttemptOutcome_commits. Qed.

Lemma activity_outcome_replays_witness :
  exists transition i', NewActivityAttemptOutcome sample_outcome = Ok transition
    /\ committed sample_registry (sample_running ++ tr_events transition) i'.
Proof.
  assert (H : exists transition, NewActivityAttemptOutcome sample_outcome = Ok transition).
  { eexists. vm_compute. reflexivity. }
  destruct H as [transition H].
  destruct (activity_outcome_replays sample_registry sample_running sample_outcome transition) as (i' & _ & (_ & _ & _ & _ & Hc) & _).
  - apply (sample_committed 6). vm_compute. reflexivity.
  - apply sample_registered.
  - vm_compute. reflexivity.
  - exact H.
  - exists transition, i'. split; [exact H | exact Hc].
Defined.

(** Scheduling a retry keeps a running history replayable: when the instance is
    running, every plan NewActivityRetry accepts extends the committed history,
    the activity waits until scheduledAt plus the policy's exponential delay, and
    the one work item it creates dispatches the next attempt with the given key. *)
Theorem activity_retry_replays registry es spec transition :
  committed registry es (ar_Instance spec) -> registered registry (ar_Definition spec) ->
  in_width (ar_Definition spec) -> in_status (ar_Instance spec) = StatusRunning ->
  NewActivityRetry spec = Ok transition ->
  exists i' w progress step, commits registry es (ar_Instance spec) transition i'
    /\ definitionActivityStep (ar_Definition spec) (ar_StepName spec) = Some step
    /\ in_activities (ar_Instance spec) !! ar_StepName spec = Some progress
    /\ in_activities i' = <[ar_StepName spec := retry_progress progress
         (canonicalTime (Add (ar_ScheduledAt spec) (retryDelay (step_Retry step) (ap_attempt progress))))]>
         (in_activities (ar_Instance spec))
    /\ tr_work transition = [w]
    /\ DecodeActivityDispatch (wk_payload w)
       = Ok (mkActivityDispatch (ar_StepName spec) (ap_attempt progress + 1) (ar_IdempotencyKey spec)).
Proof.
  intros Hc Hr Hw Hs H.
  destruct (NewActivityRetry_commits registry es _ _ Hc Hr Hs H) as (i' & progress & step & Hcm & Hst & Hp & Ha).
  destruct (NewActivityRetry_work _ _ Hw H) as (w & progress' & Hwk & _ & _ & Hp' & Hd).
  rewrite Hp in Hp'. injection Hp' as <-.
  exists i', w, progress, step. split_and!; try done. apply Hd.
  by destruct (wf_activities _ (committed_progress _ _ _ Hc) _ _ Hp) as [_ _ [? _] _ _ _].
Qed.

Lemma sample_in_width : in_width sample_definition.
Proof.
  intros step Hin. cbn in Hin. repeat (apply elem_of_cons in Hin as [-> | Hin]; [vm_compute; split; congruence |]).
  by apply elem_of_nil in Hin.
Qed.

Lemma activity_retry_replays_witness :
  exists transition i', NewActivityRetry sample_retry_plan = Ok transition
    /\ committed sample_registry (sample_failed ++ tr_events transition) i'.
Proof.
  assert (H : exists transition, NewActivityRetry sample_retry_plan = Ok transition).
  { eexists. vm_compute. reflexivity. }
  destruct H as [transition H].
  destruct (activity_retry_replays sample_registry sample_failed sample_retry_plan transition) as (i' & _ & _ & _ & (_ & _ & _ & _ & Hc) & _).
  - apply (sample_committed 4). vm_compute. reflexivity.
  - apply sample_registered.
  - apply sample_in_width.
  - vm_compute. reflexivity.
  - exact H.
  - exists transition, i'. split; [exact H | exact Hc].
Defined.

(** *** The two exceptions *)

(** An instance on which the last event cannot have been applied. *)
Lemma plan_unreplayable registry es i e transition :
  committed registry es i -> tr_events transition = [e] ->
  lifecycle (in_status i) (ev_kind e) = None ->
  is_ok (Replay registry (es ++ tr_events transition)) = false.
Proof.
  intros Hc -> Hl. destruct (Replay registry (es ++ [e])) as [i' |] eqn:E; [| done].
  apply (Replay_extend registry es [e] i i' (committed_replay _ _ _ Hc)) in E as [E _]. cbn [applyAll] in E.
  destruct (apply registry i e) as [j |] eqn:Ea; [| done].
  pose proof (committed_sequence _ _ _ Hc) as [_ Hs].
  apply apply_iff in Ea as [Ha (m & Hm & _)]; [| lia].
  destruct (applyKind_lifecycle _ _ _ _ (adm_alive _ _ Ha) Hm). congruence.
Qed.

(** NewActivityAttemptOutcome does not look at the lifecycle: on a terminal
    instance with a running attempt it accepts a plan, and committing it leaves a
    history that never replays again. *)
Theorem outcome_after_termination_breaks_replay registry es spec transition :
  committed registry es (ao_Instance spec) -> terminalStatus (in_status (ao_Instance spec)) = true ->
  NewActivityAttemptOutcome spec = Ok transition ->
  is_ok (Replay registry (es ++ tr_events transition)) = false.
Proof.
  intros Hc Ht H. unfold NewActivityAttemptOutcome in H. open_plan H.
  apply NewTransition_single in H as (_ & _ & _ & _ & Hev & _).
  eapply plan_unreplayable; [done | exact Hev |]. unfold lifecycle. by rewrite Ht.
Qed.

Definition sample_killed : list HistoryEvent :=
  sample_running ++ [sample_event 7 EventInstanceTerminated "" 0 "" zeroTime "" false None].
Definition sample_late_outcome : ActivityAttemptOutcomeSpec :=
  mkActivityAttemptOutcomeSpec "tr-8" (replayed sample_killed) sample_definition "a" 2 (sample_time 8)
    (mkOutcome ActivitySucceeded "" false None).

Lemma sample_killed_committed : committed sample_registry sample_killed (replayed sample_killed).
Proof.
  split; [| vm_compute; reflexivity]. apply Forall_app. split; [apply Forall_take, sample_history_wf |].
  repeat constructor; apply event_wf_check; vm_compute; reflexivity.
Qed.

Lemma outcome_after_termination_breaks_replay_witness :
  exists transition, NewActivityAttemptOutcome sample_late_outcome = Ok transition
    /\ is_ok (Replay sample_registry sample_killed) = true
    /\ is_ok (Replay sample_registry (sample_killed ++ tr_events transition)) = false.
Proof.
  assert (H : exists transition, NewActivityAttemptOutcome sample_late_outcome = Ok transition).
  { eexists. vm_compute. reflexivity. }
  destruct H as [transition H]. exists transition. split; [exact H |]. split; [vm_compute; reflexivity |].
  apply (outcome_after_termination_breaks_replay sample_registry sample_killed sample_late_outcome transition).
  - apply sample_killed_committed.
  - vm_compute. reflexivity.
  - exact H.
Defined.

(** NewActivityRetry does not look at the lifecycle either, while replay admits
    a scheduled retry only on a running instance: on an instance that is paused or
    cancelling it accepts a plan whose commit leaves a history that never replays
    again. *)
Theorem retry_while_paused_breaks_replay registry es spec transition :
  committed registry es (ar_Instance spec) -> in_status (ar_Instance spec) <> StatusRunning ->
  NewActivityRetry spec = Ok transition ->
  is_ok (Replay registry (es ++ tr_events transition)) = false.
Proof.
  intros Hc Ht H. unfold NewActivityRetry in H. open_plan H.
  apply NewTransition_single in H as (_ & _ & _ & _ & Hev & _).
  eapply plan_unreplayable; [done | exact Hev |].
  apply NewHistoryEvent_spec in Hmade as [_ ->]. cbn. unfold lifecycle. by destruct (in_status (ar_Instance spec)).
Qed.

Definition sample_paused : list HistoryEvent :=
  sample_failed ++ [sample_event 5 EventInstancePaused "" 0 "" zeroTime "" false None].
Definition sample_paused_retry : ActivityRetrySpec :=
  mkActivityRetrySpec "tr-6" "work-6" (replayed sample_paused) sample_definition "a" "key-2" (sample_time 6)
    (sample_time 90) "" "".

Lemma retry_while_paused_breaks_replay_witness :
  exists transition, NewActivityRetry sample_paused_retry = Ok transition
    /\ is_ok (Replay sample_registry sample_paused) = true
    /\ is_ok (Replay sample_registry (sample_paused ++ tr_events transition)) = false.
Proof.
  assert (H : exists transition, NewActivityRetry sample_paused_retry = Ok transition).
  { eexists. vm_compute. reflexivity. }
  destruct H as [transition H]. exists transition. split; [exact H |]. split; [vm_compute; reflexivity |].
  apply (retry_while_paused_breaks_replay sample_registry sample_paused sample_paused_retry transition).
  - split; [| vm_compute; reflexivity]. apply Forall_app. split; [apply Forall_take, sample_history_wf |].
    repeat constructor; apply event_wf_check; vm_compute; reflexivity.
  - vm_compute. discriminate.
  - exact H.
Defined.

(** ** When a recorded outcome and a scheduled retry replay *)

(** C15: Recording an outcome keeps the history replayable exactly when the instance is
    not terminal: NewActivityAttemptOutcome does not look at the lifecycle, and a
    plan it accepts on a terminal instance poisons the history. On a live instance
    the running attempt becomes exactly the success, known failure or unknown
    outcome the caller reported, and nothing else of the activities changes. *)
Theorem activity_outcome_exact registry es spec transition :
  committed registry es (ao_Instance spec) -> registered registry (ao_Definition spec) ->
  NewActivityAttemptOutcome spec = Ok transition ->
  (is_ok (Replay registry (es ++ tr_events transition)) = true <-> terminalStatus (in_status (ao_Instance spec)) = false)
  /\ (terminalStatus (in_status (ao_Instance spec)) = false ->
      exists i' progress, commits registry es (ao_Instance spec) transition i'
        /\ in_activities (ao_Instance spec) !! ao_StepName spec = Some progress
        /\ in_activities i' = <[ao_StepName spec := outcome_progress progress (ao_Outcome spec)]>
             (in_activities (ao_Instance spec))).
Proof.
  intros Hc Hr H. split; [| intros Ht; by apply NewActivityAttemptOutcome_commits].
  destruct (terminalStatus _) eqn:Ht; (split; [| try done]).
  - by rewrite (outcome_after_termination_breaks_replay registry es spec transition).
  - done.
  - intros _. destruct (NewActivityAttemptOutcome_commits registry es _ _ Hc Hr Ht H) as (i' & _ & (_ & _ & _ & _ & [_ ->]) & _).
    done.
Qed.

Lemma activity_outcome_exact_witness :
  (exists transition, NewActivityAttemptOutcome sample_outcome = Ok transition
     /\ is_ok (Replay sample_registry (sample_running ++ tr_events transition)) = true)
  /\ exists transition, NewActivityAttemptOutcome sample_late_outcome = Ok transition
     /\ (is_ok (Replay sample_registry (sample_killed ++ tr_events transition)) = true -> False).
Proof.
  assert (H1 : exists transition, NewActivityAttemptOutcome sample_outcome = Ok transition).
  { eexists. vm_compute. reflexivity. }
  assert (H2 : exists transition, NewActivityAttemptOutcome sample_late_outcome = Ok transition).
  { eexists. vm_compute. reflexivity. }
  split.
  - destruct H1 as [transition H1]. exists transition. split; [exact H1 |].
    apply (activity_outcome_exact sample_registry sample_running sample_outcome transition).
    + apply (sample_committed 6). vm_compute. reflexivity.
    + apply sample_registered.
    + exact H1.
    + vm_compute. reflexivity.
  - destruct H2 as [transition H2]. exists transition. split; [exact H2 |]. intros Hok.
    apply (activity_outcome_exact sample_registry sample_killed sample_late_outcome transition) in Hok.
    + vm_compute in Hok. discriminate Hok.
    + apply sample_killed_committed.
    + apply sample_registered.
    + exact H2.
Defined.

(** C29: Scheduling a retry keeps the history replayable exactly when the instance is
    running: NewActivityRetry does not look at the lifecycle, so a retry planned on
    a paused or cancelling instance poisons the history. On a running instance the
    activity waits until scheduledAt plus the policy's exponential delay, and the
    one work item it creates dispatches the next attempt with the given key. *)
Theorem activity_retry_exact registry es spec transition :
  committed registry es (ar_Instance spec) -> registered registry (ar_Definition spec) ->
  in_width (ar_Definition spec) -> NewActivityRetry spec = Ok transition ->
  (is_ok (Replay registry (es ++ tr_events transition)) = true <-> in_status (ar_Instance spec) = StatusRunning)
  /\ (in_status (ar_Instance spec) = StatusRunning ->
      exists i' w progress step, commits registry es (ar_Instance spec) transition i'
        /\ definitionActivityStep (ar_Definition spec) (ar_StepName spec) = Some step
        /\ in_activities (ar_Instance spec) !! ar_StepName spec = Some progress
        /\ in_activities i' = <[ar_StepName spec := retry_progress progress
             (canonicalTime (Add (ar_ScheduledAt spec) (retryDelay (step_Retry step) (ap_attempt progress))))]>
             (in_activities (ar_Instance spec))
        /\ tr_work transition = [w]
        /\ DecodeActivityDispatch (wk_payload w)
           = Ok (mkActivityDispatch (ar_StepName spec) (ap_attempt progress + 1) (ar_IdempotencyKey spec))).
Proof.
  intros Hc Hr Hw H. split; [split |].
  - intros Hok. destruct (decide (in_status (ar_Instance spec) = StatusRunning)) as [| Hne]; [done |].
    by rewrite (retry_while_paused_breaks_replay registry es spec transition) in Hok.
  - intros Hs. destruct (NewActivityRetry_commits registry es _ _ Hc Hr Hs H) as (i' & _ & _ & (_ & _ & _ & _ & [_ ->]) & _).
    done.
  - intros Hs. by apply activity_retry_replays.
Qed.

Lemma activity_retry_exact_witness :
  exists transition, NewActivityRetry sample_retry_plan = Ok transition
    /\ is_ok (Replay sample_registry (sample_failed ++ tr_events transition)) = true.
Proof.
  assert (H : exists transition, NewActivityRetry sample_retry_plan = Ok transition).
  { eexists. vm_compute. reflexivity. }
  destruct H as [transition H]. exists transition. split; [exact H |].
  apply (activity_retry_exact sample_registry sample_failed sample_retry_plan transition).
  - apply (sample_committed 4). vm_compute. reflexivity.
  - apply sample_registered.
  - apply sample_in_width.
  - exact H.
  - vm_compute. reflexivity.
Defined.
