(* ===== verification/Samples.v ===== *)
(** * A sample order workflow

    One definition with a step of every kind the constructors handle, and
    histories over it. The witnesses of the constructors' theorems run on it. *)
From S2P Require Import Prelude GoTime Names Definitions Registry OperatorAudit Event.
From S2P Require Import Instances ActivityHistory Replay ReplayProperties.
From S2P Require Import Work Transition Plans.

Definition order_retry : RetryPolicy := mkRetryPolicy 3 1000 4000.
Definition order_child : DefinitionReference := Reference sample_definition.

Definition order_spec : DefinitionSpec :=
  mkDefinitionSpec "order" "v2" Orchestration false
    [mkStepSpec "pay" StepActivity "charge" zeroReference [] 1000 100 100 order_retry 0
       (Some (mkCompensationSpec "refund" 1000 100 order_retry));
     mkStepSpec "wait" StepTimer "" zeroReference [] 5000 0 0 (mkRetryPolicy 0 0 0) 0 None;
     mkStepSpec "paid" StepSignal "payment" zeroReference [] 1000 10 0 (mkRetryPolicy 0 0 0) 0 None;
     mkStepSpec "ok" StepApproval "manager" zeroReference [] 1000 10 0 (mkRetryPolicy 0 0 0) 0 None;
     mkStepSpec "ship" StepChild "order" order_child [] 1000 100 100 order_retry 0 None].

Lemma order_valid : validateDefinition order_spec = Ok tt.
Proof. vm_compute. reflexivity. Qed.

Definition order_definition : Definition_ := mkDefinition order_spec sample_fingerprint.
Definition order_registry : option Registry :=
  Some (mkRegistry (<[("order", "v2")%string := order_definition]>
    (<[("order", "v1")%string := sample_definition]> ∅)) ∅).

Definition order_event (sequence : Z) (kind : EventKind) (step : string) (attempt : Z) (key : string)
    (due : Time) (code : string) (retryable : bool) (data : bytes) : HistoryEvent :=
  mkEvent sequence "wf-1" kind (sample_time sequence)
    (if bool_decide (kind = EventChildScheduled) then order_child
     else if requiresDefinition kind then Reference order_definition else zeroReference)
    (if childEvent kind then "child-1" else "") step attempt key due code retryable data.

Definition order_started : list HistoryEvent :=
  [order_event 1 EventInstanceStarted "" 0 "" zeroTime "" false (Some "in"%string)].

Definition order_instance (es : list HistoryEvent) : Instance_ := or_zero zeroInstance (Replay order_registry es).

Definition event_check (e : HistoryEvent) : bool :=
  validHistoryEventSpec (spec_of e) && bool_decide (canonicalTime (ev_occurredAt e) = ev_occurredAt e)
  && bool_decide (canonicalTime (ev_dueAt e) = ev_dueAt e)
  && (0 <=? ev_sequence e) && (ev_sequence e <? 2 ^ 64) && (0 <=? ev_attempt e) && (ev_attempt e <? 2 ^ 32).

Lemma events_check_wf es : forallb event_check es = true -> Forall event_wf es.
Proof.
  intros Hw. apply Forall_forall. intros e He. rewrite forallb_forall in Hw. apply event_wf_check, Hw.
  by apply list_elem_of_In.
Qed.

(** A history whose events and replay check is committed. *)
Lemma order_committed es :
  forallb event_check es && is_ok (Replay order_registry es) = true ->
  committed order_registry es (order_instance es).
Proof.
  intros [Hw Hr]%andb_true_iff. split; [by apply events_check_wf |].
  unfold order_instance. by destruct (Replay order_registry es).
Qed.

Lemma order_registered : registered order_registry order_definition.
Proof. vm_compute. reflexivity. Qed.

(** A lease on a work item, held for thirty seconds. *)
Definition order_lease (work : PendingWork) (claimed : Z) : WorkLease :=
  mkLease work "worker-1" 7 1 (sample_time claimed) (sample_time (claimed + 30)).
