(* ===== verification/Snapshot.v ===== *)
(** * Listings of progress and the snapshot digest (history.go and the *_history.go files)

    A replayed instance lists its progress in a stable order and digests the JSON
    text of those lists. Go ranges over a map in an order of its own, and
    [slices.SortFunc] orders equal keys arbitrarily: [iterate] is that order, a
    parameter, and the theorem is that nothing observable depends on it. *)
From S2P Require Import Prelude GoTime Names Sha256 Json Definitions Registry OperatorAudit Event Instances.
From S2P Require Import ActivityHistory WaitHistory ChildHistory CompensationHistory Replay ReplayInvariant ReplayProperties.

(** Ranging over a map: each entry once. *)
Class MapRange (iterate : forall T : Type, gmap string T -> list (string * T)) : Prop := {
  iterate_entries T (m : gmap string T) : Permutation (iterate T m) (map_to_list m)
}.

(** ** The codes of the statuses *)

Definition InstanceStatus_code (status : InstanceStatus) : Z :=
  match status with
  | StatusRunning => 1 | StatusPaused => 2 | StatusCancelling => 3 | StatusCompleted => 4 | StatusFailed => 5
  | StatusCancelled => 6 | StatusTerminated => 7 | StatusContinuedAsNew => 8 | InstanceStatusUndeclared => 0
  end.

Definition ActivityProgressStatus_code (status : ActivityProgressStatus) : Z :=
  match status with
  | ActivityProgressReady => 1 | ActivityProgressRunning => 2 | ActivityProgressSucceeded => 3
  | ActivityProgressFailed => 4 | ActivityProgressUnknown => 5 | ActivityProgressRetryWaiting => 6
  | ActivityProgressUndeclared => 0
  end.

Definition TimerProgressStatus_code (status : TimerProgressStatus) : Z :=
  match status with TimerWaiting => 1 | TimerFired => 2 | TimerProgressUndeclared => 0 end.

Definition CompensationProgressStatus_code (status : CompensationProgressStatus) : Z :=
  match status with
  | CompensationReady => 1 | CompensationRunning => 2 | CompensationSucceeded => 3 | CompensationFailed => 4
  | CompensationUnknown => 5 | CompensationRetryWaiting => 6 | CompensationManuallyResolved => 7
  | CompensationProgressUndeclared => 0
  end.

Definition ChildProgressStatus_code (status : ChildProgressStatus) : Z :=
  match status with
  | ChildScheduled => 1 | ChildSucceeded => 2 | ChildFailed => 3 | ChildStartRunning => 4 | ChildActive => 5
  | ChildStartFailedStatus => 6 | ChildStartUnknownStatus => 7 | ChildStartRetryWaiting => 8
  | ChildProgressUndeclared => 0
  end.

(** ** Owned copies *)

Definition cloneActivityProgress (p : ActivityProgress) : ActivityProgress :=
  mkActivityProgress (ap_stepName p) (ap_status p) (ap_attempt p) (ap_idempotencyKey p) (ap_dueAt p)
    (cloneBytes (ap_input p)) (cloneBytes (ap_result p)) (ap_code p) (ap_retryable p).

Definition cloneSignalProgress (p : SignalProgress) : SignalProgress :=
  mkSignalProgress (sp_stepName p) (sp_signalID p) (sp_receivedAt p) (cloneBytes (sp_payload p)).

Definition cloneChildProgress (p : ChildProgress) : ChildProgress :=
  mkChildProgress (hp_stepName p) (hp_childID p) (hp_definition p) (hp_status p) (cloneBytes (hp_input p))
    (cloneBytes (hp_result p)) (hp_code p) (hp_attempt p) (hp_idempotencyKey p) (hp_dueAt p) (hp_retryable p).

Definition cloneCompensationProgress (p : CompensationProgress) : CompensationProgress :=
  mkCompensationProgress (cp_stepName p) (cp_status p) (cp_scheduledSequence p) (cp_attempt p) (cp_idempotencyKey p)
    (cp_dueAt p) (cloneBytes (cp_input p)) (cloneBytes (cp_result p)) (cp_code p) (cp_retryable p).

Definition zeroSignalProgress : SignalProgress := mkSignalProgress "" "" zeroTime None.
Definition zeroRaceProgress : RaceProgress := mkRaceProgress "" "" zeroTime.

(** ** Stable orders *)

Section Listing.
Context (iterate : forall T : Type, gmap string T -> list (string * T)).

Definition sortedProgressNames {T} (progress : gmap string T) : list string :=
  order_by string_leb (map fst (iterate T progress)).

(** A nil and an empty slice are both [[]]: no listing is empty and not nil. *)
Definition sortedActivityProgress (activities : gmap string ActivityProgress) : list ActivityProgress :=
  map (fun name => cloneActivityProgress (default zeroActivityProgress (activities !! name))) (sortedProgressNames activities).

Definition sortedTimerProgress (progress : gmap string TimerProgress) : list TimerProgress :=
  map (fun name => default zeroTimerProgress (progress !! name)) (sortedProgressNames progress).

Definition sortedSignalProgress (progress : gmap string SignalProgress) : list SignalProgress :=
  map (fun name => cloneSignalProgress (default zeroSignalProgress (progress !! name))) (sortedProgressNames progress).

Definition sortedRaceProgress (progress : gmap string RaceProgress) : list RaceProgress :=
  map (fun name => default zeroRaceProgress (progress !! name)) (sortedProgressNames progress).

Definition sortedChildProgress (progress : gmap string ChildProgress) : list ChildProgress :=
  map (fun name => cloneChildProgress (default zeroChildProgress (progress !! name))) (sortedProgressNames progress).

Definition scheduled_leb (left right : CompensationProgress) : bool := cp_scheduledSequence left <=? cp_scheduledSequence right.

Definition sortedCompensationProgress (progress : gmap string CompensationProgress) : list CompensationProgress :=
  order_by scheduled_leb (map (fun entry => cloneCompensationProgress entry.2) (iterate CompensationProgress progress)).

(** ** The snapshot document *)

Definition activity_json (p : ActivityProgress) : option json :=
  dueAt ← json_time (ap_dueAt p);
  Some (JObj [("StepName", JStr (ap_stepName p)); ("Status", JNum (ActivityProgressStatus_code (ap_status p)));
    ("Attempt", JNum (ap_attempt p)); ("IdempotencyKey", JStr (ap_idempotencyKey p)); ("DueAt", dueAt);
    ("Input", json_bytes (ap_input p)); ("Result", json_bytes (ap_result p)); ("Code", JStr (ap_code p));
    ("Retryable", JBool (ap_retryable p))]).

Definition activityProgressSnapshots (activities : gmap string ActivityProgress) : option (list json) :=
  mapM activity_json (sortedActivityProgress activities).

Definition timer_json (p : TimerProgress) : option json :=
  dueAt ← json_time (tp_dueAt p);
  firedAt ← json_time (tp_firedAt p);
  Some (JObj [("StepName", JStr (tp_stepName p)); ("Status", JNum (TimerProgressStatus_code (tp_status p)));
    ("DueAt", dueAt); ("FiredAt", firedAt)]).

Definition timerProgressSnapshots (progress : gmap string TimerProgress) : option (list json) :=
  mapM timer_json (sortedTimerProgress progress).

Definition signal_json (p : SignalProgress) : option json :=
  receivedAt ← json_time (sp_receivedAt p);
  Some (JObj [("StepName", JStr (sp_stepName p)); ("SignalID", JStr (sp_signalID p)); ("ReceivedAt", receivedAt);
    ("Payload", json_bytes (sp_payload p))]).

Definition signalProgressSnapshots (progress : gmap string SignalProgress) : option (list json) :=
  mapM signal_json (sortedSignalProgress progress).

Definition race_json (p : RaceProgress) : option json :=
  decidedAt ← json_time (rp_decidedAt p);
  Some (JObj [("StepName", JStr (rp_stepName p)); ("WinnerStepName", JStr (rp_winnerStepName p)); ("DecidedAt", decidedAt)]).

Definition raceProgressSnapshots (progress : gmap string RaceProgress) : option (list json) :=
  mapM race_json (sortedRaceProgress progress).

Definition child_json (p : ChildProgress) : option json :=
  dueAt ← json_time (hp_dueAt p);
  Some (JObj [("StepName", JStr (hp_stepName p)); ("ChildID", JStr (hp_childID p));
    ("DefinitionName", JStr (ref_name (hp_definition p))); ("DefinitionVersion", JStr (ref_version (hp_definition p)));
    ("DefinitionFingerprint", JStr (ref_fingerprint (hp_definition p)));
    ("Status", JNum (ChildProgressStatus_code (hp_status p))); ("Input", json_bytes (hp_input p));
    ("Result", json_bytes (hp_result p)); ("Code", JStr (hp_code p)); ("Attempt", JNum (hp_attempt p));
    ("IdempotencyKey", JStr (hp_idempotencyKey p)); ("DueAt", dueAt); ("Retryable", JBool (hp_retryable p))]).

Definition childProgressSnapshots (progress : gmap string ChildProgress) : option (list json) :=
  mapM child_json (sortedChildProgress progress).

Definition compensationProgress_json (p : CompensationProgress) : option json :=
  dueAt ← json_time (cp_dueAt p);
  Some (JObj [("StepName", JStr (cp_stepName p)); ("Status", JNum (CompensationProgressStatus_code (cp_status p)));
    ("ScheduledSequence", JNum (cp_scheduledSequence p)); ("Attempt", JNum (cp_attempt p));
    ("IdempotencyKey", JStr (cp_idempotencyKey p)); ("DueAt", dueAt); ("Input", json_bytes (cp_input p));
    ("Result", json_bytes (cp_result p)); ("Code", JStr (cp_code p)); ("Retryable", JBool (cp_retryable p))]).

Definition compensationProgressSnapshots (progress : gmap string CompensationProgress) : option (list json) :=
  mapM compensationProgress_json (sortedCompensationProgress progress).

Definition operator_json (r : OperatorActionRecord) : option json :=
  occurredAt ← json_time (or_occurredAt r);
  Some (JObj [("CommandID", JStr (or_commandID r)); ("Action", JNum (OperatorAction_code (or_action r)));
    ("Actor", JStr (or_actor r)); ("Reason", JStr (or_reason r)); ("OccurredAt", occurredAt)]).

Definition operatorActionSnapshots (records : list OperatorActionRecord) : option (list json) := mapM operator_json records.

(** A nil slice is null; with [omitempty] it is left out. *)
Definition slice_json (l : list json) : json := match l with [] => JNull | _ => JArr l end.
Definition omitempty (name : string) (l : list json) : list (string * json) :=
  match l with [] => [] | _ => [(name, JArr l)] end.

Definition snapshot_json (i : Instance_) : option json :=
  startedAt ← json_time (in_startedAt i);
  updatedAt ← json_time (in_updatedAt i);
  activities ← activityProgressSnapshots (in_activities i);
  timers ← timerProgressSnapshots (in_timers i);
  signals ← signalProgressSnapshots (in_signals i);
  races ← raceProgressSnapshots (in_races i);
  children ← childProgressSnapshots (in_children i);
  compensations ← compensationProgressSnapshots (in_compensations i);
  operators ← operatorActionSnapshots (in_operatorActions i);
  Some (JObj ([("ID", JStr (in_id i)); ("DefinitionName", JStr (ref_name (in_definition i)));
    ("DefinitionVersion", JStr (ref_version (in_definition i)));
    ("DefinitionFingerprint", JStr (ref_fingerprint (in_definition i)));
    ("Status", JNum (InstanceStatus_code (in_status i))); ("Sequence", JNum (in_sequence i));
    ("StartedAt", startedAt); ("UpdatedAt", updatedAt); ("Input", json_bytes (in_input i));
    ("Result", json_bytes (in_result i)); ("SuccessorID", JStr (in_successorID i));
    ("Activities", slice_json activities)]
    ++ omitempty "Timers" timers ++ omitempty "Signals" signals ++ omitempty "Races" races
    ++ omitempty "Children" children ++ omitempty "Compensations" compensations
    ++ omitempty "OperatorActions" operators)).

(** The accessors of the lists. *)
Definition Activities (i : Instance_) : list ActivityProgress := sortedActivityProgress (in_activities i).
Definition Timers (i : Instance_) : list TimerProgress := sortedTimerProgress (in_timers i).
Definition Signals (i : Instance_) : list SignalProgress := sortedSignalProgress (in_signals i).
Definition Races (i : Instance_) : list RaceProgress := sortedRaceProgress (in_races i).
Definition Children (i : Instance_) : list ChildProgress := sortedChildProgress (in_children i).
Definition Compensations (i : Instance_) : list CompensationProgress := sortedCompensationProgress (in_compensations i).

Definition SnapshotDigest (i : Instance_) : string := sha256_hex (marshal (snapshot_json i)).
End Listing.

(** ** The order of the range does not matter *)

Section Stable.
Context (iterate : forall T : Type, gmap string T -> list (string * T)) `{!MapRange iterate}.

Definition string_lt (a b : string) : Prop := String.ltb a b = true.

Lemma names_nodup {T} (m : gmap string T) : NoDup (map fst (iterate T m)).
Proof. rewrite (fmap_Permutation fst _ _ (iterate_entries T m)). apply NoDup_fst_map_to_list. Qed.

(** Exactly the records of a map, in strictly increasing order of their names. *)
Definition listed_by_name {T} (name_of : T -> string) (m : gmap string T) (l : list T) : Prop :=
  StronglySorted string_lt (map name_of l) /\ forall p, p ∈ l <-> m !! name_of p = Some p.

Lemma elem_of_names {T} (m : gmap string T) name : name ∈ sortedProgressNames iterate m <-> is_Some (m !! name).
Proof.
  unfold sortedProgressNames. rewrite elem_of_order_by. rewrite (fmap_Permutation fst _ _ (iterate_entries T m)).
  rewrite list_elem_of_fmap. split.
  - intros ([k x] & -> & H%elem_of_map_to_list). by exists x.
  - intros [x Hx]. exists (name, x). by rewrite elem_of_map_to_list.
Qed.

Lemma names_sorted {T} (m : gmap string T) : StronglySorted string_lt (sortedProgressNames iterate m).
Proof.
  pose proof (order_by_sorted string_leb string_leb_total string_leb_trans (map fst (iterate T m))) as Hs.
  assert (Hn : NoDup (sortedProgressNames iterate m)) by (unfold sortedProgressNames; rewrite order_by_Permutation; apply names_nodup).
  fold (sortedProgressNames iterate m) in Hs. induction Hs as [| a l Hs IH Hall]; constructor.
  - apply IH. by apply NoDup_cons in Hn as [_ ?].
  - apply NoDup_cons in Hn as [Ha _]. rewrite Forall_forall in *. intros b Hb. specialize (Hall b Hb). unfold string_lt.
    destruct (String.ltb a b) eqn:E; [done |]. destruct Ha. unfold string_leb in Hall. rewrite negb_true_iff in Hall.
    by rewrite (string_ltb_total a b E Hall).
Qed.

(** A listing by name: exactly the records of the map, in strictly increasing order. *)
Lemma listing_by_name {T} (m : gmap string T) (zero : T) (clone : T -> T) (name_of : T -> string) :
  (forall p, clone p = p) -> map_Forall (fun name p => name_of p = name) m ->
  listed_by_name name_of m (map (fun name => clone (default zero (m !! name))) (sortedProgressNames iterate m)).
Proof.
  intros Hclone Hm. set (l := map _ _). unfold listed_by_name.
  assert (Hnames : map name_of l = sortedProgressNames iterate m).
  { subst l. rewrite map_map. rewrite <- (map_id (sortedProgressNames iterate m)) at 2. apply map_ext_in. intros name Hin%list_elem_of_In.
    apply elem_of_names in Hin as [p Hp]. rewrite Hp, Hclone. by apply Hm. }
  split; [rewrite Hnames; apply names_sorted |]. intros p. subst l. rewrite list_elem_of_fmap. split.
  - intros (name & -> & [q Hq]%elem_of_names). rewrite Hq, Hclone. cbn. by rewrite (Hm name q Hq).
  - intros Hp. exists (name_of p). rewrite Hp, Hclone. split; [done |]. apply elem_of_names. by exists p.
Qed.
End Stable.

Lemma names_stable iterate iterate' `{!MapRange iterate} `{!MapRange iterate'} {T} (m : gmap string T) :
  sortedProgressNames iterate m = sortedProgressNames iterate' m.
Proof.
  apply order_by_unique; [apply string_leb_total | apply string_leb_trans | intros; by apply string_leb_antisym |].
  by rewrite (fmap_Permutation fst _ _ (iterate_entries T m)), (fmap_Permutation fst _ _ (iterate_entries (iterate := iterate') T m)).
Qed.

Lemma cloneActivityProgress_id p : cloneActivityProgress p = p.
Proof. unfold cloneActivityProgress. rewrite !cloneBytes_id. by destruct p. Qed.
Lemma cloneSignalProgress_id p : cloneSignalProgress p = p.
Proof. unfold cloneSignalProgress. rewrite !cloneBytes_id. by destruct p. Qed.
Lemma cloneChildProgress_id p : cloneChildProgress p = p.
Proof. unfold cloneChildProgress. rewrite !cloneBytes_id. by destruct p. Qed.
Lemma cloneCompensationProgress_id p : cloneCompensationProgress p = p.
Proof. unfold cloneCompensationProgress. rewrite !cloneBytes_id. by destruct p. Qed.

(** ** Compensations are scheduled at different positions *)

(** The scheduling positions of the compensations are past and pairwise different. *)
Definition schedules_apart (i : Instance_) : Prop :=
  (forall name c, in_compensations i !! name = Some c -> cp_scheduledSequence c <= in_sequence i)
  /\ forall name name' c c', in_compensations i !! name = Some c -> in_compensations i !! name' = Some c' ->
       cp_scheduledSequence c = cp_scheduledSequence c' -> name = name'.

(** A step of a compensation keeps its position, or takes the event's. *)
Lemma compensation_step_position policy status activity e old p' :
  compensation_step policy status activity e old p' ->
  match old with Some p => cp_scheduledSequence p' = cp_scheduledSequence p | None => cp_scheduledSequence p' = ev_sequence e end.
Proof. by intros []. Qed.

Lemma run_schedules_apart registry es i : run registry es i -> schedules_apart i.
Proof.
  induction 1 as [e i He Hs | es e i m Hr IH He Ha Hm].
  - apply applyStart_inv in Hs as (_ & _ & _ & ->). split; intros *; cbn [in_compensations]; by rewrite lookup_empty.
  - pose proof (run_sequence _ _ _ Hr) as [_ Hrange]. pose proof (event_wf_sequence e He) as Hne.
    assert (Hseq : ev_sequence e = in_sequence i + 1).
    { pose proof (adm_sequence _ _ Ha) as Hsq. rewrite Hsq in *. apply u64_succ_nonzero; [lia | done]. }
    destruct IH as [Hpast Hapart]. unfold schedules_apart.
    destruct (finish_frame i m e) as (_ & _ & _ & _ & _ & _ & _ & _ & _ & -> & _ & -> & _). rewrite Hseq.
    destruct (compensationEvent (ev_kind e)) eqn:Hk.
    2: { rewrite (frame_compensations _ _ _ (applyKind_frames _ _ _ _ Hm) Hk).
         split; [intros name c Hc; specialize (Hpast name c Hc); lia | exact Hapart]. }
    assert (Happ : applyCompensation registry i e = Ok m) by (unfold applyKind in Hm; by destruct (ev_kind e)).
    apply applyCompensation_iff in Happ as (step & policy & p' & _ & _ & Hs & ->); [| done].
    apply compensation_step_position in Hs. cbn [in_compensations set_compensation].
    assert (Hnew : forall name c, name <> ev_stepName e -> in_compensations i !! name = Some c ->
      cp_scheduledSequence p' <> cp_scheduledSequence c).
    { intros name c Hn Hc. destruct (in_compensations i !! ev_stepName e) as [p |] eqn:Hp.
      - rewrite Hs. intros Heq. destruct Hn. by eapply Hapart.
      - specialize (Hpast name c Hc). lia. }
    split.
    + intros name c [[<- <-] | [_ Hc]]%lookup_insert_Some; [| specialize (Hpast name c Hc); lia].
      destruct (in_compensations i !! ev_stepName e) as [p |] eqn:Hp; [specialize (Hpast _ _ Hp) |]; lia.
    + intros name name' c c' [[<- <-] | [Hn Hc]]%lookup_insert_Some [[<- <-] | [Hn' Hc']]%lookup_insert_Some Heq; [done | | | by eapply Hapart].
      * by destruct (Hnew name' c').
      * by destruct (Hnew name c).
Qed.

Lemma scheduled_leb_total a b : scheduled_leb a b = true \/ scheduled_leb b a = true.
Proof. unfold scheduled_leb. rewrite !Z.leb_le. lia. Qed.
Lemma scheduled_leb_trans a b c : scheduled_leb a b = true -> scheduled_leb b c = true -> scheduled_leb a c = true.
Proof. unfold scheduled_leb. rewrite !Z.leb_le. lia. Qed.

Section Schedules.
Context (iterate : forall T : Type, gmap string T -> list (string * T)) `{!MapRange iterate} (i : Instance_) (Hi : schedules_apart i).

Lemma compensation_entries : Permutation
  (map (fun entry => cloneCompensationProgress entry.2) (iterate CompensationProgress (in_compensations i)))
  (map snd (map_to_list (in_compensations i))).
Proof.
  rewrite (fmap_Permutation _ _ _ (iterate_entries _ (in_compensations i))).
  rewrite (map_ext _ snd); [done |]. intros [k c]. apply cloneCompensationProgress_id.
Qed.

Lemma entry_apart a b : a ∈ map snd (map_to_list (in_compensations i)) -> b ∈ map snd (map_to_list (in_compensations i)) ->
  scheduled_leb a b = true -> scheduled_leb b a = true -> a = b.
Proof.
  rewrite !list_elem_of_fmap. intros ([k x] & -> & Hx%elem_of_map_to_list) ([k' y] & -> & Hy%elem_of_map_to_list).
  unfold scheduled_leb. rewrite !Z.leb_le. cbn [snd]. intros H1 H2.
  assert (k = k') as <- by (eapply Hi; [exact Hx | exact Hy | lia]). congruence.
Qed.

Lemma compensations_canonical :
  sortedCompensationProgress iterate (in_compensations i) = order_by scheduled_leb (map snd (map_to_list (in_compensations i))).
Proof.
  symmetry. apply order_by_unique; [apply scheduled_leb_total | apply scheduled_leb_trans | apply entry_apart |].
  symmetry. apply compensation_entries.
Qed.

(** The compensations in strictly increasing schedule order, and no others. *)
Lemma compensations_listing :
  StronglySorted Z.lt (map cp_scheduledSequence (sortedCompensationProgress iterate (in_compensations i)))
  /\ forall p, p ∈ sortedCompensationProgress iterate (in_compensations i) <-> exists name, in_compensations i !! name = Some p.
Proof.
  rewrite compensations_canonical. set (l := map snd _). split.
  - assert (Hn : NoDup (order_by scheduled_leb l)).
    { rewrite order_by_Permutation. subst l. apply NoDup_fmap_2_strong; [| apply NoDup_map_to_list].
      intros [k x] [k' y] Hx%elem_of_map_to_list Hy%elem_of_map_to_list. cbn [snd]. intros ->.
      f_equal. eapply Hi; [exact Hx | exact Hy | done]. }
    pose proof (order_by_sorted scheduled_leb scheduled_leb_total scheduled_leb_trans l) as Hs.
    assert (Hin : forall p, p ∈ order_by scheduled_leb l -> p ∈ l) by (intros p; apply elem_of_order_by).
    induction Hs as [| a k Hs IH Hall]; cbn [map]; constructor.
    + apply IH; [by apply NoDup_cons in Hn as [_ ?] |]. intros p Hp. apply Hin. by right.
    + apply NoDup_cons in Hn as [Ha _]. apply Forall_forall. intros z Hz.
      apply (list_elem_of_fmap_1 cp_scheduledSequence) in Hz as (b & -> & Hb).
      pose proof (proj1 (Forall_forall _ _) Hall b Hb) as Hle.
      unfold scheduled_leb in Hle. apply Z.leb_le in Hle.
      destruct (decide (cp_scheduledSequence a = cp_scheduledSequence b)) as [Heq | Hneq]; [| lia].
      destruct Ha. rewrite (entry_apart a b); [done | apply Hin; by left | apply Hin; by right | |];
        unfold scheduled_leb; apply Z.leb_le; lia.
  - intros p. rewrite elem_of_order_by. subst l. rewrite list_elem_of_fmap. split.
    + intros ([k x] & -> & Hx%elem_of_map_to_list). by exists k.
    + intros [k Hk]. exists (k, p). by rewrite elem_of_map_to_list.
Qed.
End Schedules.

Lemma compensations_stable iterate iterate' `{!MapRange iterate} `{!MapRange iterate'} i : schedules_apart i ->
  sortedCompensationProgress iterate (in_compensations i) = sortedCompensationProgress iterate' (in_compensations i).
Proof. intros Hi. by rewrite !compensations_canonical. Qed.

(** ** Samples *)

#[local] Instance range_forward : MapRange (fun T m => map_to_list m).
Proof. by split. Qed.

#[local] Instance range_backward : MapRange (fun T m => reverse (map_to_list m)).
Proof. split. intros T m. by rewrite reverse_Permutation. Qed.

(** ** Properties *)

(** C39: What a replayed instance shows does not depend on the order in which maps are
    ranged over, nor on how the unstable sort breaks ties: the snapshot digest is the
    same for any two range orders; each listing by step name holds exactly the
    progress of its map in strictly increasing order of the names; and the
    compensations are listed in strictly increasing order of the positions they were
    scheduled at, which replay makes pairwise different. *)
Theorem snapshot_stable iterate iterate' registry es i :
  MapRange iterate -> MapRange iterate' -> Forall event_wf es -> Replay registry es = Ok i ->
  SnapshotDigest iterate i = SnapshotDigest iterate' i
  /\ listed_by_name ap_stepName (in_activities i) (Activities iterate i)
  /\ listed_by_name tp_stepName (in_timers i) (Timers iterate i)
  /\ listed_by_name sp_stepName (in_signals i) (Signals iterate i)
  /\ listed_by_name rp_stepName (in_races i) (Races iterate i)
  /\ listed_by_name hp_stepName (in_children i) (Children iterate i)
  /\ StronglySorted Z.lt (map cp_scheduledSequence (Compensations iterate i))
  /\ (forall p, p ∈ Compensations iterate i <-> exists name, in_compensations i !! name = Some p).
Proof.
  intros Hr Hr' Hw Hrun. apply (Replay_run registry) in Hrun; [| exact Hw].
  pose proof (run_schedules_apart _ _ _ Hrun) as Hapart. destruct (run_progress _ _ _ Hrun) as [H1 H2 H3 H4 H5 _ _ _].
  assert (Hnames : forall T (m : gmap string T), sortedProgressNames iterate m = sortedProgressNames iterate' m)
    by (intros; by apply names_stable).
  split_and!.
  - unfold SnapshotDigest, snapshot_json, activityProgressSnapshots, timerProgressSnapshots, signalProgressSnapshots,
      raceProgressSnapshots, childProgressSnapshots, compensationProgressSnapshots, sortedActivityProgress,
      sortedTimerProgress, sortedSignalProgress, sortedRaceProgress, sortedChildProgress.
    by rewrite !Hnames, (compensations_stable iterate iterate') by done.
  - apply listing_by_name; [done | apply cloneActivityProgress_id |]. by intros name p [? _]%H1.
  - apply (listing_by_name iterate _ _ id); [done |]. by intros name p [? _]%H2.
  - apply listing_by_name; [done | apply cloneSignalProgress_id |]. by intros name p [? _]%H3.
  - apply (listing_by_name iterate _ _ id); [done |]. by intros name p [? _]%H4.
  - apply listing_by_name; [done | apply cloneChildProgress_id |]. by intros name p [? _]%H5.
  - by apply compensations_listing.
  - by apply compensations_listing.
Qed.

Lemma snapshot_stable_witness :
  exists i, Replay sample_registry sample_history = Ok i
    /\ SnapshotDigest (fun T m => map_to_list m) i = SnapshotDigest (fun T m => reverse (map_to_list m)) i
    /\ length (Activities (fun T m => map_to_list m) i) = 1%nat.
Proof.
  assert (H : match Replay sample_registry sample_history with Ok i => length (Activities (fun T m => map_to_list m) i) = 1%nat | Err _ => False end)
    by (vm_compute; reflexivity).
  destruct (Replay sample_registry sample_history) as [i | err] eqn:E; [| destruct H]. exists i.
  split; [reflexivity |]. split; [| exact H].
  apply (snapshot_stable (fun T m => map_to_list m) (fun T m => reverse (map_to_list m)) sample_registry sample_history i);
    [apply range_forward | apply range_backward | apply sample_history_wf | exact E].
Defined.
