(* ===== verification/WaitTransition.v ===== *)
(** * Timer and signal transitions (wait_transition.go)

    These constructors receive the position of the instance, not the replayed
    instance itself, so they cannot look at its lifecycle or its progress. The
    properties say exactly when the history they extend replays. *)
From S2P Require Import Prelude GoTime Names Definitions Registry OperatorAudit Event.
From S2P Require Import Instances ActivityHistory WaitHistory Replay ReplayInvariant ReplayProperties.
From S2P Require Import Work Transition Plans Samples.

Record TimerScheduleSpec := mkTimerScheduleSpec {
  ts_TransitionID : string;
  ts_WorkID : string;
  ts_TimerInstanceID : string;
  ts_TimerExpectedSequence : Z;
  ts_TimerDefinition : Definition_;
  ts_StepName : string;
  ts_ScheduledAt : Time;
  ts_Deadline : Time;
  ts_TenantID : string;
  ts_CorrelationID : string
}.

Definition NewTimerSchedule (spec : TimerScheduleSpec) : result Transition :=
  match definitionStep (ts_TimerDefinition spec) (ts_StepName spec) StepTimer with
  | None => Err ErrInvalidWait
  | Some step =>
      reject IsZero (ts_ScheduledAt spec) with ErrInvalidWait;
      let scheduledAt := canonicalTime (ts_ScheduledAt spec) in
      let dueAt := canonicalTime (Add scheduledAt (step_Timeout step)) in
      event <~ NewHistoryEvent (step_event (u64 (ts_TimerExpectedSequence spec + 1)) (ts_TimerInstanceID spec)
          EventTimerScheduled scheduledAt (ts_StepName spec) 0 "" dueAt "" false None)
        else ErrInvalidWait;
      work <~ NewPendingWork (mkWorkSpec (ts_WorkID spec) WorkTimer (ts_TimerInstanceID spec) (ev_sequence event)
          dueAt (ts_Deadline spec) (Some (ts_StepName spec)) (ts_TenantID spec) (ts_CorrelationID spec))
        else ErrInvalidWait;
      map_err ErrInvalidWait
        (NewTransition (mkTransitionSpec (ts_TransitionID spec) (ts_TimerInstanceID spec) (ts_TimerExpectedSequence spec)
           (Reference (ts_TimerDefinition spec)) [event] [work]))
  end.

Record TimerFireSpec := mkTimerFireSpec {
  tf_TransitionID : string;
  tf_Lease : WorkLease;
  tf_ExpectedSequence : Z;
  tf_Definition : Definition_;
  tf_FiredAt : Time
}.

Definition NewTimerFire (spec : TimerFireSpec) : result Transition :=
  reject negb (lease_Valid (tf_Lease spec)) || negb (bool_decide (wk_kind (le_work (tf_Lease spec)) = WorkTimer))
    with ErrInvalidWait;
  let work := le_work (tf_Lease spec) in
  let stepName := bstr (wk_payload work) in
  reject bool_decide (definitionStep (tf_Definition spec) stepName StepTimer = None)
    || (tf_ExpectedSequence spec <? wk_sequence work) with ErrInvalidWait;
  let firedAt := canonicalTime (tf_FiredAt spec) in
  reject Before firedAt (wk_availableAt work) || negb (Before firedAt (wk_deadline work)) with ErrInvalidWait;
  event <~ NewHistoryEvent (step_event (u64 (tf_ExpectedSequence spec + 1)) (wk_instanceID work)
      EventTimerFired firedAt stepName 0 "" zeroTime "" false None)
    else ErrInvalidWait;
  map_err ErrInvalidWait
    (NewTransition (mkTransitionSpec (tf_TransitionID spec) (wk_instanceID work) (tf_ExpectedSequence spec)
       (Reference (tf_Definition spec)) [event] [])).

Record SignalAcceptanceSpec := mkSignalAcceptanceSpec {
  sa_InstanceID : string;
  sa_ExpectedSequence : Z;
  sa_Definition : Definition_;
  sa_StepName : string;
  sa_SignalID : string;
  sa_ReceivedAt : Time;
  sa_Payload : bytes
}.

Definition NewSignalAcceptance (spec : SignalAcceptanceSpec) : result Transition :=
  match definitionStep (sa_Definition spec) (sa_StepName spec) StepSignal with
  | None => Err ErrInvalidWait
  | Some step =>
      reject step_InputLimit step <? blen (sa_Payload spec) with ErrInvalidWait;
      event <~ NewHistoryEvent (step_event (u64 (sa_ExpectedSequence spec + 1)) (sa_InstanceID spec)
          EventSignalReceived (sa_ReceivedAt spec) (sa_StepName spec) 0 (sa_SignalID spec) zeroTime "" false (sa_Payload spec))
        else ErrInvalidWait;
      map_err ErrInvalidWait
        (NewTransition (mkTransitionSpec (sa_SignalID spec) (sa_InstanceID spec) (sa_ExpectedSequence spec)
           (Reference (sa_Definition spec)) [event] []))
  end.

(** ** Exactly when a plan replays *)

(** The caller reads the cursor of a committed history and its registered pin. *)
Record at_cursor (registry : option Registry) (es : list HistoryEvent) (i : Instance_)
    (instanceID : string) (expected : Z) (d : Definition_) : Prop := {
  ac_committed : committed registry es i;
  ac_registered : registered registry d;
  ac_reference : Reference d = in_definition i;
  ac_id : instanceID = in_id i;
  ac_expected : expected = in_sequence i
}.

Lemma at_cursor_pinned registry es i instanceID expected d :
  at_cursor registry es i instanceID expected d -> pinnedDefinition registry i = d.
Proof. intros [_ Hr Hd _ _]. by apply registered_pinned. Qed.

(** A plan of one wait event replays exactly when its event is not in the past, the
    instance is not terminal, and the wait state machine has the step. *)
Lemma wait_plan_exact registry es i instanceID expected d spec e tid work transition err :
  at_cursor registry es i instanceID expected d -> NewHistoryEvent spec = Ok e ->
  es_Attempt spec = 0 -> es_Sequence spec = u64 (expected + 1) -> es_InstanceID spec = instanceID ->
  es_Kind spec = EventTimerScheduled \/ es_Kind spec = EventTimerFired \/ es_Kind spec = EventSignalReceived ->
  map_err err (NewTransition (mkTransitionSpec tid instanceID expected (Reference d) [e] work)) = Ok transition ->
  is_ok (Replay registry (es ++ tr_events transition)) = true <->
  Before (es_OccurredAt spec) (in_updatedAt i) = false /\ terminalStatus (in_status i) = false
  /\ exists m, wait_step registry i (event_of (canonicalSpec spec)) m.
Proof.
  intros Hat He Ha Hs Hid Hk Htr. destruct Hat as [Hc Hr Hd -> ->].
  apply NewTransition_single in Htr as (_ & _ & _ & _ & -> & _).
  pose proof (committed_sequence _ _ _ Hc) as [_ Hrg].
  pose proof (hw_updated _ _ (committed_header _ _ _ Hc)) as [Hcan _].
  assert (Hwf : event_wf e).
  { eapply NewHistoryEvent_wf; [| exact He]. split; [rewrite Hs; apply u64_range | rewrite Ha; lia]. }
  apply NewHistoryEvent_spec in He as [_ ->].
  pose proof (event_wf_sequence _ Hwf) as Hne. cbn in Hne. rewrite Hs in Hne.
  rewrite (single_replays_exact registry es i); [| done | done | done | | by destruct Hk as [E | [E | E]]; cbn; rewrite E].
  2: { cbn. rewrite Hs. apply u64_succ_nonzero; [lia | done]. }
  cbn [ev_occurredAt event_of canonicalSpec es_OccurredAt]. rewrite Before_canonicalTime_l by done.
  assert (Hm : is_ok (applyKind registry i (event_of (canonicalSpec spec))) = true
    <-> exists m, wait_step registry i (event_of (canonicalSpec spec)) m).
  { setoid_rewrite <- applyWait_iff. unfold applyKind. cbn [ev_kind event_of canonicalSpec es_Kind].
    destruct Hk as [E | [E | E]]; rewrite E.
    all: destruct (applyWait registry i _); split; [by eexists | done | done | by intros [? [=]]]. }
  by rewrite Hm.
Qed.

(** At the cursor of a running instance without the timer, the plan commits. *)
Lemma NewTimerSchedule_commits registry es i spec transition :
  at_cursor registry es i (ts_TimerInstanceID spec) (ts_TimerExpectedSequence spec) (ts_TimerDefinition spec) ->
  in_status i = StatusRunning -> in_timers i !! ts_StepName spec = None ->
  Before (ts_ScheduledAt spec) (in_updatedAt i) = false ->
  NewTimerSchedule spec = Ok transition ->
  exists i', commits registry es i transition i'
    /\ exists p, in_timers i' = <[ts_StepName spec := p]> (in_timers i) /\ tp_status p = TimerWaiting.
Proof.
  intros Hat Hst Hnone Ht H. pose proof (at_cursor_pinned _ _ _ _ _ _ Hat) as Hpin.
  destruct Hat as [Hc Hreg Hd Hid Hseq]. pose proof (hw_updated _ _ (committed_header _ _ _ Hc)) as [Hcan _].
  unfold NewTimerSchedule in H. rewrite Hid, Hseq, Hd in H. open_plan H. rewrite canonicalTime_Add in *.
  apply (next_event_new registry es i) in Hmade as [Hn ->]; [| done | done | done | done |].
  2: { cbn [es_OccurredAt step_event]. by rewrite Before_canonicalTime_l. }
  apply NewPendingWork_wf in Hmade0.
  eapply commits_single in H as (Hcm & _); [| done | done | by constructor | by rewrite Hst | done |].
  2: { unfold applyKind. apply applyWait_iff. eapply wait_timer_scheduled; [done | | done | done |]; cbn.
       - by rewrite Hpin.
       - by rewrite !canonicalTime_idem, canonicalTime_Add. }
  eexists. split; [exact Hcm |]. eexists. split; [apply finish_timer | done].
Qed.

(** What the wait rules say of each kind of event. *)
Lemma wait_step_signal registry i e m :
  ev_kind e = EventSignalReceived -> wait_step registry i e m ->
  (in_status i = StatusRunning \/ in_status i = StatusPaused) /\ in_signals i !! ev_stepName e = None.
Proof. intros Hk Hs. inversion Hs; [done | congruence | congruence]. Qed.

Lemma wait_step_scheduled registry i e m :
  ev_kind e = EventTimerScheduled -> wait_step registry i e m ->
  in_status i = StatusRunning /\ in_timers i !! ev_stepName e = None.
Proof. intros Hk Hs. inversion Hs; [congruence | done | congruence]. Qed.

Lemma wait_step_fired registry i e m :
  ev_kind e = EventTimerFired -> wait_step registry i e m ->
  in_status i = StatusRunning
  /\ exists p, in_timers i !! ev_stepName e = Some p /\ tp_status p = TimerWaiting
     /\ Before (ev_occurredAt e) (tp_dueAt p) = false.
Proof. intros Hk Hs. inversion Hs; [congruence | congruence | eauto]. Qed.

(** C30: NewSignalAcceptance is given a cursor and never looks at the instance: a plan
    it accepts at the cursor of a committed history keeps the history replayable
    exactly when the instance is running or paused, the step has no signal yet and
    the receipt is not before the last event. A second signal for a step, under a
    new signal id, is accepted and poisons the history. *)
Theorem signal_acceptance_exact registry es i spec transition :
  at_cursor registry es i (sa_InstanceID spec) (sa_ExpectedSequence spec) (sa_Definition spec) ->
  NewSignalAcceptance spec = Ok transition ->
  is_ok (Replay registry (es ++ tr_events transition)) = true <->
  (in_status i = StatusRunning \/ in_status i = StatusPaused)
  /\ in_signals i !! sa_StepName spec = None /\ Before (sa_ReceivedAt spec) (in_updatedAt i) = false.
Proof.
  intros Hat H. pose proof (at_cursor_pinned _ _ _ _ _ _ Hat) as Hpin.
  unfold NewSignalAcceptance in H. open_plan H.
  rewrite (wait_plan_exact _ _ _ _ _ _ _ _ _ _ _ _ Hat Hmade) by (done || naive_solver || exact H).
  cbn [es_OccurredAt step_event]. split.
  - intros (Ht & _ & m & [Hst Hn]%wait_step_signal); done.
  - intros (Hst & Hn & Ht). split_and!; [done | by destruct Hst as [-> | ->] |].
    eexists. eapply wait_signal; cbn; [done | | done | done | done].
    unfold signalStep. rewrite Hpin, Hfound. done.
Qed.

Definition order_signal (sequence : Z) (id : string) : SignalAcceptanceSpec :=
  mkSignalAcceptanceSpec "wf-1" sequence order_definition "paid" id (sample_time (sequence + 1)) (Some "ref-1"%string).
Definition order_signalled : list HistoryEvent :=
  order_started ++ [order_event 2 EventSignalReceived "paid" 0 "sig-1" zeroTime "" false (Some "ref-1"%string)].

(** The first signal is accepted and replays; the second one is accepted too, and
    the history it extends does not replay. *)
Lemma signal_acceptance_exact_witness :
  (exists transition, NewSignalAcceptance (order_signal 1 "sig-1") = Ok transition
     /\ is_ok (Replay order_registry (order_started ++ tr_events transition)) = true)
  /\ exists transition, NewSignalAcceptance (order_signal 2 "sig-2") = Ok transition
     /\ (is_ok (Replay order_registry (order_signalled ++ tr_events transition)) = true -> False).
Proof.
  assert (H1 : exists transition, NewSignalAcceptance (order_signal 1 "sig-1") = Ok transition).
  { eexists. vm_compute. reflexivity. }
  assert (H2 : exists transition, NewSignalAcceptance (order_signal 2 "sig-2") = Ok transition).
  { eexists. vm_compute. reflexivity. }
  split.
  - destruct H1 as [transition H1]. exists transition. split; [exact H1 |].
    apply (signal_acceptance_exact order_registry order_started (order_instance order_started) (order_signal 1 "sig-1") transition).
    + split; [apply order_committed | apply order_registered | ..]; vm_compute; reflexivity.
    + exact H1.
    + split; [left | split]; vm_compute; reflexivity.
  - destruct H2 as [transition H2]. exists transition. split; [exact H2 |]. intros Hok.
    apply (signal_acceptance_exact order_registry order_signalled (order_instance order_signalled) (order_signal 2 "sig-2") transition) in Hok.
    + destruct Hok as (_ & Hn & _). vm_compute in Hn. discriminate Hn.
    + split; [apply order_committed | apply order_registered | ..]; vm_compute; reflexivity.
    + exact H2.
Defined.

(** NewTimerSchedule yields one work item that becomes available exactly when the
    timer is due and names the step; at the cursor of a committed history its plan
    keeps the history replayable exactly when the instance is running, the step has
    no timer yet and the decision is not before the last event. *)
Theorem timer_schedule_exact registry es i spec transition :
  at_cursor registry es i (ts_TimerInstanceID spec) (ts_TimerExpectedSequence spec) (ts_TimerDefinition spec) ->
  NewTimerSchedule spec = Ok transition ->
  (exists w step, tr_work transition = [w] /\ wk_kind w = WorkTimer /\ wk_payload w = Some (ts_StepName spec)
     /\ definitionStep (ts_TimerDefinition spec) (ts_StepName spec) StepTimer = Some step
     /\ wk_availableAt w = canonicalTime (Add (ts_ScheduledAt spec) (step_Timeout step)))
  /\ (is_ok (Replay registry (es ++ tr_events transition)) = true <->
      in_status i = StatusRunning /\ in_timers i !! ts_StepName spec = None
      /\ Before (ts_ScheduledAt spec) (in_updatedAt i) = false).
Proof.
  intros Hat H. pose proof (at_cursor_pinned _ _ _ _ _ _ Hat) as Hpin.
  pose proof (hw_updated _ _ (committed_header _ _ _ (ac_committed _ _ _ _ _ _ Hat))) as [Hcan _].
  unfold NewTimerSchedule in H. open_plan H. rewrite canonicalTime_Add in *. split.
  - apply NewTransition_single in H as (_ & _ & _ & _ & _ & ->).
    apply NewPendingWork_spec in Hmade0 as [_ ->]. eexists _, _. split_and!; [reflexivity | done | done | done |].
    cbn. apply canonicalTime_idem.
  - rewrite (wait_plan_exact _ _ _ _ _ _ _ _ _ _ _ _ Hat Hmade) by (done || naive_solver || exact H).
    cbn [es_OccurredAt step_event]. rewrite Before_canonicalTime_l by done. split.
    + intros (Ht & _ & m & [Hst Hn]%wait_step_scheduled); done.
    + intros (Hst & Hn & Ht). split_and!; [done | by rewrite Hst |].
      eexists. eapply wait_timer_scheduled; [done | | done | done |]; cbn.
      * by rewrite Hpin.
      * by rewrite !canonicalTime_idem, canonicalTime_Add.
Qed.

Definition order_timer : TimerScheduleSpec :=
  mkTimerScheduleSpec "tr-2" "work-2" "wf-1" 1 order_definition "wait" (sample_time 2) (sample_time 60) "" "".

Lemma timer_schedule_exact_witness :
  exists transition, NewTimerSchedule order_timer = Ok transition
    /\ is_ok (Replay order_registry (order_started ++ tr_events transition)) = true.
Proof.
  assert (H : exists transition, NewTimerSchedule order_timer = Ok transition).
  { eexists. vm_compute. reflexivity. }
  destruct H as [transition H]. exists transition. split; [exact H |].
  apply (timer_schedule_exact order_registry order_started (order_instance order_started) order_timer transition).
  - split; [apply order_committed | apply order_registered | ..]; vm_compute; reflexivity.
  - exact H.
  - split_and!; vm_compute; reflexivity.
Defined.

(** At the cursor of a committed history a plan NewTimerFire accepts keeps the
    history replayable exactly when the instance is running, the step's timer is
    still waiting, and the firing is neither before the timer's due time nor before
    the last event: a redelivered timer lease is accepted again by the constructor
    and only replay rejects it. *)
Theorem timer_fire_exact registry es i spec transition :
  at_cursor registry es i (wk_instanceID (le_work (tf_Lease spec))) (tf_ExpectedSequence spec) (tf_Definition spec) ->
  NewTimerFire spec = Ok transition ->
  is_ok (Replay registry (es ++ tr_events transition)) = true <->
  in_status i = StatusRunning /\ Before (tf_FiredAt spec) (in_updatedAt i) = false
  /\ exists p, in_timers i !! bstr (wk_payload (le_work (tf_Lease spec))) = Some p /\ tp_status p = TimerWaiting
     /\ Before (canonicalTime (tf_FiredAt spec)) (tp_dueAt p) = false.
Proof.
  intros Hat H. pose proof (at_cursor_pinned _ _ _ _ _ _ Hat) as Hpin.
  pose proof (hw_updated _ _ (committed_header _ _ _ (ac_committed _ _ _ _ _ _ Hat))) as [Hcan _].
  unfold NewTimerFire in H. open_plan H.
  match goal with G : definitionStep _ _ _ <> None |- _ => rename G into Hstep end.
  destruct (definitionStep (tf_Definition spec) _ StepTimer) as [step |] eqn:Hs; [clear Hstep | done].
  rewrite (wait_plan_exact _ _ _ _ _ _ _ _ _ _ _ _ Hat Hmade) by (done || naive_solver || exact H).
  cbn [es_OccurredAt step_event]. rewrite Before_canonicalTime_l by done. split.
  - intros (Ht & _ & m & Hm). apply wait_step_fired in Hm as (Hst & p & Hp & Hw & Hb); [| done].
    cbn in Hp, Hb. rewrite canonicalTime_idem in Hb. split_and!; [done | done |]. by exists p.
  - intros (Hst & Ht & p & Hp & Hw & Hb). split_and!; [done | by rewrite Hst |].
    eexists. eapply (wait_timer_fired _ _ _ step p); [done | | done | done | done |]; cbn.
    + by rewrite Hpin.
    + by rewrite canonicalTime_idem.
Qed.

Definition order_waiting : list HistoryEvent :=
  order_started ++ [order_event 2 EventTimerScheduled "wait" 0 "" (Add (sample_time 2) 5000) "" false None].
Definition order_fired : list HistoryEvent :=
  order_waiting ++ [order_event 3 EventTimerFired "wait" 0 "" zeroTime "" false None].
Definition order_timer_work : PendingWork :=
  mkWork "work-2" WorkTimer "wf-1" 2 (Add (sample_time 2) 5000) (sample_time 60) (Some "wait"%string) "" "".
Definition order_fire (sequence : Z) : TimerFireSpec :=
  mkTimerFireSpec "tr-3" (order_lease order_timer_work 3) sequence order_definition (sample_time (sequence + 1)).

(** The timer fires once; the redelivered lease is accepted again, and then the
    history does not replay. *)
Lemma timer_fire_exact_witness :
  (exists transition, NewTimerFire (order_fire 2) = Ok transition
     /\ is_ok (Replay order_registry (order_waiting ++ tr_events transition)) = true)
  /\ exists transition, NewTimerFire (order_fire 3) = Ok transition
     /\ (is_ok (Replay order_registry (order_fired ++ tr_events transition)) = true -> False).
Proof.
  assert (H1 : exists transition, NewTimerFire (order_fire 2) = Ok transition).
  { eexists. vm_compute. reflexivity. }
  assert (H2 : exists transition, NewTimerFire (order_fire 3) = Ok transition).
  { eexists. vm_compute. reflexivity. }
  split.
  - destruct H1 as [transition H1]. exists transition. split; [exact H1 |].
    apply (timer_fire_exact order_registry order_waiting (order_instance order_waiting) (order_fire 2) transition).
    + split; [apply order_committed | apply order_registered | ..]; vm_compute; reflexivity.
    + exact H1.
    + split; [| split]; [vm_compute; reflexivity .. |].
      exists (mkTimerProgress "wait" TimerWaiting (Add (sample_time 2) 5000) zeroTime). split_and!; vm_compute; reflexivity.
  - destruct H2 as [transition H2]. exists transition. split; [exact H2 |]. intros Hok.
    apply (timer_fire_exact order_registry order_fired (order_instance order_fired) (order_fire 3) transition) in Hok.
    + destruct Hok as (_ & _ & p & Hp & Hw & _). vm_compute in Hp. injection Hp as <-. vm_compute in Hw. discriminate Hw.
    + split; [apply order_committed | apply order_registered | ..]; vm_compute; reflexivity.
    + exact H2.
Defined.
