(* ===== verification/CompensationTransition.v ===== *)
(** * Compensation transitions (compensation_transition.go) *)
From S2P Require Import Prelude GoTime Names Json JsonDecode Definitions Registry.
From S2P Require Import OperatorAudit Event Instances ActivityHistory CompensationHistory Replay ReplayInvariant.
From S2P Require Import Work Transition Plans Activity ActivityTransition ReplayProperties Samples.

Definition MaxCompensationDispatchBytes : Z := 1024.

(** [CompensationDispatch] has the fields of [ActivityDispatch], and its document the
    same members in the same order; so it has the same codec, with its own error. *)
Abbreviation CompensationDispatch := ActivityDispatch.

Definition encodeCompensationDispatch (stepName : string) (attempt : Z) (idempotencyKey : string) : bytes :=
  Some (render (JObj (map member_json (dispatch_members (mkActivityDispatch stepName attempt idempotencyKey))))).

Definition DecodeCompensationDispatch (payload : bytes) : result CompensationDispatch :=
  reject blen payload =? 0 with ErrInvalidCompensation;
  reject MaxCompensationDispatchBytes <? blen payload with ErrInvalidCompensation;
  match decode_document dispatch_store (mkActivityDispatch "" 0 "") (bstr payload) with
  | None => Err ErrInvalidCompensation
  | Some dispatch =>
      reject negb (stableName (ad_stepName dispatch)) || (ad_attempt dispatch =? 0)
        || negb (instanceIDPattern (ad_idempotencyKey dispatch)) with ErrInvalidCompensation;
      Ok dispatch
  end.

Record CompensationScheduleSpec := mkCompensationScheduleSpec {
  ps_TransitionID : string;
  ps_WorkID : string;
  ps_Instance : Instance_;
  ps_Definition : Definition_;
  ps_StepName : string;
  ps_Attempt : Z;
  ps_IdempotencyKey : string;
  ps_ScheduledAt : Time;
  ps_Deadline : Time;
  ps_Input : bytes;
  ps_TenantID : string;
  ps_CorrelationID : string
}.

(** [spec.Instance.status != StatusRunning && spec.Instance.status != StatusCancelling] *)
Definition not_compensating (i : Instance_) : bool :=
  negb (bool_decide (in_status i = StatusRunning)) && negb (bool_decide (in_status i = StatusCancelling)).

Definition NewCompensationSchedule (spec : CompensationScheduleSpec) : result Transition :=
  let i := ps_Instance spec in
  match definitionActivityStep (ps_Definition spec) (ps_StepName spec) with
  | None => Err ErrInvalidCompensation
  | Some step =>
  match step_Compensation step with
  | None => Err ErrInvalidCompensation
  | Some policy =>
      reject not_compensating i with ErrInvalidCompensation;
      reject negb (bool_decide (Reference (ps_Definition spec) = in_definition i)) with ErrInvalidCompensation;
      match in_activities i !! ps_StepName spec with
      | None => Err ErrInvalidCompensation
      | Some activity =>
          reject negb (bool_decide (ap_status activity = ActivityProgressSucceeded)) with ErrInvalidCompensation;
          reject bool_decide (is_Some (in_compensations i !! ps_StepName spec)) with ErrInvalidCompensation;
          reject negb (ps_Attempt spec =? 1) with ErrInvalidCompensation;
          reject step_InputLimit step <? blen (ps_Input spec) with ErrInvalidCompensation;
          reject negb (instanceIDPattern (ps_IdempotencyKey spec)) with ErrInvalidCompensation;
          reject Before (ps_ScheduledAt spec) (in_updatedAt i) with ErrInvalidCompensation;
          let payload := encodeCompensationDispatch (ps_StepName spec) (ps_Attempt spec) (ps_IdempotencyKey spec) in
          event <~ NewHistoryEvent (step_event (u64 (in_sequence i + 1)) (in_id i) EventCompensationScheduled
              (ps_ScheduledAt spec) (ps_StepName spec) 0 "" zeroTime "" false (ps_Input spec))
            else ErrInvalidCompensation;
          work <~ NewPendingWork (mkWorkSpec (ps_WorkID spec) WorkCompensation (in_id i) (ev_sequence event)
              (ps_ScheduledAt spec) (ps_Deadline spec) payload (ps_TenantID spec) (ps_CorrelationID spec))
            else ErrInvalidCompensation;
          map_err ErrInvalidCompensation
            (NewTransition (mkTransitionSpec (ps_TransitionID spec) (in_id i) (in_sequence i) (in_definition i) [event] [work]))
      end
  end
  end.

Record CompensationAttemptStartSpec := mkCompensationAttemptStartSpec {
  pa_TransitionID : string;
  pa_Lease : WorkLease;
  pa_Instance : Instance_;
  pa_Definition : Definition_;
  pa_StartedAt : Time
}.

Definition NewCompensationAttemptStart (spec : CompensationAttemptStartSpec) : result Transition :=
  let i := pa_Instance spec in
  reject negb (lease_Valid (pa_Lease spec)) with ErrInvalidCompensation;
  reject negb (bool_decide (wk_kind (le_work (pa_Lease spec)) = WorkCompensation)) with ErrInvalidCompensation;
  let work := le_work (pa_Lease spec) in
  dispatch <~ DecodeCompensationDispatch (wk_payload work) else ErrInvalidCompensation;
  reject in_sequence i <? wk_sequence work with ErrInvalidCompensation;
  reject negb (bool_decide (wk_instanceID work = in_id i)) with ErrInvalidCompensation;
  match definitionActivityStep (pa_Definition spec) (ad_stepName dispatch) with
  | None => Err ErrInvalidCompensation
  | Some step =>
  match step_Compensation step with
  | None => Err ErrInvalidCompensation
  | Some policy =>
      reject negb (bool_decide (Reference (pa_Definition spec) = in_definition i)) with ErrInvalidCompensation;
      reject not_compensating i with ErrInvalidCompensation;
      match in_compensations i !! ad_stepName dispatch with
      | None => Err ErrInvalidCompensation
      | Some progress =>
          reject negb (bool_decide (cp_status progress = CompensationReady))
            && negb (bool_decide (cp_status progress = CompensationRetryWaiting)) with ErrInvalidCompensation;
          reject negb (ad_attempt dispatch =? u32 (cp_attempt progress + 1)) with ErrInvalidCompensation;
          reject MaxAttempts (cs_Retry policy) <? ad_attempt dispatch with ErrInvalidCompensation;
          let startedAt := canonicalTime (pa_StartedAt spec) in
          let dueAt := canonicalTime (Add startedAt (cs_Timeout policy)) in
          reject Before startedAt (wk_availableAt work) with ErrInvalidCompensation;
          reject negb (Before startedAt (wk_deadline work)) with ErrInvalidCompensation;
          reject After dueAt (wk_deadline work) with ErrInvalidCompensation;
          reject Before startedAt (le_claimedAt (pa_Lease spec)) || negb (Before startedAt (le_expiresAt (pa_Lease spec)))
            with ErrInvalidCompensation;
          reject Before startedAt (in_updatedAt i) with ErrInvalidCompensation;
          reject bool_decide (cp_status progress = CompensationRetryWaiting) && Before startedAt (cp_dueAt progress)
            with ErrInvalidCompensation;
          event <~ NewHistoryEvent (step_event (u64 (in_sequence i + 1)) (wk_instanceID work)
              EventCompensationAttemptStarted startedAt (ad_stepName dispatch) (ad_attempt dispatch)
              (ad_idempotencyKey dispatch) dueAt "" false None)
            else ErrInvalidCompensation;
          map_err ErrInvalidCompensation
            (NewTransition (mkTransitionSpec (pa_TransitionID spec) (wk_instanceID work) (in_sequence i) (in_definition i) [event] []))
      end
  end
  end.

Record CompensationAttemptOutcomeSpec := mkCompensationAttemptOutcomeSpec {
  po_TransitionID : string;
  po_Instance : Instance_;
  po_Definition : Definition_;
  po_StepName : string;
  po_Attempt : Z;
  po_OccurredAt : Time;
  po_Outcome : ActivityOutcome
}.

Definition compensationOutcomeEventKind (kind : ActivityOutcomeKind) : EventKind :=
  match kind with
  | ActivitySucceeded => EventCompensationAttemptSucceeded
  | ActivityFailed => EventCompensationAttemptFailed
  | ActivityUnknown => EventCompensationAttemptUnknown
  | _ => EventKindUndeclared
  end.

Definition NewCompensationAttemptOutcome (spec : CompensationAttemptOutcomeSpec) : result Transition :=
  let i := po_Instance spec in
  match definitionActivityStep (po_Definition spec) (po_StepName spec) with
  | None => Err ErrInvalidCompensation
  | Some step =>
  match step_Compensation step with
  | None => Err ErrInvalidCompensation
  | Some policy =>
  match in_compensations i !! po_StepName spec with
  | None => Err ErrInvalidCompensation
  | Some progress =>
      reject negb (bool_decide (Reference (po_Definition spec) = in_definition i)) with ErrInvalidCompensation;
      reject negb (bool_decide (cp_status progress = CompensationRunning))
        || negb (cp_attempt progress =? po_Attempt spec) with ErrInvalidCompensation;
      reject negb (outcome_valid (po_Outcome spec)) with ErrInvalidCompensation;
      reject cs_ResultLimit policy <? blen (oc_data (po_Outcome spec)) with ErrInvalidCompensation;
      reject Before (po_OccurredAt spec) (in_updatedAt i) with ErrInvalidCompensation;
      event <~ NewHistoryEvent (step_event (u64 (in_sequence i + 1)) (in_id i)
          (compensationOutcomeEventKind (oc_kind (po_Outcome spec))) (po_OccurredAt spec) (po_StepName spec)
          (po_Attempt spec) "" zeroTime (oc_code (po_Outcome spec)) (oc_retryable (po_Outcome spec))
          (oc_data (po_Outcome spec)))
        else ErrInvalidCompensation;
      map_err ErrInvalidCompensation
        (NewTransition (mkTransitionSpec (po_TransitionID spec) (in_id i) (in_sequence i) (in_definition i) [event] []))
  end
  end
  end.

Record CompensationRetrySpec := mkCompensationRetrySpec {
  pr_TransitionID : string;
  pr_WorkID : string;
  pr_Instance : Instance_;
  pr_Definition : Definition_;
  pr_StepName : string;
  pr_IdempotencyKey : string;
  pr_ScheduledAt : Time;
  pr_Deadline : Time;
  pr_TenantID : string;
  pr_CorrelationID : string
}.

Definition NewCompensationRetry (spec : CompensationRetrySpec) : result Transition :=
  let i := pr_Instance spec in
  match definitionActivityStep (pr_Definition spec) (pr_StepName spec) with
  | None => Err ErrInvalidCompensation
  | Some step =>
  match step_Compensation step with
  | None => Err ErrInvalidCompensation
  | Some policy =>
  match in_compensations i !! pr_StepName spec with
  | None => Err ErrInvalidCompensation
  | Some progress =>
      reject negb (bool_decide (Reference (pr_Definition spec) = in_definition i)) with ErrInvalidCompensation;
      reject not_compensating i with ErrInvalidCompensation;
      reject negb (bool_decide (cp_status progress = CompensationFailed)) || negb (cp_retryable progress)
        || (MaxAttempts (cs_Retry policy) <=? cp_attempt progress) with ErrInvalidCompensation;
      reject negb (instanceIDPattern (pr_IdempotencyKey spec)) || Before (pr_ScheduledAt spec) (in_updatedAt i)
        with ErrInvalidCompensation;
      let dueAt := canonicalTime (Add (pr_ScheduledAt spec) (retryDelay (cs_Retry policy) (cp_attempt progress))) in
      event <~ NewHistoryEvent (step_event (u64 (in_sequence i + 1)) (in_id i) EventCompensationRetryScheduled
          (pr_ScheduledAt spec) (pr_StepName spec) (cp_attempt progress) "" dueAt "" false None)
        else ErrInvalidCompensation;
      let payload := encodeCompensationDispatch (pr_StepName spec) (u32 (cp_attempt progress + 1)) (pr_IdempotencyKey spec) in
      work <~ NewPendingWork (mkWorkSpec (pr_WorkID spec) WorkCompensation (in_id i) (ev_sequence event)
          dueAt (pr_Deadline spec) payload (pr_TenantID spec) (pr_CorrelationID spec))
        else ErrInvalidCompensation;
      map_err ErrInvalidCompensation
        (NewTransition (mkTransitionSpec (pr_TransitionID spec) (in_id i) (in_sequence i) (in_definition i) [event] [work]))
  end
  end
  end.

(** ** Every plan is one step of the compensation state machine *)

(** A plan some constructor makes for a step of an instance. *)
Inductive compensation_plan (i : Instance_) (d : Definition_) (transition : Transition) : string -> Prop :=
  | plan_schedule spec :
      ps_Instance spec = i -> ps_Definition spec = d -> NewCompensationSchedule spec = Ok transition ->
      compensation_plan i d transition (ps_StepName spec)
  | plan_start spec dispatch :
      pa_Instance spec = i -> pa_Definition spec = d -> NewCompensationAttemptStart spec = Ok transition ->
      DecodeCompensationDispatch (wk_payload (le_work (pa_Lease spec))) = Ok dispatch ->
      compensation_plan i d transition (ad_stepName dispatch)
  | plan_outcome spec :
      po_Instance spec = i -> po_Definition spec = d -> NewCompensationAttemptOutcome spec = Ok transition ->
      compensation_plan i d transition (po_StepName spec)
  | plan_retry spec :
      pr_Instance spec = i -> pr_Definition spec = d -> NewCompensationRetry spec = Ok transition ->
      compensation_plan i d transition (pr_StepName spec).

(** What such a plan does: its one event is a step of the policy's state machine on
    the named compensation, and committing it changes that record only. *)
Definition compensates registry es i d transition name : Prop :=
  exists e i' step policy p',
    tr_events transition = [e] /\ ev_stepName e = name /\ commits registry es i transition i'
    /\ definitionActivityStep d name = Some step /\ step_Compensation step = Some policy
    /\ compensation_step policy (in_status i) (in_activities i !! name) e (in_compensations i !! name) p'
    /\ in_compensations i' = <[name := p']> (in_compensations i).

Section Constructors.
Context (registry : option Registry) (es : list HistoryEvent).

Lemma not_compensating_false i :
  not_compensating i = false -> in_status i = StatusRunning \/ in_status i = StatusCancelling.
Proof. unfold not_compensating. intros H. bool_norm. destruct_or?; auto. Qed.

Lemma compensation_plan_commits i d e work tid err transition step policy p' :
  committed registry es i -> registered registry d -> Reference d = in_definition i ->
  map_err err (NewTransition (mkTransitionSpec tid (in_id i) (in_sequence i) (in_definition i) [e] work)) = Ok transition ->
  next_event i e -> Forall work_wf work -> terminalStatus (in_status i) = false ->
  compensationEvent (ev_kind e) = true ->
  definitionActivityStep d (ev_stepName e) = Some step -> step_Compensation step = Some policy ->
  compensation_step policy (in_status i) (in_activities i !! ev_stepName e) e (in_compensations i !! ev_stepName e) p' ->
  compensates registry es i d transition (ev_stepName e).
Proof.
  intros Hc Hreg Hd Htr Hn Hw Hst Hk Hstep Hpol Hs.
  assert (Ha : applyCompensation registry i e = Ok (set_compensation i (ev_stepName e) p')).
  { apply applyCompensation_iff; [done |]. rewrite (registered_pinned registry d) by done. by exists step, policy, p'. }
  assert (Hm : applyKind registry i e = applyCompensation registry i e) by (unfold applyKind; by destruct (ev_kind e)).
  rewrite Ha in Hm.
  eapply commits_single in Htr as (Hcm & Hev & _);
    [| done | done | done | done | intros E; by rewrite E in Hk | exact Hm].
  eexists e, _, step, policy, p'. split_and!; [done | done | exact Hcm | done | done | done | apply finish_compensation].
Qed.

Lemma NewCompensationSchedule_compensates spec transition :
  committed registry es (ps_Instance spec) -> registered registry (ps_Definition spec) ->
  NewCompensationSchedule spec = Ok transition ->
  compensates registry es (ps_Instance spec) (ps_Definition spec) transition (ps_StepName spec).
Proof.
  intros Hc Hreg H. unfold NewCompensationSchedule in H. open_plan H.
  match goal with G : not_compensating _ = false |- _ => apply not_compensating_false in G as Hst end.
  match goal with G : ~ is_Some _ |- _ => apply eq_None_not_Some in G as Hnone end.
  apply (next_event_new registry es (ps_Instance spec)) in Hmade as [Hn ->]; [| done | done | done | done | done].
  apply NewPendingWork_wf in Hmade0.
  eapply compensation_plan_commits in H; [exact H | done | done | done | done | by constructor | | done | done | done |].
  - by destruct Hst as [-> | ->].
  - cbn [ev_stepName event_of canonicalSpec es_StepName step_event]. rewrite Hnone.
    by eapply compensation_schedule.
Qed.

Lemma NewCompensationAttemptStart_compensates spec dispatch transition :
  committed registry es (pa_Instance spec) -> registered registry (pa_Definition spec) ->
  NewCompensationAttemptStart spec = Ok transition ->
  DecodeCompensationDispatch (wk_payload (le_work (pa_Lease spec))) = Ok dispatch ->
  compensates registry es (pa_Instance spec) (pa_Definition spec) transition (ad_stepName dispatch).
Proof.
  intros Hc Hreg H Hdec. unfold NewCompensationAttemptStart in H. rewrite Hdec in H. open_plan H.
  injection Hmade as <-.
  match goal with G : not_compensating _ = false |- _ => apply not_compensating_false in G as Hst end.
  match goal with E : wk_instanceID _ = in_id _ |- _ => rewrite E in * end.
  match goal with E : ad_attempt dispatch = u32 _ |- _ => rename E into Hatt end.
  rewrite canonicalTime_Add in *.
  apply (next_event_new registry es (pa_Instance spec)) in Hmade0 as [Hn ->];
    [| done | cbn; rewrite Hatt; apply u32_range | done | done | done].
  eapply compensation_plan_commits in H; [exact H | done | done | done | done | constructor | | done | done | done |].
  - by destruct Hst as [-> | ->].
  - cbn -[Z.leb]. rewrite Hfound1. apply compensation_start; cbn; try done.
    + unfold comp_startable. cbn. destruct_or?; first [by left | by right | congruence].
    + by rewrite !canonicalTime_idem, canonicalTime_Add.
Qed.

Lemma NewCompensationAttemptOutcome_compensates spec transition :
  committed registry es (po_Instance spec) -> registered registry (po_Definition spec) ->
  terminalStatus (in_status (po_Instance spec)) = false ->
  NewCompensationAttemptOutcome spec = Ok transition ->
  compensates registry es (po_Instance spec) (po_Definition spec) transition (po_StepName spec).
Proof.
  intros Hc Hreg Hst H. unfold NewCompensationAttemptOutcome in H. open_plan H.
  match goal with E : cp_attempt _ = po_Attempt _ |- _ => rename E into Hatt end.
  match goal with E : outcome_valid _ = true |- _ => rename E into Hout end.
  pose proof (wf_compensations _ (committed_progress _ _ _ Hc) _ _ Hfound1) as Hcw.
  apply (next_event_new registry es (po_Instance spec)) in Hmade as [Hn ->];
    [| done | cbn; rewrite <- Hatt; apply Hcw | done | done | done].
  assert (Hkind : compensationOutcomeEventKind (oc_kind (po_Outcome spec)) = EventCompensationAttemptSucceeded
    \/ compensationOutcomeEventKind (oc_kind (po_Outcome spec)) = EventCompensationAttemptFailed
    \/ compensationOutcomeEventKind (oc_kind (po_Outcome spec)) = EventCompensationAttemptUnknown).
  { unfold outcome_valid in Hout. destruct (_ <? _); [done |]. destruct (oc_kind (po_Outcome spec)); cbn; auto. done. }
  eapply compensation_plan_commits in H; [exact H | done | done | done | done | constructor | done | | done | done |].
  - cbn. by destruct Hkind as [-> | [-> | ->]].
  - cbn [ev_stepName event_of canonicalSpec es_StepName step_event]. rewrite Hfound1.
    by apply compensation_outcome.
Qed.

Lemma NewCompensationRetry_compensates spec transition :
  committed registry es (pr_Instance spec) -> registered registry (pr_Definition spec) ->
  NewCompensationRetry spec = Ok transition ->
  compensates registry es (pr_Instance spec) (pr_Definition spec) transition (pr_StepName spec).
Proof.
  intros Hc Hreg H. unfold NewCompensationRetry in H. open_plan H.
  match goal with G : not_compensating _ = false |- _ => apply not_compensating_false in G as Hst end.
  pose proof (wf_compensations _ (committed_progress _ _ _ Hc) _ _ Hfound1) as Hcw.
  apply (next_event_new registry es (pr_Instance spec)) in Hmade as [Hn ->];
    [| done | cbn; apply Hcw | done | done | done].
  apply NewPendingWork_wf in Hmade0.
  eapply compensation_plan_commits in H; [exact H | done | done | done | done | by constructor | | done | done | done |].
  - by destruct Hst as [-> | ->].
  - cbn -[Z.leb]. rewrite Hfound1. apply compensation_retry; cbn; try done.
    by rewrite canonicalTime_idem, canonicalTime_Add.
Qed.
End Constructors.

(** ** The work a plan creates *)

Lemma DecodeCompensationDispatch_iff payload dispatch :
  DecodeCompensationDispatch payload = Ok dispatch <-> DecodeActivityDispatch payload = Ok dispatch.
Proof.
  unfold DecodeCompensationDispatch, DecodeActivityDispatch.
  change MaxCompensationDispatchBytes with MaxActivityDispatchBytes.
  destruct (_ =? 0); [done |]. destruct (_ <? _); [done |]. destruct (decode_document _ _ _) as [x |]; [| done].
  by destruct (stableName (ad_stepName x)), (ad_attempt x =? 0), (instanceIDPattern (ad_idempotencyKey x)).
Qed.

Lemma decode_encodeCompensationDispatch name attempt key :
  dispatch_wf (mkActivityDispatch name attempt key) ->
  DecodeCompensationDispatch (encodeCompensationDispatch name attempt key) = Ok (mkActivityDispatch name attempt key).
Proof. intros H. apply DecodeCompensationDispatch_iff. exact (decode_encodeActivityDispatch _ H). Qed.

(** The integer widths of a definition's compensation policies. *)
Definition compensation_in_width (d : Definition_) : Prop :=
  forall step policy, step ∈ ds_Steps (def_spec d) -> step_Compensation step = Some policy ->
  retry_in_range (cs_Retry policy).

(** A work item that dispatches the next attempt of the named compensation. *)
Definition dispatches_next (i : Instance_) (name : string) (w : PendingWork) : Prop :=
  wk_kind w = WorkCompensation
  /\ exists key, DecodeCompensationDispatch (wk_payload w)
     = Ok (mkActivityDispatch name (default 0 (cp_attempt <$> in_compensations i !! name) + 1) key).

Lemma compensation_plan_work registry es i d transition name :
  committed registry es i -> compensation_in_width d -> compensation_plan i d transition name ->
  Forall (dispatches_next i name) (tr_work transition).
Proof.
  intros Hc Hwid Hplan. destruct Hplan as [spec <- <- H | spec dispatch <- <- H _ | spec <- <- H | spec <- <- H].
  - unfold NewCompensationSchedule in H. open_plan H.
    apply NewTransition_single in H as (_ & _ & _ & _ & _ & ->).
    apply NewPendingWork_spec in Hmade0 as [_ ->]. constructor; [| constructor]. split; [done |]. eexists.
    apply NewHistoryEvent_step in Hmade as Hv; [| done]. cbn [wk_payload].
    match goal with G : ~ is_Some _ |- _ => apply eq_None_not_Some in G; rewrite G end.
    match goal with E : ps_Attempt spec = 1 |- _ => rewrite E end.
    apply decode_encodeCompensationDispatch. split_and!; [exact Hv | done | done | done].
  - unfold NewCompensationAttemptStart in H. open_plan H.
    apply NewTransition_single in H as (_ & _ & _ & _ & _ & ->). constructor.
  - unfold NewCompensationAttemptOutcome in H. open_plan H.
    apply NewTransition_single in H as (_ & _ & _ & _ & _ & ->). constructor.
  - unfold NewCompensationRetry in H. open_plan H.
    apply NewTransition_single in H as (_ & _ & _ & _ & _ & ->).
    apply NewPendingWork_spec in Hmade0 as [_ ->]. constructor; [| constructor]. split; [done |]. eexists.
    apply NewHistoryEvent_step in Hmade as Hv; [| done]. cbn [wk_payload ws_Payload].
    apply find_step_Some in Hfound as (Hin & _). destruct (Hwid _ _ Hin Hfound0) as [Hmax _].
    pose proof (comp_attempt _ _ (wf_compensations _ (committed_progress _ _ _ Hc) _ _ Hfound1)) as Hatt.
    rewrite Hfound1, u32_small by lia. apply decode_encodeCompensationDispatch.
    split_and!; [exact Hv | cbn; lia | cbn; lia | done].
Qed.

(** ** Properties *)

(** C31: Every plan the four compensation constructors accept refines the compensation
    state machine: on a committed history of a live instance, its single event is
    one step of the pinned policy's machine on the named compensation, committing
    it keeps the history replayable and changes that record only, and every work
    item it creates decodes to the next semantic attempt of that compensation. *)
Theorem compensation_plan_refines registry es i d transition name :
  committed registry es i -> registered registry d -> compensation_in_width d ->
  terminalStatus (in_status i) = false -> compensation_plan i d transition name ->
  compensates registry es i d transition name /\ Forall (dispatches_next i name) (tr_work transition).
Proof.
  intros Hc Hreg Hw Hst Hplan. split; [| by eapply compensation_plan_work].
  destruct Hplan as [spec <- <- H | spec dispatch <- <- H Hd | spec <- <- H | spec <- <- H].
  - by apply NewCompensationSchedule_compensates.
  - by eapply NewCompensationAttemptStart_compensates.
  - by apply NewCompensationAttemptOutcome_compensates.
  - by apply NewCompensationRetry_compensates.
Qed.

Definition order_paid : list HistoryEvent :=
  order_started ++
  [order_event 2 EventActivityScheduled "pay" 0 "" zeroTime "" false (Some "x"%string);
   order_event 3 EventActivityAttemptStarted "pay" 1 "key-1" (Add (sample_time 3) 1000) "" false None;
   order_event 4 EventActivityAttemptSucceeded "pay" 1 "" zeroTime "" false (Some "y"%string)].
Definition order_refund_failed : list HistoryEvent :=
  order_paid ++
  [order_event 5 EventCompensationScheduled "pay" 0 "" zeroTime "" false (Some "y"%string);
   order_event 6 EventCompensationAttemptStarted "pay" 1 "key-2" (Add (sample_time 6) 1000) "" false None;
   order_event 7 EventCompensationAttemptFailed "pay" 1 "" zeroTime "busy" true None].
Definition order_refund : CompensationScheduleSpec :=
  mkCompensationScheduleSpec "tr-5" "work-5" (order_instance order_paid) order_definition "pay" 1 "key-2"
    (sample_time 5) (sample_time 60) (Some "y"%string) "" "".
Definition order_refund_again : CompensationRetrySpec :=
  mkCompensationRetrySpec "tr-8" "work-8" (order_instance order_refund_failed) order_definition "pay" "key-3"
    (sample_time 8) (sample_time 60) "" "".

Lemma order_compensation_in_width : compensation_in_width order_definition.
Proof.
  intros step policy Hin Hp. cbn in Hin.
  repeat (apply elem_of_cons in Hin as [-> | Hin];
    [cbn in Hp; first [discriminate Hp | injection Hp as <-; vm_compute; split; congruence] |]).
  by apply elem_of_nil in Hin.
Qed.

Lemma compensation_plan_refines_witness :
  (exists transition, NewCompensationSchedule order_refund = Ok transition
     /\ compensates order_registry order_paid (order_instance order_paid) order_definition transition "pay")
  /\ exists transition, NewCompensationRetry order_refund_again = Ok transition
     /\ Forall (dispatches_next (order_instance order_refund_failed) "pay") (tr_work transition).
Proof.
  assert (H1 : exists transition, NewCompensationSchedule order_refund = Ok transition).
  { eexists. vm_compute. reflexivity. }
  assert (H2 : exists transition, NewCompensationRetry order_refund_again = Ok transition).
  { eexists. vm_compute. reflexivity. }
  split.
  - destruct H1 as [transition H]. exists transition. split; [exact H |].
    apply (compensation_plan_refines order_registry order_paid (order_instance order_paid) order_definition transition "pay").
    + apply order_committed. vm_compute. reflexivity.
    + apply order_registered.
    + apply order_compensation_in_width.
    + vm_compute. reflexivity.
    + exact (plan_schedule _ _ _ order_refund eq_refl eq_refl H).
  - destruct H2 as [transition H]. exists transition. split; [exact H |].
    apply (compensation_plan_refines order_registry order_refund_failed (order_instance order_refund_failed)
      order_definition transition "pay").
    + apply order_committed. vm_compute. reflexivity.
    + apply order_registered.
    + apply order_compensation_in_width.
    + vm_compute. reflexivity.
    + exact (plan_retry _ _ _ order_refund_again eq_refl eq_refl H).
Defined.
