(* ===== verification/ChildStart.v ===== *)
(** * Child-start requests and outcomes (child_start.go)

    The [ChildStarter] that creates the child is the caller's; what crosses the
    boundary is modelled here. *)
From S2P Require Import Prelude GoTime Names Definitions Work.

Inductive ChildStartOutcomeKind :=
  | ChildStarted | ChildStartFailed | ChildStartUnknown | ChildStartOutcomeUndeclared.

#[export] Instance ChildStartOutcomeKind_eq_dec : EqDecision ChildStartOutcomeKind.
Proof. solve_decision. Defined.

(** [ChildStartOutcomeSpec] and [ChildStartOutcome] hold the same fields. *)
Record ChildStartOutcome := mkStartOutcome {
  so_kind : ChildStartOutcomeKind;
  so_code : string;
  so_retryable : bool
}.

(** [ChildStartOutcome.valid] *)
Definition start_outcome_valid (outcome : ChildStartOutcome) : bool :=
  match so_kind outcome with
  | ChildStarted => bool_decide (so_code outcome = EmptyString) && negb (so_retryable outcome)
  | ChildStartFailed => stableName (so_code outcome)
  | ChildStartUnknown => stableName (so_code outcome) && negb (so_retryable outcome)
  | ChildStartOutcomeUndeclared => false
  end.

Definition NewChildStartOutcome (spec : ChildStartOutcome) : result ChildStartOutcome :=
  let outcome := mkStartOutcome (so_kind spec) (so_code spec) (so_retryable spec) in
  reject negb (start_outcome_valid outcome) with ErrInvalidChildStart;
  Ok outcome.

(** [ChildStartRequestSpec] and [ChildStartRequest] hold the same fields. *)
Record ChildStartRequest := mkStartRequest {
  sr_parentInstanceID : string;
  sr_parentDefinition : DefinitionReference;
  sr_stepName : string;
  sr_childID : string;
  sr_childDefinition : DefinitionReference;
  sr_attempt : Z;
  sr_maxAttempts : Z;
  sr_idempotencyKey : string;
  sr_startedAt : Time;
  sr_deadline : Time;
  sr_input : bytes;
  sr_inputLimit : Z;
  sr_tenantID : string;
  sr_correlationID : string
}.

(** [ChildStartRequest.valid] *)
Definition start_request_valid (request : ChildStartRequest) : bool :=
  instanceIDPattern (sr_parentInstanceID request) && reference_valid (sr_parentDefinition request)
  && stableName (sr_stepName request) && instanceIDPattern (sr_childID request)
  && reference_valid (sr_childDefinition request) && (0 <? sr_attempt request)
  && (sr_attempt request <=? sr_maxAttempts request)
  && instanceIDPattern (sr_idempotencyKey request) && negb (IsZero (sr_startedAt request))
  && After (sr_deadline request) (sr_startedAt request) && validPayloadLimit (sr_inputLimit request)
  && (blen (sr_input request) <=? sr_inputLimit request)
  && optionalMetadataValid (sr_tenantID request) && optionalMetadataValid (sr_correlationID request).

Definition NewChildStartRequest (spec : ChildStartRequest) : result ChildStartRequest :=
  let request := mkStartRequest (sr_parentInstanceID spec) (sr_parentDefinition spec) (sr_stepName spec)
    (sr_childID spec) (sr_childDefinition spec) (sr_attempt spec) (sr_maxAttempts spec) (sr_idempotencyKey spec)
    (canonicalTime (sr_startedAt spec)) (canonicalTime (sr_deadline spec)) (sr_input spec) (sr_inputLimit spec)
    (sr_tenantID spec) (sr_correlationID spec) in
  reject negb (start_request_valid request) with ErrInvalidChildStart;
  Ok (mkStartRequest (sr_parentInstanceID request) (sr_parentDefinition request) (sr_stepName request)
    (sr_childID request) (sr_childDefinition request) (sr_attempt request) (sr_maxAttempts request)
    (sr_idempotencyKey request) (sr_startedAt request) (sr_deadline request) (cloneBytes (sr_input request))
    (sr_inputLimit request) (sr_tenantID request) (sr_correlationID request)).
