(* ===== verification/ChildTransition.v ===== *)
(** * Child-workflow transitions (child_transition.go) *)
From S2P Require Import Prelude GoTime Names Sha256 Json JsonDecode Definitions Registry.
From S2P Require Import OperatorAudit Event Instances ActivityHistory ChildHistory Replay ReplayInvariant.
From S2P Require Import Work Transition Plans ChildStart ReplayProperties Samples.

Definition MaxChildDispatchBytes : Z := 1024.

Record ChildDispatch := mkChildDispatch {
  hd_stepName : string;
  hd_childID : string;
  hd_definition : DefinitionReference;
  hd_attempt : Z;
  hd_idempotencyKey : string
}.

(** The document's fields are those of the dispatch with the reference spread out,
    so a [ChildDispatch] also stands for the document. *)
Definition child_members (document : ChildDispatch) : list (string * scalar) :=
  [("step_name", SStr (hd_stepName document)); ("child_id", SStr (hd_childID document));
   ("definition_name", SStr (ref_name (hd_definition document)));
   ("definition_version", SStr (ref_version (hd_definition document)));
   ("definition_fingerprint", SStr (ref_fingerprint (hd_definition document)));
   ("attempt", SNum (hd_attempt document)); ("idempotency_key", SStr (hd_idempotencyKey document))].

Definition encodeChildDispatch (stepName childID : string) (definition : DefinitionReference) (attempt : Z)
    (idempotencyKey : string) : bytes :=
  Some (render (JObj (map member_json (child_members (mkChildDispatch stepName childID definition attempt idempotencyKey))))).

Definition zeroChildDispatch : ChildDispatch := mkChildDispatch "" "" zeroReference 0 "".

Definition child_store (document : ChildDispatch) (key : string) (v : flat) : option ChildDispatch :=
  let '(mkChildDispatch step child definition attempt idempotency) := document in
  let '(mkDefinitionReference name version fingerprint) := definition in
  if field_is "step_name" key then
    x ← store_string step v; Some (mkChildDispatch x child definition attempt idempotency)
  else if field_is "child_id" key then
    x ← store_string child v; Some (mkChildDispatch step x definition attempt idempotency)
  else if field_is "definition_name" key then
    x ← store_string name v;
    Some (mkChildDispatch step child (mkDefinitionReference x version fingerprint) attempt idempotency)
  else if field_is "definition_version" key then
    x ← store_string version v;
    Some (mkChildDispatch step child (mkDefinitionReference name x fingerprint) attempt idempotency)
  else if field_is "definition_fingerprint" key then
    x ← store_string fingerprint v;
    Some (mkChildDispatch step child (mkDefinitionReference name version x) attempt idempotency)
  else if field_is "attempt" key then
    x ← store_uint 4294967295 attempt v; Some (mkChildDispatch step child definition x idempotency)
  else if field_is "idempotency_key" key then
    x ← store_string idempotency v; Some (mkChildDispatch step child definition attempt x)
  else None.

Definition DecodeChildDispatch (payload : bytes) : result ChildDispatch :=
  reject MaxChildDispatchBytes <? blen payload with ErrInvalidChildTransition;
  match decode_document child_store zeroChildDispatch (bstr payload) with
  | None => Err ErrInvalidChildTransition
  | Some document =>
      let definition := hd_definition document in
      reference <~ NewDefinitionReference (ref_name definition) (ref_version definition) (ref_fingerprint definition)
        else ErrInvalidChildTransition;
      let dispatch := mkChildDispatch (hd_stepName document) (hd_childID document) reference (hd_attempt document)
        (hd_idempotencyKey document) in
      reject negb (stableName (hd_stepName dispatch)) || negb (instanceIDPattern (hd_childID dispatch))
        || (hd_attempt dispatch =? 0) || negb (instanceIDPattern (hd_idempotencyKey dispatch))
        with ErrInvalidChildTransition;
      Ok dispatch
  end.

(** [processorTransitionID] of activity_processor.go: the identity the processors
    derive from a work item for one phase of its handling. *)
Definition activityProcessorTransitionPrefix : string := "activity-processor-".
Definition processorTransitionID (workID phase : string) : string :=
  activityProcessorTransitionPrefix +:+ phase +:+ "-" +:+ sha256_hex (workID +:+ String (chr 0) phase).

(** An event that names its step and its child. *)
Definition child_event (sequence : Z) (instanceID : string) (kind : EventKind) (occurredAt : Time)
    (definition : DefinitionReference) (childID stepName : string) (attempt : Z) (idempotencyKey : string)
    (dueAt : Time) (code : string) (retryable : bool) (data : bytes) : HistoryEventSpec :=
  mkEventSpec sequence instanceID kind occurredAt definition childID stepName attempt idempotencyKey dueAt code
    retryable data.

Record ChildScheduleSpec := mkChildScheduleSpec {
  hs_TransitionID : string;
  hs_WorkID : string;
  hs_ChildID : string;
  hs_Instance : Instance_;
  hs_Definition : Definition_;
  hs_StepName : string;
  hs_ScheduledAt : Time;
  hs_Deadline : Time;
  hs_Input : bytes;
  hs_TenantID : string;
  hs_CorrelationID : string
}.

Definition NewChildSchedule (spec : ChildScheduleSpec) : result Transition :=
  let i := hs_Instance spec in
  match definitionStep (hs_Definition spec) (hs_StepName spec) StepChild with
  | None => Err ErrInvalidChildTransition
  | Some step =>
      reject negb (bool_decide (in_status i = StatusRunning))
        || negb (bool_decide (Reference (hs_Definition spec) = in_definition i))
        || (step_InputLimit step <? blen (hs_Input spec)) || negb (instanceIDPattern (hs_ChildID spec))
        || Before (hs_ScheduledAt spec) (in_updatedAt i) with ErrInvalidChildTransition;
      reject bool_decide (is_Some (in_children i !! hs_StepName spec)) with ErrInvalidChildTransition;
      event <~ NewHistoryEvent (child_event (u64 (in_sequence i + 1)) (in_id i) EventChildScheduled
          (hs_ScheduledAt spec) (step_ChildDefinition step) (hs_ChildID spec) (hs_StepName spec) 0 "" zeroTime ""
          false (hs_Input spec))
        else ErrInvalidChildTransition;
      let payload := encodeChildDispatch (hs_StepName spec) (hs_ChildID spec) (step_ChildDefinition step) 1 (hs_ChildID spec) in
      work <~ NewPendingWork (mkWorkSpec (hs_WorkID spec) WorkChild (in_id i) (ev_sequence event)
          (hs_ScheduledAt spec) (hs_Deadline spec) payload (hs_TenantID spec) (hs_CorrelationID spec))
        else ErrInvalidChildTransition;
      map_err ErrInvalidChildTransition
        (NewTransition (mkTransitionSpec (hs_TransitionID spec) (in_id i) (in_sequence i) (in_definition i) [event] [work]))
  end.

Record ChildOutcomeSpec := mkChildOutcomeSpec {
  ho_TransitionID : string;
  ho_Instance : Instance_;
  ho_Definition : Definition_;
  ho_StepName : string;
  ho_ChildID : string;
  ho_CompletedAt : Time;
  ho_Result : bytes;
  ho_FailureCode : string
}.

Definition NewChildOutcome (spec : ChildOutcomeSpec) : result Transition :=
  let i := ho_Instance spec in
  match definitionStep (ho_Definition spec) (ho_StepName spec) StepChild, in_children i !! ho_StepName spec with
  | Some step, Some progress =>
      reject negb (childTerminalOutcomeAllowed (hp_status progress))
        || negb (bool_decide (hp_childID progress = ho_ChildID spec))
        || negb (bool_decide (in_status i = StatusRunning))
        || negb (bool_decide (Reference (ho_Definition spec) = in_definition i))
        || (step_ResultLimit step <? blen (ho_Result spec))
        || Before (ho_CompletedAt spec) (in_updatedAt i) with ErrInvalidChildTransition;
      reject negb (bool_decide (ho_FailureCode spec = EmptyString)) && negb (stableName (ho_FailureCode spec))
        with ErrInvalidChildTransition;
      let kind := if bool_decide (ho_FailureCode spec = EmptyString) then EventChildCompleted else EventChildFailed in
      event <~ NewHistoryEvent (child_event (u64 (in_sequence i + 1)) (in_id i) kind (ho_CompletedAt spec)
          zeroReference (ho_ChildID spec) (ho_StepName spec) 0 "" zeroTime (ho_FailureCode spec) false (ho_Result spec))
        else ErrInvalidChildTransition;
      map_err ErrInvalidChildTransition
        (NewTransition (mkTransitionSpec (ho_TransitionID spec) (in_id i) (in_sequence i) (in_definition i) [event] []))
  | _, _ => Err ErrInvalidChildTransition
  end.

Record ChildStartAttemptSpec := mkChildStartAttemptSpec {
  ha_TransitionID : string;
  ha_Lease : WorkLease;
  ha_Instance : Instance_;
  ha_Definition : Definition_;
  ha_StartedAt : Time
}.

(** The zero values of the ignored errors and missing entries are rejected by the
    one guard that follows. *)
Definition NewChildStartAttempt (spec : ChildStartAttemptSpec) : result Transition :=
  let i := ha_Instance spec in
  reject negb (lease_Valid (ha_Lease spec)) with ErrInvalidChildTransition;
  let work := le_work (ha_Lease spec) in
  let dispatch := or_zero zeroChildDispatch (DecodeChildDispatch (wk_payload work)) in
  let step := default zeroStep (definitionStep (ha_Definition spec) (hd_stepName dispatch) StepChild) in
  let progress := default zeroChildProgress (in_children i !! hd_stepName dispatch) in
  let startedAt := canonicalTime (ha_StartedAt spec) in
  let dueAt := canonicalTime (Add startedAt (step_Timeout step)) in
  reject negb (bool_decide (wk_kind work = WorkChild)) || negb (bool_decide (wk_instanceID work = in_id i))
    || negb (bool_decide (in_status i = StatusRunning))
    || negb (bool_decide (Reference (ha_Definition spec) = in_definition i)) || (in_sequence i <? wk_sequence work)
    || negb (bool_decide (hp_childID progress = hd_childID dispatch))
    || negb (bool_decide (hp_definition progress = hd_definition dispatch))
    || (negb (bool_decide (hp_status progress = ChildScheduled))
        && negb (bool_decide (hp_status progress = ChildStartRetryWaiting)))
    || negb (hd_attempt dispatch =? u32 (hp_attempt progress + 1))
    || (MaxAttempts (step_Retry step) <? hd_attempt dispatch)
    || Before startedAt (wk_availableAt work) || After dueAt (wk_deadline work)
    || Before startedAt (le_claimedAt (ha_Lease spec)) || negb (Before startedAt (le_expiresAt (ha_Lease spec)))
    || Before startedAt (in_updatedAt i)
    || (bool_decide (hp_status progress = ChildStartRetryWaiting) && Before startedAt (hp_dueAt progress))
    with ErrInvalidChildTransition;
  event <~ NewHistoryEvent (child_event (u64 (in_sequence i + 1)) (in_id i) EventChildStartAttempted startedAt
      zeroReference (hd_childID dispatch) (hd_stepName dispatch) (hd_attempt dispatch) (hd_idempotencyKey dispatch)
      dueAt "" false None)
    else ErrInvalidChildTransition;
  map_err ErrInvalidChildTransition
    (NewTransition (mkTransitionSpec (ha_TransitionID spec) (in_id i) (in_sequence i) (in_definition i) [event] [])).

Record ChildStartAttemptOutcomeSpec := mkChildStartAttemptOutcomeSpec {
  hc_TransitionID : string;
  hc_Instance : Instance_;
  hc_Definition : Definition_;
  hc_StepName : string;
  hc_ChildID : string;
  hc_Attempt : Z;
  hc_OccurredAt : Time;
  hc_Outcome : ChildStartOutcome
}.

Definition NewChildStartAttemptOutcome (spec : ChildStartAttemptOutcomeSpec) : result Transition :=
  let i := hc_Instance spec in
  let progress := default zeroChildProgress (in_children i !! hc_StepName spec) in
  reject negb (bool_decide (in_status i = StatusRunning))
    || negb (bool_decide (Reference (hc_Definition spec) = in_definition i))
    || negb (bool_decide (hp_status progress = ChildStartRunning))
    || negb (bool_decide (hp_childID progress = hc_ChildID spec))
    || negb (hp_attempt progress =? hc_Attempt spec) || negb (start_outcome_valid (hc_Outcome spec))
    || Before (hc_OccurredAt spec) (in_updatedAt i) with ErrInvalidChildTransition;
  let kind :=
    match so_kind (hc_Outcome spec) with
    | ChildStartFailed => EventChildStartFailed
    | ChildStartUnknown => EventChildStartUnknown
    | _ => EventChildStarted
    end in
  event <~ NewHistoryEvent (child_event (u64 (in_sequence i + 1)) (in_id i) kind (hc_OccurredAt spec) zeroReference
      (hc_ChildID spec) (hc_StepName spec) (hc_Attempt spec) "" zeroTime (so_code (hc_Outcome spec))
      (so_retryable (hc_Outcome spec)) None)
    else ErrInvalidChildTransition;
  map_err ErrInvalidChildTransition
    (NewTransition (mkTransitionSpec (hc_TransitionID spec) (in_id i) (in_sequence i) (in_definition i) [event] [])).

Record ChildStartRetrySpec := mkChildStartRetrySpec {
  hr_TransitionID : string;
  hr_WorkID : string;
  hr_Instance : Instance_;
  hr_Definition : Definition_;
  hr_StepName : string;
  hr_ScheduledAt : Time;
  hr_Deadline : Time;
  hr_TenantID : string;
  hr_CorrelationID : string
}.

Definition NewChildStartRetry (spec : ChildStartRetrySpec) : result Transition :=
  let i := hr_Instance spec in
  let step := default zeroStep (definitionStep (hr_Definition spec) (hr_StepName spec) StepChild) in
  let progress := default zeroChildProgress (in_children i !! hr_StepName spec) in
  reject negb (bool_decide (in_status i = StatusRunning))
    || negb (bool_decide (Reference (hr_Definition spec) = in_definition i))
    || negb (bool_decide (hp_status progress = ChildStartFailedStatus)) || negb (hp_retryable progress)
    || (MaxAttempts (step_Retry step) <=? hp_attempt progress)
    || Before (hr_ScheduledAt spec) (in_updatedAt i) with ErrInvalidChildTransition;
  let dueAt := canonicalTime (Add (hr_ScheduledAt spec) (retryDelay (step_Retry step) (hp_attempt progress))) in
  event <~ NewHistoryEvent (child_event (u64 (in_sequence i + 1)) (in_id i) EventChildStartRetryScheduled
      (hr_ScheduledAt spec) zeroReference (hp_childID progress) (hr_StepName spec) (hp_attempt progress) "" dueAt ""
      false None)
    else ErrInvalidChildTransition;
  let idempotencyKey := processorTransitionID (hr_WorkID spec) "child-start-key" in
  let payload := encodeChildDispatch (hr_StepName spec) (hp_childID progress) (hp_definition progress)
    (u32 (hp_attempt progress + 1)) idempotencyKey in
  work <~ NewPendingWork (mkWorkSpec (hr_WorkID spec) WorkChild (in_id i) (ev_sequence event) dueAt
      (hr_Deadline spec) payload (hr_TenantID spec) (hr_CorrelationID spec))
    else ErrInvalidChildTransition;
  map_err ErrInvalidChildTransition
    (NewTransition (mkTransitionSpec (hr_TransitionID spec) (in_id i) (in_sequence i) (in_definition i) [event] [work])).

(** ** The dispatch document round trip *)

Definition child_dispatch_wf (dispatch : ChildDispatch) : Prop :=
  stableName (hd_stepName dispatch) = true /\ instanceIDPattern (hd_childID dispatch) = true
  /\ reference_valid (hd_definition dispatch) = true /\ 0 < hd_attempt dispatch < 2 ^ 32
  /\ instanceIDPattern (hd_idempotencyKey dispatch) = true.

Definition encoded (dispatch : ChildDispatch) : bytes :=
  encodeChildDispatch (hd_stepName dispatch) (hd_childID dispatch) (hd_definition dispatch) (hd_attempt dispatch)
    (hd_idempotencyKey dispatch).

Lemma reference_valid_inv reference :
  reference_valid reference = true ->
  stableName (ref_name reference) = true /\ stableName (ref_version reference) = true
  /\ fingerprintPattern (ref_fingerprint reference) = true.
Proof. unfold reference_valid. intros H. by bool_norm. Qed.

Lemma child_members_safe dispatch : child_dispatch_wf dispatch -> Forall member_safe (child_members dispatch).
Proof.
  intros (Hn & Hc & (? & ? & ?)%reference_valid_inv & Ha & Hk).
  repeat constructor; cbn [fst snd scalar_safe]; eauto with names. lia.
Qed.

(** The size of the document, in terms of the lengths of its identities. *)
Lemma child_dispatch_size dispatch :
  child_dispatch_wf dispatch ->
  blen (encoded dispatch) = 199 + slen (hd_stepName dispatch) + slen (hd_childID dispatch)
    + slen (ref_name (hd_definition dispatch)) + slen (ref_version (hd_definition dispatch))
    + slen (dec (hd_attempt dispatch)) + slen (hd_idempotencyKey dispatch).
Proof.
  intros Hwf. pose proof (child_members_safe _ Hwf) as Hs.
  destruct Hwf as (_ & _ & (_ & _ & Hf%fingerprint_slen)%reference_valid_inv & _).
  unfold encoded, encodeChildDispatch. change (blen (Some ?s)) with (slen s).
  destruct dispatch as [step child [name version fp] attempt key]. cbn [hd_stepName hd_childID hd_definition hd_attempt
    hd_idempotencyKey ref_name ref_version ref_fingerprint] in *.
  rewrite slen_render_members by done. cbn [child_members members_size scalar_size hd_stepName hd_childID hd_definition
    hd_attempt hd_idempotencyKey ref_name ref_version ref_fingerprint].
  change (slen "step_name") with 9. change (slen "child_id") with 8. change (slen "definition_name") with 15.
  change (slen "definition_version") with 18. change (slen "definition_fingerprint") with 22.
  change (slen "attempt") with 7. change (slen "idempotency_key") with 15. lia.
Qed.

Lemma decode_encoded dispatch :
  child_dispatch_wf dispatch ->
  DecodeChildDispatch (encoded dispatch)
  = if blen (encoded dispatch) <=? MaxChildDispatchBytes then Ok dispatch else Err ErrInvalidChildTransition.
Proof.
  intros Hwf. unfold DecodeChildDispatch. rewrite Z.leb_antisym.
  destruct (MaxChildDispatchBytes <? blen (encoded dispatch)); [done |]. cbn [negb].
  unfold encoded, encodeChildDispatch. change (bstr (Some ?s)) with s. unfold decode_document.
  destruct dispatch as [step child [name version fp] attempt key].
  rewrite decode_object_render by (done || by apply child_members_safe).
  destruct Hwf as (Hn & Hc & Hr & Ha & Hk). cbn [hd_stepName hd_childID hd_definition hd_attempt hd_idempotencyKey] in *.
  cbn [mbind option_bind map member_flat child_members fst snd scalar_flat store_members hd_stepName hd_childID
    hd_definition hd_attempt hd_idempotencyKey ref_name ref_version ref_fingerprint].
  unfold child_store, zeroChildDispatch, zeroReference.
  repeat match goal with |- context [field_is ?a ?b] =>
    let v := eval vm_compute in (field_is a b) in change (field_is a b) with v end.
  cbn [mbind option_bind store_string].
  unfold store_uint. rewrite parse_uint_dec by lia.
  cbn [mbind option_bind store_string hd_stepName hd_childID hd_definition hd_attempt hd_idempotencyKey
    ref_name ref_version ref_fingerprint].
  unfold NewDefinitionReference. rewrite Hr. cbn [negb map_err mbind result_bind hd_stepName hd_childID hd_attempt hd_idempotencyKey].
  rewrite Hn, Hc, Hk, (proj2 (Z.eqb_neq attempt 0)) by lia. done.
Qed.

Lemma DecodeChildDispatch_wf payload dispatch :
  DecodeChildDispatch payload = Ok dispatch -> hd_attempt dispatch <> 0 /\ 0 <= hd_attempt dispatch.
Proof.
  unfold DecodeChildDispatch, decode_document. intros H. walk H. subst. bool_norm.
  split; [done |]. cbn [hd_attempt].
  destruct (decode_object (bstr payload)) as [ms |]; [| done]. cbn [option_bind] in C. rename C into Hd.
  eapply (store_members_ind child_store (fun document => 0 <= hd_attempt document)); [| | exact Hd]; [| done].
  intros [st ch [nm vs fp] at0 ky] key x document Ha. cbn [child_store hd_attempt] in *.
  repeat match goal with |- (if ?b then _ else _) = _ -> _ => destruct b end; [.. | done].
  all: destruct (store_string _ x) || destruct (store_uint _ at0 x) eqn:E; cbn [mbind option_bind]; intros [= <-]; cbn; eauto using store_uint_nonneg.
Qed.

(** ** Every plan is one step of the child state machine *)

(** The plans the constructors make for a step. [NewChildStartAttemptOutcome] alone
    does not look the step up, so its rule asks for it. *)
Inductive child_plan (i : Instance_) (d : Definition_) (transition : Transition) : string -> Prop :=
  | plan_child_schedule spec :
      hs_Instance spec = i -> hs_Definition spec = d -> NewChildSchedule spec = Ok transition ->
      child_plan i d transition (hs_StepName spec)
  | plan_child_outcome spec :
      ho_Instance spec = i -> ho_Definition spec = d -> NewChildOutcome spec = Ok transition ->
      child_plan i d transition (ho_StepName spec)
  | plan_child_start spec dispatch :
      ha_Instance spec = i -> ha_Definition spec = d -> NewChildStartAttempt spec = Ok transition ->
      DecodeChildDispatch (wk_payload (le_work (ha_Lease spec))) = Ok dispatch ->
      child_plan i d transition (hd_stepName dispatch)
  | plan_child_start_outcome spec :
      hc_Instance spec = i -> hc_Definition spec = d -> NewChildStartAttemptOutcome spec = Ok transition ->
      is_Some (definitionStep d (hc_StepName spec) StepChild) ->
      child_plan i d transition (hc_StepName spec)
  | plan_child_retry spec :
      hr_Instance spec = i -> hr_Definition spec = d -> NewChildStartRetry spec = Ok transition ->
      child_plan i d transition (hr_StepName spec).

(** What such a plan does: its one event is a step of the machine of the named
    child, and committing it changes that record only. *)
Definition progresses registry es i d transition name : Prop :=
  exists e i' step p',
    tr_events transition = [e] /\ ev_stepName e = name /\ commits registry es i transition i'
    /\ definitionStep d name StepChild = Some step
    /\ child_step registry step e (in_children i !! name) p'
    /\ in_children i' = <[name := p']> (in_children i).

Section Constructors.
Context (registry : option Registry) (es : list HistoryEvent).

Lemma child_plan_commits i d e work tid err transition step p' :
  committed registry es i -> registered registry d -> Reference d = in_definition i ->
  map_err err (NewTransition (mkTransitionSpec tid (in_id i) (in_sequence i) (in_definition i) [e] work)) = Ok transition ->
  next_event i e -> Forall work_wf work -> in_status i = StatusRunning -> childEvent (ev_kind e) = true ->
  definitionStep d (ev_stepName e) StepChild = Some step ->
  child_step registry step e (in_children i !! ev_stepName e) p' ->
  progresses registry es i d transition (ev_stepName e).
Proof.
  intros Hc Hreg Hd Htr Hn Hw Hst Hk Hstep Hs.
  assert (Ha : applyChild registry i e = Ok (set_child i (ev_stepName e) p')).
  { apply applyChild_iff; [done |]. rewrite (registered_pinned registry d) by done. by exists step, p'. }
  assert (Hm : applyKind registry i e = applyChild registry i e) by (unfold applyKind; by destruct (ev_kind e)).
  rewrite Ha in Hm.
  eapply commits_single in Htr as (Hcm & Hev & _);
    [| done | done | done | by rewrite Hst | intros E; by rewrite E in Hk | exact Hm].
  eexists e, _, step, p'. split_and!; [done | done | exact Hcm | done | done | apply finish_child].
Qed.

(** The child record behind a status the code has looked at. *)
Lemma child_entry i name :
  hp_status (default zeroChildProgress (in_children i !! name)) <> ChildProgressUndeclared ->
  exists p, in_children i !! name = Some p.
Proof. destruct (in_children i !! name); [eauto | done]. Qed.

Lemma NewChildSchedule_progresses spec transition :
  committed registry es (hs_Instance spec) -> registered registry (hs_Definition spec) ->
  (forall step, definitionStep (hs_Definition spec) (hs_StepName spec) StepChild = Some step ->
     is_ok (validateReference registry (step_ChildDefinition step)) = true) ->
  NewChildSchedule spec = Ok transition ->
  progresses registry es (hs_Instance spec) (hs_Definition spec) transition (hs_StepName spec).
Proof.
  intros Hc Hreg Hclosed H. unfold NewChildSchedule in H. open_plan H.
  match goal with G : ~ is_Some _ |- _ => apply eq_None_not_Some in G as Hnone end.
  apply (next_event_new registry es (hs_Instance spec)) in Hmade as [Hn ->]; [| done | done | done | done | done].
  apply NewPendingWork_wf in Hmade0.
  eapply child_plan_commits in H; [exact H | done | done | done | done | by constructor | done | done | exact Hfound |].
  cbn [ev_stepName event_of canonicalSpec es_StepName child_event]. rewrite Hnone. apply child_schedule; try done.
  by apply Hclosed.
Qed.

Lemma NewChildOutcome_progresses spec transition :
  committed registry es (ho_Instance spec) -> registered registry (ho_Definition spec) ->
  NewChildOutcome spec = Ok transition ->
  progresses registry es (ho_Instance spec) (ho_Definition spec) transition (ho_StepName spec).
Proof.
  intros Hc Hreg H. unfold NewChildOutcome in H. open_plan H.
  apply (next_event_new registry es (ho_Instance spec)) in Hmade as [Hn ->]; [| done | done | done | done | done].
  eapply child_plan_commits in H; [exact H | done | done | done | done | constructor | done | | exact Hfound |].
  - cbn. by case_bool_decide.
  - cbn [ev_stepName event_of canonicalSpec es_StepName child_event]. rewrite Hfound0.
    apply child_outcome; [cbn; case_bool_decide; auto | done ..].
Qed.

Lemma NewChildStartAttempt_progresses spec dispatch transition :
  committed registry es (ha_Instance spec) -> registered registry (ha_Definition spec) ->
  NewChildStartAttempt spec = Ok transition ->
  DecodeChildDispatch (wk_payload (le_work (ha_Lease spec))) = Ok dispatch ->
  progresses registry es (ha_Instance spec) (ha_Definition spec) transition (hd_stepName dispatch).
Proof.
  intros Hc Hreg H Hdec. unfold NewChildStartAttempt in H. rewrite Hdec in H. cbn [or_zero] in H.
  apply DecodeChildDispatch_wf in Hdec as (Hne & Hpos). open_plan H.
  destruct (child_entry (ha_Instance spec) (hd_stepName dispatch)) as [progress Hp]; [destruct_or?; congruence |].
  rewrite Hp in *. cbn [default from_option id] in *.
  destruct (definitionStep (ha_Definition spec) (hd_stepName dispatch) StepChild) as [step |] eqn:Hs;
    cbn [default from_option id] in *; [| cbn in *; lia].
  match goal with E : hd_attempt dispatch = u32 _ |- _ => rename E into Hatt end.
  rewrite canonicalTime_Add in *.
  apply (next_event_new registry es (ha_Instance spec)) in Hmade as [Hn ->];
    [| done | cbn; rewrite Hatt; apply u32_range | done | done | done].
  eapply child_plan_commits in H; [exact H | done | done | done | done | constructor | done | done | exact Hs |].
  cbn -[Z.leb]. rewrite Hp. apply child_start; cbn; try done.
  - unfold child_startable. cbn. destruct_or?; first [by left | by right | congruence].
  - by rewrite !canonicalTime_idem, canonicalTime_Add.
Qed.

Lemma NewChildStartAttemptOutcome_progresses spec transition :
  committed registry es (hc_Instance spec) -> registered registry (hc_Definition spec) ->
  is_Some (definitionStep (hc_Definition spec) (hc_StepName spec) StepChild) ->
  NewChildStartAttemptOutcome spec = Ok transition ->
  progresses registry es (hc_Instance spec) (hc_Definition spec) transition (hc_StepName spec).
Proof.
  intros Hc Hreg [step Hs] H. unfold NewChildStartAttemptOutcome in H. open_plan H.
  destruct (child_entry (hc_Instance spec) (hc_StepName spec)) as [progress Hp]; [congruence |].
  rewrite Hp in *. cbn [default from_option id] in *.
  match goal with E : hp_attempt _ = hc_Attempt _ |- _ => rename E into Hatt end.
  match goal with E : start_outcome_valid _ = true |- _ => rename E into Hout end.
  pose proof (wf_children _ (committed_progress _ _ _ Hc) _ _ Hp) as Hcw.
  apply (next_event_new registry es (hc_Instance spec)) in Hmade as [Hn ->];
    [| done | cbn; rewrite <- Hatt; apply Hcw | done | done | done].
  unfold start_outcome_valid in Hout. destruct (so_kind (hc_Outcome spec)) eqn:Ek; [.. | done]; bool_norm.
  all: eapply child_plan_commits in H; [exact H | done | done | done | done | constructor | done | done | exact Hs |].
  all: cbn [ev_stepName event_of canonicalSpec es_StepName child_event]; rewrite Hp.
  - by apply child_started.
  - by apply child_start_failed.
  - by apply child_start_unknown.
Qed.

Lemma NewChildStartRetry_progresses spec transition :
  committed registry es (hr_Instance spec) -> registered registry (hr_Definition spec) ->
  NewChildStartRetry spec = Ok transition ->
  progresses registry es (hr_Instance spec) (hr_Definition spec) transition (hr_StepName spec).
Proof.
  intros Hc Hreg H. unfold NewChildStartRetry in H. open_plan H.
  destruct (child_entry (hr_Instance spec) (hr_StepName spec)) as [progress Hp]; [congruence |].
  rewrite Hp in *. cbn [default from_option id] in *.
  pose proof (wf_children _ (committed_progress _ _ _ Hc) _ _ Hp) as Hcw.
  pose proof (child_attempt_range _ _ Hcw) as Hrange.
  destruct (definitionStep (hr_Definition spec) (hr_StepName spec) StepChild) as [step |] eqn:Hs;
    cbn [default from_option id] in *; [| cbn in *; lia].
  apply (next_event_new registry es (hr_Instance spec)) in Hmade as [Hn ->];
    [| done | done | done | done | done].
  apply NewPendingWork_wf in Hmade0.
  eapply child_plan_commits in H; [exact H | done | done | done | done | by constructor | done | done | exact Hs |].
  cbn -[Z.leb]. rewrite Hp. apply child_retry; cbn; try done.
  by rewrite canonicalTime_idem, canonicalTime_Add.
Qed.
End Constructors.

(** ** Properties *)

(** Every pinned child of the definition resolves, as a compiled registry ensures. *)
Definition pins_resolve (registry : option Registry) (d : Definition_) : Prop :=
  forall name step, definitionStep d name StepChild = Some step ->
  is_ok (validateReference registry (step_ChildDefinition step)) = true.

(** Every plan the five child constructors accept refines the child state machine:
    on a committed history its single event is one step of the machine of the named
    child, and committing it keeps the history replayable and changes that child's
    record only. *)
Theorem child_plan_refines registry es i d transition name :
  committed registry es i -> registered registry d -> pins_resolve registry d ->
  child_plan i d transition name -> progresses registry es i d transition name.
Proof.
  intros Hc Hreg Hp Hplan.
  destruct Hplan as [spec <- <- H | spec <- <- H | spec dispatch <- <- H Hd | spec <- <- H Hs | spec <- <- H].
  - apply NewChildSchedule_progresses; [done | done | | done]. intros step. apply Hp.
  - by apply NewChildOutcome_progresses.
  - by eapply NewChildStartAttempt_progresses.
  - by apply NewChildStartAttemptOutcome_progresses.
  - by apply NewChildStartRetry_progresses.
Qed.

Definition order_ship : ChildScheduleSpec :=
  mkChildScheduleSpec "tr-2" "work-2" "child-1" (order_instance order_started) order_definition "ship"
    (sample_time 2) (sample_time 60) (Some "box"%string) "" "".
Definition order_shipping : list HistoryEvent :=
  order_started ++
  [order_event 2 EventChildScheduled "ship" 0 "" zeroTime "" false (Some "box"%string);
   order_event 3 EventChildStartAttempted "ship" 1 "child-1" (Add (sample_time 3) 1000) "" false None].
Definition order_ship_lost : ChildStartAttemptOutcomeSpec :=
  mkChildStartAttemptOutcomeSpec "tr-4" (order_instance order_shipping) order_definition "ship" "child-1" 1
    (sample_time 4) (mkStartOutcome ChildStartUnknown "lost" false).

Lemma order_pins_resolve : pins_resolve order_registry order_definition.
Proof.
  intros name step H. apply find_step_Some in H as (Hin & _ & Hk). cbn in Hin.
  repeat (apply elem_of_cons in Hin as [-> | Hin]; [first [discriminate Hk | vm_compute; reflexivity] |]).
  by apply elem_of_nil in Hin.
Qed.

Lemma child_plan_refines_witness :
  (exists transition, NewChildSchedule order_ship = Ok transition
     /\ progresses order_registry order_started (order_instance order_started) order_definition transition "ship")
  /\ exists transition, NewChildStartAttemptOutcome order_ship_lost = Ok transition
     /\ progresses order_registry order_shipping (order_instance order_shipping) order_definition transition "ship".
Proof.
  assert (H1 : exists transition, NewChildSchedule order_ship = Ok transition).
  { eexists. vm_compute. reflexivity. }
  assert (H2 : exists transition, NewChildStartAttemptOutcome order_ship_lost = Ok transition).
  { eexists. vm_compute. reflexivity. }
  split.
  - destruct H1 as [transition H]. exists transition. split; [exact H |].
    apply (child_plan_refines order_registry order_started (order_instance order_started) order_definition transition "ship").
    + apply order_committed. vm_compute. reflexivity.
    + apply order_registered.
    + apply order_pins_resolve.
    + exact (plan_child_schedule _ _ _ order_ship eq_refl eq_refl H).
  - destruct H2 as [transition H]. exists transition. split; [exact H |].
    apply (child_plan_refines order_registry order_shipping (order_instance order_shipping) order_definition transition "ship").
    + apply order_committed. vm_compute. reflexivity.
    + apply order_registered.
    + apply order_pins_resolve.
    + refine (plan_child_start_outcome _ _ _ order_ship_lost eq_refl eq_refl H _). vm_compute. eexists. reflexivity.
Defined.

(** *** The size of the child work *)

Lemma processorTransitionID_slen workID phase : slen (processorTransitionID workID phase) = 84 + slen phase.
Proof.
  unfold processorTransitionID. rewrite !slen_app, (fingerprint_slen _ (sha256_hex_fingerprint _)).
  change (slen activityProcessorTransitionPrefix) with 19. change (slen "-") with 1. lia.
Qed.

Lemma processorTransitionID_valid workID phase :
  all_chars isInstanceChar phase = true -> slen phase <= 172 -> instanceIDPattern (processorTransitionID workID phase) = true.
Proof.
  intros Hp Hs. pose proof (sha256_hex_fingerprint (workID +:+ String (chr 0) phase)) as Hf.
  pose proof (processorTransitionID_slen workID phase) as Hl.
  unfold processorTransitionID in *. set (h := sha256_hex _) in *. clearbody h.
  change ((activityProcessorTransitionPrefix +:+ phase +:+ "-" +:+ h)%string)
    with (String (chr 97) ("ctivity-processor-" +:+ (phase +:+ ("-" +:+ h)))) in *.
  unfold instanceIDPattern, match_name. rewrite slen_cons in Hl.
  change (isAlnum (chr 97)) with true. cbn [andb].
  rewrite !all_chars_app, (fingerprint_chars _ Hf), Hp. change (all_chars isInstanceChar "ctivity-processor-") with true.
  change (all_chars isInstanceChar "-") with true. cbn [andb]. apply Z.leb_le. lia.
Qed.


(** Identities of the greatest legal length. *)
Fixpoint repeated (n : nat) (s : string) : string :=
  match n with
  | O => EmptyString
  | S n => s +:+ repeated n s
  end.
Definition long_name : string := repeated 16 "abcdefgh".
Definition long_definition : Definition_ :=
  mkDefinition
    (mkDefinitionSpec "order" "v3" Orchestration false
       [mkStepSpec long_name StepChild long_name (mkDefinitionReference long_name long_name sample_fingerprint) [] 1000 100 100
          order_retry 0 None]) sample_fingerprint.
Definition long_registry : option Registry := Some (mkRegistry (<[("order", "v3")%string := long_definition]> ∅) ∅).
Definition long_started : list HistoryEvent :=
  [mkEvent 1 "wf-1" EventInstanceStarted (sample_time 1) (Reference long_definition) "" "" 0 "" zeroTime "" false None].
Definition long_instance : Instance_ := or_zero zeroInstance (Replay long_registry long_started).
Definition long_ship (childID : string) : ChildScheduleSpec :=
  mkChildScheduleSpec "tr-2" "work-2" childID long_instance long_definition long_name (sample_time 2) (sample_time 60)
    (Some "box"%string) "" "".

