(* ===== verification/OperatorCommands.v ===== *)
(** * Audited operator commands (operator.go, operator_work.go)

    A command is one transition: an audit event, then the event of the action. *)
From S2P Require Import Prelude GoTime Names Definitions Registry OperatorAudit Event.
From S2P Require Import Instances ActivityHistory WaitHistory CompensationHistory Replay ReplayInvariant ReplayProperties.
From S2P Require Import Work Transition Plans Activity ActivityTransition CompensationTransition Samples.

Record OperatorLifecycleCommandSpec := mkOperatorLifecycleCommandSpec {
  lc_CommandID : string;
  lc_Instance : Instance_;
  lc_Action : OperatorAction;
  lc_Actor : string;
  lc_Reason : string;
  lc_OccurredAt : Time
}.

Definition validOperatorLifecycleState (status : InstanceStatus) (action : OperatorAction) : bool :=
  match action with
  | OperatorPause => bool_decide (status = StatusRunning)
  | OperatorResume => bool_decide (status = StatusPaused)
  | OperatorCancel => bool_decide (status = StatusRunning) || bool_decide (status = StatusPaused)
  | OperatorTerminate =>
      bool_decide (status = StatusRunning) || bool_decide (status = StatusPaused)
      || bool_decide (status = StatusCancelling)
  | _ => false
  end.

(** The literal of the audit event. *)
Definition audit_event (i : Instance_) (commandID : string) (auditData : bytes) (occurredAt : Time) : HistoryEventSpec :=
  step_event (u64 (in_sequence i + 1)) (in_id i) EventOperatorCommandRecorded occurredAt "" 0 commandID zeroTime ""
    false auditData.

Definition NewOperatorLifecycleCommand (spec : OperatorLifecycleCommandSpec) : result Transition :=
  let i := lc_Instance spec in
  reject negb (validOperatorLifecycleState (in_status i) (lc_Action spec)) with ErrInvalidOperatorCommand;
  reject negb (instanceIDPattern (lc_CommandID spec)) with ErrInvalidOperatorCommand;
  reject IsZero (lc_OccurredAt spec) || Before (lc_OccurredAt spec) (in_updatedAt i) with ErrInvalidOperatorCommand;
  reject MaxUint64 - 2 <? in_sequence i with ErrInvalidOperatorCommand;
  reject negb (instanceIDPattern (in_id i)) || negb (reference_valid (in_definition i)) with ErrInvalidOperatorCommand;
  let auditData := Some (marshalAudit (mkAudit (lc_Action spec) (lc_Actor spec) (lc_Reason spec))) in
  reject negb (is_ok (decodeOperatorAudit auditData)) with ErrInvalidOperatorCommand;
  let occurredAt := canonicalTime (lc_OccurredAt spec) in
  let audit := or_zero zeroEvent (NewHistoryEvent (audit_event i (lc_CommandID spec) auditData occurredAt)) in
  let action := or_zero zeroEvent (NewHistoryEvent (step_event (u64 (in_sequence i + 2)) (in_id i)
    (operatorEventKind (lc_Action spec)) occurredAt "" 0 "" zeroTime "" false None)) in
  let transition := or_zero zeroTransition (NewTransition (mkTransitionSpec (lc_CommandID spec) (in_id i)
    (in_sequence i) (in_definition i) [audit; action] [])) in
  Ok transition.

(** ** Commands that admit work (operator_work.go) *)

(** [newOperatorWorkAudit] *)
Definition newOperatorWorkAudit (commandID : string) (instance : Instance_) (action : OperatorAction)
    (actor reason : string) (occurredAt : Time) : result (HistoryEvent * Instance_) :=
  reject negb (instanceIDPattern commandID) with ErrInvalidOperatorCommand;
  reject IsZero occurredAt || Before occurredAt (in_updatedAt instance) with ErrInvalidOperatorCommand;
  reject MaxUint64 - 2 <? in_sequence instance with ErrInvalidOperatorCommand;
  reject negb (instanceIDPattern (in_id instance)) || negb (reference_valid (in_definition instance))
    with ErrInvalidOperatorCommand;
  let auditData := Some (marshalAudit (mkAudit action actor reason)) in
  reject negb (is_ok (decodeOperatorAudit auditData)) with ErrInvalidOperatorCommand;
  let occurredAt := canonicalTime occurredAt in
  let audit := or_zero zeroEvent (NewHistoryEvent (audit_event instance commandID auditData occurredAt)) in
  Ok (audit, set_position instance (u64 (in_sequence instance + 1)) occurredAt).

(** [newOperatorWorkTransition] *)
Definition newOperatorWorkTransition (commandID : string) (instance : Instance_) (audit : HistoryEvent)
    (action : Transition) : result Transition :=
  let events := [audit] ++ tr_events action in
  map_err ErrInvalidOperatorCommand
    (NewTransition (mkTransitionSpec commandID (in_id instance) (in_sequence instance) (in_definition instance)
       events (clonePendingWork (tr_work action)))).

Record OperatorActivityRetrySpec := mkOperatorActivityRetrySpec {
  ort_CommandID : string;
  ort_WorkID : string;
  ort_Instance : Instance_;
  ort_Definition : Definition_;
  ort_StepName : string;
  ort_IdempotencyKey : string;
  ort_Actor : string;
  ort_Reason : string;
  ort_OccurredAt : Time;
  ort_Deadline : Time;
  ort_TenantID : string;
  ort_CorrelationID : string
}.

Definition NewOperatorActivityRetry (spec : OperatorActivityRetrySpec) : result Transition :=
  audited <~ newOperatorWorkAudit (ort_CommandID spec) (ort_Instance spec) OperatorRetryActivity (ort_Actor spec)
      (ort_Reason spec) (ort_OccurredAt spec)
    else ErrInvalidOperatorCommand;
  retry <~ NewActivityRetry (mkActivityRetrySpec (ort_CommandID spec) (ort_WorkID spec) audited.2 (ort_Definition spec)
      (ort_StepName spec) (ort_IdempotencyKey spec) (ort_OccurredAt spec) (ort_Deadline spec) (ort_TenantID spec)
      (ort_CorrelationID spec))
    else ErrInvalidOperatorCommand;
  newOperatorWorkTransition (ort_CommandID spec) (ort_Instance spec) audited.1 retry.

Record OperatorCompensationSpec := mkOperatorCompensationSpec {
  om_CommandID : string;
  om_WorkID : string;
  om_Instance : Instance_;
  om_Definition : Definition_;
  om_StepName : string;
  om_Attempt : Z;
  om_IdempotencyKey : string;
  om_Actor : string;
  om_Reason : string;
  om_OccurredAt : Time;
  om_Deadline : Time;
  om_Input : bytes;
  om_TenantID : string;
  om_CorrelationID : string
}.

Definition NewOperatorCompensation (spec : OperatorCompensationSpec) : result Transition :=
  audited <~ newOperatorWorkAudit (om_CommandID spec) (om_Instance spec) OperatorCompensate (om_Actor spec)
      (om_Reason spec) (om_OccurredAt spec)
    else ErrInvalidOperatorCommand;
  compensation <~ NewCompensationSchedule (mkCompensationScheduleSpec (om_CommandID spec) (om_WorkID spec) audited.2
      (om_Definition spec) (om_StepName spec) (om_Attempt spec) (om_IdempotencyKey spec) (om_OccurredAt spec)
      (om_Deadline spec) (om_Input spec) (om_TenantID spec) (om_CorrelationID spec))
    else ErrInvalidOperatorCommand;
  newOperatorWorkTransition (om_CommandID spec) (om_Instance spec) audited.1 compensation.

Record OperatorCompensationResolutionSpec := mkOperatorCompensationResolutionSpec {
  ox_CommandID : string;
  ox_Instance : Instance_;
  ox_Definition : Definition_;
  ox_StepName : string;
  ox_Actor : string;
  ox_Reason : string;
  ox_Code : string;
  ox_Evidence : bytes;
  ox_OccurredAt : Time
}.

Definition NewOperatorCompensationResolution (spec : OperatorCompensationResolutionSpec) : result Transition :=
  audited <~ newOperatorWorkAudit (ox_CommandID spec) (ox_Instance spec) OperatorResolveCompensation (ox_Actor spec)
      (ox_Reason spec) (ox_OccurredAt spec)
    else ErrInvalidOperatorCommand;
  let commandInstance := audited.2 in
  reject negb (bool_decide (Reference (ox_Definition spec) = in_definition (ox_Instance spec)))
    with ErrInvalidOperatorCommand;
  match definitionActivityStep (ox_Definition spec) (ox_StepName spec) with
  | None => Err ErrInvalidOperatorCommand
  | Some step =>
  match step_Compensation step with
  | None => Err ErrInvalidOperatorCommand
  | Some policy =>
  match in_compensations (ox_Instance spec) !! ox_StepName spec with
  | None => Err ErrInvalidOperatorCommand
  | Some progress =>
      reject negb (bool_decide (cp_status progress = CompensationFailed))
        && negb (bool_decide (cp_status progress = CompensationUnknown)) with ErrInvalidOperatorCommand;
      reject negb (stableName (ox_Code spec)) || (cs_ResultLimit policy <? blen (ox_Evidence spec))
        with ErrInvalidOperatorCommand;
      let resolved := or_zero zeroEvent (NewHistoryEvent (step_event (u64 (in_sequence commandInstance + 1))
        (in_id commandInstance) EventCompensationManuallyResolved (ox_OccurredAt spec) (ox_StepName spec) 0 "" zeroTime
        (ox_Code spec) false (ox_Evidence spec))) in
      let action := or_zero zeroTransition (NewTransition (mkTransitionSpec (ox_CommandID spec) (in_id commandInstance)
        (in_sequence commandInstance) (in_definition commandInstance) [resolved] [])) in
      newOperatorWorkTransition (ox_CommandID spec) (ox_Instance spec) audited.1 action
  end
  end
  end.

Record OperatorApprovalSpec := mkOperatorApprovalSpec {
  oa_CommandID : string;
  oa_Instance : Instance_;
  oa_Definition : Definition_;
  oa_StepName : string;
  oa_Actor : string;
  oa_Reason : string;
  oa_OccurredAt : Time;
  oa_Payload : bytes
}.

Definition NewOperatorApproval (spec : OperatorApprovalSpec) : result Transition :=
  audited <~ newOperatorWorkAudit (oa_CommandID spec) (oa_Instance spec) OperatorApprove (oa_Actor spec)
      (oa_Reason spec) (oa_OccurredAt spec)
    else ErrInvalidOperatorCommand;
  let commandInstance := audited.2 in
  reject negb (bool_decide (Reference (oa_Definition spec) = in_definition (oa_Instance spec)))
    with ErrInvalidOperatorCommand;
  match definitionStep (oa_Definition spec) (oa_StepName spec) StepApproval with
  | None => Err ErrInvalidOperatorCommand
  | Some step =>
      reject step_InputLimit step <? blen (oa_Payload spec) with ErrInvalidOperatorCommand;
      let accepted := or_zero zeroEvent (NewHistoryEvent (step_event (u64 (in_sequence commandInstance + 1))
        (in_id commandInstance) EventSignalReceived (oa_OccurredAt spec) (oa_StepName spec) 0 (oa_CommandID spec)
        zeroTime "" false (oa_Payload spec))) in
      let action := or_zero zeroTransition (NewTransition (mkTransitionSpec (oa_CommandID spec) (in_id commandInstance)
        (in_sequence commandInstance) (in_definition commandInstance) [accepted] [])) in
      newOperatorWorkTransition (oa_CommandID spec) (oa_Instance spec) audited.1 action
  end.

(** ** The audit event *)

Section Command.
Context (registry : option Registry) (es : list HistoryEvent) (i : Instance_) (Hc : committed registry es i).
Context (commandID : string) (Hid : instanceIDPattern commandID = true).
Context (document : operatorAuditDocument) (Hwf : audit_wf document).
Context (occurredAt : Time) (Hzero : IsZero occurredAt = false) (Hbefore : Before occurredAt (in_updatedAt i) = false).
Context (Hsequence : in_sequence i <= MaxUint64 - 2).

Let spec : HistoryEventSpec := audit_event i commandID (Some (marshalAudit document)) (canonicalTime occurredAt).
Let audit : HistoryEvent := event_of (canonicalSpec spec).

Lemma audit_made : NewHistoryEvent spec = Ok audit.
Proof.
  apply NewHistoryEvent_spec. split; [| done].
  pose proof (committed_sequence _ _ _ Hc) as [_ Hr]. destruct (committed_header _ _ _ Hc) as [Hi _ _ _].
  unfold MaxUint64 in Hsequence. pose proof (decode_marshalAudit _ Hwf) as Hdec.
  assert (Hsz : blen (Some (marshalAudit document)) <= 424) by apply (marshalAudit_size _ Hwf).
  unfold spec. set (data := Some (marshalAudit document)) in *. clearbody data.
  unfold validHistoryEventSpec, validEventFields, audit_event. cbn [canonicalSpec step_event es_Sequence es_InstanceID es_Kind es_OccurredAt
    es_Definition es_SuccessorID es_StepName es_Attempt es_IdempotencyKey es_DueAt es_Code es_Retryable es_Data].
  rewrite u64_small by lia. rewrite (proj2 (Z.eqb_neq (in_sequence i + 1) 0)) by lia.
  rewrite Hi, !IsZero_canonicalTime, Hzero, (proj2 (Z.ltb_ge MaxPayloadBytes _)) by (unfold MaxPayloadBytes; lia).
  cbn -[decodeOperatorAudit]. unfold validOperatorEventFields. cbn -[decodeOperatorAudit]. by rewrite Hid, Hdec.
Qed.

Lemma audit_next : next_event i audit.
Proof.
  apply (next_event_new registry es i spec); [done | apply audit_made | done | done | done |].
  change (es_OccurredAt spec) with (canonicalTime occurredAt).
  rewrite Before_canonicalTime_l; [done |]. apply (hw_updated _ _ (committed_header _ _ _ Hc)).
Qed.

Definition command_record : OperatorActionRecord :=
  mkOperatorRecord commandID (audit_Action document) (audit_Actor document) (audit_Reason document)
    (canonicalTime occurredAt).

(** The instance once the audit event is applied: the command is open. *)
Definition audited : Instance_ :=
  set_position (set_operator i (in_operatorActions i ++ [command_record]) (audit_Action document))
    (in_sequence i + 1) (canonicalTime occurredAt).

Lemma audit_applied : exists m, applyKind registry i audit = Ok m /\ advanced i m audit = audited.
Proof.
  pose proof (committed_pending _ _ _ Hc) as Hp.
  eexists. split.
  - unfold applyKind. cbn [ev_kind audit event_of canonicalSpec spec audit_event step_event es_Kind].
    unfold applyOperator. rewrite bool_decide_eq_true_2 by done. cbn [negb ev_data audit event_of canonicalSpec spec audit_event step_event es_Data].
    rewrite decode_marshalAudit by done. reflexivity.
  - unfold advanced. rewrite bool_decide_eq_true_2 by done. cbn [negb].
    pose proof (next_sequence _ _ audit_next) as ->. unfold audited, command_record. cbn. by rewrite canonicalTime_idem.
Qed.

Lemma audited_run : terminalStatus (in_status i) = false -> run registry (es ++ [audit]) audited.
Proof.
  intros Hst. destruct audit_applied as (m & Hm & <-).
  apply run_step; [by apply committed_run | apply audit_next | | done].
  eapply next_admissible; [done | apply audit_next | done].
Qed.

(** Exactly when the event of the action completes the command. *)
Lemma command_exact e :
  event_wf e -> ev_instanceID e = in_id i -> ev_sequence e = in_sequence i + 2 ->
  ev_occurredAt e = canonicalTime occurredAt -> ev_kind e = operatorEventKind (audit_Action document) ->
  forall i', Replay registry (es ++ [audit; e]) = Ok i' <->
  terminalStatus (in_status i) = false /\ exists m, applyKind registry audited e = Ok m /\ i' = advanced audited m e.
Proof.
  intros He Hei Hes Het Hek i'. pose proof (committed_sequence _ _ _ Hc) as [_ Hr].
  pose proof (event_sequence_range e He) as Hse. destruct audit_applied as (m1 & Hm1 & Hf).
  assert (Hadm : terminalStatus (in_status i) = false -> admissible audited e).
  { intros Hst. split; [done | | | done | by right].
    - cbn [in_sequence audited set_position]. rewrite u64_small; lia.
    - cbn [in_updatedAt audited set_position]. rewrite Het. rewrite Before_canonical_l by apply canonicalTime_canonical.
      apply instant_ltb_irrefl. }
  rewrite (Replay_extend registry es [audit; e] i i' (committed_replay _ _ _ Hc)). cbn [applyAll].
  assert (Hne : in_sequence audited <> 0) by (cbn; lia).
  split.
  - intros [H _]. destruct (apply registry i audit) as [j |] eqn:Ea; [| done]. cbn [mbind result_bind] in H.
    apply apply_iff in Ea as [Ha (m & Hm & ->)]; [| lia]. rewrite Hm1 in Hm. injection Hm as <-. rewrite Hf in H.
    destruct (apply registry audited e) as [j |] eqn:Ea'; [| done]. cbn in H. injection H as <-.
    apply apply_iff in Ea' as [_ (m & Hm & ->)]; [| done]. split; [apply (adm_alive _ _ Ha) | by exists m].
  - intros [Hst (m & Hm & ->)].
    assert (Ea : apply registry i audit = Ok audited).
    { apply apply_iff; [lia |]. split; [| by exists m1]. eapply next_admissible; [done | apply audit_next | done]. }
    rewrite Ea. cbn [mbind result_bind].
    assert (Ea' : apply registry audited e = Ok (advanced audited m e)).
    { apply apply_iff; [done |]. split; [by apply Hadm | by exists m]. }
    rewrite Ea'. cbn. split; [done |]. unfold advanced. cbn [in_pendingOperator audited set_position set_operator].
    rewrite bool_decide_eq_false_2 by apply Hwf. done.
Qed.

(** A plan of the audit event and the event of the action commits the command. *)
Lemma command_commits e m transition :
  event_wf e -> ev_instanceID e = in_id i -> ev_sequence e = in_sequence i + 2 ->
  ev_occurredAt e = canonicalTime occurredAt -> ev_kind e = operatorEventKind (audit_Action document) ->
  terminalStatus (in_status i) = false -> applyKind registry audited e = Ok m ->
  NewTransition (mkTransitionSpec commandID (in_id i) (in_sequence i) (in_definition i) [audit; e] []) = Ok transition ->
  commits registry es i transition (advanced audited m e)
  /\ tr_id transition = commandID /\ tr_events transition = [audit; e] /\ tr_work transition = []
  /\ in_pendingOperator (advanced audited m e) = OperatorActionUndeclared.
Proof.
  intros He Hei Hes Het Hek Hst Hm Htr. pose proof (committed_sequence _ _ _ Hc) as [_ Hr].
  assert (Hrep : Replay registry (es ++ [audit; e]) = Ok (advanced audited m e)) by (apply command_exact; eauto).
  assert (Hall : Forall event_wf [audit; e]) by (constructor; [apply audit_next | by constructor]).
  apply NewTransition_inv in Htr as [Hv ->]. split; [split_and! | split_and!]; try done.
  - apply (transition_valid_wf (mkTransition commandID (in_id i) (in_sequence i) (in_definition i) [audit; e] [] "")) in Hv
      as []; [by split | done | constructor | cbn; lia].
  - split; [| exact Hrep]. apply Forall_app. split; [apply Hc | done].
  - by apply Replay_iff in Hrep as (_ & _ & ?).
Qed.

(** What a guard of the constructors makes of the audit document. *)
Lemma or_zero_audit : or_zero zeroEvent (NewHistoryEvent spec) = audit.
Proof. by rewrite audit_made. Qed.
End Command.

(** ** Lifecycle commands *)

Definition lifecycle_target (action : OperatorAction) : InstanceStatus :=
  match action with
  | OperatorPause => StatusPaused
  | OperatorResume => StatusRunning
  | OperatorCancel => StatusCancelling
  | OperatorTerminate => StatusTerminated
  | _ => InstanceStatusUndeclared
  end.

Definition lifecycle_action (action : OperatorAction) : bool :=
  match action with
  | OperatorPause | OperatorResume | OperatorCancel | OperatorTerminate => true
  | _ => false
  end.

Lemma valid_state_action status action :
  validOperatorLifecycleState status action = true ->
  lifecycle_action action = true /\ terminalStatus status = false.
Proof. destruct action; try done; cbn; intros H; bool_norm; destruct_or?; by subst. Qed.

(** A valid action applies to the audited instance and sets its target status. *)
Lemma lifecycle_applies registry i e action :
  validOperatorLifecycleState (in_status i) action = true -> ev_kind e = operatorEventKind action ->
  exists m, applyKind registry i e = Ok m /\ in_status m = lifecycle_target action
    /\ in_operatorActions m = in_operatorActions i.
Proof.
  intros Hv Hk. unfold applyKind. rewrite Hk.
  destruct action; try done; cbn in Hv |- *; bool_norm; destruct_or?;
    repeat match goal with H : in_status i = _ |- _ => rewrite H; clear H end; eexists; split; [reflexivity | done | reflexivity | done ..].
Qed.

(** The event of a lifecycle action is always accepted. *)
Lemma action_made action sequence instanceID t :
  lifecycle_action action = true -> 0 < sequence < 2 ^ 64 -> instanceIDPattern instanceID = true -> IsZero t = false ->
  let spec := step_event (u64 sequence) instanceID (operatorEventKind action) t "" 0 "" zeroTime "" false None in
  NewHistoryEvent spec = Ok (event_of (canonicalSpec spec)).
Proof.
  intros Ha Hs Hi Ht spec. apply NewHistoryEvent_spec. split; [| done].
  unfold validHistoryEventSpec, validEventFields, spec.
  cbn [canonicalSpec step_event es_Sequence es_InstanceID es_Kind es_OccurredAt es_Definition es_SuccessorID es_StepName
    es_Attempt es_IdempotencyKey es_DueAt es_Code es_Retryable es_Data].
  rewrite u64_small, (proj2 (Z.eqb_neq sequence 0)), Hi, IsZero_canonicalTime, Ht by lia.
  by destruct action.
Qed.

(** Two consecutive events of one instant make a valid plan. *)
Lemma NewTransition_pair registry es i tid e e' :
  committed registry es i -> next_event i e -> instanceIDPattern tid = true -> ev_kind e <> EventInstanceStarted ->
  event_wf e' -> ev_instanceID e' = in_id i -> ev_sequence e' = in_sequence i + 2 -> ev_occurredAt e' = ev_occurredAt e ->
  blen (ev_data e) + blen (ev_data e') <= MaxPayloadBytes ->
  exists transition,
    NewTransition (mkTransitionSpec tid (in_id i) (in_sequence i) (in_definition i) [e; e'] []) = Ok transition.
Proof.
  intros Hc [Hw Hid Hsq Ht] Hi Hk Hw' Hid' Hsq' Ht' Hb. pose proof (committed_sequence _ _ _ Hc) as [_ Hr].
  destruct (committed_header _ _ _ Hc) as [H1 H2 _ _].
  pose proof (event_sequence_range e' Hw') as Hse. pose proof (blen_nonneg (ev_data e)). pose proof (blen_nonneg (ev_data e')).
  eexists. apply NewTransition_intro. unfold transition_valid. cbn [tr_id tr_instanceID tr_definition tr_expectedSequence tr_events tr_work ts_ID
    ts_InstanceID ts_ExpectedSequence ts_Definition ts_Events ts_Work length head checkEvents checkWork].
  rewrite Hi, H1, H2. unfold MaxUint64. rewrite (proj2 (Z.eqb_neq (in_sequence i) _)) by lia. cbn [negb orb].
  rewrite (bool_decide_eq_true_2 _ Hid), (bool_decide_eq_true_2 _ Hid'), Hsq, Hsq'.
  rewrite (u64_small (in_sequence i + 1)), Z.eqb_refl, (u64_small (in_sequence i + 1 + 1)) by lia.
  replace (in_sequence i + 1 + 1) with (in_sequence i + 2) by lia. rewrite Z.eqb_refl, Ht'.
  assert (Hcan : canonical (ev_occurredAt e)) by apply Hw.
  rewrite (Before_canonical_l (ev_occurredAt e) (ev_occurredAt e)), instant_ltb_irrefl by done.
  change (IsZero zeroTime) with true. cbn [negb orb andb default from_option id]. rewrite andb_false_r.
  rewrite (proj2 (Z.eqb_neq (in_sequence i) 0)), (bool_decide_eq_false_2 _ Hk) by lia.
  rewrite (u64_small (0 + _)), u64_small by (unfold MaxPayloadBytes in *; lia).
  cbn. apply Z.leb_le. unfold MaxTransitionBytes. lia.
Qed.

(** A lifecycle command the constructor accepts (for a legal actor and reason) is
    never the zero transition its ignored errors would give: it is a well-formed
    batch of two events under the command's identity; committing it keeps the
    history replayable, moves the instance to the action's status, closes the
    command and appends exactly one audit record that names the command, the
    action, the actor, the reason and the time. *)
Theorem operator_lifecycle_commits registry es spec transition :
  committed registry es (lc_Instance spec) ->
  instanceIDPattern (lc_Actor spec) = true -> stableName (lc_Reason spec) = true ->
  NewOperatorLifecycleCommand spec = Ok transition ->
  exists i', commits registry es (lc_Instance spec) transition i' /\ tr_id transition = lc_CommandID spec
    /\ length (tr_events transition) = 2%nat /\ tr_work transition = []
    /\ in_status i' = lifecycle_target (lc_Action spec)
    /\ in_pendingOperator i' = OperatorActionUndeclared
    /\ in_operatorActions i' = in_operatorActions (lc_Instance spec)
         ++ [mkOperatorRecord (lc_CommandID spec) (lc_Action spec) (lc_Actor spec) (lc_Reason spec)
               (canonicalTime (lc_OccurredAt spec))].
Proof.
  intros Hc Hactor Hreason H. unfold NewOperatorLifecycleCommand in H. cbn zeta in H.
  repeat match type of H with (if ?b then _ else _) = Ok _ => let G := fresh "G" in destruct b eqn:G; [discriminate H |] end.
  injection H as Htr. bool_norm.
  match goal with G : validOperatorLifecycleState _ _ = true |- _ => rename G into Hvalid end.
  destruct (valid_state_action _ _ Hvalid) as [Hact Hst].
  set (i := lc_Instance spec) in *. set (document := mkAudit (lc_Action spec) (lc_Actor spec) (lc_Reason spec)) in *.
  assert (Hwf : audit_wf document) by (split_and!; [by destruct (lc_Action spec) | done | done]).
  assert (Hseq : in_sequence i <= MaxUint64 - 2) by lia.
  pose proof (committed_sequence _ _ _ Hc) as [_ Hr]. unfold MaxUint64 in Hseq.
  rewrite (or_zero_audit registry es i Hc (lc_CommandID spec) ltac:(done) document Hwf (lc_OccurredAt spec)) in Htr by done.
  rewrite action_made in Htr; [| done | lia | done | by rewrite IsZero_canonicalTime]. cbn [or_zero] in Htr.
  set (e := event_of (canonicalSpec (audit_event _ _ _ _))) in Htr.
  set (e' := event_of (canonicalSpec (step_event _ _ (operatorEventKind _) _ _ _ _ _ _ _ _))) in Htr.
  assert (Hn : next_event i e) by (by apply (audit_next registry es i Hc)).
  assert (Hw' : event_wf e').
  { eapply NewHistoryEvent_wf; [| apply (action_made (lc_Action spec) (in_sequence i + 2) (in_id i))];
      [split; [apply u64_range | done] | done | lia | done | by rewrite IsZero_canonicalTime]. }
  assert (Hs' : ev_sequence e' = in_sequence i + 2) by (cbn; apply u64_small; lia).
  assert (Hb : blen (ev_data e) + blen (ev_data e') <= MaxPayloadBytes).
  { pose proof (marshalAudit_size _ Hwf). change (blen (ev_data e)) with (slen (marshalAudit document)).
    change (blen (ev_data e')) with 0. unfold MaxPayloadBytes. lia. }
  destruct (NewTransition_pair registry es i (lc_CommandID spec) e e') as [tr Etr]; try done.
  rewrite Etr in Htr. cbn [or_zero] in Htr. subst tr.
  set (open := audited i (lc_CommandID spec) document (lc_OccurredAt spec)).
  destruct (lifecycle_applies registry open e' (lc_Action spec)) as (m & Hm & Hms & Hmo); [done | done |].
  destruct (command_commits registry es i Hc (lc_CommandID spec) ltac:(done) document Hwf (lc_OccurredAt spec)
    ltac:(done) ltac:(done) Hseq e' m transition) as (Hcm & Hid & Hev & Hwk & Hp); try done.
  exists (advanced open m e'). destruct (finish_frame open m e') as (_ & _ & Fst & _ & _ & _ & _ & _ & _ & _ & Fop & _).
  rewrite Fst, Fop, Hms, Hmo, Hev. split_and!; done.
Qed.

Definition order_pause : OperatorLifecycleCommandSpec :=
  mkOperatorLifecycleCommandSpec "cmd-1" (order_instance order_started) OperatorPause "ops:1" "drill" (sample_time 2).

Lemma operator_lifecycle_commits_witness :
  exists transition i', NewOperatorLifecycleCommand order_pause = Ok transition
    /\ committed order_registry (order_started ++ tr_events transition) i' /\ in_status i' = StatusPaused.
Proof.
  assert (H : exists transition, NewOperatorLifecycleCommand order_pause = Ok transition).
  { eexists. vm_compute. reflexivity. }
  destruct H as [transition H].
  destruct (operator_lifecycle_commits order_registry order_started order_pause transition)
    as (i' & (_ & _ & _ & _ & Hcm) & _ & _ & _ & Hst & _).
  - apply order_committed. vm_compute. reflexivity.
  - vm_compute. reflexivity.
  - vm_compute. reflexivity.
  - exact H.
  - exists transition, i'. split; [exact H | split; [exact Hcm | exact Hst]].
Defined.

(** ** Commands that admit work *)

Section Work.
Context (registry : option Registry) (es : list HistoryEvent) (i : Instance_) (Hc : committed registry es i).
Context (d : Definition_) (Hreg : registered registry d) (Hd : Reference d = in_definition i).

Lemma newOperatorWorkAudit_inv commandID action actor reason occurredAt a :
  instanceIDPattern actor = true -> stableName reason = true -> action <> OperatorActionUndeclared ->
  newOperatorWorkAudit commandID i action actor reason occurredAt = Ok a ->
  let document := mkAudit action actor reason in
  audit_wf document /\ instanceIDPattern commandID = true /\ IsZero occurredAt = false
  /\ Before occurredAt (in_updatedAt i) = false /\ in_sequence i <= MaxUint64 - 2
  /\ a = (event_of (canonicalSpec (audit_event i commandID (Some (marshalAudit document)) (canonicalTime occurredAt))),
          set_position i (in_sequence i + 1) (canonicalTime occurredAt)).
Proof.
  intros Hactor Hreason Hact H document. assert (Hwf : audit_wf document) by done.
  pose proof (committed_sequence _ _ _ Hc) as [_ Hr]. unfold newOperatorWorkAudit in H. cbn zeta in H.
  repeat match type of H with (if ?b then _ else _) = Ok _ => let G := fresh "G" in destruct b eqn:G; [discriminate H |] end.
  bool_norm. assert (Hseq : in_sequence i <= MaxUint64 - 2) by lia.
  fold document in H. rewrite (or_zero_audit registry es i Hc commandID ltac:(done) document Hwf occurredAt) in H by done.
  injection H as <-. split_and!; try done. unfold MaxUint64 in Hseq. by rewrite u64_small by lia.
Qed.

(** The event of the action, and exactly when it completes the command. *)
Lemma work_exact commandID document occurredAt spec e transition :
  audit_wf document -> instanceIDPattern commandID = true -> IsZero occurredAt = false ->
  Before occurredAt (in_updatedAt i) = false -> in_sequence i <= MaxUint64 - 2 ->
  NewHistoryEvent spec = Ok e -> es_Sequence spec = u64 (in_sequence i + 1 + 1) -> es_InstanceID spec = in_id i ->
  es_OccurredAt spec = occurredAt -> 0 <= es_Attempt spec < 2 ^ 32 ->
  es_Kind spec = operatorEventKind (audit_Action document) ->
  tr_events transition = [event_of (canonicalSpec (audit_event i commandID (Some (marshalAudit document)) (canonicalTime occurredAt))); e] ->
  is_ok (Replay registry (es ++ tr_events transition)) = true <->
  terminalStatus (in_status i) = false
  /\ is_ok (applyKind registry (audited i commandID document occurredAt) (event_of (canonicalSpec spec))) = true.
Proof.
  intros Hwf Hid Hz Hb Hseq He Hs Hi Ht Ha Hk ->. pose proof (committed_sequence _ _ _ Hc) as [_ Hr].
  assert (Hw : event_wf e) by (eapply NewHistoryEvent_wf; [split; [rewrite Hs; apply u64_range | done] | done]).
  apply NewHistoryEvent_spec in He as [_ ->]. unfold MaxUint64 in Hseq.
  pose proof (command_exact registry es i Hc commandID Hid document Hwf occurredAt Hz Hb Hseq
    (event_of (canonicalSpec spec)) Hw Hi) as Hex.
  specialize (Hex ltac:(cbn; rewrite Hs, u64_small; lia) ltac:(cbn; by rewrite Ht) Hk).
  destruct (Replay registry (es ++ _)) as [j |] eqn:E; cbn [is_ok].
  - destruct (proj1 (Hex j) eq_refl) as (Hst & m & -> & _). done.
  - split; [done |]. intros [Hst Hm]. destruct (applyKind registry _ _) as [m |] eqn:Em; [| done].
    discriminate (proj2 (Hex _) (conj Hst (ex_intro _ m (conj eq_refl eq_refl)))).
Qed.

Lemma newOperatorWorkTransition_events commandID audit action transition :
  newOperatorWorkTransition commandID i audit action = Ok transition -> tr_events transition = audit :: tr_events action.
Proof.
  unfold newOperatorWorkTransition. destruct (NewTransition _) eqn:E; [| done]. cbn. intros [= <-].
  by apply NewTransition_inv in E as [_ ->].
Qed.

Lemma audited_definition commandID document occurredAt :
  pinnedDefinition registry (audited i commandID document occurredAt) = d.
Proof. change (pinnedDefinition registry i = d). by apply registered_pinned. Qed.

Lemma retry_exact spec transition :
  ort_Instance spec = i -> ort_Definition spec = d ->
  instanceIDPattern (ort_Actor spec) = true -> stableName (ort_Reason spec) = true ->
  NewOperatorActivityRetry spec = Ok transition ->
  is_ok (Replay registry (es ++ tr_events transition)) = true <-> in_status i = StatusRunning.
Proof.
  intros Hi Hdef Ha Hr H. unfold NewOperatorActivityRetry in H. rewrite Hi, Hdef in H. open_plan H.
  apply newOperatorWorkAudit_inv in Hmade as (Hwf & Hid & Hz & Hb & Hs & ->); [| done | done | done].
  cbn [fst snd] in *. apply newOperatorWorkTransition_events in H.
  unfold NewActivityRetry in Hmade0. open_plan Hmade0.
  cbn [ar_Instance ar_Definition ar_StepName ar_ScheduledAt] in *.
  match goal with E : in_activities _ !! _ = Some ?a |- _ => rename a into progress, E into Hp end.
  pose proof (wf_activities _ (committed_progress _ _ _ Hc) _ _ Hp) as [_ _ Hrange _ _ _].
  apply NewTransition_single in Hmade0 as (_ & _ & _ & _ & Hev & _). rewrite Hev in H.
  rewrite (work_exact (ort_CommandID spec) _ (ort_OccurredAt spec) _ _ _ Hwf Hid Hz Hb Hs Hmade eq_refl eq_refl eq_refl Hrange eq_refl H).
  clear H. split.
  - intros [_ [m Hm]%is_ok_inv]. apply applyActivity_iff in Hm as (step & p' & _ & Hst & _); [| done]. by inversion Hst.
  - intros Hst. split; [by rewrite Hst |]. eapply is_ok_intro, applyActivity_iff; [done |].
    rewrite audited_definition. eexists _, _. split_and!; [exact Hfound | | reflexivity].
    cbn -[Z.leb]. change (in_activities (set_position _ _ _)) with (in_activities i) in Hp. rewrite Hp.
    apply activity_retry; cbn; try done. by rewrite canonicalTime_idem, canonicalTime_Add.
Qed.

Lemma compensation_exact spec transition :
  om_Instance spec = i -> om_Definition spec = d ->
  instanceIDPattern (om_Actor spec) = true -> stableName (om_Reason spec) = true ->
  NewOperatorCompensation spec = Ok transition ->
  is_ok (Replay registry (es ++ tr_events transition)) = true.
Proof.
  intros Hi Hdef Ha Hr H. unfold NewOperatorCompensation in H. rewrite Hi, Hdef in H. open_plan H.
  apply newOperatorWorkAudit_inv in Hmade as (Hwf & Hid & Hz & Hb & Hs & ->); [| done | done | done].
  cbn [fst snd] in *. apply newOperatorWorkTransition_events in H.
  unfold NewCompensationSchedule in Hmade0. open_plan Hmade0.
  cbn [ps_Instance ps_Definition ps_StepName ps_ScheduledAt] in *.
  match goal with G : not_compensating _ = false |- _ => apply not_compensating_false in G as Hst end.
  match goal with G : ~ is_Some _ |- _ => apply eq_None_not_Some in G as Hnone end.
  apply NewTransition_single in Hmade0 as (_ & _ & _ & _ & Hev & _). rewrite Hev in H.
  apply (work_exact (om_CommandID spec) _ (om_OccurredAt spec) _ _ _ Hwf Hid Hz Hb Hs Hmade eq_refl eq_refl eq_refl (conj (Z.le_refl 0) eq_refl) eq_refl H).
  change (in_status (set_position _ _ _)) with (in_status i) in Hst.
  split; [by destruct Hst as [-> | ->] |]. eapply is_ok_intro, applyCompensation_iff; [done |].
  rewrite audited_definition. eexists _, _, _. split_and!; [exact Hfound | exact Hfound0 | | reflexivity].
  cbn -[Z.leb]. change (in_compensations (set_position _ _ _)) with (in_compensations i) in Hnone. rewrite Hnone.
  by eapply compensation_schedule.
Qed.

(** What a compiled definition ensures of the limits the constructors check. *)
Lemma step_limits step :
  validateStep step = Ok tt ->
  (step_Kind step = StepApproval -> step_InputLimit step <= MaxPayloadBytes)
  /\ (forall policy, step_Compensation step = Some policy -> cs_ResultLimit policy <= MaxPayloadBytes).
Proof.
  unfold validateStep, validPayloadLimit. intros H. destruct (validateStepKind step) as [[] |] eqn:Ek; [| done].
  cbn [mbind result_bind] in H. split.
  - intros Hk. unfold validateStepKind, validPayloadLimit in Ek. rewrite Hk in Ek. walk Ek. bool_norm. lia.
  - intros policy Hp. rewrite Hp in H. walk H; unfold validPayloadLimit in *; bool_norm; lia.
Qed.

(** An event the constructors build without looking at the error: it is accepted,
    and so is the plan that holds it. *)
Lemma unchecked_plan commandID t spec :
  instanceIDPattern commandID = true -> in_sequence i <= MaxUint64 - 2 -> es_Kind spec <> EventInstanceStarted ->
  es_Sequence spec = u64 (in_sequence i + 1 + 1) -> es_InstanceID spec = in_id i ->
  validHistoryEventSpec (canonicalSpec spec) = true -> blen (es_Data spec) <= MaxPayloadBytes ->
  let ci := set_position i (in_sequence i + 1) t in
  tr_events (or_zero zeroTransition (NewTransition (mkTransitionSpec commandID (in_id ci) (in_sequence ci) (in_definition ci)
    [or_zero zeroEvent (NewHistoryEvent spec)] []))) = [event_of (canonicalSpec spec)]
  /\ NewHistoryEvent spec = Ok (event_of (canonicalSpec spec)).
Proof.
  intros Hid Hseq Hk Hs Hi Hv Hb ci. pose proof (committed_sequence _ _ _ Hc) as [_ Hr].
  destruct (committed_header _ _ _ Hc) as [H1 H2 _ _]. unfold MaxUint64 in Hseq.
  assert (He : NewHistoryEvent spec = Ok (event_of (canonicalSpec spec))) by (by apply NewHistoryEvent_spec).
  split; [| done]. rewrite He. cbn [or_zero].
  destruct (NewTransition_one commandID (in_id i) (in_sequence i + 1) (in_definition i) (event_of (canonicalSpec spec)))
    as [tr Htr]; try done; [lia | lia | |].
  - cbn. rewrite Hs. apply u64_small. lia.
  - change (in_id ci) with (in_id i). change (in_sequence ci) with (in_sequence i + 1).
    change (in_definition ci) with (in_definition i). rewrite Htr. cbn [or_zero].
    by apply NewTransition_inv in Htr as [_ ->].
Qed.

Lemma resolution_exact spec transition :
  ox_Instance spec = i -> ox_Definition spec = d -> steps_wf (ds_Steps (def_spec d)) ->
  instanceIDPattern (ox_Actor spec) = true -> stableName (ox_Reason spec) = true ->
  NewOperatorCompensationResolution spec = Ok transition ->
  is_ok (Replay registry (es ++ tr_events transition)) = true <-> terminalStatus (in_status i) = false.
Proof.
  intros Hi Hdef Hsteps Ha Hr H. unfold NewOperatorCompensationResolution in H. rewrite Hi, Hdef in H. open_plan H.
  apply newOperatorWorkAudit_inv in Hmade as (Hwf & Hid & Hz & Hb & Hs & ->); [| done | done | done].
  cbn [fst snd] in *. apply newOperatorWorkTransition_events in H.
  apply find_step_Some in Hfound as Hin. destruct Hin as (Hin & Hname & _).
  pose proof (proj1 (Forall_forall _ _) (wf_stable _ Hsteps) _ Hin) as Hstable. cbn beta in Hstable. rewrite Hname in Hstable.
  pose proof (proj1 (Forall_forall _ _) (wf_steps _ Hsteps) _ Hin) as Hval. cbn beta in Hval.
  pose proof (proj2 (step_limits _ Hval) _ Hfound0) as Hlimit.
  match goal with G : blen (ox_Evidence spec) <= _ |- _ => rename G into Hev end.
  match goal with G : stableName (ox_Code spec) = true |- _ => rename G into Hcode end.
  pose proof (committed_sequence _ _ _ Hc) as [_ Hrng]. pose proof Hs as Hs'. unfold MaxUint64 in Hs'.
  edestruct (unchecked_plan (ox_CommandID spec) (canonicalTime (ox_OccurredAt spec))) as [Hp He];
    [done | exact Hs | | | | | | rewrite Hp in H]; [done | reflexivity | reflexivity | | cbn; lia |].
  { unfold validHistoryEventSpec, validEventFields. cbn [canonicalSpec step_event es_Sequence es_InstanceID es_Kind es_OccurredAt es_Definition es_SuccessorID es_StepName
      es_Attempt es_IdempotencyKey es_DueAt es_Code es_Retryable es_Data].
    change (in_sequence (set_position _ _ _)) with (in_sequence i + 1). change (in_id (set_position _ _ _)) with (in_id i).
    rewrite u64_small, (proj2 (Z.eqb_neq (in_sequence i + 1 + 1) 0)), IsZero_canonicalTime, Hz by lia.
    rewrite (hw_id _ _ (committed_header _ _ _ Hc)), (proj2 (Z.ltb_ge MaxPayloadBytes _)) by lia.
    cbn. unfold validCompensationEventFields. cbn. by rewrite Hstable, Hcode. }
  rewrite (work_exact (ox_CommandID spec) _ (ox_OccurredAt spec) _ _ _ Hwf Hid Hz Hb Hs He eq_refl eq_refl eq_refl (conj (Z.le_refl 0) eq_refl) eq_refl H).
  split; [by intros [? _] |]. intros Hst. split; [done |]. eapply is_ok_intro, applyCompensation_iff; [done |].
  rewrite audited_definition. eexists _, _, _. split_and!; [exact Hfound | exact Hfound0 | | reflexivity].
  cbn -[Z.leb]. rewrite Hfound1. apply compensation_resolve; [done | | done]. naive_solver.
Qed.

Lemma approval_exact spec transition :
  oa_Instance spec = i -> oa_Definition spec = d -> steps_wf (ds_Steps (def_spec d)) ->
  instanceIDPattern (oa_Actor spec) = true -> stableName (oa_Reason spec) = true ->
  NewOperatorApproval spec = Ok transition ->
  is_ok (Replay registry (es ++ tr_events transition)) = true <->
  (in_status i = StatusRunning \/ in_status i = StatusPaused) /\ in_signals i !! oa_StepName spec = None.
Proof.
  intros Hi Hdef Hsteps Ha Hr H. unfold NewOperatorApproval in H. rewrite Hi, Hdef in H. open_plan H.
  apply newOperatorWorkAudit_inv in Hmade as (Hwf & Hid & Hz & Hb & Hs & ->); [| done | done | done].
  cbn [fst snd] in *. apply newOperatorWorkTransition_events in H.
  apply find_step_Some in Hfound as Hin. destruct Hin as (Hin & Hname & Hkind).
  pose proof (proj1 (Forall_forall _ _) (wf_stable _ Hsteps) _ Hin) as Hstable. cbn beta in Hstable. rewrite Hname in Hstable.
  pose proof (proj1 (Forall_forall _ _) (wf_steps _ Hsteps) _ Hin) as Hval. cbn beta in Hval.
  pose proof (proj1 (step_limits _ Hval) Hkind) as Hlimit.
  match goal with G : blen (oa_Payload spec) <= _ |- _ => rename G into Hev end.
  pose proof (committed_sequence _ _ _ Hc) as [_ Hrng]. pose proof Hs as Hs'. unfold MaxUint64 in Hs'.
  edestruct (unchecked_plan (oa_CommandID spec) (canonicalTime (oa_OccurredAt spec))) as [Hp He];
    [done | exact Hs | | | | | | rewrite Hp in H]; [done | reflexivity | reflexivity | | cbn; lia |].
  { unfold validHistoryEventSpec, validEventFields. cbn [canonicalSpec step_event es_Sequence es_InstanceID es_Kind es_OccurredAt es_Definition es_SuccessorID es_StepName
      es_Attempt es_IdempotencyKey es_DueAt es_Code es_Retryable es_Data].
    change (in_sequence (set_position _ _ _)) with (in_sequence i + 1). change (in_id (set_position _ _ _)) with (in_id i).
    rewrite u64_small, (proj2 (Z.eqb_neq (in_sequence i + 1 + 1) 0)), IsZero_canonicalTime, Hz by lia.
    rewrite (hw_id _ _ (committed_header _ _ _ Hc)), (proj2 (Z.ltb_ge MaxPayloadBytes _)) by lia.
    cbn. unfold validWaitEventFields. cbn. by rewrite Hstable, Hid. }
  rewrite (work_exact (oa_CommandID spec) _ (oa_OccurredAt spec) _ _ _ Hwf Hid Hz Hb Hs He eq_refl eq_refl eq_refl (conj (Z.le_refl 0) eq_refl) eq_refl H).
  split.
  - intros [_ [m Hm]%is_ok_inv]. apply applyWait_iff in Hm. by inversion Hm.
  - intros [Hst Hn]. split; [by destruct Hst as [-> | ->] |]. eapply is_ok_intro, applyWait_iff.
    eapply wait_signal; [done | | exact Hst | exact Hn | exact Hev].
    unfold signalStep. rewrite audited_definition. cbn [ev_stepName event_of canonicalSpec es_StepName step_event].
    destruct (definitionStep d (oa_StepName spec) StepSignal) as [s' |] eqn:Hsig; [| done].
    apply find_step_Some in Hsig as (Hin' & Hname' & Hkind').
    assert (s = s') by (eapply (NoDup_map_unique step_Name); [apply Hsteps | done | done | congruence]). congruence.
Qed.
End Work.

(** C33: Exactly when an audited work command keeps a committed history replayable, for
    a legal actor and reason and the compiled definition the instance is pinned to:
    NewOperatorCompensation always; NewOperatorActivityRetry only on a running
    instance; NewOperatorCompensationResolution only on a live instance;
    NewOperatorApproval only while running or paused and only once per step. The
    constructors accept the other cases as well, and their commit poisons the
    history. *)
Theorem operator_work_exact registry es i d :
  committed registry es i -> registered registry d -> Reference d = in_definition i ->
  steps_wf (ds_Steps (def_spec d)) ->
  (forall spec transition, om_Instance spec = i -> om_Definition spec = d ->
     instanceIDPattern (om_Actor spec) = true -> stableName (om_Reason spec) = true ->
     NewOperatorCompensation spec = Ok transition -> is_ok (Replay registry (es ++ tr_events transition)) = true)
  /\ (forall spec transition, ort_Instance spec = i -> ort_Definition spec = d ->
     instanceIDPattern (ort_Actor spec) = true -> stableName (ort_Reason spec) = true ->
     NewOperatorActivityRetry spec = Ok transition ->
     is_ok (Replay registry (es ++ tr_events transition)) = true <-> in_status i = StatusRunning)
  /\ (forall spec transition, ox_Instance spec = i -> ox_Definition spec = d ->
     instanceIDPattern (ox_Actor spec) = true -> stableName (ox_Reason spec) = true ->
     NewOperatorCompensationResolution spec = Ok transition ->
     is_ok (Replay registry (es ++ tr_events transition)) = true <-> terminalStatus (in_status i) = false)
  /\ (forall spec transition, oa_Instance spec = i -> oa_Definition spec = d ->
     instanceIDPattern (oa_Actor spec) = true -> stableName (oa_Reason spec) = true ->
     NewOperatorApproval spec = Ok transition ->
     is_ok (Replay registry (es ++ tr_events transition)) = true <->
     (in_status i = StatusRunning \/ in_status i = StatusPaused) /\ in_signals i !! oa_StepName spec = None).
Proof.
  intros Hc Hreg Hd Hs. split_and!; intros.
  - by eapply (compensation_exact registry es i).
  - by eapply (retry_exact registry es i).
  - by eapply (resolution_exact registry es i).
  - by eapply (approval_exact registry es i).
Qed.

Definition order_approve (commandID : string) (es : list HistoryEvent) (second : Z) : OperatorApprovalSpec :=
  mkOperatorApprovalSpec commandID (order_instance es) order_definition "ok" "ops:1" "checked" (sample_time second)
    (Some "yes"%string).
Definition order_approved : list HistoryEvent :=
  order_started ++
  [order_event 2 EventOperatorCommandRecorded "" 0 "cmd-1" zeroTime "" false
     (Some (marshalAudit (mkAudit OperatorApprove "ops:1" "checked")));
   order_event 3 EventSignalReceived "ok" 0 "cmd-1" zeroTime "" false (Some "yes"%string)].

(** The first approval replays; the second one is accepted and does not. *)
Lemma operator_work_exact_witness :
  (exists transition, NewOperatorApproval (order_approve "cmd-1" order_started 2) = Ok transition
     /\ is_ok (Replay order_registry (order_started ++ tr_events transition)) = true)
  /\ exists transition, NewOperatorApproval (order_approve "cmd-2" order_approved 4) = Ok transition
     /\ (is_ok (Replay order_registry (order_approved ++ tr_events transition)) = true -> False).
Proof.
  assert (H1 : exists transition, NewOperatorApproval (order_approve "cmd-1" order_started 2) = Ok transition).
  { eexists. vm_compute. reflexivity. }
  assert (H2 : exists transition, NewOperatorApproval (order_approve "cmd-2" order_approved 4) = Ok transition).
  { eexists. vm_compute. reflexivity. }
  split.
  - destruct H1 as [transition H]. exists transition. split; [exact H |].
    apply (operator_work_exact order_registry order_started (order_instance order_started) order_definition)
      with (spec := order_approve "cmd-1" order_started 2).
    + apply order_committed. vm_compute. reflexivity.
    + apply order_registered.
    + vm_compute. reflexivity.
    + apply (validateDefinition_wf _ order_valid).
    + reflexivity.
    + reflexivity.
    + vm_compute. reflexivity.
    + vm_compute. reflexivity.
    + exact H.
    + split; [left |]; vm_compute; reflexivity.
  - destruct H2 as [transition H]. exists transition. split; [exact H |]. intros Hok.
    apply (operator_work_exact order_registry order_approved (order_instance order_approved) order_definition)
      with (spec := order_approve "cmd-2" order_approved 4) in Hok.
    + destruct Hok as [_ Hn]. vm_compute in Hn. discriminate Hn.
    + apply order_committed. vm_compute. reflexivity.
    + apply order_registered.
    + vm_compute. reflexivity.
    + apply (validateDefinition_wf _ order_valid).
    + reflexivity.
    + reflexivity.
    + vm_compute. reflexivity.
    + vm_compute. reflexivity.
    + exact H.
Defined.
