(* ===== verification/Orchestration.v ===== *)
(** * The ordered orchestration decision (orchestration.go) *)
From S2P Require Import Prelude GoTime Names Definitions Registry OperatorAudit Event.
From S2P Require Import Instances ActivityHistory WaitHistory ChildHistory Replay ReplayInvariant ReplayProperties.
From S2P Require Import Work Transition Plans Activity ActivityTransition WaitTransition ChildTransition Samples.

Inductive OrchestrationDecisionKind :=
  | OrchestrationScheduled | OrchestrationWaiting | OrchestrationCompleted | OrchestrationFailed
  | OrchestrationRecorded.

#[export] Instance OrchestrationDecisionKind_eq_dec : EqDecision OrchestrationDecisionKind.
Proof. solve_decision. Defined.

Record OrchestrationBranchSpec := mkBranchSpec {
  ob_StepName : string;
  ob_WorkID : string;
  ob_IdempotencyKey : string;
  ob_Input : bytes
}.

Record OrchestrationDecisionSpec := mkDecisionSpec {
  od_TransitionID : string;
  od_WorkID : string;
  od_Instance : Instance_;
  od_Definition : Definition_;
  od_DecidedAt : Time;
  od_Deadline : Time;
  od_IdempotencyKey : string;
  od_Input : bytes;
  od_Result : bytes;
  od_TenantID : string;
  od_CorrelationID : string;
  od_ChildID : string;
  od_Branches : list OrchestrationBranchSpec
}.

Record OrchestrationDecision := mkDecision {
  dn_kind : OrchestrationDecisionKind;
  dn_stepName : string;
  dn_transition : Transition
}.

Definition orchestrationWait (stepName : string) : OrchestrationDecision :=
  mkDecision OrchestrationWaiting stepName zeroTransition.

(** The results of the [decide] functions: an error, a decision that is returned at
    once ([Some]), or [done] ([None]). *)
Definition Decided := result (option OrchestrationDecision).
Definition decided (r : result OrchestrationDecision) : Decided := decision ← r; Ok (Some decision).
Definition waiting (stepName : string) : Decided := Ok (Some (orchestrationWait stepName)).

Definition orchestrationTerminal (spec : OrchestrationDecisionSpec) (kind : OrchestrationDecisionKind)
    (stepName : string) : result OrchestrationDecision :=
  let i := od_Instance spec in
  let eventKind := if bool_decide (kind = OrchestrationFailed) then EventInstanceFailed else EventInstanceCompleted in
  event <~ NewHistoryEvent (step_event (u64 (in_sequence i + 1)) (in_id i) eventKind (od_DecidedAt spec) "" 0 "" zeroTime
      "" false (od_Result spec))
    else ErrInvalidOrchestration;
  transition <~ NewTransition (mkTransitionSpec (od_TransitionID spec) (in_id i) (in_sequence i) (in_definition i) [event] [])
    else ErrInvalidOrchestration;
  Ok (mkDecision kind stepName transition).

Section Decide.
Context (spec : OrchestrationDecisionSpec) (step : StepSpec).
Let i : Instance_ := od_Instance spec.

Definition decideActivityStep : Decided :=
  match in_activities i !! step_Name step with
  | None =>
      transition <~ NewActivitySchedule (mkActivityScheduleSpec (od_TransitionID spec) (od_WorkID spec) i
          (od_Definition spec) (step_Name step) 1 (od_IdempotencyKey spec) (od_DecidedAt spec) (od_Deadline spec)
          (od_Input spec) (od_TenantID spec) (od_CorrelationID spec))
        else ErrInvalidOrchestration;
      Ok (Some (mkDecision OrchestrationScheduled (step_Name step) transition))
  | Some progress =>
      match ap_status progress with
      | ActivityProgressSucceeded => Ok None
      | ActivityProgressFailed =>
          if ap_retryable progress && (ap_attempt progress <? MaxAttempts (step_Retry step)) then waiting (step_Name step)
          else decided (orchestrationTerminal spec OrchestrationFailed (step_Name step))
      | ActivityProgressReady | ActivityProgressRunning | ActivityProgressUnknown | ActivityProgressRetryWaiting =>
          waiting (step_Name step)
      | ActivityProgressUndeclared => Err ErrInvalidOrchestration
      end
  end.

Definition decideTimerStep : Decided :=
  match in_timers i !! step_Name step with
  | None =>
      transition <~ NewTimerSchedule (mkTimerScheduleSpec (od_TransitionID spec) (od_WorkID spec) (in_id i) (in_sequence i)
          (od_Definition spec) (step_Name step) (od_DecidedAt spec) (od_Deadline spec) (od_TenantID spec)
          (od_CorrelationID spec))
        else ErrInvalidOrchestration;
      Ok (Some (mkDecision OrchestrationScheduled (step_Name step) transition))
  | Some progress =>
      match tp_status progress with
      | TimerFired => Ok None
      | TimerWaiting => waiting (step_Name step)
      | TimerProgressUndeclared => Err ErrInvalidOrchestration
      end
  end.

Definition decideChildStep : Decided :=
  match in_children i !! step_Name step with
  | None =>
      transition <~ NewChildSchedule (mkChildScheduleSpec (od_TransitionID spec) (od_WorkID spec) (od_ChildID spec) i
          (od_Definition spec) (step_Name step) (od_DecidedAt spec) (od_Deadline spec) (od_Input spec)
          (od_TenantID spec) (od_CorrelationID spec))
        else ErrInvalidOrchestration;
      Ok (Some (mkDecision OrchestrationScheduled (step_Name step) transition))
  | Some progress =>
      match hp_status progress with
      | ChildScheduled => waiting (step_Name step)
      | ChildStartRunning | ChildActive | ChildStartUnknownStatus | ChildStartRetryWaiting => waiting (step_Name step)
      | ChildStartFailedStatus =>
          if hp_retryable progress && (hp_attempt progress <? MaxAttempts (step_Retry step)) then waiting (step_Name step)
          else decided (orchestrationTerminal spec OrchestrationFailed (step_Name step))
      | ChildSucceeded => Ok None
      | ChildFailed => decided (orchestrationTerminal spec OrchestrationFailed (step_Name step))
      | ChildProgressUndeclared => Err ErrInvalidOrchestration
      end
  end.

(** The race loop: the earliest received branch, ties to the first declared. *)
Fixpoint raceWinner (branches : list string) (winner : string) (winnerAt : Time) : string :=
  match branches with
  | [] => winner
  | branchName :: rest =>
      match in_signals i !! branchName with
      | Some progress =>
          if IsZero winnerAt || Before (sp_receivedAt progress) winnerAt
          then raceWinner rest branchName (sp_receivedAt progress)
          else raceWinner rest winner winnerAt
      | None => raceWinner rest winner winnerAt
      end
  end.

Definition decideRaceStep : Decided :=
  match in_races i !! step_Name step with
  | Some _ => Ok None
  | None =>
      let winner := raceWinner (step_Branches step) "" zeroTime in
      if bool_decide (winner = EmptyString) then waiting (step_Name step) else
      event <~ NewHistoryEvent (step_event (u64 (in_sequence i + 1)) (in_id i) EventRaceWon (od_DecidedAt spec)
          (step_Name step) 0 "" zeroTime "" false (Some winner))
        else ErrInvalidOrchestration;
      transition <~ NewTransition (mkTransitionSpec (od_TransitionID spec) (in_id i) (in_sequence i) (in_definition i) [event] [])
        else ErrInvalidOrchestration;
      Ok (Some (mkDecision OrchestrationRecorded (step_Name step) transition))
  end.

(** The parallel loop: an early return, or the number of branches without progress. *)
Fixpoint parallelBranches (branches : list string) (missing : Z) : result (OrchestrationDecision + Z) :=
  match branches with
  | [] => Ok (inr missing)
  | branchName :: rest =>
      match in_activities i !! branchName with
      | None => parallelBranches rest (missing + 1)
      | Some progress =>
          match ap_status progress with
          | ActivityProgressSucceeded => parallelBranches rest missing
          | ActivityProgressFailed =>
              let branch := default zeroStep (definitionActivityStep (od_Definition spec) branchName) in
              if ap_retryable progress && (ap_attempt progress <? MaxAttempts (step_Retry branch))
              then Ok (inl (orchestrationWait (step_Name step)))
              else decision ← orchestrationTerminal spec OrchestrationFailed branchName; Ok (inl decision)
          | ActivityProgressReady | ActivityProgressRunning | ActivityProgressUnknown | ActivityProgressRetryWaiting =>
              Ok (inl (orchestrationWait (step_Name step)))
          | ActivityProgressUndeclared => Err ErrInvalidOrchestration
          end
      end
  end.

Fixpoint collectBranches (specs : list OrchestrationBranchSpec) (branches : gmap string OrchestrationBranchSpec)
    : result (gmap string OrchestrationBranchSpec) :=
  match specs with
  | [] => Ok branches
  | branch :: rest =>
      reject bool_decide (is_Some (branches !! ob_StepName branch)) with ErrInvalidOrchestration;
      collectBranches rest (<[ob_StepName branch := branch]> branches)
  end.

(** The loop that builds one event and one work item per branch. *)
Fixpoint branchPlans (branches : gmap string OrchestrationBranchSpec) (index : Z) (names : list string)
    : result (list HistoryEvent * list PendingWork) :=
  match names with
  | [] => Ok ([], [])
  | branchName :: rest =>
      match branches !! branchName with
      | None => Err ErrInvalidOrchestration
      | Some branchSpec =>
          match definitionActivityStep (od_Definition spec) branchName with
          | None => Err ErrInvalidOrchestration
          | Some branchStep =>
              reject negb (instanceIDPattern (ob_IdempotencyKey branchSpec))
                || (step_InputLimit branchStep <? blen (ob_Input branchSpec)) with ErrInvalidOrchestration;
              event <~ NewHistoryEvent (step_event (u64 (u64 (in_sequence i + index) + 1)) (in_id i) EventActivityScheduled
                  (od_DecidedAt spec) branchName 0 "" zeroTime "" false (ob_Input branchSpec))
                else ErrInvalidOrchestration;
              work <~ NewPendingWork (mkWorkSpec (ob_WorkID branchSpec) WorkActivity (in_id i) (ev_sequence event)
                  (od_DecidedAt spec) (od_Deadline spec) (encodeActivityDispatch branchName 1 (ob_IdempotencyKey branchSpec))
                  (od_TenantID spec) (od_CorrelationID spec))
                else ErrInvalidOrchestration;
              plans ← branchPlans branches (index + 1) rest;
              Ok (event :: plans.1, work :: plans.2)
          end
      end
  end.

Definition newParallelActivitySchedule : result Transition :=
  branches ← collectBranches (od_Branches spec) ∅;
  reject negb (Z.of_nat (size branches) =? Z.of_nat (length (step_Branches step))) with ErrInvalidOrchestration;
  plans ← branchPlans branches 0 (step_Branches step);
  map_err ErrInvalidOrchestration
    (NewTransition (mkTransitionSpec (od_TransitionID spec) (in_id i) (in_sequence i) (in_definition i) plans.1 plans.2)).

Definition decideParallelStep : Decided :=
  loop ← parallelBranches (step_Branches step) 0;
  match loop with
  | inl decision => Ok (Some decision)
  | inr missing =>
      if missing =? 0 then Ok None else
      reject negb (missing =? Z.of_nat (length (step_Branches step))) with ErrInvalidOrchestration;
      transition <~ newParallelActivitySchedule else ErrInvalidOrchestration;
      Ok (Some (mkDecision OrchestrationScheduled (step_Name step) transition))
  end.

Fixpoint joinBranches (branches : list string) : Decided :=
  match branches with
  | [] => Ok None
  | branchName :: rest =>
      let progress := default zeroActivityProgress (in_activities i !! branchName) in
      if bool_decide (ap_status progress = ActivityProgressSucceeded) then joinBranches rest
      else waiting (step_Name step)
  end.

Definition decideJoinStep : Decided := joinBranches (step_Branches step).

(** The switch of the loop over the steps. *)
Definition decideStep : Decided :=
  match step_Kind step with
  | StepActivity => decideActivityStep
  | StepTimer => decideTimerStep
  | StepSignal | StepApproval =>
      if bool_decide (is_Some (in_signals i !! step_Name step)) then Ok None else waiting (step_Name step)
  | StepParallel => decideParallelStep
  | StepJoin => decideJoinStep
  | StepRace => decideRaceStep
  | StepChild => decideChildStep
  | StepKindUndeclared => Err ErrInvalidOrchestration
  end.
End Decide.

(** [orchestrationBranchMembers] *)
Definition orchestrationBranchMembers (steps : list StepSpec) : gset string :=
  foldl (fun members step =>
    match step_Kind step with
    | StepParallel | StepRace => list_to_set (step_Branches step) ∪ members
    | _ => members
    end) ∅ steps.

Definition orchestrationBranchLeaf (kind : StepKind) : bool :=
  match kind with
  | StepParallel | StepJoin | StepRace => false
  | _ => true
  end.

Fixpoint decideSteps (spec : OrchestrationDecisionSpec) (branchMembers : gset string) (steps : list StepSpec)
    : result OrchestrationDecision :=
  match steps with
  | [] => orchestrationTerminal spec OrchestrationCompleted ""
  | step :: rest =>
      if bool_decide (step_Name step ∈ branchMembers) && orchestrationBranchLeaf (step_Kind step)
      then decideSteps spec branchMembers rest
      else
        outcome ← decideStep spec step;
        match outcome with
        | Some decision => Ok decision
        | None => decideSteps spec branchMembers rest
        end
  end.

Definition NewOrchestrationDecision (spec : OrchestrationDecisionSpec) : result OrchestrationDecision :=
  reject negb (bool_decide (def_Mode (od_Definition spec) = Orchestration))
    || negb (bool_decide (Reference (od_Definition spec) = in_definition (od_Instance spec)))
    || negb (bool_decide (in_status (od_Instance spec) = StatusRunning)) with ErrInvalidOrchestration;
  let steps := Steps (od_Definition spec) in
  decideSteps spec (orchestrationBranchMembers steps) steps.

(** ** Which step is decided *)

(** A step whose progress lets the decision move on. *)
Definition succeeded (i : Instance_) (name : string) : Prop :=
  exists p, in_activities i !! name = Some p /\ ap_status p = ActivityProgressSucceeded.

Definition step_done (i : Instance_) (step : StepSpec) : Prop :=
  match step_Kind step with
  | StepActivity => succeeded i (step_Name step)
  | StepTimer => exists p, in_timers i !! step_Name step = Some p /\ tp_status p = TimerFired
  | StepSignal | StepApproval => is_Some (in_signals i !! step_Name step)
  | StepParallel | StepJoin => Forall (succeeded i) (step_Branches step)
  | StepRace => is_Some (in_races i !! step_Name step)
  | StepChild => exists p, in_children i !! step_Name step = Some p /\ hp_status p = ChildSucceeded
  | StepKindUndeclared => False
  end.

(** The branch leaves, which their control step decides. *)
Definition skipped (members : gset string) (step : StepSpec) : Prop :=
  step_Name step ∈ members /\ orchestrationBranchLeaf (step_Kind step) = true.

Lemma decided_Some r outcome : decided r = Ok outcome -> exists decision, r = Ok decision /\ outcome = Some decision.
Proof. unfold decided. destruct r as [x |]; [| done]. cbn. intros [= <-]. by exists x. Qed.

Section Loops.
Context (spec : OrchestrationDecisionSpec) (step : StepSpec).
Let i : Instance_ := od_Instance spec.

Lemma parallelBranches_missing branches : forall missing n,
  parallelBranches spec step branches missing = Ok (inr n) ->
  missing <= n <= missing + Z.of_nat (length branches)
  /\ (n = missing -> Forall (succeeded i) branches)
  /\ (n = missing + Z.of_nat (length branches) -> Forall (fun b => in_activities i !! b = None) branches).
Proof.
  induction branches as [| b l IH]; intros missing n; cbn [parallelBranches length].
  { intros [= <-]. split_and!; [lia | lia | intros _; constructor | intros _; constructor]. }
  fold i. destruct (in_activities i !! b) as [p |] eqn:Hp.
  - destruct (ap_status p) eqn:Hst; try done.
    + intros (Hr & Hs & Hn)%IH. split_and!; [lia | lia | | lia].
      intros He. constructor; [by exists p | by apply Hs].
    + destruct (_ && _); [done |]. by destruct (orchestrationTerminal _ _ _).
  - intros (Hr & Hs & Hn)%IH. split_and!; [lia | lia | lia |].
    intros He. constructor; [done | apply Hn; lia].
Qed.

Lemma parallelBranches_done branches : forall missing,
  Forall (succeeded i) branches -> parallelBranches spec step branches missing = Ok (inr missing).
Proof.
  induction branches as [| b l IH]; intros missing; cbn [parallelBranches]; [done |].
  intros [(p & Hp & Hst) Hl]%Forall_cons. fold i. rewrite Hp, Hst. by apply IH.
Qed.

Lemma joinBranches_done branches : joinBranches spec step branches = Ok None <-> Forall (succeeded i) branches.
Proof.
  induction branches as [| b l IH]; cbn [joinBranches]; [done |]. rewrite Forall_cons, <- IH. fold i.
  unfold succeeded. destruct (in_activities i !! b) as [p |]; cbn [default from_option id].
  - case_bool_decide as Hst; [naive_solver |]. split; [done |]. intros [(q & [= <-] & Hq) _]. done.
  - rewrite bool_decide_eq_false_2 by done. split; [done |]. by intros [(q & [=] & _) _].
Qed.

Lemma decideStep_done : decideStep spec step = Ok None <-> step_done i step.
Proof.
  unfold decideStep, step_done. destruct (step_Kind step).
  - unfold decideActivityStep, succeeded. fold i. destruct (in_activities i !! step_Name step) as [p |].
    + destruct (ap_status p) eqn:Hst; unfold waiting; split; try done; try (intros (? & [= <-] & ?); congruence).
      * by exists p.
      * destruct (_ && _); [done |]. intros (? & _ & [=])%decided_Some.
    + destruct (NewActivitySchedule _); split; try done; by intros (? & [=] & _).
  - fold i. case_bool_decide as Hs; [done |]. by unfold waiting.
  - unfold decideTimerStep. fold i. destruct (in_timers i !! step_Name step) as [p |].
    + destruct (tp_status p) eqn:Hst; unfold waiting; split; try done; try (intros (? & [= <-] & ?); congruence).
      by exists p.
    + destruct (NewTimerSchedule _); split; try done; by intros (? & [=] & _).
  - unfold decideChildStep. fold i. destruct (in_children i !! step_Name step) as [p |].
    + destruct (hp_status p) eqn:Hst; unfold waiting; split; try done; try (intros (? & [= <-] & ?); congruence).
      * by exists p.
      * by intros (? & _ & [=])%decided_Some.
      * destruct (_ && _); [done |]. by intros (? & _ & [=])%decided_Some.
    + destruct (NewChildSchedule _); split; try done; by intros (? & [=] & _).
  - unfold decideParallelStep. split.
    + destruct (parallelBranches _ _ _ 0) as [[d | n] |] eqn:E; cbn [mbind result_bind]; try done.
      destruct (Z.eqb_spec n 0) as [-> | Hn].
      * intros _. by apply parallelBranches_missing in E as (_ & Hs & _); apply Hs.
      * destruct (negb _); [done |]. by destruct (newParallelActivitySchedule _ _).
    + intros Hs. rewrite parallelBranches_done by done. done.
  - apply joinBranches_done.
  - unfold decideRaceStep. fold i. destruct (in_races i !! step_Name step) as [p |]; [split; [by eexists | done] |].
    split; [| by intros [? [=]]]. case_bool_decide; [done |].
    destruct (NewHistoryEvent _) as [e |]; cbn; [| done]. by destruct (NewTransition _).
  - fold i. case_bool_decide as Hs; [done |]. by unfold waiting.
  - done.
Qed.
End Loops.

(** The decision of the loop: the terminal completion when every step is done, and
    otherwise the outcome of the first step that is not. *)
Definition first_open (spec : OrchestrationDecisionSpec) (members : gset string) (steps : list StepSpec)
    (decision : OrchestrationDecision) : Prop :=
  (Forall (fun s => skipped members s \/ step_done (od_Instance spec) s) steps
   /\ orchestrationTerminal spec OrchestrationCompleted "" = Ok decision)
  \/ exists pre step post, steps = pre ++ step :: post
     /\ Forall (fun s => skipped members s \/ step_done (od_Instance spec) s) pre
     /\ ~ skipped members step /\ ~ step_done (od_Instance spec) step
     /\ decideStep spec step = Ok (Some decision).

Lemma decideSteps_inv spec members steps decision :
  decideSteps spec members steps = Ok decision -> first_open spec members steps decision.
Proof.
  induction steps as [| s l IH]; cbn [decideSteps]; [intros H; left; split; [constructor | done] |].
  assert (Hrec : skipped members s \/ step_done (od_Instance spec) s -> decideSteps spec members l = Ok decision ->
    first_open spec members (s :: l) decision).
  { intros Hs [[Hl Ht] | (pre & step & post & -> & Hpre & H)]%IH.
    - left. split; [by constructor | done].
    - right. exists (s :: pre), step, post. split_and!; [done | by constructor | apply H ..]. }
  destruct (bool_decide (step_Name s ∈ members) && orchestrationBranchLeaf (step_Kind s)) eqn:Hskip.
  - apply andb_true_iff in Hskip as [Hm%bool_decide_eq_true Hleaf]. apply Hrec. by left.
  - destruct (decideStep spec s) as [[d |] |] eqn:E; cbn [mbind result_bind]; [| | done].
    + intros [= <-]. right. exists [], s, l. split_and!; [done | constructor | | | done].
      * intros [Hm Hl]. by rewrite bool_decide_eq_true_2, Hl in Hskip.
      * rewrite <- decideStep_done, E. done.
    + apply Hrec. right. by apply decideStep_done.
Qed.

(** ** What a decision on a step says *)

(** A known failure the retry policy does not cover (any more). *)
Definition exhausted (i : Instance_) (step : StepSpec) (name : string) : Prop :=
  exists p, in_activities i !! name = Some p /\ ap_status p = ActivityProgressFailed
    /\ (ap_retryable p = false \/ MaxAttempts (step_Retry step) <= ap_attempt p).

Definition step_failed (d : Definition_) (i : Instance_) (step : StepSpec) : Prop :=
  match step_Kind step with
  | StepActivity => exhausted i step (step_Name step)
  | StepParallel => exists b, b ∈ step_Branches step /\ exhausted i (default zeroStep (definitionActivityStep d b)) b
  | StepChild => exists p, in_children i !! step_Name step = Some p
      /\ (hp_status p = ChildFailed
          \/ (hp_status p = ChildStartFailedStatus
              /\ (hp_retryable p = false \/ MaxAttempts (step_Retry step) <= hp_attempt p)))
  | _ => False
  end.

(** The step of a decision, its kind and what each kind entails. *)
Record decision_on (spec : OrchestrationDecisionSpec) (step : StepSpec) (decision : OrchestrationDecision) : Prop := {
  do_not_completed : dn_kind decision <> OrchestrationCompleted;
  do_name : dn_stepName decision = step_Name step \/ dn_stepName decision ∈ step_Branches step;
  do_planned : dn_kind decision = OrchestrationScheduled \/ dn_kind decision = OrchestrationRecorded ->
    dn_stepName decision = step_Name step;
  do_waiting : dn_kind decision = OrchestrationWaiting -> dn_transition decision = zeroTransition;
  do_failed : dn_kind decision = OrchestrationFailed ->
    step_failed (od_Definition spec) (od_Instance spec) step
    /\ orchestrationTerminal spec OrchestrationFailed (dn_stepName decision) = Ok decision
}.

Lemma orchestrationTerminal_kind spec kind name decision :
  orchestrationTerminal spec kind name = Ok decision -> dn_kind decision = kind /\ dn_stepName decision = name.
Proof.
  unfold orchestrationTerminal. intros H. cbn zeta in H. destruct (NewHistoryEvent _) as [e |]; [| done].
  cbn in H. destruct (NewTransition _); [| done]. by injection H as <-.
Qed.

Section Kinds.
Context (spec : OrchestrationDecisionSpec) (step : StepSpec).
Let i : Instance_ := od_Instance spec.

Lemma waiting_on name : name = step_Name step -> decision_on spec step (orchestrationWait name).
Proof. intros ->. split; [done | by left | done | done | done]. Qed.

Lemma planned_on kind transition :
  kind = OrchestrationScheduled \/ kind = OrchestrationRecorded ->
  decision_on spec step (mkDecision kind (step_Name step) transition).
Proof. intros [-> | ->]; (split; [done | by left | done | done | done]). Qed.

Lemma failed_on name decision :
  name = step_Name step \/ name ∈ step_Branches step -> step_failed (od_Definition spec) i step ->
  orchestrationTerminal spec OrchestrationFailed name = Ok decision -> decision_on spec step decision.
Proof.
  intros Hn Hf Ht. pose proof (orchestrationTerminal_kind _ _ _ _ Ht) as [Hk Hname].
  split; rewrite ?Hk, ?Hname; [done | done | by intros [] | done | done].
Qed.

Lemma retry_guard (retryable : bool) attempt max :
  retryable && (attempt <? max) = false -> retryable = false \/ max <= attempt.
Proof. intros H. bool_norm. destruct_or?; auto. Qed.

Lemma parallelBranches_on branches missing decision :
  (forall b, b ∈ branches -> b ∈ step_Branches step) -> step_Kind step = StepParallel ->
  parallelBranches spec step branches missing = Ok (inl decision) -> decision_on spec step decision.
Proof.
  intros Hsub Hk. revert missing. induction branches as [| b l IH]; intros missing; cbn [parallelBranches]; [done |].
  assert (IH' : forall missing, parallelBranches spec step l missing = Ok (inl decision) -> decision_on spec step decision).
  { apply IH. intros x Hx. apply Hsub. by right. }
  fold i. destruct (in_activities i !! b) as [p |] eqn:Hp; [| apply IH'].
  destruct (ap_status p) eqn:Hst; try done.
  - intros [= <-]. by apply waiting_on.
  - intros [= <-]. by apply waiting_on.
  - apply IH'.
  - destruct (_ && _) eqn:Hr; [intros [= <-]; by apply waiting_on |].
    destruct (orchestrationTerminal _ _ _) as [d |] eqn:Ht; [| done]. intros [= <-].
    apply (failed_on b); [right; apply Hsub; by left | | done].
    unfold step_failed. rewrite Hk. exists b. split; [apply Hsub; by left |]. exists p. by apply retry_guard in Hr.
  - intros [= <-]. by apply waiting_on.
  - intros [= <-]. by apply waiting_on.
Qed.

Lemma joinBranches_waits branches decision :
  joinBranches spec step branches = Ok (Some decision) -> decision = orchestrationWait (step_Name step).
Proof.
  induction branches as [| b l IH]; cbn [joinBranches]; [done |].
  destruct (bool_decide _); [done |]. by intros [= <-].
Qed.

Lemma parallelBranches_plans_nothing branches : forall missing decision,
  parallelBranches spec step branches missing = Ok (inl decision) ->
  dn_kind decision = OrchestrationWaiting \/ dn_kind decision = OrchestrationFailed.
Proof.
  induction branches as [| b l IH]; intros missing decision; cbn [parallelBranches]; [done |].
  destruct (in_activities _ !! b) as [p |]; [| apply IH].
  destruct (ap_status p); try done; try apply IH; try (intros [= <-]; by left).
  destruct (_ && _); [intros [= <-]; by left |].
  destruct (orchestrationTerminal _ _ _) as [x |] eqn:Ht; [| done]. intros [= <-].
  apply orchestrationTerminal_kind in Ht as [-> _]. by right.
Qed.

Lemma decideStep_on decision : decideStep spec step = Ok (Some decision) -> decision_on spec step decision.
Proof.
  unfold decideStep. destruct (step_Kind step) eqn:Hk.
  - unfold decideActivityStep. fold i. destruct (in_activities i !! step_Name step) as [p |] eqn:Hp.
    + destruct (ap_status p) eqn:Hst; try done; try (intros [= <-]; by apply waiting_on).
      destruct (_ && _) eqn:Hr; [intros [= <-]; by apply waiting_on |].
      intros (d & Ht & [= <-])%decided_Some. apply (failed_on (step_Name step)); [by left | | done].
      unfold step_failed. rewrite Hk. exists p. by apply retry_guard in Hr.
    + destruct (NewActivitySchedule _); [| done]. intros [= <-]. apply planned_on. by left.
  - destruct (bool_decide _); [done |]. intros [= <-]. by apply waiting_on.
  - unfold decideTimerStep. fold i. destruct (in_timers i !! step_Name step) as [p |].
    + destruct (tp_status p); try done. intros [= <-]. by apply waiting_on.
    + destruct (NewTimerSchedule _); [| done]. intros [= <-]. apply planned_on. by left.
  - unfold decideChildStep. fold i. destruct (in_children i !! step_Name step) as [p |] eqn:Hp.
    + destruct (hp_status p) eqn:Hst; try done; try (intros [= <-]; by apply waiting_on).
      * intros (d & Ht & [= <-])%decided_Some. apply (failed_on (step_Name step)); [by left | | done].
        unfold step_failed. rewrite Hk. exists p. auto.
      * destruct (_ && _) eqn:Hr; [intros [= <-]; by apply waiting_on |].
        intros (d & Ht & [= <-])%decided_Some. apply (failed_on (step_Name step)); [by left | | done].
        unfold step_failed. rewrite Hk. exists p. apply retry_guard in Hr. auto.
    + destruct (NewChildSchedule _); [| done]. intros [= <-]. apply planned_on. by left.
  - unfold decideParallelStep. destruct (parallelBranches _ _ _ 0) as [[d | n] |] eqn:E; cbn [mbind result_bind]; try done.
    + intros [= <-]. by eapply parallelBranches_on.
    + destruct (n =? 0); [done |]. destruct (negb _); [done |].
      destruct (newParallelActivitySchedule _ _); [| done]. intros [= <-]. apply planned_on. by left.
  - intros ->%joinBranches_waits. by apply waiting_on.
  - unfold decideRaceStep. destruct (in_races _ !! _); [done |].
    destruct (bool_decide _); [intros [= <-]; by apply waiting_on |].
    destruct (NewHistoryEvent _) as [e |]; cbn; [| done]. destruct (NewTransition _); [| done].
    intros [= <-]. apply planned_on. by right.
  - destruct (bool_decide _); [done |]. intros [= <-]. by apply waiting_on.
  - done.
Qed.
End Kinds.

(** ** The race *)

Section Race.
Context (spec : OrchestrationDecisionSpec).
Let i : Instance_ := od_Instance spec.

(** [w], received at [at], is the earliest received branch of [done], and the first
    declared of those received at that instant; or nothing has been received. *)
Definition race_best (done : list string) (w : string) (at_ : Time) : Prop :=
  (w = EmptyString /\ at_ = zeroTime /\ Forall (fun b => in_signals i !! b = None) done)
  \/ (exists pre post p, done = pre ++ w :: post /\ in_signals i !! w = Some p /\ sp_receivedAt p = at_
      /\ (forall b q, b ∈ done -> in_signals i !! b = Some q -> instant_ltb (sp_receivedAt q) at_ = false)
      /\ (forall b q, b ∈ pre -> in_signals i !! b = Some q -> instant_ltb at_ (sp_receivedAt q) = true)).

Lemma instant_ltb_gap a b c : instant_ltb a b = true -> instant_ltb c b = false -> instant_ltb a c = true.
Proof. unfold instant_ltb. intros H1 H2. bool_norm. destruct_or?; destruct_and?; bool_norm; lia. Qed.

Lemma raceWinner_best : map_Forall signal_wf (in_signals i) -> forall rest done w at_,
  race_best done w at_ -> exists at', race_best (done ++ rest) (raceWinner spec rest w at_) at'.
Proof.
  intros Hwf rest. induction rest as [| b rest IH]; intros done w at_ Hb; cbn [raceWinner].
  { rewrite app_nil_r. eauto. }
  replace (done ++ b :: rest) with ((done ++ [b]) ++ rest) by (by rewrite <- app_assoc). fold i.
  destruct (in_signals i !! b) as [q |] eqn:Hq.
  - pose proof (Hwf _ _ Hq) as (_ & _ & _ & Hcan & Hnz).
    destruct Hb as [(-> & -> & Hnone) | (pre & post & p & -> & Hp & <- & Hmin & Hpre)].
    + apply IH. right. exists done, [], q. split_and!; try done.
      * intros x y [Hx | ->%list_elem_of_singleton]%elem_of_app Hy.
        { rewrite Forall_forall in Hnone. rewrite (Hnone _ Hx) in Hy. done. }
        rewrite Hq in Hy. injection Hy as <-. apply instant_ltb_irrefl.
      * intros x y Hx Hy. rewrite Forall_forall in Hnone. by rewrite (Hnone _ Hx) in Hy.
    + pose proof (Hwf _ _ Hp) as (_ & _ & _ & Hcanp & Hnzp). rewrite Hnzp, Before_canonical_r by done. cbn [orb].
      destruct (instant_ltb (sp_receivedAt q) (sp_receivedAt p)) eqn:Hlt; apply IH; right.
      * exists (pre ++ w :: post), [], q. split_and!; try done.
        -- intros x y [Hx | ->%list_elem_of_singleton]%elem_of_app Hy.
           { apply not_true_iff_false. intros H. pose proof (Hmin _ _ Hx Hy) as Hm.
             pose proof (instant_ltb_gap _ _ _ Hlt Hm) as Hg. unfold instant_ltb in H, Hg. bool_norm.
             destruct_or?; destruct_and?; bool_norm; lia. }
           rewrite Hq in Hy. injection Hy as <-. apply instant_ltb_irrefl.
        -- intros x y Hx Hy. eapply instant_ltb_gap; [exact Hlt |]. by eapply Hmin.
      * exists pre, (post ++ [b]), p. split_and!; try done.
        -- by rewrite <- app_assoc.
        -- intros x y [Hx | ->%list_elem_of_singleton]%elem_of_app Hy; [by eapply Hmin |].
           rewrite Hq in Hy. by injection Hy as <-.
  - apply IH. destruct Hb as [(-> & -> & Hnone) | (pre & post & p & -> & Hp & Hat & Hmin & Hpre)].
    + left. split_and!; [done | done |]. apply Forall_app. split; [done | by constructor].
    + right. exists pre, (post ++ [b]), p. split_and!; try done.
      * by rewrite <- app_assoc.
      * intros x y [Hx | ->%list_elem_of_singleton]%elem_of_app Hy; [by eapply Hmin | congruence].
Qed.

Lemma race_winner branches :
  map_Forall signal_wf (in_signals i) -> exists at_, race_best branches (raceWinner spec branches "" zeroTime) at_.
Proof. intros Hwf. apply (raceWinner_best Hwf branches [] ""%string zeroTime). left. by split_and!. Qed.

Lemma race_winner_received branches :
  map_Forall signal_wf (in_signals i) -> raceWinner spec branches "" zeroTime <> EmptyString ->
  raceWinner spec branches "" zeroTime ∈ branches /\ is_Some (in_signals i !! raceWinner spec branches "" zeroTime).
Proof.
  intros Hwf Hne. destruct (race_winner branches Hwf) as (at_ & [[? _] | (pre & post & p & Hb & Hp & _)]); [done |].
  split; [| by eexists]. set (w := raceWinner _ _ _ _) in *. clearbody w. rewrite Hb. set_solver.
Qed.
End Race.

(** ** Every plan of a decision commits *)

Lemma find_step_In steps step :
  NoDup (map step_Name steps) -> step ∈ steps -> find_step (step_Name step) (step_Kind step) steps = Some step.
Proof.
  intros Hnd Hin. destruct (find_step (step_Name step) (step_Kind step) steps) as [s |] eqn:E.
  - apply find_step_Some in E as (Hs & Hn & _). f_equal. by eapply NoDup_map_unique.
  - exfalso. revert E Hin. clear Hnd. induction steps as [| s l IH]; [by intros _ ?%elem_of_nil |]. cbn [find_step].
    destruct (bool_decide _ && _) eqn:E; [done |]. intros Hl [-> | Hin]%elem_of_cons; [| by apply IH].
    by rewrite !bool_decide_eq_true_2 in E.
Qed.

(** The situation of a decision: the replayed instance of a committed history, its
    registered definition, and a decision time not before the last event. *)
Record decidable (registry : option Registry) (es : list HistoryEvent) (spec : OrchestrationDecisionSpec) : Prop := {
  dc_committed : committed registry es (od_Instance spec);
  dc_registered : registered registry (od_Definition spec);
  dc_pins : pins_resolve registry (od_Definition spec);
  dc_steps : steps_wf (ds_Steps (def_spec (od_Definition spec)));
  dc_time : Before (od_DecidedAt spec) (in_updatedAt (od_Instance spec)) = false
}.

Section Commits.
Context (registry : option Registry) (es : list HistoryEvent) (spec : OrchestrationDecisionSpec).
Let i : Instance_ := od_Instance spec.
Let d : Definition_ := od_Definition spec.
Hypothesis Hdec : decidable registry es spec.
Hypothesis Href : Reference d = in_definition i.
Hypothesis Hst : in_status i = StatusRunning.

Lemma terminal_commits kind name decision :
  orchestrationTerminal spec kind name = Ok decision ->
  exists i', commits registry es i (dn_transition decision) i'
    /\ in_status i' = (if bool_decide (kind = OrchestrationFailed) then StatusFailed else StatusCompleted).
Proof.
  destruct Hdec as [Hc _ _ _ Ht]. unfold orchestrationTerminal. fold i. cbn zeta.
  set (failed := bool_decide (kind = OrchestrationFailed)). clearbody failed. intros H. open_plan H.
  apply (next_event_new registry es i) in Hmade as [Hn ->]; [| done | done | done | done | done].
  set (e := event_of _) in *. injection H as <-. cbn [dn_transition].
  assert (Hkind : ev_kind e = if failed then EventInstanceFailed else EventInstanceCompleted) by done. clearbody e.
  set (status := if failed then _ else _).
  assert (Hm : applyKind registry i e = Ok (set_result (set_status i status) (cloneBytes (ev_data e)))).
  { unfold applyKind. rewrite Hkind. subst status. destruct failed; by rewrite Hst. }
  apply (f_equal (map_err ErrInvalidOrchestration)) in Hmade0. cbn [map_err] in Hmade0.
  eapply commits_single in Hmade0 as [Hcm _];
    [| exact Hc | exact Hn | done | by rewrite Hst | rewrite Hkind; by destruct failed | exact Hm].
  eexists. split; [exact Hcm |]. by rewrite finish_status.
Qed.

Lemma step_found step : step ∈ ds_Steps (def_spec d) -> definitionStep d (step_Name step) (step_Kind step) = Some step.
Proof. intros Hin. apply find_step_In; [apply Hdec | done]. Qed.

Lemma race_commits step decision :
  step ∈ ds_Steps (def_spec d) -> step_Kind step = StepRace ->
  decideRaceStep spec step = Ok (Some decision) -> dn_kind decision <> OrchestrationWaiting ->
  exists i' p, commits registry es i (dn_transition decision) i'
    /\ in_races i' = <[step_Name step := p]> (in_races i)
    /\ rp_winnerStepName p = raceWinner spec (step_Branches step) "" zeroTime.
Proof.
  destruct Hdec as [Hc Hreg _ _ Ht]. intros Hin Hk H Hw. unfold decideRaceStep in H. fold i in H.
  destruct (in_races i !! step_Name step) eqn:Hnone; [done |]. cbn zeta in H.
  pose proof (race_winner_received spec (step_Branches step) (wf_signals _ (committed_progress _ _ _ Hc))) as Hrec.
  set (winner := raceWinner _ _ _ _) in *. clearbody winner.
  case_bool_decide as Hne; [by injection H as <- |]. destruct (Hrec Hne) as [Hb Hs]. open_plan H.
  apply (next_event_new registry es i) in Hmade as [Hn ->]; [| done | cbn; lia | done | done | done].
  set (e := event_of _) in *. injection H as <-. cbn [dn_transition].
  assert (Hd : bstr (ev_data e) = winner) by done. assert (Hsn : ev_stepName e = step_Name step) by done.
  assert (Hkind : ev_kind e = EventRaceWon) by done. clearbody e.
  assert (Hm : applyKind registry i e
    = Ok (set_race i (step_Name step) (mkRaceProgress (step_Name step) winner (ev_occurredAt e)))).
  { unfold applyKind. rewrite Hkind. apply applyRace_iff. rewrite (registered_pinned registry d) by done.
    exists step. rewrite Hd, Hsn, <- Hk. split_and!; [by apply step_found | done .. |]. done. }
  apply (f_equal (map_err ErrInvalidOrchestration)) in Hmade0. cbn [map_err] in Hmade0.
  eapply commits_single in Hmade0 as [Hcm _];
    [| exact Hc | exact Hn | done | by rewrite Hst | by rewrite Hkind | exact Hm].
  eexists _, _. split; [exact Hcm |]. split; [apply finish_race | done].
Qed.

(** The events of a parallel schedule, one after the other. *)
Lemma branchPlans_committed branches names : forall index es' i' events work,
  branchPlans spec branches index names = Ok (events, work) ->
  committed registry es' i' -> in_sequence i' = in_sequence i + index -> 0 <= index -> in_id i' = in_id i ->
  in_definition i' = in_definition i -> in_status i' = StatusRunning ->
  Before (od_DecidedAt spec) (in_updatedAt i') = false ->
  NoDup names -> (forall b, b ∈ names -> in_activities i' !! b = None) ->
  exists i'', committed registry (es' ++ events) i'' /\ Forall event_wf events /\ Forall work_wf work
    /\ (forall b, is_Some (in_activities i'' !! b) <-> is_Some (in_activities i' !! b) \/ b ∈ names).
Proof.
  induction names as [| b names IH]; intros index es' i' events work H Hc Hsq Hix Hid Hd Hs Ht Hnd Hnone; cbn [branchPlans] in H.
  { injection H as <- <-. exists i'. rewrite app_nil_r. split_and!; try done; [constructor .. |].
    intros b. rewrite elem_of_nil. tauto. }
  open_plan H. destruct (branchPlans spec branches (index + 1) names) as [[events' work'] |] eqn:Hrest; [| done].
  cbn in H. injection H as <- <-. pose proof (committed_sequence _ _ _ Hc) as [_ Hr]. fold i in Hmade.
  rewrite (u64_small (in_sequence i + index)), <- Hsq in Hmade by lia.
  apply (next_event_new registry es' i') in Hmade as [Hn ->]; [| done | cbn; lia | done | done | done].
  apply NewPendingWork_wf in Hmade0. set (e := event_of _) in *.
  assert (Hkind : ev_kind e = EventActivityScheduled) by done. assert (Hsn : ev_stepName e = b) by done.
  assert (Hdata : ev_data e = ob_Input o) by done.
  assert (Hat : ev_occurredAt e = canonicalTime (od_DecidedAt spec)) by done. clearbody e.
  assert (Hm : exists p, applyKind registry i' e = Ok (set_activity i' (ev_stepName e) p)).
  { eexists. eapply (activity_plan_step registry i' d); [apply Hdec | congruence | by rewrite Hkind | by rewrite Hsn |].
    rewrite Hsn, Hnone by left. apply activity_schedule; [done | done | rewrite Hdata; lia]. }
  destruct Hm as [p Hm]. rewrite Hsn in Hm.
  pose proof (committed_extend registry es' i' e _ Hc Hn ltac:(by rewrite Hs) ltac:(by rewrite Hkind) Hm) as Hc'.
  destruct (finish_frame i' (set_activity i' b p) e) as (Fid & Fd & Fs & _).
  apply NoDup_cons in Hnd as [Hni Hnd].
  destruct (IH (index + 1) (es' ++ [e]) (advanced i' (set_activity i' b p) e) events' work') as (i'' & Hci & Hew & Hww & Hmap); try done.
  - destruct (finish_frame i' (set_activity i' b p) e) as (_ & _ & _ & _ & _ & _ & _ & _ & _ & _ & _ & -> & _).
    destruct Hn as [_ _ -> _]. lia.
  - lia.
  - by rewrite Fid.
  - by rewrite Fd.
  - by rewrite Fs.
  - rewrite finish_updatedAt, Hat, Before_canonical_r by apply canonicalTime_canonical. exact (instant_ltb_irrefl (od_DecidedAt spec)).
  - intros c Hin. rewrite finish_activity, lookup_insert_ne by (intros ->; done). apply Hnone. by right.
  - exists i''. rewrite <- app_assoc in Hci. split_and!; [done | constructor; [apply Hn | done] | by constructor |].
    intros c. rewrite Hmap, finish_activity, lookup_insert_is_Some, elem_of_cons.
    destruct (decide (c = b)) as [-> |]; naive_solver.
Qed.

Lemma parallel_commits step transition :
  step ∈ ds_Steps (def_spec d) -> step_Kind step = StepParallel ->
  Forall (fun b => in_activities i !! b = None) (step_Branches step) ->
  newParallelActivitySchedule spec step = Ok transition ->
  exists i', commits registry es i transition i'
    /\ forall b, b ∈ step_Branches step -> is_Some (in_activities i' !! b).
Proof.
  destruct Hdec as [Hc Hreg _ Hw Ht]. intros Hin Hk Hnone H. unfold newParallelActivitySchedule in H.
  destruct (collectBranches (od_Branches spec) ∅) as [branches |]; [| done]. cbn [mbind result_bind] in H.
  destruct (negb _) in H; [done |].
  destruct (branchPlans spec branches 0 (step_Branches step)) as [[events work] |] eqn:Hp; [| done].
  cbn [fst snd mbind result_bind] in H. fold i in H.
  assert (Hnd : NoDup (step_Branches step)).
  { apply validBranchNames_NoDup, (validateStep_control step); [| by rewrite Hk].
    pose proof (wf_steps _ Hw) as Hs. rewrite Forall_forall in Hs. by apply Hs. }
  rewrite Forall_forall in Hnone.
  destruct (branchPlans_committed branches (step_Branches step) 0 es i events work) as (i' & Hci & Hew & Hww & Hmap);
    try done; [lia |].
  exists i'. split; [| intros b Hb; apply Hmap; by right].
  destruct (NewTransition _) as [tr |] eqn:E; [| done]. cbn [map_err] in H. injection H as <-.
  pose proof (committed_sequence _ _ _ Hc) as [_ Hr]. fold i in Hr.
  apply NewTransition_inv in E as [Hv ->]. split; [| split_and!; done].
  apply (transition_valid_wf (mkTransition (od_TransitionID spec) (in_id i) (in_sequence i) (in_definition i) events work ""))
    in Hv as []; [by split | done | done | cbn; lia].
Qed.

(** A step some progress is recorded for. *)
Definition opened (i : Instance_) (step : StepSpec) : Prop :=
  match step_Kind step with
  | StepActivity => is_Some (in_activities i !! step_Name step)
  | StepTimer => is_Some (in_timers i !! step_Name step)
  | StepParallel => Forall (fun b => is_Some (in_activities i !! b)) (step_Branches step)
  | StepRace => is_Some (in_races i !! step_Name step)
  | StepChild => is_Some (in_children i !! step_Name step)
  | _ => False
  end.

(** What the plan of a decision on a step does. *)
Definition opens (step : StepSpec) (transition : Transition) : Prop :=
  exists i', commits registry es i transition i' /\ ~ opened i step /\ opened i' step.

Lemma None_not_Some {A} (o : option A) : o = None -> ~ is_Some o.
Proof. intros ->. apply is_Some_None. Qed.

(** A decision that waits or ends the instance plans nothing. *)
Ltac plans_nothing H Hkind :=
  first [ injection H as <-
        | apply decided_Some in H as (? & H & [= <-]); apply orchestrationTerminal_kind in H as [H _]; rewrite H in Hkind ];
  by destruct Hkind.

Lemma decideStep_opens step decision :
  step ∈ ds_Steps (def_spec d) -> decideStep spec step = Ok (Some decision) ->
  dn_kind decision = OrchestrationScheduled \/ dn_kind decision = OrchestrationRecorded ->
  opens step (dn_transition decision).
Proof.
  intros Hin H Hkind. destruct Hdec as [Hc Hreg Hpins Hw Ht].
  unfold decideStep in H. unfold opens, opened. destruct (step_Kind step) eqn:Hk.
  - unfold decideActivityStep in H. fold i in H. destruct (in_activities i !! step_Name step) as [p |] eqn:Hp.
    + destruct (ap_status p); try done; try (destruct (_ && _)); plans_nothing H Hkind.
    + destruct (NewActivitySchedule _) as [tr |] eqn:E; [| done]. injection H as <-.
      apply (NewActivitySchedule_commits registry es) in E as (i' & Hcm & Hm); [| done | done].
      exists i'. split_and!; [done | by apply None_not_Some |]. rewrite Hm. cbn [as_StepName]. by rewrite lookup_insert_eq.
  - case_bool_decide; [done | plans_nothing H Hkind].
  - unfold decideTimerStep in H. fold i in H. destruct (in_timers i !! step_Name step) as [p |] eqn:Hp.
    + destruct (tp_status p); try done. plans_nothing H Hkind.
    + destruct (NewTimerSchedule _) as [tr |] eqn:E; [| done]. injection H as <-.
      apply (NewTimerSchedule_commits registry es i) in E as (i' & Hcm & q & Hm & _); [| by split | done | done | done].
      exists i'. split_and!; [done | by apply None_not_Some |]. rewrite Hm. cbn [ts_StepName]. by rewrite lookup_insert_eq.
  - unfold decideChildStep in H. fold i in H. destruct (in_children i !! step_Name step) as [p |] eqn:Hp.
    + destruct (hp_status p); try done; try (destruct (_ && _)); plans_nothing H Hkind.
    + destruct (NewChildSchedule _) as [tr |] eqn:E; [| done]. injection H as <-.
      apply (NewChildSchedule_progresses registry es) in E as (e & i' & st & p' & _ & _ & Hcm & _ & _ & Hm);
        [| done | done | intros st; apply Hpins].
      exists i'. split_and!; [done | by apply None_not_Some |]. rewrite Hm. cbn [hs_StepName]. by rewrite lookup_insert_eq.
  - unfold decideParallelStep in H. destruct (parallelBranches _ _ _ 0) as [[x | n] |] eqn:E; cbn [mbind result_bind] in H; try done.
    + injection H as <-. apply parallelBranches_plans_nothing in E. exfalso. destruct E as [E | E], Hkind; congruence.
    + destruct (Z.eqb_spec n 0) as [| Hn0]; [done |]. destruct (Z.eqb_spec n (Z.of_nat (length (step_Branches step)))) as [Hn |]; [| done].
      cbn [negb] in H. apply parallelBranches_missing in E as (_ & _ & Hnone).
      specialize (Hnone ltac:(lia)). fold i in Hnone.
      destruct (newParallelActivitySchedule _ _) as [tr |] eqn:E; [| done]. injection H as <-.
      apply parallel_commits in E as (i' & Hcm & Hm); [| done | done | done].
      exists i'. split_and!; [done | | by apply Forall_forall].
      destruct (step_Branches step) as [| b l]; [done |]. intros [Hb _]%Forall_cons.
      apply Forall_cons in Hnone as [Hb' _]. by apply (None_not_Some _ Hb').
  - unfold decideJoinStep in H. apply joinBranches_waits in H as ->. by destruct Hkind.
  - assert (Hwt : dn_kind decision <> OrchestrationWaiting) by (destruct Hkind; congruence).
    pose proof H as Hn. unfold decideRaceStep in Hn. fold i in Hn. destruct (in_races i !! step_Name step) eqn:Hnone; [done |].
    apply race_commits in H as (i' & p & Hcm & Hm & _); [| done ..].
    exists i'. split_and!; [done | done |]. rewrite Hm. by rewrite lookup_insert_eq.
  - case_bool_decide; [done | plans_nothing H Hkind].
  - done.
Qed.
End Commits.

(** The members and the steps the loop runs over. *)
Lemma decision_inv spec decision :
  NewOrchestrationDecision spec = Ok decision ->
  Reference (od_Definition spec) = in_definition (od_Instance spec) /\ in_status (od_Instance spec) = StatusRunning
  /\ first_open spec (orchestrationBranchMembers (ds_Steps (def_spec (od_Definition spec))))
       (ds_Steps (def_spec (od_Definition spec))) decision.
Proof.
  unfold NewOrchestrationDecision. destruct (_ || _ || _) eqn:G; [done |]. bool_norm. cbn zeta. rewrite Steps_spec.
  intros H%decideSteps_inv. by split_and!.
Qed.

(** A step the loop goes past: a branch leaf, or one that is done. *)
Definition past (spec : OrchestrationDecisionSpec) (step : StepSpec) : Prop :=
  skipped (orchestrationBranchMembers (ds_Steps (def_spec (od_Definition spec)))) step \/ step_done (od_Instance spec) step.

(** The first step of the definition the loop does not go past. *)
Definition first_unpast (spec : OrchestrationDecisionSpec) (step : StepSpec) : Prop :=
  exists pre post, ds_Steps (def_spec (od_Definition spec)) = pre ++ step :: post /\ Forall (past spec) pre /\ ~ past spec step.

Lemma first_unpast_In spec step : first_unpast spec step -> step ∈ ds_Steps (def_spec (od_Definition spec)).
Proof. intros (pre & post & -> & _). set_solver. Qed.

(** What the plan of any decision does. *)
Lemma decision_plans registry es spec decision :
  decidable registry es spec -> NewOrchestrationDecision spec = Ok decision ->
  match dn_kind decision with
  | OrchestrationWaiting => dn_transition decision = zeroTransition
  | OrchestrationCompleted => Forall (past spec) (ds_Steps (def_spec (od_Definition spec)))
      /\ exists i', commits registry es (od_Instance spec) (dn_transition decision) i' /\ in_status i' = StatusCompleted
  | OrchestrationFailed => (exists step, first_unpast spec step /\ step_failed (od_Definition spec) (od_Instance spec) step)
      /\ exists i', commits registry es (od_Instance spec) (dn_transition decision) i' /\ in_status i' = StatusFailed
  | OrchestrationScheduled | OrchestrationRecorded =>
      exists step, first_unpast spec step /\ dn_stepName decision = step_Name step
        /\ opens registry es spec step (dn_transition decision)
  end.
Proof.
  intros Hdec (Href & Hst & [[Hall Ht] | (pre & step & post & Hs & Hpre & Hsk & Hdone & H)])%decision_inv.
  - destruct (orchestrationTerminal_kind _ _ _ _ Ht) as [-> _]. split; [exact Hall |].
    by apply (terminal_commits registry es spec Hdec Hst) in Ht.
  - assert (Hfirst : first_unpast spec step) by (exists pre, post; split_and!; [done | done | by intros [|]]).
    pose proof (decideStep_opens registry es spec Hdec Href Hst step decision (first_unpast_In _ _ Hfirst) H) as Hop.
    pose proof (decideStep_on _ _ _ H) as [Hnc _ Hn Hw Hf]. destruct (dn_kind decision).
    + exists step. auto.
    + by apply Hw.
    + done.
    + destruct (Hf eq_refl) as [Hx Ht]. split; [by exists step |]. by apply (terminal_commits registry es spec Hdec Hst) in Ht.
    + exists step. auto.
Qed.

(** ** Samples *)

Definition flow_step (name : string) (kind : StepKind) (branches : list string) : StepSpec :=
  match kind with
  | StepActivity => mkStepSpec name kind "charge" zeroReference [] 1000 100 100 order_retry 0 None
  | StepSignal => mkStepSpec name kind "payment" zeroReference [] 1000 10 0 (mkRetryPolicy 0 0 0) 0 None
  | _ => mkStepSpec name kind "" zeroReference branches 0 0 0 (mkRetryPolicy 0 0 0) 4 None
  end.

Definition flow_spec : DefinitionSpec :=
  mkDefinitionSpec "order" "v2" Orchestration false
    [flow_step "left" StepActivity []; flow_step "right" StepActivity [];
     flow_step "card" StepSignal []; flow_step "cash" StepSignal [];
     flow_step "pick" StepRace ["card"; "cash"]%string; flow_step "fan" StepParallel ["left"; "right"]%string;
     flow_step "meet" StepJoin ["left"; "right"]%string].

Lemma flow_valid : validateDefinition flow_spec = Ok tt.
Proof. vm_compute. reflexivity. Qed.

Definition flow_definition : Definition_ := mkDefinition flow_spec sample_fingerprint.
Definition flow_registry : option Registry := Some (mkRegistry (<[("order", "v2")%string := flow_definition]> ∅) ∅).
Definition flow_instance (es : list HistoryEvent) : Instance_ := or_zero zeroInstance (Replay flow_registry es).
Definition flow_signal (sequence : Z) (step : string) : HistoryEvent :=
  order_event sequence EventSignalReceived step 0 "sig-1" zeroTime "" false None.
Definition flow_paid : list HistoryEvent :=
  order_started ++ [flow_signal 2 "cash"; flow_signal 3 "card"].
Definition flow_picked : list HistoryEvent :=
  flow_paid ++ [order_event 4 EventRaceWon "pick" 0 "" zeroTime "" false (Some "cash"%string)].

Definition flow_decide (es : list HistoryEvent) (second : Z) : OrchestrationDecisionSpec :=
  mkDecisionSpec "tr-9" "work-9" (flow_instance es) flow_definition (sample_time second) (sample_time 90) "key-9"
    None None "" "" "" [mkBranchSpec "right" "work-r" "key-r" None; mkBranchSpec "left" "work-l" "key-l" None].

Lemma flow_decidable es second :
  forallb event_check es && is_ok (Replay flow_registry es)
    && negb (Before (sample_time second) (in_updatedAt (flow_instance es))) = true ->
  decidable flow_registry es (flow_decide es second).
Proof.
  intros [[Hw Hr]%andb_true_iff Ht%negb_true_iff]%andb_true_iff. split; cbn [od_Instance od_Definition od_DecidedAt flow_decide].
  - split; [by apply events_check_wf |]. unfold flow_instance. by destruct (Replay flow_registry es).
  - vm_compute. reflexivity.
  - intros name step H. apply find_step_Some in H as (Hin & _ & Hk). exfalso. cbn in Hin.
    repeat (apply elem_of_cons in Hin as [-> | Hin]; [discriminate Hk |]). by apply elem_of_nil in Hin.
  - apply validateDefinition_wf, flow_valid.
  - done.
Qed.

(** ** Properties *)

(** C34: The decision is about the first open step: either every step that is not a
    branch leaf is done and the decision completes the instance, or the decision is
    about the first step that is not done, all earlier ones being done or branch
    leaves; then it never completes the instance, a waiting decision carries no
    transition, and the instance fails only on a known failure of that step (of one
    of its branches) which the retry policy does not cover any more. *)
Theorem decision_first_open spec decision :
  NewOrchestrationDecision spec = Ok decision ->
  let steps := ds_Steps (def_spec (od_Definition spec)) in
  let past step := skipped (orchestrationBranchMembers steps) step \/ step_done (od_Instance spec) step in
  (dn_kind decision = OrchestrationCompleted /\ Forall past steps)
  \/ exists pre step post, steps = pre ++ step :: post /\ Forall past pre /\ ~ past step /\ decision_on spec step decision.
Proof.
  intros (_ & _ & [[Hall Ht] | (pre & step & post & Hs & Hpre & Hsk & Hdone & H)])%decision_inv.
  - left. split; [| done]. by apply orchestrationTerminal_kind in Ht as [-> _].
  - right. exists pre, step, post. split_and!; [done | done | by intros [? | ?] | by apply decideStep_on].
Qed.

Lemma decision_first_open_witness :
  exists decision, NewOrchestrationDecision (flow_decide flow_paid 4) = Ok decision
    /\ dn_kind decision = OrchestrationRecorded /\ exists step, decision_on (flow_decide flow_paid 4) step decision.
Proof.
  assert (H : exists decision, NewOrchestrationDecision (flow_decide flow_paid 4) = Ok decision
    /\ dn_kind decision = OrchestrationRecorded).
  { eexists. split; [vm_compute; reflexivity | reflexivity]. }
  destruct H as (decision & H & Hk). exists decision. split; [exact H |]. split; [exact Hk |].
  destruct (decision_first_open (flow_decide flow_paid 4) decision H) as [[Hc _] | (_ & step & _ & _ & _ & _ & Hon)].
  - rewrite Hk in Hc. discriminate Hc.
  - exists step. exact Hon.
Defined.

(** C35: Committing a decision keeps the history replayable: for a committed history,
    the registered definition and a decision time not before the last event, a
    decision waits without a plan, or its plan is a well-formed batch for the next
    position whose commit replays, with the instance completed because every step is
    past, or failed because the first step that is not has failed for good, or with
    that first step, the one the decision names, now opened: the activity, timer or
    child scheduled, every branch of the parallel step scheduled at once, the race
    won. A branch leaf is never the step that is opened. *)
Theorem decision_commits registry es spec decision :
  decidable registry es spec -> NewOrchestrationDecision spec = Ok decision ->
  match dn_kind decision with
  | OrchestrationWaiting => dn_transition decision = zeroTransition
  | OrchestrationCompleted => Forall (past spec) (ds_Steps (def_spec (od_Definition spec)))
      /\ exists i', commits registry es (od_Instance spec) (dn_transition decision) i' /\ in_status i' = StatusCompleted
  | OrchestrationFailed => (exists step, first_unpast spec step /\ step_failed (od_Definition spec) (od_Instance spec) step)
      /\ exists i', commits registry es (od_Instance spec) (dn_transition decision) i' /\ in_status i' = StatusFailed
  | OrchestrationScheduled | OrchestrationRecorded =>
      exists step, first_unpast spec step /\ dn_stepName decision = step_Name step
        /\ opens registry es spec step (dn_transition decision)
  end.
Proof. apply decision_plans. Qed.

Lemma decision_commits_witness :
  exists decision, NewOrchestrationDecision (flow_decide flow_picked 5) = Ok decision
    /\ length (tr_events (dn_transition decision)) = 2%nat
    /\ exists step i', step_Name step = "fan"%string
         /\ commits flow_registry flow_picked (flow_instance flow_picked) (dn_transition decision) i' /\ opened i' step.
Proof.
  assert (H : exists decision, NewOrchestrationDecision (flow_decide flow_picked 5) = Ok decision
    /\ dn_kind decision = OrchestrationScheduled /\ length (tr_events (dn_transition decision)) = 2%nat
    /\ dn_stepName decision = "fan"%string).
  { eexists. split; [vm_compute; reflexivity | split_and!; reflexivity]. }
  destruct H as (decision & H & Hk & Hl & Hfan). exists decision. split; [exact H |]. split; [exact Hl |].
  assert (Hd : decidable flow_registry flow_picked (flow_decide flow_picked 5)) by (apply flow_decidable; vm_compute; reflexivity).
  pose proof (decision_commits flow_registry flow_picked (flow_decide flow_picked 5) decision Hd H) as Hc.
  rewrite Hk in Hc. destruct Hc as (step & _ & Hn & i' & Hcm & _ & Ho). exists step, i'.
  split; [exact (eq_trans (eq_sym Hn) Hfan) | split; [exact Hcm | exact Ho]].
Defined.

(** The race is won by the earliest received branch: a recorded race names a branch
    that has been received, no branch was received before it, and of the branches
    received at the same instant it is the one declared first. *)
Theorem race_won_by_earliest registry es spec step decision :
  decidable registry es spec -> step ∈ ds_Steps (def_spec (od_Definition spec)) -> step_Kind step = StepRace ->
  Reference (od_Definition spec) = in_definition (od_Instance spec) -> in_status (od_Instance spec) = StatusRunning ->
  decideRaceStep spec step = Ok (Some decision) -> dn_kind decision <> OrchestrationWaiting ->
  exists i' won received, commits registry es (od_Instance spec) (dn_transition decision) i'
    /\ in_races i' = <[step_Name step := won]> (in_races (od_Instance spec))
    /\ in_signals (od_Instance spec) !! rp_winnerStepName won = Some received
    /\ exists pre post, step_Branches step = pre ++ rp_winnerStepName won :: post
    /\ (forall b p, b ∈ step_Branches step -> in_signals (od_Instance spec) !! b = Some p ->
          instant_ltb (sp_receivedAt p) (sp_receivedAt received) = false)
    /\ (forall b p, b ∈ pre -> in_signals (od_Instance spec) !! b = Some p ->
          instant_ltb (sp_receivedAt received) (sp_receivedAt p) = true).
Proof.
  intros Hdec Hin Hk Href Hst H Hw.
  destruct (race_commits registry es spec Hdec Href Hst step decision Hin Hk H Hw) as (i' & won & Hcm & Hm & Hwin).
  pose proof (wf_signals _ (committed_progress _ _ _ (dc_committed _ _ _ Hdec))) as Hwf.
  destruct (race_winner spec (step_Branches step) Hwf) as (at_ & [(He & _) | (pre & post & p & Hb & Hp & <- & Hmin & Hpre)]).
  - exfalso. unfold decideRaceStep in H. destruct (in_races _ !! _); [done |]. rewrite He in H. by injection H as <-.
  - rewrite <- Hwin in *. exists i', won, p. split_and!; [done | done | done |]. exists pre, post. by split_and!.
Qed.

Lemma race_won_by_earliest_witness :
  exists decision i' won, commits flow_registry flow_paid (flow_instance flow_paid) (dn_transition decision) i'
    /\ in_races i' !! "pick"%string = Some won /\ rp_winnerStepName won = "cash"%string.
Proof.
  assert (H : exists decision, decideRaceStep (flow_decide flow_paid 4) (flow_step "pick" StepRace ["card"; "cash"]%string) = Ok (Some decision)
    /\ dn_kind decision = OrchestrationRecorded).
  { eexists. split; [vm_compute; reflexivity | reflexivity]. }
  destruct H as (decision & H & Hk).
  assert (Hd : decidable flow_registry flow_paid (flow_decide flow_paid 4)) by (apply flow_decidable; vm_compute; reflexivity).
  destruct (race_won_by_earliest flow_registry flow_paid (flow_decide flow_paid 4)
    (flow_step "pick" StepRace ["card"; "cash"]%string) decision Hd) as (i' & won & received & Hcm & Hm & Hs & pre & post & Hb & Hmin & _).
  - cbn. do 4 right. left.
  - reflexivity.
  - vm_compute. reflexivity.
  - vm_compute. reflexivity.
  - exact H.
  - rewrite Hk. discriminate.
  - exists decision, i', won. split; [exact Hcm |]. split; [rewrite Hm; apply lookup_insert_eq |].
    destruct won as [n w t]. cbn in Hb |- *. destruct pre as [| b1 [| b2 pre]]; cbn in Hb.
    + injection Hb as <- _. pose proof (Hmin "cash"%string) as Hc. vm_compute in Hs. injection Hs as <-.
      specialize (Hc (mkSignalProgress "cash" "sig-1" (sample_time 2) None)). vm_compute in Hc. discriminate Hc.
      * right. left.
      * reflexivity.
    + injection Hb as _ <- _. reflexivity.
    + injection Hb as _ _ Hb. by destruct pre.
Defined.
