(* ===== verification/Termination.v ===== *)
(** * Workflows end (history.go, *_history.go, orchestration.go)

    An instance cannot run on for ever. Every event of a step takes the step's record
    to a state that was not reached before, so the records bound the history, and the
    pinned definition bounds the records: a retry policy admits only so many attempts.
    The orchestrator opens every step at most once and ends the instance at most
    once. *)
From S2P Require Import Prelude GoTime Names Definitions Registry OperatorAudit Event.
From S2P Require Import Instances ActivityHistory WaitHistory ChildHistory CompensationHistory Replay ReplayInvariant ReplayProperties.
From S2P Require Import Transition Plans Samples CompensationTransition Orchestration.

(** ** Sums over the records and over the steps *)

Section Totals.
Context {A : Type} (f : A -> Z).

Definition total (m : gmap string A) : Z := map_fold (fun _ p sum => f p + sum) 0 m.

Lemma total_empty : total ∅ = 0.
Proof. apply map_fold_empty. Qed.

Lemma total_insert m name p : m !! name = None -> total (<[name := p]> m) = f p + total m.
Proof. intros Hn. unfold total. by rewrite map_fold_insert_L by (done || lia). Qed.

Lemma total_delete m name p : m !! name = Some p -> total m = f p + total (delete name m).
Proof. intros Hp. unfold total. by rewrite (map_fold_delete_L _ _ name p) by (done || lia). Qed.

Definition spent_on (m : gmap string A) (name : string) : Z := match m !! name with Some p => f p | None => 0 end.

Lemma total_set m name p : total (<[name := p]> m) = total m - spent_on m name + f p.
Proof.
  unfold spent_on. destruct (m !! name) as [q |] eqn:E.
  - rewrite <- insert_delete_eq, total_insert by apply lookup_delete_eq. rewrite (total_delete m name q E). lia.
  - rewrite total_insert by done. lia.
Qed.

(** The total over the steps of a definition. *)
Definition sum_steps (g : StepSpec -> Z) (steps : list StepSpec) : Z := foldr (fun step sum => g step + sum) 0 steps.

Lemma total_steps (g : StepSpec -> Z) steps : (forall step, 0 <= g step) -> forall m,
  map_Forall (fun name p => exists step, step ∈ steps /\ step_Name step = name /\ f p <= g step) m ->
  total m <= sum_steps g steps.
Proof.
  intros Hg. induction steps as [| step steps IH]; intros m Hm.
  - replace m with (∅ : gmap string A); [by rewrite total_empty |]. symmetry. apply map_empty. intros name.
    apply eq_None_not_Some. intros [p Hp]. destruct (Hm name p Hp) as (s & Hs & _). by apply elem_of_nil in Hs.
  - cbn [sum_steps foldr]. fold (sum_steps g steps).
    assert (Hcases : (exists p, m !! step_Name step = Some p /\ f p <= g step)
      \/ map_Forall (fun name p => exists s, s ∈ steps /\ step_Name s = name /\ f p <= g s) m).
    { destruct (m !! step_Name step) as [p |] eqn:E; [destruct (Z.le_gt_cases (f p) (g step)) as [Hle | Hgt]; [left; by exists p |] |]; right;
        intros name q Hq; destruct (Hm name q Hq) as (s & [-> | Hs]%elem_of_cons & Hn & Hle); try (by exists s);
        subst name; rewrite E in Hq; simplify_eq; lia. }
    destruct Hcases as [(p & Hp & Hle) | Hall]; [| specialize (IH m Hall); specialize (Hg step); lia].
    rewrite (total_delete m _ p Hp). enough (total (delete (step_Name step) m) <= sum_steps g steps) by lia.
    apply IH. intros name q [Hne Hq]%lookup_delete_Some. destruct (Hm name q Hq) as (s & [-> | Hs]%elem_of_cons & Hn & Hle'); [done | by exists s].
Qed.
End Totals.

Lemma sum_steps_add g h steps : sum_steps (fun step => g step + h step) steps = sum_steps g steps + sum_steps h steps.
Proof. induction steps as [| step steps IH]; [done |]. cbn [sum_steps foldr] in *. fold (sum_steps g steps) in *. unfold sum_steps in *. lia. Qed.

(** ** What a record has used up *)

(** An attempt is its start, its outcome and, but for the last, its retry; the record
    is there from the event that scheduled it, which stands for the last retry. *)
Definition activity_spent (p : ActivityProgress) : Z :=
  match ap_status p with
  | ActivityProgressReady => 1
  | ActivityProgressRunning => 3 * ap_attempt p - 1
  | ActivityProgressRetryWaiting => 3 * ap_attempt p + 1
  | _ => 3 * ap_attempt p
  end.

Definition compensation_spent (p : CompensationProgress) : Z :=
  match cp_status p with
  | CompensationReady => 1
  | CompensationRunning => 3 * cp_attempt p - 1
  | CompensationRetryWaiting | CompensationManuallyResolved => 3 * cp_attempt p + 1
  | _ => 3 * cp_attempt p
  end.

Definition child_spent (p : ChildProgress) : Z :=
  match hp_status p with
  | ChildScheduled => 1
  | ChildStartRunning => 3 * hp_attempt p - 1
  | ChildStartRetryWaiting => 3 * hp_attempt p + 1
  | ChildSucceeded | ChildFailed => Z.max 2 (3 * hp_attempt p + 1)
  | _ => 3 * hp_attempt p
  end.

Definition timer_spent (p : TimerProgress) : Z := match tp_status p with TimerFired => 2 | _ => 1 end.
Definition signal_spent (p : SignalProgress) : Z := 1.
Definition race_spent (p : RaceProgress) : Z := 1.

Definition spent (i : Instance_) : Z :=
  total activity_spent (in_activities i) + total compensation_spent (in_compensations i) + total child_spent (in_children i)
  + total timer_spent (in_timers i) + total signal_spent (in_signals i) + total race_spent (in_races i).

(** ** What a step may use up *)

Definition attempts_of (policy : RetryPolicy) : Z := Z.max 0 (MaxAttempts policy).

Definition activity_budget (step : StepSpec) : Z :=
  if bool_decide (step_Kind step = StepActivity) then Z.max 1 (3 * attempts_of (step_Retry step)) else 0.
Definition compensation_budget (step : StepSpec) : Z :=
  if bool_decide (step_Kind step = StepActivity) then
    match step_Compensation step with Some policy => 3 * attempts_of (cs_Retry policy) + 1 | None => 0 end else 0.
Definition child_budget (step : StepSpec) : Z :=
  if bool_decide (step_Kind step = StepChild) then Z.max 2 (3 * attempts_of (step_Retry step) + 1) else 0.
Definition timer_budget (step : StepSpec) : Z := if bool_decide (step_Kind step = StepTimer) then 2 else 0.
Definition signal_budget (step : StepSpec) : Z :=
  if bool_decide (step_Kind step = StepSignal) || bool_decide (step_Kind step = StepApproval) then 1 else 0.
Definition race_budget (step : StepSpec) : Z := if bool_decide (step_Kind step = StepRace) then 1 else 0.

(** The events one step can have in a history. *)
Definition step_budget (step : StepSpec) : Z :=
  activity_budget step + compensation_budget step + child_budget step
  + timer_budget step + signal_budget step + race_budget step.

Definition definition_budget (d : Definition_) : Z := sum_steps step_budget (ds_Steps (def_spec d)).

(** ** The rules spend one event each *)

Section Rules.
Context (e : HistoryEvent) (He : event_wf e).

Lemma started_attempt a : carries_attempt (ev_kind e) = true -> 0 <= a < 2 ^ 32 -> ev_attempt e = u32 (a + 1) -> ev_attempt e = a + 1.
Proof.
  intros Hk Ha Hs. destruct (shape_facts e He) as (_ & Hp & _). specialize (Hp Hk). rewrite Hs in Hp |- *. by apply u32_succ_nonzero; [| lia].
Qed.

Lemma activity_step_spent step status old p' :
  activity_step step status e old p' -> (forall p, old = Some p -> activity_wf (ev_stepName e) p) ->
  match old with Some p => activity_spent p | None => 0 end + 1 <= activity_spent p'.
Proof.
  intros Hs Hold.
  inversion Hs as [Ek | p Ek _ Hsp Ha | p Ek [Hp _] | p Ek [Hp _] | p Ek [Hp _] | p Ek _ Hp _]; subst;
    unfold activity_spent; cbn [ap_status ap_attempt with_outcome]; rewrite ?Hp; try lia.
  destruct (Hold p eq_refl) as [_ _ Hr _ _ Hf]. apply started_attempt in Ha; [| by rewrite Ek | done]. rewrite Ha.
  destruct Hsp as [Hp | [Hp _]]; rewrite Hp in *; [destruct Hf as [-> _] |]; lia.
Qed.

Lemma compensation_step_spent policy status activity old p' :
  compensation_step policy status activity e old p' -> (forall p, old = Some p -> compensation_wf (ev_stepName e) p) ->
  match old with Some p => compensation_spent p | None => 0 end + 1 <= compensation_spent p'.
Proof.
  intros Hs Hold.
  inversion Hs as [a Ek | p Ek Hsp Ha | p Ek Hp | p Ek Hp | p Ek Hp]; subst;
    unfold compensation_spent; cbn [cp_status cp_attempt].
  - lia.
  - destruct (Hold p eq_refl) as [_ _ Hr _ _ Hf]. apply started_attempt in Ha; [| by rewrite Ek | done]. rewrite Ha.
    destruct Hsp as [Hp | [Hp _]]; rewrite Hp in *; [destruct Hf as [-> _] |]; lia.
  - rewrite Hp. destruct Ek as [-> | [-> | ->]]; cbn [outcome_status]; lia.
  - rewrite Hp. lia.
  - destruct Hp as [-> | ->]; lia.
Qed.

Lemma child_step_spent registry step old p' :
  child_step registry step e old p' -> (forall p, old = Some p -> child_wf (ev_stepName e) p) ->
  match old with Some p => child_spent p | None => 0 end + 1 <= child_spent p'.
Proof.
  intros Hs Hold.
  inversion Hs as [Ek | p Ek _ Hsp Ha | p Ek _ [Hp _] | p Ek _ [Hp _] | p Ek _ [Hp _] | p Ek _ Hp | p Ek _ Ho]; subst;
    unfold child_spent; cbn [hp_status hp_attempt child_with]; rewrite ?Hp; try lia.
  - destruct (Hold p eq_refl) as [_ _ _ _ Hr _ _ Hf]. apply started_attempt in Ha; [| by rewrite Ek | done]. rewrite Ha.
    destruct Hsp as [Hp | [Hp _]]; rewrite Hp in *; [destruct Hf as [-> _] |]; lia.
  - destruct (Hold p eq_refl) as [_ _ _ _ Hr _ _ Hf].
    destruct Ek as [-> | ->]; cbn [child_outcome_status]; destruct (hp_status p); try done; lia.
Qed.
End Rules.

(** ** Histories *)

(** The events of a history that belong to a step. *)
Definition step_events (es : list HistoryEvent) : Z := Z.of_nat (length (filter (fun e => carries_step (ev_kind e) = true) es)).

Lemma step_events_app es es' : step_events (es ++ es') = step_events es + step_events es'.
Proof. unfold step_events. rewrite filter_app, length_app. lia. Qed.

Lemma step_events_single e : step_events [e] = if carries_step (ev_kind e) then 1 else 0.
Proof. unfold step_events. rewrite filter_cons, filter_nil. by destruct (carries_step _). Qed.

Ltac spend := unfold spent; cbn [in_activities in_compensations in_children in_timers in_signals in_races
  set_activity set_compensation set_child set_timer set_signal set_race]; rewrite ?total_set; unfold spent_on.

Lemma applyKind_spent registry i e m :
  event_wf e -> progress_wf i -> applyKind registry i e = Ok m ->
  spent i + (if carries_step (ev_kind e) then 1 else 0) <= spent m.
Proof.
  intros He [Ha _ _ _ Hc Hcp _ _] H. pose proof (applyKind_frames _ _ _ _ H) as Hf. unfold applyKind in H.
  assert (Hlifecycle : carries_step (ev_kind e) = false -> spent i + 0 <= spent m).
  { intros Hk. unfold spent. rewrite (frame_activities _ _ _ Hf), (frame_compensations _ _ _ Hf), (frame_children _ _ _ Hf),
      (frame_timers _ _ _ Hf), (frame_signals _ _ _ Hf), (frame_races _ _ _ Hf); [lia | ..]; by destruct (ev_kind e). }
  destruct (ev_kind e) eqn:Ek; try (by apply Hlifecycle); clear Hlifecycle Hf.
  all: match goal with |- context [carries_step ?k] => change (carries_step k) with true end; cbv iota.
  1-6: apply applyActivity_iff in H as (step & p' & _ & Hs & ->); [| by rewrite Ek];
    pose proof (activity_step_spent e He _ _ _ _ Hs (map_Forall_entry _ _ _ Ha)); spend; lia.
  1-3: apply applyWait_iff in H as [step _ _ _ Hn | step _ _ _ Hn | step p _ _ _ Hp Hw]; spend;
    rewrite ?Hn, ?Hp; unfold signal_spent, timer_spent; cbn [tp_status]; rewrite ?Hw; lia.
  1-7: apply applyCompensation_iff in H as (step & policy & p' & _ & _ & Hs & ->); [| by rewrite Ek];
    pose proof (compensation_step_spent e He _ _ _ _ _ Hs (map_Forall_entry _ _ _ Hcp)); spend; lia.
  1: { apply applyRace_iff in H as (step & _ & _ & _ & _ & Hn & ->). spend. rewrite Hn. unfold race_spent. lia. }
  all: apply applyChild_iff in H as (step & p' & _ & _ & Hs & ->); [| by rewrite Ek];
    pose proof (child_step_spent e He _ _ _ _ Hs (map_Forall_entry _ _ _ Hc)); spend; lia.
Qed.

Lemma advanced_spent i m e : spent (advanced i m e) = spent m.
Proof. unfold spent. by destruct (finish_frame i m e) as (_ & _ & _ & _ & -> & -> & -> & -> & -> & -> & _). Qed.

Lemma run_spent registry es i : run registry es i -> step_events es <= spent i.
Proof.
  induction 1 as [e i He Hs | es e i m Hr IH He Ha Hm].
  - apply applyStart_inv in Hs as (Hk & _ & _ & ->). rewrite step_events_single, Hk. vm_compute. done.
  - rewrite step_events_app, step_events_single, advanced_spent.
    pose proof (applyKind_spent _ _ _ _ He (run_progress _ _ _ Hr) Hm). lia.
Qed.

(** ** Records stay within the budget of their steps *)

Definition activity_affords (step : StepSpec) (p : ActivityProgress) : Prop :=
  ap_attempt p <= attempts_of (step_Retry step) /\ activity_spent p <= Z.max 1 (3 * attempts_of (step_Retry step)).
Definition compensation_affords (policy : CompensationSpec) (p : CompensationProgress) : Prop :=
  cp_attempt p <= attempts_of (cs_Retry policy) /\ compensation_spent p <= 3 * attempts_of (cs_Retry policy) + 1.
Definition child_affords (step : StepSpec) (p : ChildProgress) : Prop :=
  hp_attempt p <= attempts_of (step_Retry step) /\ child_spent p <= Z.max 2 (3 * attempts_of (step_Retry step) + 1).

Lemma activity_step_affords step status e old p' :
  activity_step step status e old p' -> (forall p, old = Some p -> activity_affords step p) -> activity_affords step p'.
Proof.
  intros Hs Hold. unfold activity_affords, activity_spent, attempts_of in *.
  inversion Hs as [Ek | p Ek _ Hsp Ha Hm | p Ek [Hp _] | p Ek [Hp _] | p Ek [Hp _] | p Ek _ Hp _ Hm]; subst;
    cbn [ap_status ap_attempt with_outcome]; try (destruct (Hold p eq_refl) as [Hle Hsp']; rewrite ?Hp in Hsp'); lia.
Qed.

Lemma compensation_step_affords policy status activity e old p' :
  compensation_step policy status activity e old p' -> (forall p, old = Some p -> compensation_affords policy p) ->
  compensation_affords policy p'.
Proof.
  intros Hs Hold. unfold compensation_affords, compensation_spent, attempts_of in *.
  inversion Hs as [a Ek | p Ek Hsp Ha Hm | p Ek Hp | p Ek Hp _ Hm | p Ek Hp]; subst; cbn [cp_status cp_attempt];
    try (destruct (Hold p eq_refl) as [Hle Hsp']); try lia.
  destruct Ek as [-> | [-> | ->]]; cbn [outcome_status]; lia.
Qed.

Lemma child_step_affords registry step e old p' :
  child_step registry step e old p' -> (forall p, old = Some p -> child_affords step p) -> child_affords step p'.
Proof.
  intros Hs Hold. unfold child_affords, child_spent, attempts_of in *.
  inversion Hs as [Ek | p Ek _ Hsp Ha Hm | p Ek _ [Hp _] | p Ek _ [Hp _] | p Ek _ [Hp _] | p Ek _ Hp _ Hm | p Ek _ Ho]; subst;
    cbn [hp_status hp_attempt child_with]; try (destruct (Hold p eq_refl) as [Hle Hsp']); try lia.
  destruct Ek as [-> | ->]; cbn [child_outcome_status]; lia.
Qed.

Record affordable (d : Definition_) (i : Instance_) : Prop := {
  af_activities : map_Forall (fun name p => exists step, definitionActivityStep d name = Some step /\ activity_affords step p) (in_activities i);
  af_compensations : map_Forall (fun name p => exists step policy, definitionActivityStep d name = Some step
    /\ step_Compensation step = Some policy /\ compensation_affords policy p) (in_compensations i);
  af_children : map_Forall (fun name p => exists step, definitionStep d name StepChild = Some step /\ child_affords step p) (in_children i);
  af_timers : map_Forall (fun name _ => is_Some (definitionStep d name StepTimer)) (in_timers i);
  af_signals : map_Forall (fun name _ => is_Some (signalStep d name)) (in_signals i);
  af_races : map_Forall (fun name _ => is_Some (definitionStep d name StepRace)) (in_races i)
}.

Lemma applyKind_affordable registry i e m :
  applyKind registry i e = Ok m -> affordable (pinnedDefinition registry i) i -> affordable (pinnedDefinition registry i) m.
Proof.
  intros H [H1 H2 H3 H4 H5 H6]. pose proof (applyKind_frames _ _ _ _ H) as Hf. unfold applyKind in H.
  assert (Hlifecycle : carries_step (ev_kind e) = false -> affordable (pinnedDefinition registry i) m).
  { intros Hk. split; [rewrite (frame_activities _ _ _ Hf) | rewrite (frame_compensations _ _ _ Hf) | rewrite (frame_children _ _ _ Hf)
      | rewrite (frame_timers _ _ _ Hf) | rewrite (frame_signals _ _ _ Hf) | rewrite (frame_races _ _ _ Hf)]; try done; by destruct (ev_kind e). }
  destruct (ev_kind e) eqn:Ek; try (by apply Hlifecycle); clear Hlifecycle Hf.
  1-6: apply applyActivity_iff in H as (step & p' & Hstep & Hs & ->); [| by rewrite Ek]; split; try done;
    apply map_Forall_set; [done |]; exists step; split; [done |]; apply (activity_step_affords _ _ _ _ _ Hs);
    intros p Hp; destruct (H1 _ p Hp) as (step' & Hstep' & Hp'); congruence.
  1-3: apply applyWait_iff in H as [step _ Hstep | step _ Hstep | step p _ Hstep]; split; try done; apply map_Forall_set; try done; by eexists.
  1-7: apply applyCompensation_iff in H as (step & policy & p' & Hstep & Hpol & Hs & ->); [| by rewrite Ek]; split; try done;
    apply map_Forall_set; [done |]; exists step, policy; split_and!; [done | done |]; apply (compensation_step_affords _ _ _ _ _ _ Hs);
    intros p Hp; destruct (H2 _ p Hp) as (step' & policy' & Hstep' & Hpol' & Hp'); congruence.
  1: { apply applyRace_iff in H as (step & Hstep & _ & _ & _ & _ & ->). split; try done. apply map_Forall_set; [done | by eexists]. }
  all: apply applyChild_iff in H as (step & p' & Hstep & _ & Hs & ->); [| by rewrite Ek]; split; try done;
    apply map_Forall_set; [done |]; exists step; split; [done |]; apply (child_step_affords _ _ _ _ _ Hs);
    intros p Hp; destruct (H3 _ p Hp) as (step' & Hstep' & Hp'); congruence.
Qed.

Lemma run_affordable registry es i :
  run registry es i -> Forall (fun e => ~ migrates e) es -> affordable (pinnedDefinition registry i) i.
Proof.
  induction 1 as [e i He Hs | es e i m Hr IH He Ha Hm]; intros Hn.
  - apply applyStart_inv in Hs as (_ & _ & _ & ->). split; apply map_Forall_empty.
  - apply Forall_app in Hn as [Hn Hne]. rewrite Forall_singleton in Hne.
    pose proof (applyKind_affordable _ _ _ _ Hm (IH Hn)) as [H1 H2 H3 H4 H5 H6].
    destruct (frame_definition _ _ _ (applyKind_frames _ _ _ _ Hm) Hne) as [Hd _].
    unfold pinnedDefinition. destruct (finish_frame i m e) as (_ & -> & _ & _ & Fa & Ft & Fs & Fr & Fc & Fp & _). rewrite Hd.
    split; rewrite ?Fa, ?Ft, ?Fs, ?Fr, ?Fc, ?Fp; done.
Qed.

(** The records of one kind are those of the steps of that kind. *)
Lemma total_within {A} (f : A -> Z) (g : StepSpec -> Z) d (m : gmap string A) :
  (forall step, 0 <= g step) ->
  map_Forall (fun name p => exists step kind, definitionStep d name kind = Some step /\ f p <= g step) m ->
  total f m <= sum_steps g (ds_Steps (def_spec d)).
Proof.
  intros Hg Hm. apply total_steps; [done |]. intros name p Hp.
  destruct (Hm name p Hp) as (step & kind & (Hin & Hn & _)%find_step_Some & Hle). by exists step.
Qed.

Lemma definitionStep_kind d name kind step : definitionStep d name kind = Some step -> step_Kind step = kind.
Proof. by intros (_ & _ & Hk)%find_step_Some. Qed.

Ltac budgets := intros step; unfold activity_budget, compensation_budget, child_budget, timer_budget, signal_budget, race_budget, attempts_of;
  repeat case_match; lia.

Lemma affordable_spent d i : affordable d i -> spent i <= definition_budget d.
Proof.
  intros [H1 H2 H3 H4 H5 H6]. unfold spent, definition_budget, step_budget. rewrite !sum_steps_add.
  repeat apply Z.add_le_mono; apply total_within; try budgets; intros name p Hp.
  - destruct (H1 name p Hp) as (step & Hs & _ & Hle). exists step, StepActivity. split; [done |].
    unfold activity_budget. by rewrite (definitionStep_kind _ _ _ _ Hs).
  - destruct (H2 name p Hp) as (step & policy & Hs & Hpol & _ & Hle). exists step, StepActivity. split; [done |].
    unfold compensation_budget. by rewrite (definitionStep_kind _ _ _ _ Hs), Hpol.
  - destruct (H3 name p Hp) as (step & Hs & _ & Hle). exists step, StepChild. split; [done |].
    unfold child_budget. by rewrite (definitionStep_kind _ _ _ _ Hs).
  - destruct (H4 name p Hp) as [step Hs]. exists step, StepTimer. split; [done |].
    unfold timer_budget, timer_spent. rewrite (definitionStep_kind _ _ _ _ Hs). by destruct (tp_status p).
  - destruct (H5 name p Hp) as [step Hs]. unfold signalStep in Hs. exists step.
    destruct (definitionStep d name StepSignal) as [s |] eqn:E; [injection Hs as -> ; exists StepSignal | exists StepApproval];
      (split; [done |]); unfold signal_budget; by rewrite (definitionStep_kind _ _ _ _ ltac:(eassumption)).
  - destruct (H6 name p Hp) as [step Hs]. exists step, StepRace. split; [done |].
    unfold race_budget. by rewrite (definitionStep_kind _ _ _ _ Hs).
Qed.

(** ** Records are never lost *)

Record grows (i i' : Instance_) : Prop := {
  gr_activities : dom (in_activities i) ⊆ dom (in_activities i');
  gr_timers : dom (in_timers i) ⊆ dom (in_timers i');
  gr_races : dom (in_races i) ⊆ dom (in_races i');
  gr_children : dom (in_children i) ⊆ dom (in_children i')
}.

Lemma grows_trans i j k : grows i j -> grows j k -> grows i k.
Proof. intros [] []. split; by etrans. Qed.

Lemma applyKind_grows registry i e m : applyKind registry i e = Ok m -> grows i m.
Proof.
  intros H. unfold applyKind in H. destruct (ev_kind e) eqn:Ek.
  1-10, 37: walk H; destruct H; by split.
  1-6: apply applyActivity_iff in H as (step & p' & _ & _ & ->); [| by rewrite Ek]; split; try done; cbn; set_solver.
  1-3: apply applyWait_iff in H as []; split; try done; cbn; set_solver.
  1-7: apply applyCompensation_iff in H as (step & pol & p' & _ & _ & _ & ->); [| by rewrite Ek]; by split.
  1: { unfold applyOperator in H. walk H. destruct H. by split. }
  1: { apply applyRace_iff in H as (step & _ & _ & _ & _ & _ & ->). split; try done; cbn; set_solver. }
  all: apply applyChild_iff in H as (step & p' & _ & _ & _ & ->); [| by rewrite Ek]; split; try done; cbn; set_solver.
Qed.

Lemma run_grows registry es es' i i' :
  run registry es i -> Forall event_wf es' -> applyAll registry i es' = Ok i' -> grows i i'.
Proof.
  revert es i. induction es' as [| e es' IH]; intros es i Hr Hw H; cbn [applyAll] in H; [by injection H as <- |].
  destruct (apply registry i e) as [j |] eqn:E; [| done]. cbn [mbind result_bind] in H. apply Forall_cons in Hw as [He Hw].
  apply (grows_trans i j); [| by eapply IH; [eapply run_extend | |]].
  pose proof (run_sequence _ _ _ Hr) as [_ Hsq]. apply apply_iff in E as (_ & m & Hm & ->); [| lia].
  destruct (applyKind_grows _ _ _ _ Hm). destruct (finish_frame i m e) as (_ & _ & _ & _ & Fa & Ft & _ & Fr & Fc & _).
  split; by rewrite ?Fa, ?Ft, ?Fr, ?Fc.
Qed.

Lemma committed_grows registry es es' i i' : committed registry es i -> committed registry (es ++ es') i' -> grows i i'.
Proof.
  intros [Hw Hr] [[_ Hw']%Forall_app Hr']. apply (Replay_extend registry es es' i i' Hr) in Hr' as [Ha _].
  by apply (run_grows registry es es' i i' (Replay_run _ _ _ Hw Hr)).
Qed.

(** ** Opened steps *)

#[export] Instance opened_dec i step : Decision (opened i step).
Proof. unfold opened. destruct (step_Kind step); apply _. Defined.

Lemma opened_grows i i' step : grows i i' -> opened i step -> opened i' step.
Proof.
  intros [Ha Ht Hr Hc]. unfold opened. destruct (step_Kind step); try done; rewrite <- ?elem_of_dom; try set_solver.
  intros Hb. eapply Forall_impl; [exact Hb |]. intros b. cbn. rewrite <- !elem_of_dom. set_solver.
Qed.

Definition opened_count (d : Definition_) (i : Instance_) : nat := length (filter (opened i) (ds_Steps (def_spec d))).

Lemma filter_length_mono {A} (P Q : A -> Prop) `{!forall x, Decision (P x), !forall x, Decision (Q x)} l :
  (forall x, P x -> Q x) -> (length (filter P l) <= length (filter Q l))%nat.
Proof.
  intros Himp. induction l as [| x l IH]; [done |]. rewrite !filter_cons. destruct (decide (P x)) as [Hp |], (decide (Q x)) as [| Hq]; cbn [length]; try lia.
  by destruct (Hq (Himp x Hp)).
Qed.

Lemma filter_length_more {A} (P Q : A -> Prop) `{!forall x, Decision (P x), !forall x, Decision (Q x)} l a :
  (forall x, P x -> Q x) -> a ∈ l -> ~ P a -> Q a -> (length (filter P l) < length (filter Q l))%nat.
Proof.
  intros Himp Ha Hn Hy. induction l as [| x l IH]; [by apply elem_of_nil in Ha |]. rewrite !filter_cons.
  pose proof (filter_length_mono P Q l Himp). apply elem_of_cons in Ha as [<- | Ha].
  - rewrite decide_False, decide_True by done. cbn [length]. lia.
  - specialize (IH Ha). destruct (decide (P x)) as [Hp |], (decide (Q x)) as [| Hq]; cbn [length]; try lia. by destruct (Hq (Himp x Hp)).
Qed.

(** ** Decisions *)

(** A history in whose making the orchestrator has planned [n] times by a definition;
    any other events may be committed in between. *)
Inductive orchestrated (registry : option Registry) (d : Definition_) : nat -> list HistoryEvent -> Prop :=
  | orchestrated_start es i : committed registry es i -> orchestrated registry d 0 es
  | orchestrated_decision n es spec decision :
      orchestrated registry d n es -> od_Definition spec = d -> decidable registry es spec ->
      NewOrchestrationDecision spec = Ok decision -> dn_kind decision <> OrchestrationWaiting ->
      orchestrated registry d (S n) (es ++ tr_events (dn_transition decision))
  | orchestrated_other n es more i :
      orchestrated registry d n es -> committed registry (es ++ more) i -> orchestrated registry d n (es ++ more).

Definition allowed (d : Definition_) (i : Instance_) : nat :=
  (opened_count d i + if terminalStatus (in_status i) then 1 else 0)%nat.

Lemma terminal_committed registry es i more i' :
  committed registry es i -> committed registry (es ++ more) i' -> terminalStatus (in_status i) = true -> i' = i.
Proof.
  intros [Hw Hr] [_ Hr'] Ht. apply (Replay_extend registry es more i i' Hr) in Hr' as [Ha _].
  destruct more as [| e more]; [by injection Ha as -> |]. cbn [applyAll] in Ha.
  destruct (apply registry i e) as [j |] eqn:E; [| done]. pose proof (run_sequence _ _ _ (Replay_run _ _ _ Hw Hr)) as [_ Hs].
  apply apply_iff in E as [[_ _ _ Hal _] _]; [congruence | lia].
Qed.

Lemma decision_allows registry d es spec decision i :
  committed registry es i -> od_Definition spec = d -> decidable registry es spec ->
  NewOrchestrationDecision spec = Ok decision -> dn_kind decision <> OrchestrationWaiting ->
  exists i', committed registry (es ++ tr_events (dn_transition decision)) i' /\ (allowed d i < allowed d i')%nat.
Proof.
  intros Hi <- Hdec Hnew Hk. pose proof (decision_plans registry es spec decision Hdec Hnew) as Hplan.
  pose proof (decision_inv spec decision Hnew) as (_ & Hst & _). pose proof (dc_committed _ _ _ Hdec) as Hc.
  assert (i = od_Instance spec) as ->. { destruct Hi as [_ Hi], Hc as [_ Hc]. congruence. }
  unfold allowed. rewrite Hst. cbn [terminalStatus]. assert (Hend : forall i', commits registry es (od_Instance spec) (dn_transition decision) i' ->
    terminalStatus (in_status i') = true -> exists i'', committed registry (es ++ tr_events (dn_transition decision)) i''
      /\ (opened_count (od_Definition spec) (od_Instance spec) + 0 < opened_count (od_Definition spec) i'' + if terminalStatus (in_status i'') then 1 else 0)%nat).
  { intros i' (_ & _ & _ & _ & Hc') Ht. exists i'. split; [done |]. rewrite Ht.
    pose proof (filter_length_mono (opened (od_Instance spec)) (opened i') (ds_Steps (def_spec (od_Definition spec)))
      (fun step => opened_grows _ _ step (committed_grows _ _ _ _ _ Hc Hc'))) as Hle. unfold opened_count. lia. }
  assert (Hopen : (exists step, first_unpast spec step /\ dn_stepName decision = step_Name step
      /\ opens registry es spec step (dn_transition decision)) ->
    exists i'', committed registry (es ++ tr_events (dn_transition decision)) i''
      /\ (opened_count (od_Definition spec) (od_Instance spec) + 0 < opened_count (od_Definition spec) i'' + if terminalStatus (in_status i'') then 1 else 0)%nat).
  { intros (step & Hin%first_unpast_In & _ & i' & (_ & _ & _ & _ & Hc') & Hn & Ho). exists i'. split; [done |].
    pose proof (filter_length_more (opened (od_Instance spec)) (opened i') (ds_Steps (def_spec (od_Definition spec))) step
      (fun step => opened_grows _ _ step (committed_grows _ _ _ _ _ Hc Hc')) Hin Hn Ho) as Hlt. unfold opened_count. lia. }
  destruct (dn_kind decision); try done; [by apply Hopen | | | by apply Hopen]; destruct Hplan as (_ & i' & Hc' & Hs); apply (Hend i' Hc'); by rewrite Hs.
Qed.

Lemma orchestrated_allowed registry d n es : orchestrated registry d n es -> exists i, committed registry es i /\ (n <= allowed d i)%nat.
Proof.
  induction 1 as [es i Hc | n es spec decision _ (i & Hc & Hle) Hd Hdec Hnew Hk | n es more i' _ (i & Hc & Hle) Hc'].
  - exists i. split; [done | lia].
  - destruct (decision_allows registry d es spec decision i Hc Hd Hdec Hnew Hk) as (i' & Hc' & Hlt). exists i'. split; [done | lia].
  - exists i'. split; [done |]. destruct (terminalStatus (in_status i)) eqn:Ht.
    + by rewrite (terminal_committed _ _ _ _ _ Hc Hc' Ht).
    + unfold allowed in *. rewrite Ht in Hle. unfold opened_count in *.
      pose proof (filter_length_mono (opened i) (opened i') (ds_Steps (def_spec d)) (fun step => opened_grows _ _ step (committed_grows _ _ _ _ _ Hc Hc'))). lia.
Qed.

(** ** The length of a history *)

(** What only people do to an instance: pause, resume, cancel and command it. *)
Definition intervention (kind : EventKind) : bool :=
  match kind with
  | EventInstancePaused | EventInstanceResumed | EventCancellationRequested | EventOperatorCommandRecorded | EventDefinitionMigrated => true
  | _ => false
  end.

Definition interventions (es : list HistoryEvent) : Z := Z.of_nat (length (filter (fun e => intervention (ev_kind e) = true) es)).

Lemma interventions_app es e : interventions (es ++ [e]) = interventions es + if intervention (ev_kind e) then 1 else 0.
Proof. unfold interventions. rewrite filter_app, length_app, filter_cons, filter_nil. destruct (intervention _); cbn [length]; case_decide; cbn [length]; done || lia. Qed.

(** Every other event is the start, an event of a step or the end. *)
Lemma applyKind_counted registry i e m : event_wf e -> terminalStatus (in_status i) = false -> applyKind registry i e = Ok m ->
  1 <= (if carries_step (ev_kind e) then 1 else 0) + (if intervention (ev_kind e) then 1 else 0)
    + (if terminalStatus (in_status m) then 1 else 0).
Proof.
  intros He Ht Hm. pose proof (shape_declared e (event_wf_shape e He)) as Hd.
  assert (Hpos : 0 <= if terminalStatus (in_status m) then 1 else 0) by (case_match; lia).
  destruct (carries_step (ev_kind e)) eqn:Hc; [destruct (intervention _); cbv iota; lia |].
  destruct (intervention (ev_kind e)) eqn:Hv; [cbv iota; lia |]. clear Hpos.
  unfold applyKind in Hm. destruct (ev_kind e) eqn:Ek; try done; walk Hm; destruct Hm; cbn; lia.
Qed.

Lemma run_length registry es i : run registry es i ->
  Z.of_nat (length es) <= 1 + step_events es + interventions es + if terminalStatus (in_status i) then 1 else 0.
Proof.
  induction 1 as [e i He Hs | es e i m Hr IH He Ha Hm].
  - apply applyStart_inv in Hs as (Hk & _ & _ & ->). unfold step_events, interventions. rewrite !filter_cons, !filter_nil, Hk. by vm_compute.
  - rewrite length_app, step_events_app, step_events_single, interventions_app. cbn [length].
    rewrite (adm_alive _ _ Ha) in IH. cbv iota in IH. destruct (finish_frame i m e) as (_ & _ & -> & _).
    pose proof (applyKind_counted _ _ _ _ He (adm_alive _ _ Ha) Hm). lia.
Qed.

(** ** Properties *)

(** C12: A workflow ends: in every history that replays without a migration, the events
    of the steps are at most what the records have spent and the records have spent at
    most what the pinned definition allows (per activity one schedule and, per attempt
    the retry policy admits, a start, an outcome and a retry, and so for compensations
    and children; two per timer, one per signal and race), so that, but for the times
    someone pauses, resumes, cancels or commands it, an instance has at most that many
    events, its start and its end. *)
Theorem history_bounded registry es i :
  Forall event_wf es -> Replay registry es = Ok i -> Forall (fun e => ~ migrates e) es ->
  step_events es <= spent i <= definition_budget (pinnedDefinition registry i)
  /\ Z.of_nat (length es) <= 2 + definition_budget (pinnedDefinition registry i) + interventions es.
Proof.
  intros Hw Hr%Replay_run Hn; [| done]. pose proof (run_spent _ _ _ Hr). pose proof (run_length _ _ _ Hr).
  pose proof (affordable_spent _ _ (run_affordable _ _ _ Hr Hn)). destruct (terminalStatus _); lia.
Qed.

(** The order workflow may have 3 events for every attempt of its activity. *)
Lemma history_bounded_witness :
  step_events sample_history = 7 /\ 7 <= definition_budget (pinnedDefinition sample_registry sample_instance).
Proof.
  split; [vm_compute; reflexivity |].
  destruct (history_bounded sample_registry sample_history sample_instance) as [[H1 H2] _];
    [apply sample_history_wf | apply sample_replay | | vm_compute (step_events sample_history) in H1; lia].
  repeat (apply Forall_cons; split; [by intros [=] |]). apply Forall_nil, I.
Defined.

Definition flow_decided (es : list HistoryEvent) (second : Z) : OrchestrationDecision :=
  or_zero (mkDecision OrchestrationWaiting "" zeroTransition) (NewOrchestrationDecision (flow_decide es second)).

(** C13: The orchestrator comes to an end: however long the history and whatever else is
    committed in between, with the one definition it plans at most one decision for
    every step and one more, which ends the instance. Every history so made replays. *)
Theorem orchestration_ends registry d n es :
  orchestrated registry d n es ->
  exists i, Replay registry es = Ok i
    /\ (n <= length (ds_Steps (def_spec d)) + if terminalStatus (in_status i) then 1 else 0)%nat.
Proof.
  intros (i & [_ Hr] & Hle)%orchestrated_allowed. exists i. split; [done |]. unfold allowed, opened_count in Hle.
  pose proof (length_filter (opened i) (ds_Steps (def_spec d))). lia.
Qed.

Lemma orchestration_ends_witness :
  let once := flow_paid ++ tr_events (dn_transition (flow_decided flow_paid 4)) in
  let twice := once ++ tr_events (dn_transition (flow_decided once 5)) in
  exists i, Replay flow_registry twice = Ok i
    /\ (2 <= length (ds_Steps (def_spec flow_definition)) + if terminalStatus (in_status i) then 1 else 0)%nat.
Proof.
  intros once twice. apply (orchestration_ends flow_registry flow_definition 2 twice).
  apply (orchestrated_decision _ _ _ once (flow_decide once 5)); [| done | | vm_compute; reflexivity | by vm_compute].
  - apply (orchestrated_decision _ _ _ flow_paid (flow_decide flow_paid 4)); [| done | | vm_compute; reflexivity | by vm_compute].
    + apply (orchestrated_start _ _ _ (flow_instance flow_paid)). apply (flow_decidable flow_paid 4). vm_compute. reflexivity.
    + apply flow_decidable. vm_compute. reflexivity.
  - apply flow_decidable. vm_compute. reflexivity.
Defined.
