(* ===== verification/Store.v ===== *)
(** * Store requests, pages and commit outcomes (store.go)

    What a store is asked and what it answers, with the checks the package makes on
    both sides. The [TransitionStore] interface itself is implemented by
    PostgresCommit.v. *)
From S2P Require Import Prelude GoTime Names Definitions Event Transition.

Definition MaxHistoryPageEvents : Z := 1000.

(** ** Commit outcomes *)

(** [NewStoreCommitError]; the [cause] of Go may be nil. *)
Definition NewStoreCommitError (outcome : StoreCommitOutcome) (cause : option GoError) : GoError :=
  match cause with
  | None => ErrInvalidStoreRequest
  | Some cause =>
      if bool_decide (outcome = StoreCommitUndeclared) then ErrInvalidStoreRequest
      else StoreCommitError outcome cause
  end.

(** [errors.As] for the classifying interface, depth first. *)
Fixpoint errors_As_classified (err : GoError) : option StoreCommitOutcome :=
  match err with
  | StoreCommitError outcome _ => Some outcome
  | OperationError _ cause => errors_As_classified cause
  | Joined first second =>
      match errors_As_classified first with
      | Some outcome => Some outcome
      | None => errors_As_classified second
      end
  | _ => None
  end.

Definition StoreCommitOutcomeOf (err : option GoError) : StoreCommitOutcome :=
  match err ≫= errors_As_classified with
  | Some outcome => outcome
  | None => StoreCommitUnknown
  end.

(** [StoreCommitError.Error]: the text never shows the cause. *)
Definition StoreCommitError_Error (outcome : StoreCommitOutcome) : string :=
  match outcome with
  | StoreCommitNotCommitted => "workflow transition did not commit"
  | StoreCommitCommitted => "workflow transition committed before a later failure"
  | _ => "workflow transition commit outcome is unknown"
  end.

(** ** History pages *)

(** [HistoryQuerySpec] and [HistoryQuery] hold the same fields. *)
Record HistoryQuery := mkHistoryQuery {
  hq_instanceID : string;
  hq_afterSequence : Z;  (** uint64 *)
  hq_limit : Z           (** uint32 *)
}.

(** [HistoryQuery.valid] *)
Definition historyQuery_valid (query : HistoryQuery) : bool :=
  instanceIDPattern (hq_instanceID query) && (0 <? hq_limit query)
  && (hq_limit query <=? MaxHistoryPageEvents) && negb (hq_afterSequence query =? MaxUint64).

Definition NewHistoryQuery (spec : HistoryQuery) : result HistoryQuery :=
  let query := mkHistoryQuery (hq_instanceID spec) (hq_afterSequence spec) (hq_limit spec) in
  reject negb (historyQuery_valid query) with ErrInvalidStoreRequest;
  Ok query.

Definition zeroQuery : HistoryQuery := mkHistoryQuery "" 0 0.

Record HistoryPage := mkHistoryPage {
  pg_events : list HistoryEvent;
  pg_nextAfterSequence : Z;
  pg_hasMore : bool
}.

(** The loop over the page's events; [next] is the cursor so far. *)
Fixpoint pageEvents (query : HistoryQuery) (index next : Z) (events : list HistoryEvent) : result Z :=
  match events with
  | [] => Ok next
  | event :: rest =>
      reject negb (historyEventValid event) || negb (bool_decide (ev_instanceID event = hq_instanceID query))
        || negb (ev_sequence event =? u64 (u64 (hq_afterSequence query + index) + 1)) with ErrInvalidStoreRequest;
      pageEvents query (index + 1) (ev_sequence event) rest
  end.

Definition NewHistoryPage (query : HistoryQuery) (events : list HistoryEvent) (hasMore : bool) : result HistoryPage :=
  reject negb (historyQuery_valid query) || (hq_limit query <? Z.of_nat (length events))
    || (hasMore && negb (Z.of_nat (length events) =? hq_limit query)) with ErrInvalidStoreRequest;
  next ← pageEvents query 0 (hq_afterSequence query) events;
  Ok (mkHistoryPage events next hasMore).

(** ** Facts *)

Lemma NewHistoryQuery_iff spec query :
  NewHistoryQuery spec = Ok query <-> historyQuery_valid spec = true /\ query = spec.
Proof.
  unfold NewHistoryQuery. destruct spec as [id after limit]. cbn [hq_instanceID hq_afterSequence hq_limit].
  destruct (historyQuery_valid _); cbn [negb]; [| naive_solver]. split; [by intros [= <-] | by intros [_ ->]].
Qed.

(** A page that follows a cursor: consecutive valid events of the instance. *)
Definition follows (instanceID : string) (after : Z) (events : list HistoryEvent) : Prop :=
  forall k e, events !! k = Some e ->
    historyEventValid e = true /\ ev_instanceID e = instanceID /\ ev_sequence e = after + 1 + Z.of_nat k.

Lemma follows_nil instanceID after : follows instanceID after [].
Proof. by intros k e. Qed.

Lemma follows_cons instanceID after e events :
  follows instanceID after (e :: events) <->
  historyEventValid e = true /\ ev_instanceID e = instanceID /\ ev_sequence e = after + 1
  /\ follows instanceID (after + 1) events.
Proof.
  split.
  - intros H. destruct (H 0%nat e eq_refl) as (? & ? & ?). split_and!; [done | done | lia |].
    intros k x Hx. destruct (H (S k) x Hx) as (? & ? & ?). split_and!; [done | done | lia].
  - intros (? & ? & ? & H) [| k] x Hx; cbn in Hx; [injection Hx as <-; split_and!; [done | done | lia] |].
    destruct (H k x Hx) as (? & ? & ?). split_and!; [done | done | lia].
Qed.

Lemma follows_app instanceID after xs ys :
  follows instanceID after (xs ++ ys) <->
  follows instanceID after xs /\ follows instanceID (after + Z.of_nat (length xs)) ys.
Proof.
  revert after. induction xs as [| x xs IH]; intros after; cbn [app length].
  - rewrite Z.add_0_r. split; [intros H; split; [apply follows_nil | done] | tauto].
  - rewrite !follows_cons, IH. replace (after + 1 + Z.of_nat (length xs)) with (after + Z.of_nat (S (length xs))) by lia. tauto.
Qed.

(** Every event of a valid page has a sequence of at least one, so the wrapped
    position of the code is the true position. *)
Lemma pageEvents_iff query events : forall index next next',
  0 <= hq_afterSequence query -> 0 <= index -> hq_afterSequence query + index < 2 ^ 64 ->
  next = hq_afterSequence query + index -> Forall (fun e => ev_sequence e < 2 ^ 64) events ->
  pageEvents query index next events = Ok next' <->
  follows (hq_instanceID query) next events /\ next' = next + Z.of_nat (length events).
Proof.
  induction events as [| e events IH]; intros index next next' Ha Hi Hb Hn Hw; cbn [pageEvents length].
  { rewrite Z.add_0_r. split; [intros [= <-]; split; [apply follows_nil | done] | by intros [_ ->]]. }
  apply Forall_cons in Hw as [He Hw]. rewrite (u64_small (hq_afterSequence query + index)), <- Hn, follows_cons by lia.
  destruct (historyEventValid e) eqn:Hv; cbn [negb orb]; [| naive_solver].
  case_bool_decide as Hid; cbn [negb orb]; [| naive_solver].
  assert (Hpos : ev_sequence e <> 0).
  { unfold historyEventValid in Hv. apply valid_event_shape, shape_sequence in Hv. done. }
  destruct (Z.eqb_spec (ev_sequence e) (u64 (next + 1))) as [Hs | Hs]; cbn [negb].
  - assert (Hs' : ev_sequence e = next + 1) by (rewrite Hs in Hpos |- *; apply u64_succ_nonzero; [lia | done]).
    rewrite (IH (index + 1) (ev_sequence e) next') by (done || lia). rewrite Hs'.
    replace (next + 1 + Z.of_nat (length events)) with (next + Z.of_nat (S (length events))) by lia. tauto.
  - split; [done |]. intros ((_ & _ & Hs' & _) & _). rewrite u64_small in Hs by lia. lia.
Qed.

Lemma NewHistoryPage_iff query events hasMore page :
  0 <= hq_afterSequence query < 2 ^ 64 -> Forall (fun e => ev_sequence e < 2 ^ 64) events ->
  NewHistoryPage query events hasMore = Ok page <->
  historyQuery_valid query = true /\ Z.of_nat (length events) <= hq_limit query
  /\ (hasMore = true -> Z.of_nat (length events) = hq_limit query)
  /\ follows (hq_instanceID query) (hq_afterSequence query) events
  /\ page = mkHistoryPage events (hq_afterSequence query + Z.of_nat (length events)) hasMore.
Proof.
  intros Ha Hw. unfold NewHistoryPage. destruct (historyQuery_valid query); cbn [negb orb]; [| naive_solver].
  destruct (Z.ltb_spec (hq_limit query) (Z.of_nat (length events))) as [Hl | Hl]; cbn [orb].
  { split; [done |]. intros (_ & ? & _). lia. }
  destruct (hasMore && _) eqn:Hm.
  { split; [done |]. intros (_ & _ & H & _). bool_norm. destruct hasMore; [| done]. by specialize (H eq_refl). }
  pose proof (pageEvents_iff query events 0 (hq_afterSequence query)) as Hp.
  assert (Hm' : hasMore = true -> Z.of_nat (length events) = hq_limit query).
  { intros ->. cbn in Hm. by apply negb_false_iff, Z.eqb_eq in Hm. }
  split.
  - destruct (pageEvents _ _ _ _) as [next |]; [| done]. cbn. intros [= <-].
    destruct (proj1 (Hp next ltac:(lia) ltac:(lia) ltac:(lia) ltac:(lia) Hw) eq_refl) as [Hf ->]. by split_and!.
  - intros (_ & _ & _ & Hf & ->).
    rewrite (proj2 (Hp _ ltac:(lia) ltac:(lia) ltac:(lia) ltac:(lia) Hw) (conj Hf eq_refl)). done.
Qed.
