(* ===== verification/Administration.v ===== *)
(** * Administration: instance lists and reconciliation (administration.go) *)
From S2P Require Import Prelude GoTime Names Definitions.

Definition MaxInstanceListItems : Z := 100.

Inductive InstanceListSelection :=
  | ListActiveInstances | ListArchivedInstances | ListAllInstances | ListSelectionUndeclared.

#[export] Instance InstanceListSelection_eq_dec : EqDecision InstanceListSelection.
Proof. solve_decision. Defined.

(** [InstanceListCursorSpec] and [InstanceListCursor]; so for the other values here. *)
Record InstanceListCursor := mkListCursor { lc_createdAt : Time; lc_instanceID : string }.

Definition zeroListCursor : InstanceListCursor := mkListCursor zeroTime "".

Definition NewInstanceListCursor (spec : InstanceListCursor) : result InstanceListCursor :=
  let cursor := mkListCursor (canonicalTime (lc_createdAt spec)) (lc_instanceID spec) in
  reject IsZero (lc_createdAt cursor) || negb (instanceIDPattern (lc_instanceID cursor)) with ErrInvalidStoreRequest;
  Ok cursor.

(** [InstanceListCursor.valid] *)
Definition listCursor_valid (cursor : InstanceListCursor) : bool :=
  if IsZero (lc_createdAt cursor) then bool_decide (lc_instanceID cursor = EmptyString)
  else instanceIDPattern (lc_instanceID cursor).

Record InstanceListQuery := mkListQuery {
  lq_selection : InstanceListSelection;
  lq_after : InstanceListCursor;
  lq_limit : Z
}.

(** [InstanceListQuery.Valid] *)
Definition listQuery_Valid (query : InstanceListQuery) : bool :=
  negb (bool_decide (lq_selection query = ListSelectionUndeclared))
  && listCursor_valid (lq_after query) && (0 <? lq_limit query) && (lq_limit query <=? MaxInstanceListItems).

Definition NewInstanceListQuery (spec : InstanceListQuery) : result InstanceListQuery :=
  let query := mkListQuery (lq_selection spec) (lq_after spec) (lq_limit spec) in
  reject negb (listQuery_Valid query) with ErrInvalidStoreRequest;
  Ok query.

Record InstanceRecord := mkInstanceRecord {
  rc_instanceID : string;
  rc_definition : DefinitionReference;
  rc_sequence : Z;
  rc_createdAt : Time;
  rc_updatedAt : Time;
  rc_archivedAt : Time
}.

(** [InstanceRecord.valid] *)
Definition instanceRecord_valid (record : InstanceRecord) : bool :=
  instanceIDPattern (rc_instanceID record) && reference_valid (rc_definition record)
  && (0 <? rc_sequence record) && negb (IsZero (rc_createdAt record))
  && negb (Before (rc_updatedAt record) (rc_createdAt record))
  && (IsZero (rc_archivedAt record) || negb (Before (rc_archivedAt record) (rc_updatedAt record))).

Definition NewInstanceRecord (spec : InstanceRecord) : result InstanceRecord :=
  let record := mkInstanceRecord (rc_instanceID spec) (rc_definition spec) (rc_sequence spec)
    (canonicalTime (rc_createdAt spec)) (canonicalTime (rc_updatedAt spec)) (canonicalTime (rc_archivedAt spec)) in
  reject negb (instanceRecord_valid record) with ErrInvalidStoreRequest;
  Ok record.

Record InstanceListPage := mkListPage {
  lp_items : list InstanceRecord;
  lp_nextCursor : InstanceListCursor;
  lp_hasMore : bool
}.

Definition instanceSelectionMatches (selection : InstanceListSelection) (item : InstanceRecord) : bool :=
  match selection with
  | ListActiveInstances => IsZero (rc_archivedAt item)
  | ListArchivedInstances => negb (IsZero (rc_archivedAt item))
  | _ => true
  end.

(** Go compares strings byte by byte. *)
Definition cursorBefore (cursor : InstanceListCursor) (createdAt : Time) (instanceID : string) : bool :=
  if IsZero (lc_createdAt cursor) || After createdAt (lc_createdAt cursor) then true
  else if negb (Equal createdAt (lc_createdAt cursor)) then false
  else String.ltb (lc_instanceID cursor) instanceID.

(** The loop over the items; [previous] is the cursor so far. *)
Fixpoint listItems (query : InstanceListQuery) (previous : InstanceListCursor) (items : list InstanceRecord)
    : result InstanceListCursor :=
  match items with
  | [] => Ok previous
  | item :: rest =>
      reject negb (instanceRecord_valid item) || negb (instanceSelectionMatches (lq_selection query) item)
        || negb (cursorBefore previous (rc_createdAt item) (rc_instanceID item)) with ErrInvalidStoreRequest;
      listItems query (mkListCursor (rc_createdAt item) (rc_instanceID item)) rest
  end.

Definition NewInstanceListPage (query : InstanceListQuery) (items : list InstanceRecord) (hasMore : bool)
    : result InstanceListPage :=
  reject negb (listQuery_Valid query) || (lq_limit query <? Z.of_nat (length items))
    || (hasMore && negb (Z.of_nat (length items) =? lq_limit query)) with ErrInvalidStoreRequest;
  next ← listItems query (lq_after query) items;
  Ok (mkListPage items next hasMore).

(** ** Reconciliation of uncertain commits *)

Record TransitionReconciliation := mkReconciliation { rl_transitionID : string; rl_fingerprint : string }.

Definition reconciliation_Valid (reconciliation : TransitionReconciliation) : bool :=
  instanceIDPattern (rl_transitionID reconciliation) && fingerprintPattern (rl_fingerprint reconciliation).

Definition NewTransitionReconciliation (spec : TransitionReconciliation) : result TransitionReconciliation :=
  let reconciliation := mkReconciliation (rl_transitionID spec) (rl_fingerprint spec) in
  reject negb (reconciliation_Valid reconciliation) with ErrInvalidStoreRequest;
  Ok reconciliation.

Inductive TransitionReconciliationOutcome :=
  | TransitionMissing | TransitionCommitted | TransitionConflicting | TransitionReconciliationUndeclared.

#[export] Instance TransitionReconciliationOutcome_eq_dec : EqDecision TransitionReconciliationOutcome.
Proof. solve_decision. Defined.
