(* ===== verification/DeadLetter.v ===== *)
(** * Dead letters and their resolutions (deadletter.go) *)
From S2P Require Import Prelude GoTime Names Sha256 Json Definitions Work.

Definition MaxDeadLetterPageItems : Z := 100.

Inductive DeadLetterResolutionAction := DeadLetterRetry | DeadLetterDiscard | DeadLetterActionUndeclared.

#[export] Instance DeadLetterResolutionAction_eq_dec : EqDecision DeadLetterResolutionAction.
Proof. solve_decision. Defined.

Definition DeadLetterResolutionAction_code (action : DeadLetterResolutionAction) : Z :=
  match action with DeadLetterRetry => 1 | DeadLetterDiscard => 2 | DeadLetterActionUndeclared => 0 end.

Definition DeadLetterResolutionAction_String (action : DeadLetterResolutionAction) : string :=
  match action with DeadLetterRetry => "retry" | DeadLetterDiscard => "discard" | DeadLetterActionUndeclared => "" end.

Record DeadLetterResolutionSpec := mkResolutionSpec {
  ds_CommandID : string;
  ds_WorkID : string;
  ds_Token : Z;
  ds_Action : DeadLetterResolutionAction;
  ds_Actor : string;
  ds_Reason : string;
  ds_OccurredAt : Time;
  ds_RetryAt : Time;
  ds_Deadline : Time
}.

Record DeadLetterResolution := mkResolution {
  dl_commandID : string;
  dl_workID : string;
  dl_token : Z;
  dl_action : DeadLetterResolutionAction;
  dl_actor : string;
  dl_reason : string;
  dl_occurredAt : Time;
  dl_retryAt : Time;
  dl_deadline : Time;
  dl_fingerprint : string
}.

(** [DeadLetterResolution.validFields] *)
Definition resolution_validFields (resolution : DeadLetterResolution) : bool :=
  if negb (instanceIDPattern (dl_commandID resolution)) || negb (instanceIDPattern (dl_workID resolution))
     || (dl_token resolution =? 0)
     || bool_decide (DeadLetterResolutionAction_String (dl_action resolution) = EmptyString)
     || negb (instanceIDPattern (dl_actor resolution)) || negb (stableName (dl_reason resolution))
     || IsZero (dl_occurredAt resolution) then false
  else if bool_decide (dl_action resolution = DeadLetterRetry)
  then negb (Before (dl_retryAt resolution) (dl_occurredAt resolution))
    && After (dl_deadline resolution) (dl_retryAt resolution)
  else IsZero (dl_retryAt resolution) && IsZero (dl_deadline resolution).

Definition resolution_json (resolution : DeadLetterResolution) : option json :=
  occurredAt ← json_time (dl_occurredAt resolution);
  retryAt ← json_time (dl_retryAt resolution);
  deadline ← json_time (dl_deadline resolution);
  Some (JObj [("CommandID", JStr (dl_commandID resolution)); ("WorkID", JStr (dl_workID resolution));
    ("Token", JNum (dl_token resolution)); ("Action", JNum (DeadLetterResolutionAction_code (dl_action resolution)));
    ("Actor", JStr (dl_actor resolution)); ("Reason", JStr (dl_reason resolution));
    ("OccurredAt", occurredAt); ("RetryAt", retryAt); ("Deadline", deadline)]).

Definition deadLetterResolutionFingerprint (resolution : DeadLetterResolution) : string :=
  sha256_hex (marshal (resolution_json resolution)).

Definition NewDeadLetterResolution (spec : DeadLetterResolutionSpec) : result DeadLetterResolution :=
  let resolution := mkResolution (ds_CommandID spec) (ds_WorkID spec) (ds_Token spec) (ds_Action spec) (ds_Actor spec)
    (ds_Reason spec) (canonicalTime (ds_OccurredAt spec)) (canonicalTime (ds_RetryAt spec))
    (canonicalTime (ds_Deadline spec)) "" in
  reject negb (resolution_validFields resolution) with ErrInvalidOperatorCommand;
  Ok (mkResolution (dl_commandID resolution) (dl_workID resolution) (dl_token resolution) (dl_action resolution)
        (dl_actor resolution) (dl_reason resolution) (dl_occurredAt resolution) (dl_retryAt resolution)
        (dl_deadline resolution) (deadLetterResolutionFingerprint resolution)).

(** [DeadLetterResolution.Valid]: the fingerprint is computed again. *)
Definition resolution_Valid (resolution : DeadLetterResolution) : bool :=
  resolution_validFields resolution
  && bool_decide (dl_fingerprint resolution = deadLetterResolutionFingerprint resolution).

(** ** Records, cursors and pages *)

Record DeadLetterRecord := mkDeadRecord {
  dr_work : PendingWork;
  dr_attempt : Z;  (** uint32 *)
  dr_token : Z;    (** uint64 *)
  dr_failureCode : string;
  dr_failedAt : Time
}.

(** [DeadLetterRecord.valid] *)
Definition deadRecord_valid (record : DeadLetterRecord) : bool :=
  work_valid (dr_work record) && (0 <? dr_attempt record) && (0 <? dr_token record)
  && stableName (dr_failureCode record) && negb (IsZero (dr_failedAt record)).

(** The copy of the work with its own payload. *)
Definition own_work (work : PendingWork) : PendingWork :=
  mkWork (wk_id work) (wk_kind work) (wk_instanceID work) (wk_sequence work) (wk_availableAt work) (wk_deadline work)
    (cloneBytes (wk_payload work)) (wk_tenantID work) (wk_correlationID work).

Definition NewDeadLetterRecord (spec : DeadLetterRecord) : result DeadLetterRecord :=
  let record := mkDeadRecord (own_work (dr_work spec)) (dr_attempt spec) (dr_token spec) (dr_failureCode spec)
    (canonicalTime (dr_failedAt spec)) in
  reject negb (deadRecord_valid record) with ErrInvalidStoreRequest;
  Ok record.

Record DeadLetterCursor := mkDeadCursor { dc_failedAt : Time; dc_workID : string }.

#[export] Instance DeadLetterCursor_eq_dec : EqDecision DeadLetterCursor.
Proof. solve_decision. Defined.

Definition zeroDeadCursor : DeadLetterCursor := mkDeadCursor zeroTime "".

(** [DeadLetterCursor.valid] *)
Definition deadCursor_valid (cursor : DeadLetterCursor) : bool :=
  negb (IsZero (dc_failedAt cursor)) && instanceIDPattern (dc_workID cursor).

Definition NewDeadLetterCursor (spec : DeadLetterCursor) : result DeadLetterCursor :=
  let cursor := mkDeadCursor (canonicalTime (dc_failedAt spec)) (dc_workID spec) in
  reject negb (deadCursor_valid cursor) with ErrInvalidStoreRequest;
  Ok cursor.

Record DeadLetterQuery := mkDeadQuery { dq_after : DeadLetterCursor; dq_limit : Z }.

(** [DeadLetterQuery.Valid]; the struct comparison is Go's [==]. *)
Definition deadQuery_Valid (query : DeadLetterQuery) : bool :=
  (0 <? dq_limit query) && (dq_limit query <=? MaxDeadLetterPageItems)
  && (bool_decide (dq_after query = zeroDeadCursor) || deadCursor_valid (dq_after query)).

Definition NewDeadLetterQuery (spec : DeadLetterQuery) : result DeadLetterQuery :=
  let query := mkDeadQuery (dq_after spec) (dq_limit spec) in
  reject negb (deadQuery_Valid query) with ErrInvalidStoreRequest;
  Ok query.

Record DeadLetterPage := mkDeadPage {
  dp_items : list DeadLetterRecord;
  dp_nextCursor : DeadLetterCursor;
  dp_hasMore : bool
}.

Definition deadLetterCursorBefore (cursor : DeadLetterCursor) (failedAt : Time) (workID : string) : bool :=
  if IsZero (dc_failedAt cursor) then true
  else if After failedAt (dc_failedAt cursor) then true
  else Equal failedAt (dc_failedAt cursor) && String.ltb (dc_workID cursor) workID.

Fixpoint deadItems (previous : DeadLetterCursor) (items : list DeadLetterRecord)
    : result (list DeadLetterRecord * DeadLetterCursor) :=
  match items with
  | [] => Ok ([], previous)
  | item :: rest =>
      reject negb (deadRecord_valid item)
        || negb (deadLetterCursorBefore previous (dr_failedAt item) (wk_id (dr_work item))) with ErrInvalidStoreRequest;
      let owned := mkDeadRecord (own_work (dr_work item)) (dr_attempt item) (dr_token item) (dr_failureCode item)
        (dr_failedAt item) in
      tail ← deadItems (mkDeadCursor (dr_failedAt item) (wk_id (dr_work item))) rest;
      Ok (owned :: tail.1, tail.2)
  end.

Definition NewDeadLetterPage (query : DeadLetterQuery) (items : list DeadLetterRecord) (hasMore : bool)
    : result DeadLetterPage :=
  reject negb (deadQuery_Valid query) || (dq_limit query <? Z.of_nat (length items))
    || (hasMore && negb (Z.of_nat (length items) =? dq_limit query)) with ErrInvalidStoreRequest;
  page ← deadItems (dq_after query) items;
  Ok (mkDeadPage page.1 page.2 hasMore).

(** ** Facts *)

Lemma own_work_id work : own_work work = work.
Proof. unfold own_work. rewrite cloneBytes_id. by destruct work. Qed.

(** The fingerprint ignores the fingerprint field, so a constructed resolution is valid. *)
Lemma NewDeadLetterResolution_valid spec resolution :
  NewDeadLetterResolution spec = Ok resolution -> resolution_Valid resolution = true.
Proof.
  unfold NewDeadLetterResolution. cbn zeta. intros H.
  destruct (resolution_validFields _) eqn:Hv; [| done]. cbn [negb] in H. injection H as <-.
  unfold resolution_Valid. apply andb_true_iff. split; [exact Hv |]. by apply bool_decide_eq_true_2.
Qed.
