(* ===== verification/Inspection.v ===== *)
(** * Bounded traversal of histories (inspection.go)

    Inspection replays the pages of a history reader; export hands them to a sink.
    The reader, the context and the sink are the caller's: they act on a world [W]. *)
From S2P Require Import Prelude GoTime Names Definitions Registry OperatorAudit Event Instances Replay.
From S2P Require Import ReplayProperties Transition Store.

Definition MaxInspectionHistoryEvents : Z := 100000.

Record InstanceInspectionSpec := mkInspectionSpec {
  is_InstanceID : string;
  is_PageSize : Z;
  is_MaxEvents : Z
}.

Definition validHistoryTraversal (instanceID : string) (pageSize maxEvents : Z) : bool :=
  if negb (instanceIDPattern instanceID) then false
  else if (pageSize =? 0) || (MaxHistoryPageEvents <? pageSize) then false
  else (0 <? maxEvents) && (maxEvents <=? MaxInspectionHistoryEvents).

Section Traverse.
Context {W : Type} (History : HistoryQuery -> W -> result HistoryPage * W).
Context (ctxErr : W -> option GoError) (sink : list HistoryEvent -> W -> option GoError * W).

(** The loop; [None] is an iteration count that ran out. *)
Fixpoint traverseHistory (fuel : nat) (instanceID : string) (pageSize maxEvents after count : Z) (w : W)
    : option (option GoError * W) :=
  match fuel with
  | O => None
  | S fuel =>
      match ctxErr w with
      | Some err => Some (Some err, w)
      | None =>
          let remaining := u64 (maxEvents - count) in
          let limit := u32 (Z.min pageSize remaining) in
          let query := or_zero zeroQuery (NewHistoryQuery (mkHistoryQuery instanceID after limit)) in
          let '(answer, w) := History query w in
          match answer with
          | Err err => Some (Some err, w)
          | Ok page =>
              let events := pg_events page in
              match NewHistoryPage query events (pg_hasMore page) with
              | Err _ => Some (Some ErrInvalidStoreRequest, w)
              | Ok validated =>
                  if negb (pg_nextAfterSequence validated =? pg_nextAfterSequence page)
                  then Some (Some ErrInvalidStoreRequest, w)
                  else if Z.of_nat (length events) =? 0 then Some (None, w)
                  else
                    let '(refused, w) := sink events w in
                    match refused with
                    | Some err => Some (Some err, w)
                    | None =>
                        let count := u64 (count + Z.of_nat (length events)) in
                        let after := pg_nextAfterSequence page in
                        if negb (pg_hasMore page) then Some (None, w)
                        else if count =? maxEvents then Some (Some ErrHistoryLimitExceeded, w)
                        else traverseHistory fuel instanceID pageSize maxEvents after count w
                    end
              end
          end
      end
  end.
End Traverse.

(** Enough iterations for any reader (see [traverse_terminates]). *)
Definition traverse_fuel (maxEvents : Z) : nat := Z.to_nat maxEvents.

Definition ExportHistory {W : Type} (History : HistoryQuery -> W -> result HistoryPage * W)
    (ctxErr : W -> option GoError) (sink : list HistoryEvent -> W -> option GoError * W)
    (spec : InstanceInspectionSpec) (w : W) : option (option GoError * W) :=
  if negb (validHistoryTraversal (is_InstanceID spec) (is_PageSize spec) (is_MaxEvents spec))
  then Some (Some ErrInvalidStoreRequest, w)
  else traverseHistory History ctxErr sink (traverse_fuel (is_MaxEvents spec)) (is_InstanceID spec) (is_PageSize spec)
         (is_MaxEvents spec) 0 0 w.

(** The closure of [InspectInstance] appends to a local slice: the world of its
    traversal carries that slice. *)
Definition collect {W : Type} (events : list HistoryEvent) (w : W * list HistoryEvent) : option GoError * (W * list HistoryEvent) :=
  (None, (w.1, w.2 ++ events)).

Definition collecting {W : Type} (History : HistoryQuery -> W -> result HistoryPage * W)
    (query : HistoryQuery) (w : W * list HistoryEvent) : result HistoryPage * (W * list HistoryEvent) :=
  let '(answer, w') := History query w.1 in (answer, (w', w.2)).

Definition InspectInstance {W : Type} (History : HistoryQuery -> W -> result HistoryPage * W)
    (ctxErr : W -> option GoError) (registry : option Registry) (spec : InstanceInspectionSpec) (w : W)
    : option (result Instance_ * W) :=
  match registry with
  | None => Some (Err ErrInvalidStoreRequest, w)
  | Some _ =>
      if negb (validHistoryTraversal (is_InstanceID spec) (is_PageSize spec) (is_MaxEvents spec))
      then Some (Err ErrInvalidStoreRequest, w)
      else
        '(err, (w, events)) ← traverseHistory (collecting History) (fun w => ctxErr w.1) collect
          (traverse_fuel (is_MaxEvents spec)) (is_InstanceID spec) (is_PageSize spec) (is_MaxEvents spec) 0 0 (w, []);
        Some (match err with
              | Some err => Err err
              | None => Replay registry events
              end, w)
  end.

(** ** Termination *)

(** Every iteration that goes round delivers at least one of the [maxEvents] events. *)
Lemma traverse_returns {W : Type} (History : HistoryQuery -> W -> result HistoryPage * W) ctxErr sink
    instanceID pageSize maxEvents : forall fuel after count w,
  0 <= count < maxEvents -> maxEvents <= MaxInspectionHistoryEvents -> maxEvents - count <= Z.of_nat fuel ->
  1 <= pageSize ->
  is_Some (traverseHistory History ctxErr sink fuel instanceID pageSize maxEvents after count w).
Proof.
  unfold MaxInspectionHistoryEvents.
  induction fuel as [| fuel IH]; intros after count w Hc Hm Hf Hp; cbn [traverseHistory]; [lia |].
  destruct (ctxErr w); [by eexists |]. rewrite (u64_small (maxEvents - count)), u32_small by lia.
  set (query := or_zero _ _).
  assert (Hlim : historyQuery_valid query = true -> hq_limit query <= maxEvents - count).
  { subst query. unfold NewHistoryQuery. cbn [hq_instanceID hq_afterSequence hq_limit].
    destruct (historyQuery_valid (mkHistoryQuery instanceID after _)); [| done]. intros _. cbn. lia. }
  clearbody query. destruct (History query w) as [[page |] w']; [| by eexists].
  unfold NewHistoryPage. destruct (historyQuery_valid query); [| by eexists]. specialize (Hlim eq_refl). cbn [negb orb].
  destruct (_ || _) eqn:Hg; [by eexists |]. destruct (pageEvents _ _ _ _) as [next |]; [| by eexists].
  cbn [mbind result_bind pg_nextAfterSequence]. destruct (negb (next =? _)); [by eexists |].
  destruct (Z.eqb_spec (Z.of_nat (length (pg_events page))) 0) as [| He]; [by eexists |].
  destruct (sink (pg_events page) w') as [[err |] w'']; [by eexists |].
  destruct (pg_hasMore page); cbn [negb]; [| by eexists]. bool_norm. rewrite u64_small by lia.
  destruct (Z.eqb_spec (count + Z.of_nat (length (pg_events page))) maxEvents) as [| Hne]; [by eexists |].
  apply IH; lia.
Qed.

(** ** Traversal of a log *)

(** A reader that answers from a log: what the package expects of [HistoryReader].
    Event [k] of the log has sequence [k + 1]. *)
Class LogReader {W : Type} (History : HistoryQuery -> W -> result HistoryPage * W) (w : W) (instanceID : string)
    (log : list HistoryEvent) : Prop := {
  log_follows : follows instanceID 0 log;
  log_page : forall after limit, 0 <= after <= Z.of_nat (length log) -> historyQuery_valid (mkHistoryQuery instanceID after limit) = true ->
    History (mkHistoryQuery instanceID after limit) w
    = (NewHistoryPage (mkHistoryQuery instanceID after limit)
         (take (Z.to_nat limit) (drop (Z.to_nat after) log)) (after + limit <? Z.of_nat (length log)), w)
}.

Lemma follows_sequences instanceID after events :
  0 <= after -> after + Z.of_nat (length events) < 2 ^ 64 -> follows instanceID after events ->
  Forall (fun e => ev_sequence e < 2 ^ 64) events.
Proof.
  intros Ha Hl Hf. apply Forall_lookup_2. intros k e Hk. destruct (Hf k e Hk) as (_ & _ & ->).
  apply lookup_lt_Some in Hk. lia.
Qed.

Lemma follows_drop instanceID log k :
  (k <= length log)%nat -> follows instanceID 0 log -> follows instanceID (Z.of_nat k) (drop k log).
Proof.
  intros Hk. rewrite <- (take_drop k log) at 1. rewrite follows_app, length_take. intros [_ H].
  by replace (Z.of_nat k) with (0 + Z.of_nat (k `min` length log)%nat) by lia.
Qed.

(** One page of the log: it validates, and its cursor is the number of events read. *)
Lemma log_page_ok instanceID log after limit :
  instanceIDPattern instanceID = true -> Z.of_nat (length log) < 2 ^ 63 -> follows instanceID 0 log ->
  0 <= after <= Z.of_nat (length log) -> 1 <= limit <= MaxHistoryPageEvents ->
  let events := take (Z.to_nat limit) (drop (Z.to_nat after) log) in
  let more := after + limit <? Z.of_nat (length log) in
  NewHistoryPage (mkHistoryQuery instanceID after limit) events more
  = Ok (mkHistoryPage events (after + Z.of_nat (length events)) more).
Proof.
  intros Hid Hlen Hfollows Ha Hl events more. unfold MaxHistoryPageEvents in Hl.
  assert (Hn : length events = (Z.to_nat limit `min` (length log - Z.to_nat after))%nat).
  { subst events. by rewrite length_take, length_drop. }
  assert (Hf : follows instanceID after events).
  { pose proof (follows_drop instanceID log (Z.to_nat after) ltac:(lia) Hfollows) as Hd.
    rewrite Z2Nat.id in Hd by lia. subst events. rewrite <- (take_drop (Z.to_nat limit) (drop _ log)) in Hd.
    by apply follows_app in Hd as [Hd _]. }
  clearbody events. apply NewHistoryPage_iff; cbn [hq_instanceID hq_afterSequence hq_limit]; [lia | |].
  - eapply follows_sequences; [| | exact Hf]; lia.
  - split_and!; [| lia | | done | done].
    + unfold historyQuery_valid, MaxHistoryPageEvents, MaxUint64. cbn [hq_instanceID hq_afterSequence hq_limit]. rewrite Hid.
      autorewrite with bools. split_and!; (done || lia).
    + subst more. intros H%Z.ltb_lt. lia.
Qed.

Section Log.
Context {W : Type} (History : HistoryQuery -> W -> result HistoryPage * W) (instanceID : string) (log : list HistoryEvent).
Context (w : W) `{Hread : LogReader W History w instanceID log}.
Context (Hid : instanceIDPattern instanceID = true) (Hlen : Z.of_nat (length log) < 2 ^ 63).

(** The traversal delivers the rest of the log, or its first [maxEvents] events and
    the limit error. *)
Lemma traverse_log pageSize maxEvents : 1 <= pageSize <= MaxHistoryPageEvents -> maxEvents <= MaxInspectionHistoryEvents ->
  forall fuel count acc,
  0 <= count < maxEvents -> count <= Z.of_nat (length log) -> maxEvents - count <= Z.of_nat fuel ->
  traverseHistory (collecting History) (fun _ => None) collect fuel instanceID pageSize maxEvents count count (w, acc)
  = Some (if maxEvents <? Z.of_nat (length log) then Some ErrHistoryLimitExceeded else None,
          (w, acc ++ take (Z.to_nat (maxEvents - count)) (drop (Z.to_nat count) log))).
Proof.
  unfold MaxHistoryPageEvents, MaxInspectionHistoryEvents. intros Hp Hm.
  induction fuel as [| fuel IH]; intros count acc Hc Hl Hf; cbn [traverseHistory]; [lia |].
  rewrite (u64_small (maxEvents - count)), u32_small by lia. set (limit := Z.min pageSize (maxEvents - count)).
  assert (Hlim : 1 <= limit <= MaxHistoryPageEvents) by (unfold MaxHistoryPageEvents; lia).
  pose proof (log_page_ok instanceID log count limit Hid Hlen log_follows ltac:(lia) Hlim) as Hpage. cbn zeta in Hpage.
  assert (Hv : historyQuery_valid (mkHistoryQuery instanceID count limit) = true).
  { unfold NewHistoryPage in Hpage. by destruct (historyQuery_valid _). }
  unfold NewHistoryQuery. cbn [hq_instanceID hq_afterSequence hq_limit]. rewrite Hv. cbn [negb or_zero].
  unfold collecting at 1. cbn [fst snd]. rewrite log_page, Hpage by (lia || done). cbn [pg_events pg_hasMore pg_nextAfterSequence].
  rewrite Hpage. cbn [pg_nextAfterSequence]. rewrite Z.eqb_refl. cbn [negb].
  set (events := take (Z.to_nat limit) (drop (Z.to_nat count) log)).
  assert (Hn : length events = (Z.to_nat limit `min` (length log - Z.to_nat count))%nat).
  { subst events. by rewrite length_take, length_drop. }
  destruct (Z.eqb_spec (Z.of_nat (length events)) 0) as [Hz | Hz].
  { rewrite (proj2 (Z.ltb_ge _ _)) by lia. rewrite (drop_ge log) by lia. by rewrite take_nil, app_nil_r. }
  cbn [collect fst snd]. destruct (Z.ltb_spec (count + limit) (Z.of_nat (length log))) as [Hmore | Hmore]; cbn [negb].
  - rewrite u64_small by lia. replace (Z.of_nat (length events)) with limit by lia.
    destruct (Z.eqb_spec (count + limit) maxEvents) as [He | He].
    + rewrite (proj2 (Z.ltb_lt _ _)) by lia. do 2 f_equal. subst events. do 2 f_equal. f_equal. lia.
    + rewrite IH by lia. do 3 f_equal. rewrite <- app_assoc. f_equal. subst events.
      replace (Z.to_nat (maxEvents - count)) with (Z.to_nat limit + Z.to_nat (maxEvents - (count + limit)))%nat by lia.
      rewrite <- take_take_drop, drop_drop. do 3 f_equal. lia.
  - rewrite (proj2 (Z.ltb_ge _ _)) by lia. do 3 f_equal. subst events. rewrite !take_ge; [done | |]; rewrite length_drop; lia.
Qed.
End Log.

(** A reader over a list in memory. *)
Definition list_reader (log : list HistoryEvent) (query : HistoryQuery) (w : unit) : result HistoryPage * unit :=
  (NewHistoryPage query (take (Z.to_nat (hq_limit query)) (drop (Z.to_nat (hq_afterSequence query)) log))
     (hq_afterSequence query + hq_limit query <? Z.of_nat (length log)), w).

#[export] Instance list_reader_log log instanceID :
  follows instanceID 0 log -> LogReader (list_reader log) tt instanceID log.
Proof. intros Hf. split; [exact Hf |]. intros after limit _ _. reflexivity. Qed.

Definition follows_check (instanceID : string) (log : list HistoryEvent) : bool :=
  bool_decide (imap (fun k e => (historyEventValid e, ev_instanceID e, ev_sequence e)) log
    = imap (fun k _ => (true, instanceID, 1 + Z.of_nat k)) log).

Lemma follows_check_ok instanceID log : follows_check instanceID log = true -> follows instanceID 0 log.
Proof.
  intros H%bool_decide_eq_true k e Hk. apply (f_equal (fun l => l !! k)) in H.
  rewrite !list_lookup_imap, Hk in H. cbn in H. injection H as -> -> ->. split_and!; [done | done | lia].
Qed.

(** ** Properties *)

(** C38: Traversals terminate: InspectInstance and ExportHistory return for every reader,
    context and sink, even ones that answer differently each time: at most
    [MaxEvents] pages are requested, since every page that continues the loop
    delivers at least one event and the loop stops at [MaxEvents] events. *)
Theorem traverse_terminates {W : Type} (History : HistoryQuery -> W -> result HistoryPage * W) ctxErr registry spec w :
  0 <= is_PageSize spec < 2 ^ 32 ->
  is_Some (InspectInstance History ctxErr registry spec w)
  /\ forall sink, is_Some (ExportHistory History ctxErr sink spec w).
Proof.
  intros Hp.
  assert (H : forall (V : Type) (h : HistoryQuery -> V -> result HistoryPage * V) c s v,
    validHistoryTraversal (is_InstanceID spec) (is_PageSize spec) (is_MaxEvents spec) = true ->
    is_Some (traverseHistory h c s (traverse_fuel (is_MaxEvents spec)) (is_InstanceID spec) (is_PageSize spec)
      (is_MaxEvents spec) 0 0 v)).
  { intros V h c s v Hv. unfold validHistoryTraversal in Hv. unfold traverse_fuel.
    destruct (negb _); [done |]. destruct (_ || _) eqn:G; [done |]. bool_norm. apply traverse_returns; lia. }
  split.
  - unfold InspectInstance. destruct registry as [registry |]; [| by eexists].
    destruct (validHistoryTraversal _ _ _) eqn:Hv; cbn [negb]; [| by eexists].
    destruct (H _ (collecting History) (fun w => ctxErr w.1) collect (w, []) eq_refl) as [[err [w' events]] ->].
    cbn. by eexists.
  - intros sink. unfold ExportHistory. destruct (validHistoryTraversal _ _ _) eqn:Hv; cbn [negb]; [| by eexists].
    by apply H.
Qed.

(** A reader that never runs dry: every page is full and claims a successor. *)
Definition endless_reader (query : HistoryQuery) (calls : Z) : result HistoryPage * Z :=
  (NewHistoryPage query (map (fun k => sample_event (hq_afterSequence query + 1 + k) EventInstanceResumed "" 0 "" zeroTime "" false None)
     (seqZ 0 (hq_limit query))) true, calls + 1).

Lemma traverse_terminates_witness :
  is_Some (InspectInstance endless_reader (fun _ => None) sample_registry (mkInspectionSpec "wf-1" 2 5) 0)
  /\ ExportHistory endless_reader (fun _ => None) (fun _ w => (None, w)) (mkInspectionSpec "wf-1" 2 5) 0
     = Some (Some ErrHistoryLimitExceeded, 3).
Proof.
  split.
  - apply (traverse_terminates endless_reader (fun _ => None) sample_registry (mkInspectionSpec "wf-1" 2 5) 0).
    cbn. split; [discriminate | reflexivity].
  - vm_compute. reflexivity.
Defined.

(** C40: Inspection is replay of the whole history, whatever the page size: over a
    reader of a log, InspectInstance returns exactly what [Replay] returns on the
    log, or the limit error when the log is longer than [MaxEvents], never a
    replay of a part of the history. *)
Theorem inspect_is_replay {W : Type} (History : HistoryQuery -> W -> result HistoryPage * W) registry spec w log :
  LogReader History w (is_InstanceID spec) log -> is_Some registry ->
  validHistoryTraversal (is_InstanceID spec) (is_PageSize spec) (is_MaxEvents spec) = true ->
  0 <= is_PageSize spec < 2 ^ 32 -> Z.of_nat (length log) < 2 ^ 63 ->
  InspectInstance History (fun _ => None) registry spec w
  = Some (if is_MaxEvents spec <? Z.of_nat (length log) then Err ErrHistoryLimitExceeded else Replay registry log, w).
Proof.
  intros Hread [r ->] Hv Hp Hl. unfold InspectInstance. rewrite Hv. cbn [negb].
  unfold validHistoryTraversal in Hv. destruct (instanceIDPattern (is_InstanceID spec)) eqn:Hid; [cbn [negb] in Hv | done].
  destruct (_ || _) eqn:G; [done |]. bool_norm.
  rewrite (traverse_log History (is_InstanceID spec) log w Hid Hl (is_PageSize spec) (is_MaxEvents spec))
    by (unfold traverse_fuel, MaxHistoryPageEvents, MaxInspectionHistoryEvents in *; lia).
  cbn [mbind option_bind app]. rewrite drop_0. destruct (Z.ltb_spec (is_MaxEvents spec) (Z.of_nat (length log))); [done |].
  by rewrite take_ge by lia.
Qed.

Lemma inspect_is_replay_witness :
  InspectInstance (list_reader sample_history) (fun _ => None) sample_registry (mkInspectionSpec "wf-1" 3 100) tt
  = Some (Replay sample_registry sample_history, tt).
Proof.
  apply (inspect_is_replay (list_reader sample_history) sample_registry (mkInspectionSpec "wf-1" 3 100) tt sample_history).
  - apply list_reader_log, follows_check_ok. vm_compute. reflexivity.
  - eexists. reflexivity.
  - vm_compute. reflexivity.
  - cbn. split; [discriminate | reflexivity].
  - vm_compute. reflexivity.
Defined.
