(* ===== verification/Tables.v ===== *)
(** * The PostgreSQL tables and their rows (postgres/migration.go, postgres/store.go)

    The five tables of the schema as finite maps by primary key, the encoding of
    events and work into rows and the validated decoding of rows. The statements
    over the tables are in Statements.v. A [timestamptz] column does not hold every
    instant: [stamp] is what the driver and the database keep of one. *)
From S2P Require Import Prelude GoTime Names Definitions Event.
From S2P Require Import Work Transition Administration DeadLetter.

(** ** Columns *)

Record InstanceRow := mkInstanceRow {
  ri_name : string;
  ri_version : string;
  ri_fingerprint : string;
  ri_sequence : Z;
  ri_created : Time;
  ri_updated : Time;
  ri_archived : option Time
}.

Record TransitionRow := mkTransitionRow {
  rt_instance : string;
  rt_fingerprint : string;
  rt_expected : Z;
  rt_committed : Z;
  rt_at : Time
}.

Record HistoryRow := mkHistoryRow {
  rh_kind : Z;
  rh_occurred : Time;
  rh_name : string;
  rh_version : string;
  rh_fingerprint : string;
  rh_successor : string;
  rh_step : string;
  rh_attempt : Z;
  rh_key : string;
  rh_due : option Time;
  rh_code : string;
  rh_retryable : bool;
  rh_data : bytes
}.

Record WorkRow := mkWorkRow {
  rw_kind : Z;
  rw_instance : string;
  rw_sequence : Z;
  rw_available : Time;
  rw_deadline : Time;
  rw_payload : bytes;
  rw_tenant : string;
  rw_correlation : string;
  rw_state : Z;
  rw_attempts : Z;
  rw_owner : option string;
  rw_token : Z;
  rw_expires : option Time;
  rw_code : string;
  rw_completed : option Time
}.

Record ResolutionRow := mkResolutionRow {
  rr_fingerprint : string;
  rr_work : string;
  rr_token : Z;
  rr_action : Z;
  rr_actor : string;
  rr_reason : string;
  rr_occurred : Time;
  rr_retry : option Time;
  rr_deadline : option Time
}.

#[export] Instance InstanceRow_eq_dec : EqDecision InstanceRow.
Proof. solve_decision. Defined.
#[export] Instance HistoryRow_eq_dec : EqDecision HistoryRow.
Proof. solve_decision. Defined.
#[export] Instance WorkRow_eq_dec : EqDecision WorkRow.
Proof. solve_decision. Defined.

(** The schema: [workflow_history] has the key (instance_id, sequence). *)
Record Database := mkDatabase {
  db_instances : gmap string InstanceRow;
  db_transitions : gmap string TransitionRow;
  db_history : gmap (string * Z) HistoryRow;
  db_work : gmap string WorkRow;
  db_resolutions : gmap string ResolutionRow
}.

Definition emptyDatabase : Database := mkDatabase ∅ ∅ ∅ ∅ ∅.

Definition set_instances (db : Database) x : Database :=
  mkDatabase x (db_transitions db) (db_history db) (db_work db) (db_resolutions db).
Definition set_transitions (db : Database) x : Database :=
  mkDatabase (db_instances db) x (db_history db) (db_work db) (db_resolutions db).
Definition set_history (db : Database) x : Database :=
  mkDatabase (db_instances db) (db_transitions db) x (db_work db) (db_resolutions db).
Definition set_work (db : Database) x : Database :=
  mkDatabase (db_instances db) (db_transitions db) (db_history db) x (db_resolutions db).
Definition set_resolutions (db : Database) x : Database :=
  mkDatabase (db_instances db) (db_transitions db) (db_history db) (db_work db) x.

(** ** Time columns *)

(** What the adapter relies on: equal instants are stored equally, and storing
    never swaps two instants. *)
Class Timestamps (stamp : Time -> Time) : Prop := {
  stamp_instant :: Proper (same_instant ==> same_instant) stamp;
  stamp_monotone a b : instant_ltb b a = false -> instant_ltb (stamp b) (stamp a) = false
}.

(** An instant the column keeps exactly. *)
Definition precise (stamp : Time -> Time) (t : Time) : Prop := same_instant (stamp t) t.

(** PostgreSQL keeps microseconds; pgx drops the rest. *)
Definition microseconds (t : Time) : Time := mkTime (t_sec t) (t_nsec t / 1000 * 1000) None UTC.

#[export] Instance microseconds_timestamps : Timestamps microseconds.
Proof.
  split.
  - intros a b [H1 H2]. unfold microseconds. split; cbn; congruence.
  - intros a b H. unfold instant_ltb, microseconds in *. cbn.
    apply orb_false_iff in H as [H1 H2]. apply orb_false_iff. split; [done |].
    apply andb_false_iff in H2. apply andb_false_iff.
    destruct H2 as [H2 | H2]; [by left | right]. apply Z.ltb_ge in H2. apply Z.ltb_ge.
    pose proof (Z.div_le_mono _ _ 1000 ltac:(lia) H2). lia.
Qed.

Section Rows.
Context (stamp : Time -> Time).

(** [nullableTime] *)
Definition nullableTime (value : Time) : option Time := if IsZero value then None else Some (stamp value).

(** ** Events *)

Definition EventKind_of (code : Z) : EventKind :=
  match code with
  | 1 => EventInstanceStarted | 2 => EventInstancePaused | 3 => EventInstanceResumed
  | 4 => EventCancellationRequested | 5 => EventInstanceCancelled | 6 => EventInstanceCompleted
  | 7 => EventInstanceFailed | 8 => EventInstanceTerminated | 9 => EventDefinitionMigrated
  | 10 => EventContinuedAsNew
  | 11 => EventActivityScheduled | 12 => EventActivityAttemptStarted | 13 => EventActivityAttemptSucceeded
  | 14 => EventActivityAttemptFailed | 15 => EventActivityAttemptUnknown | 16 => EventActivityRetryScheduled
  | 17 => EventTimerScheduled | 18 => EventTimerFired | 19 => EventSignalReceived
  | 20 => EventCompensationScheduled | 21 => EventCompensationAttemptStarted
  | 22 => EventCompensationAttemptSucceeded | 23 => EventCompensationAttemptFailed
  | 24 => EventCompensationAttemptUnknown | 25 => EventCompensationRetryScheduled
  | 26 => EventCompensationManuallyResolved
  | 27 => EventOperatorCommandRecorded | 28 => EventRaceWon
  | 29 => EventChildScheduled | 30 => EventChildCompleted | 31 => EventChildFailed
  | 32 => EventChildStartAttempted | 33 => EventChildStarted | 34 => EventChildStartFailed
  | 35 => EventChildStartUnknown | 36 => EventChildStartRetryScheduled
  | _ => EventKindUndeclared
  end.

(** The columns after the key. *)
Definition historyArguments (event : HistoryEvent) : HistoryRow :=
  let definition := ev_definition event in
  mkHistoryRow (EventKind_code (ev_kind event)) (stamp (ev_occurredAt event)) (ref_name definition)
    (ref_version definition) (ref_fingerprint definition) (ev_successorID event) (ev_stepName event)
    (ev_attempt event) (ev_idempotencyKey event) (nullableTime (ev_dueAt event)) (ev_code event)
    (ev_retryable event) (ev_data event).

Definition scanHistoryEvent (instanceID : string) (row : Z * HistoryRow) : result HistoryEvent :=
  let '(sequence, row) := row in
  reject (sequence <? 1) || (rh_attempt row <? 0) || (2 ^ 32 - 1 <? rh_attempt row)
    || (rh_kind row <? EventKind_code EventInstanceStarted)
    || (EventKind_code EventChildStartRetryScheduled <? rh_kind row) with ErrCorruptStore;
  definition ← (if negb (bool_decide (rh_name row = EmptyString)) || negb (bool_decide (rh_version row = EmptyString))
                   || negb (bool_decide (rh_fingerprint row = EmptyString))
                then match NewDefinitionReference (rh_name row) (rh_version row) (rh_fingerprint row) with
                     | Ok definition => Ok definition
                     | Err err => Err (Joined ErrCorruptStore err)
                     end
                else Ok zeroReference);
  let spec := mkEventSpec (u64 sequence) instanceID (EventKind_of (rh_kind row)) (rh_occurred row) definition
    (rh_successor row) (rh_step row) (u32 (rh_attempt row)) (rh_key row) (default zeroTime (rh_due row)) (rh_code row)
    (rh_retryable row) (rh_data row) in
  match NewHistoryEvent spec with
  | Ok event => Ok event
  | Err err => Err (Joined ErrCorruptStore err)
  end.

(** ** Work *)

Definition WorkKind_of (code : Z) : WorkKind :=
  match code with
  | 1 => WorkActivity | 2 => WorkTimer | 3 => WorkChild | 4 => WorkPublication
  | 5 => WorkReconciliation | 6 => WorkCompensation | _ => WorkKindUndeclared
  end.

(** The inserted columns; the others have the schema's defaults. *)
Definition workArguments (work : PendingWork) : WorkRow :=
  mkWorkRow (WorkKind_code (wk_kind work)) (wk_instanceID work) (wk_sequence work) (stamp (wk_availableAt work))
    (stamp (wk_deadline work)) (wk_payload work) (wk_tenantID work) (wk_correlationID work) 1 0 None 0 None "" None.

(** The work columns of a row, as both scans decode them. *)
Definition scanWork (id : string) (row : WorkRow) : result PendingWork :=
  NewPendingWork (mkWorkSpec id (WorkKind_of (rw_kind row)) (rw_instance row) (u64 (rw_sequence row))
    (rw_available row) (rw_deadline row) (rw_payload row) (rw_tenant row) (rw_correlation row)).

Definition scanWorkLease (owner : string) (claimedAt : Time) (row : string * WorkRow) : result WorkLease :=
  let '(id, row) := row in
  reject (rw_kind row <? WorkKind_code WorkActivity) || (WorkKind_code WorkCompensation <? rw_kind row)
    || (rw_sequence row <? 1) || (rw_attempts row <? 1) || (2 ^ 32 - 1 <? rw_attempts row) || (rw_token row <? 1)
    with ErrCorruptStore;
  match scanWork id row with
  | Err err => Err (Joined ErrCorruptStore err)
  | Ok work =>
      match NewWorkLease (mkLease work owner (u64 (rw_token row)) (u32 (rw_attempts row)) claimedAt
              (default zeroTime (rw_expires row))) with
      | Ok lease => Ok lease
      | Err err => Err (Joined ErrCorruptStore err)
      end
  end.

Definition scanDeadLetterRecord (row : string * WorkRow) : result DeadLetterRecord :=
  let '(id, row) := row in
  reject rw_kind row <? WorkKind_code WorkActivity with ErrCorruptStore;
  reject WorkKind_code WorkCompensation <? rw_kind row with ErrCorruptStore;
  reject rw_sequence row <? 1 with ErrCorruptStore;
  reject rw_attempts row <? 1 with ErrCorruptStore;
  reject 2 ^ 32 - 1 <? rw_attempts row with ErrCorruptStore;
  reject rw_token row <? 1 with ErrCorruptStore;
  match scanWork id row with
  | Err err => Err (Joined ErrCorruptStore err)
  | Ok work =>
      match NewDeadLetterRecord (mkDeadRecord work (u32 (rw_attempts row)) (u64 (rw_token row)) (rw_code row)
              (default zeroTime (rw_completed row))) with
      | Ok record => Ok record
      | Err err => Err (Joined ErrCorruptStore err)
      end
  end.

(** ** Instances *)

Definition scanInstanceRecord (row : string * InstanceRow) : result InstanceRecord :=
  let '(instanceID, row) := row in
  reject ri_sequence row <? 1 with ErrCorruptStore;
  match NewDefinitionReference (ri_name row) (ri_version row) (ri_fingerprint row) with
  | Err err => Err (Joined ErrCorruptStore err)
  | Ok reference =>
      match NewInstanceRecord (mkInstanceRecord instanceID reference (u64 (ri_sequence row)) (ri_created row)
              (ri_updated row) (default zeroTime (ri_archived row))) with
      | Ok record => Ok record
      | Err err => Err (Joined ErrCorruptStore err)
      end
  end.

(** ** What is read back *)

(** The event with its times as the columns keep them. *)
Definition stamped (event : HistoryEvent) : HistoryEvent :=
  mkEvent (ev_sequence event) (ev_instanceID event) (ev_kind event) (canonicalTime (stamp (ev_occurredAt event)))
    (ev_definition event) (ev_successorID event) (ev_stepName event) (ev_attempt event) (ev_idempotencyKey event)
    (canonicalTime (default zeroTime (nullableTime (ev_dueAt event)))) (ev_code event) (ev_retryable event) (ev_data event).

Lemma EventKind_of_code kind : EventKind_of (EventKind_code kind) = kind.
Proof. by destruct kind. Qed.

Lemma WorkKind_of_code kind : WorkKind_of (WorkKind_code kind) = kind.
Proof. by destruct kind. Qed.

Lemma EventKind_code_declared kind : kind <> EventKindUndeclared -> 1 <= EventKind_code kind <= 36.
Proof. by destruct kind. Qed.

(** Decoding an encoded event gives the event back, up to what the columns keep of
    its times, when those times still make a legal event. *)
Lemma scan_history event :
  event_wf event -> validHistoryEventSpec (spec_of (stamped event)) = true ->
  scanHistoryEvent (ev_instanceID event) (ev_sequence event, historyArguments event) = Ok (stamped event).
Proof.
  intros Hw Hv. pose proof (event_wf_shape _ Hw) as Hs. pose proof (event_sequence_range _ Hw) as Hr.
  pose proof (event_attempt_range _ Hw) as Ha.
  pose proof (EventKind_code_declared _ (shape_declared _ Hs)) as Hk.
  pose proof (shape_sequence _ Hs) as Hne. pose proof (shape_definition _ Hs) as Hd.
  unfold scanHistoryEvent, historyArguments.
  cbn [rh_kind rh_occurred rh_name rh_version rh_fingerprint rh_successor rh_step rh_attempt rh_key rh_due rh_code
    rh_retryable rh_data EventKind_code].
  guard_ok. rewrite EventKind_of_code, u64_small, u32_small by lia.
  assert (Hdef : (if negb (bool_decide (ref_name (ev_definition event) = EmptyString))
                     || negb (bool_decide (ref_version (ev_definition event) = EmptyString))
                     || negb (bool_decide (ref_fingerprint (ev_definition event) = EmptyString))
                  then match NewDefinitionReference (ref_name (ev_definition event)) (ref_version (ev_definition event))
                               (ref_fingerprint (ev_definition event)) with
                       | Ok definition => Ok definition | Err err => Err (Joined ErrCorruptStore err) end
                  else Ok zeroReference) = Ok (ev_definition event)).
  { destruct (requiresDefinition (ev_kind event)); [| by rewrite Hd].
    destruct (ev_definition event) as [name version fp]. cbn [ref_name ref_version ref_fingerprint].
    unfold NewDefinitionReference. rewrite Hd. cbn [negb].
    unfold reference_valid in Hd. cbn [ref_name ref_version ref_fingerprint] in Hd. bool_norm.
    rewrite (bool_decide_eq_false_2 (name = EmptyString)); [done | by intros ->]. }
  rewrite Hdef. cbn [mbind result_bind].
  rewrite (proj2 (NewHistoryEvent_spec _ (stamped event))); [done |].
  split; [| done]. exact Hv.
Qed.
End Rows.
