(* ===== verification/Statements.v ===== *)
(** * The SQL statements of the store (postgres/store.go, newStore)

    Each prepared query as a function on the tables: what it reads, what it writes
    and how many rows it touched, with the constraints of the schema
    (postgres/migration.go). A refused constraint, a bigint that does not fit or an
    overflow is an error of the driver, after which the transaction cannot commit.
    [stamp] is what a timestamptz column keeps of an instant and [text_ltb] the order
    of the text columns, which the database's collation decides. *)
From S2P Require Import Prelude GoTime Names Definitions Event.
From S2P Require Import Work Transition Administration DeadLetter Tables.

Definition maxPostgreSQLSequence : Z := 9223372036854775807.
Definition maxPostgreSQLInteger : Z := 2147483647.

(** Strict total orders on text. *)
Class TextOrder (text_ltb : string -> string -> bool) : Prop := {
  text_irreflexive a : text_ltb a a = false;
  text_transitive a b c : text_ltb a b = true -> text_ltb b c = true -> text_ltb a c = true;
  text_total a b : text_ltb a b = false -> text_ltb b a = false -> a = b
}.

Definition driver {A : Type} (diagnostic : string) : result A := Err (DriverError diagnostic).

(** An argument or a result of a bigint column. *)
Definition bigint_fits (z : Z) : bool := z <=? maxPostgreSQLSequence.

Section Statements.
Context (stamp : Time -> Time) (text_ltb : string -> string -> bool).

(** ** Transitions *)

(** findTransition *)
Definition sql_findTransition (transitionID : string) (db : Database) : option string :=
  rt_fingerprint <$> db_transitions db !! transitionID.

(** insertInstance: the number of rows inserted *)
Definition sql_insertInstance (instanceID : string) (definition : DefinitionReference) (at_ : Time) (db : Database)
    : result (Z * Database) :=
  reject negb (slen (ref_fingerprint definition) =? 64) with DriverError "check";
  match db_instances db !! instanceID with
  | Some _ => Ok (0, db)
  | None =>
      let row := mkInstanceRow (ref_name definition) (ref_version definition) (ref_fingerprint definition) 0
        (stamp at_) (stamp at_) None in
      Ok (1, set_instances db (<[instanceID := row]> (db_instances db)))
  end.

(** lockInstance *)
Definition sql_lockInstance (instanceID : string) (db : Database) : option InstanceRow := db_instances db !! instanceID.

(** insertTransition: the inserted fingerprint, or no row on a conflict *)
Definition sql_insertTransition (transition : Transition) (committed : Z) (at_ : Time) (db : Database)
    : result (option string * Database) :=
  reject negb (bigint_fits (tr_expectedSequence transition)) || negb (bigint_fits committed) with DriverError "bigint";
  reject negb (slen (tr_fingerprint transition) =? 64) || (tr_expectedSequence transition <? 0)
    || (committed <=? tr_expectedSequence transition) with DriverError "check";
  match db_transitions db !! tr_id transition with
  | Some _ => Ok (None, db)
  | None =>
      reject negb (bool_decide (is_Some (db_instances db !! tr_instanceID transition))) with DriverError "foreign key";
      let row := mkTransitionRow (tr_instanceID transition) (tr_fingerprint transition)
        (tr_expectedSequence transition) committed (stamp at_) in
      Ok (Some (tr_fingerprint transition), set_transitions db (<[tr_id transition := row]> (db_transitions db)))
  end.

(** insertHistory *)
Definition sql_insertHistory (event : HistoryEvent) (db : Database) : result (unit * Database) :=
  reject negb (bigint_fits (ev_sequence event)) with DriverError "bigint";
  reject (ev_sequence event <=? 0) || (EventKind_code (ev_kind event) <=? 0) || (ev_attempt event <? 0) with DriverError "check";
  reject bool_decide (is_Some (db_history db !! (ev_instanceID event, ev_sequence event))) with DriverError "primary key";
  reject negb (bool_decide (is_Some (db_instances db !! ev_instanceID event))) with DriverError "foreign key";
  Ok (tt, set_history db (<[(ev_instanceID event, ev_sequence event) := historyArguments stamp event]> (db_history db))).

(** insertWork *)
Definition sql_insertWork (work : PendingWork) (db : Database) : result (unit * Database) :=
  reject negb (bigint_fits (wk_sequence work)) with DriverError "bigint";
  reject WorkKind_code (wk_kind work) <=? 0 with DriverError "check";
  reject bool_decide (is_Some (db_work db !! wk_id work)) with DriverError "primary key";
  reject negb (bool_decide (is_Some (db_history db !! (wk_instanceID work, wk_sequence work)))) with DriverError "foreign key";
  Ok (tt, set_work db (<[wk_id work := workArguments stamp work]> (db_work db))).

(** updateInstance: the number of rows updated *)
Definition sql_updateInstance (definition : DefinitionReference) (sequence : Z) (at_ : Time) (instanceID : string)
    (expected : Z) (archived : option Time) (db : Database) : result (Z * Database) :=
  reject negb (bigint_fits sequence) || negb (bigint_fits expected) with DriverError "bigint";
  match db_instances db !! instanceID with
  | None => Ok (0, db)
  | Some row =>
      if negb (ri_sequence row =? expected) then Ok (0, db) else
      reject negb (slen (ref_fingerprint definition) =? 64) || (sequence <? 0) with DriverError "check";
      let row' := mkInstanceRow (ref_name definition) (ref_version definition) (ref_fingerprint definition) sequence
        (ri_created row) (stamp at_)
        (match ri_archived row with Some archived => Some archived | None => stamp <$> archived end) in
      Ok (1, set_instances db (<[instanceID := row']> (db_instances db)))
  end.

(** history: the rows after the cursor in sequence order *)
Definition history_sequences (instanceID : string) (db : Database) : list Z :=
  omap (fun k => if bool_decide (k.1 = instanceID) then Some k.2 else None) (elements (dom (db_history db))).

Definition sql_history (instanceID : string) (after limit : Z) (db : Database) : list (Z * HistoryRow) :=
  take (Z.to_nat limit)
    (omap (fun sequence => pair sequence <$> db_history db !! (instanceID, sequence))
       (order_by Z.leb (filter (fun sequence => after < sequence) (history_sequences instanceID db)))).

(** instanceExists *)
Definition sql_instanceExists (instanceID : string) (db : Database) : bool :=
  bool_decide (is_Some (db_instances db !! instanceID)).

(** ** Work *)

(** [(a.at, a.id) < (b.at, b.id)] *)
Definition keyset_ltb (a b : Time * string) : bool :=
  instant_ltb a.1 b.1 || (negb (instant_ltb b.1 a.1) && text_ltb a.2 b.2).

Definition keyset_leb (a b : Time * string) : bool := negb (keyset_ltb b a).

(** [$1 IS NULL OR key > ($1, $2)] *)
Definition after_key (after : option (Time * string)) (key : Time * string) : bool :=
  match after with
  | Some (at_, id) => keyset_ltb (stamp at_, id) key
  | None => true
  end.

(** due of claimWork *)
Definition due (now : Time) (row : WorkRow) : bool :=
  (((rw_state row =? 1) && negb (instant_ltb now (rw_available row)))
   || ((rw_state row =? 2) && match rw_expires row with Some expires => negb (instant_ltb now expires) | None => false end))
  && instant_ltb now (rw_deadline row).

Definition due_rows (now : Time) (db : Database) : list (string * WorkRow) :=
  filter (fun row => due now row.2 = true) (map_to_list (db_work db)).

Definition work_key (row : string * WorkRow) : Time * string := (rw_available row.2, row.1).

(** row_number() OVER (PARTITION BY tenant_id ORDER BY available_at, work_id) *)
Definition tenant_rank (rows : list (string * WorkRow)) (row : string * WorkRow) : Z :=
  1 + Z.of_nat (length (filter (fun other => rw_tenant other.2 = rw_tenant row.2
    /\ keyset_ltb (work_key other) (work_key row) = true) rows)).

(** ORDER BY tenant_rank, available_at, work_id *)
Definition candidate_leb (rows : list (string * WorkRow)) (a b : string * WorkRow) : bool :=
  (tenant_rank rows a <? tenant_rank rows b)
  || ((tenant_rank rows a =? tenant_rank rows b) && keyset_leb (work_key a) (work_key b)).

(** candidates: rows other sessions have locked are skipped *)
Definition candidates (now : Time) (limit : Z) (locked : gset string) (db : Database) : list (string * WorkRow) :=
  let rows := due_rows now db in
  take (Z.to_nat limit)
    (filter (fun row => row.1 ∉ locked) (order_by (candidate_leb rows) rows)).

(** LEAST of two times *)
Definition least (a b : Time) : Time := if instant_ltb b a then b else a.

Definition claimed_row (owner : string) (expires : Time) (row : WorkRow) : WorkRow :=
  mkWorkRow (rw_kind row) (rw_instance row) (rw_sequence row) (rw_available row) (rw_deadline row) (rw_payload row)
    (rw_tenant row) (rw_correlation row) 2 (rw_attempts row + 1) (Some owner) (rw_token row + 1)
    (Some (least expires (rw_deadline row))) (rw_code row) (rw_completed row).

(** claimWork: the claimed rows, in the order of the last SELECT *)
Definition sql_claimWork (now : Time) (limit : Z) (owner : string) (expires : Time) (locked : gset string) (db : Database)
    : result (list (string * WorkRow) * Database) :=
  let rows := candidates (stamp now) limit locked db in
  reject bool_decide (Exists (fun row => maxPostgreSQLInteger < rw_attempts row.2 + 1) rows) with DriverError "integer";
  reject bool_decide (Exists (fun row => maxPostgreSQLSequence < rw_token row.2 + 1) rows) with DriverError "bigint";
  let claimed := map (fun row => (row.1, claimed_row owner (stamp expires) row.2)) rows in
  Ok (order_by (fun a b => keyset_leb (work_key a) (work_key b)) claimed, set_work db (list_to_map claimed ∪ db_work db)).

(** The fence of the four mutations, with the decision time they compare. *)
Definition fenced (owner : string) (token : Z) (now : Time) (row : WorkRow) : bool :=
  (rw_state row =? 2) && bool_decide (rw_owner row = Some owner) && (rw_token row =? token)
  && match rw_expires row with Some expires => instant_ltb now expires | None => false end.

(** UPDATE ... WHERE work_id AND condition: the row written, if any *)
Definition sql_update_work (workID : string) (condition : WorkRow -> bool) (write : WorkRow -> WorkRow) (db : Database)
    : option WorkRow * Database :=
  match db_work db !! workID with
  | Some row =>
      if condition row then (Some (write row), set_work db (<[workID := write row]> (db_work db))) else (None, db)
  | None => (None, db)
  end.

Definition set_expires (expires : Time) (row : WorkRow) : WorkRow :=
  mkWorkRow (rw_kind row) (rw_instance row) (rw_sequence row) (rw_available row) (rw_deadline row) (rw_payload row)
    (rw_tenant row) (rw_correlation row) (rw_state row) (rw_attempts row) (rw_owner row) (rw_token row)
    (Some expires) (rw_code row) (rw_completed row).

(** renewWork *)
Definition sql_renewWork (workID owner : string) (token : Z) (expires now : Time) (db : Database)
    : result (option WorkRow * Database) :=
  reject negb (bigint_fits token) with DriverError "bigint";
  Ok (sql_update_work workID
        (fun row => fenced owner token (stamp now) row && instant_ltb (stamp now) (rw_deadline row))
        (fun row => set_expires (least (stamp expires) (rw_deadline row)) row) db).

(** The columns the three releases write: the lease is always cleared. *)
Definition release (state : Z) (available : Time) (code : string) (completed : option Time) (row : WorkRow) : WorkRow :=
  mkWorkRow (rw_kind row) (rw_instance row) (rw_sequence row) available (rw_deadline row) (rw_payload row)
    (rw_tenant row) (rw_correlation row) state (rw_attempts row) None (rw_token row) None code completed.

(** completeWork *)
Definition sql_completeWork (workID owner : string) (token : Z) (completedAt : Time) (db : Database)
    : result (option WorkRow * Database) :=
  reject negb (bigint_fits token) with DriverError "bigint";
  Ok (sql_update_work workID (fenced owner token (stamp completedAt))
        (fun row => release 3 (rw_available row) (rw_code row) (Some (stamp completedAt)) row) db).

(** retryWork *)
Definition sql_retryWork (workID owner : string) (token : Z) (code : string) (retryAt failedAt : Time) (db : Database)
    : result (option WorkRow * Database) :=
  reject negb (bigint_fits token) with DriverError "bigint";
  Ok (sql_update_work workID (fenced owner token (stamp failedAt))
        (fun row => release 1 (stamp retryAt) code (rw_completed row) row) db).

(** deadLetterWork *)
Definition sql_deadLetterWork (workID owner : string) (token : Z) (code : string) (failedAt : Time) (db : Database)
    : result (option WorkRow * Database) :=
  reject negb (bigint_fits token) with DriverError "bigint";
  Ok (sql_update_work workID (fenced owner token (stamp failedAt))
        (fun row => release 4 (rw_available row) code (Some (stamp failedAt)) row) db).

(** ** Dead letters *)

(** findResolution *)
Definition sql_findResolution (commandID : string) (db : Database) : option string :=
  rr_fingerprint <$> db_resolutions db !! commandID.

(** lockDeadLetter *)
Definition sql_lockDeadLetter (workID : string) (token : Z) (db : Database) : result (option string) :=
  reject negb (bigint_fits token) with DriverError "bigint";
  Ok (match db_work db !! workID with
      | Some row => if (rw_state row =? 4) && (rw_token row =? token) then Some workID else None
      | None => None
      end).

(** The fence of a resolution: unique in workflow_work_resolutions. *)
Definition resolved (workID : string) (token : Z) (db : Database) : bool :=
  bool_decide (Exists (fun entry => rr_work entry.2 = workID /\ rr_token entry.2 = token) (map_to_list (db_resolutions db))).

(** insertResolution: the inserted fingerprint, or no row on a conflict *)
Definition sql_insertResolution (resolution : DeadLetterResolution) (db : Database) : result (option string * Database) :=
  let row := mkResolutionRow (dl_fingerprint resolution) (dl_workID resolution) (dl_token resolution)
    (DeadLetterResolutionAction_code (dl_action resolution)) (dl_actor resolution) (dl_reason resolution)
    (stamp (dl_occurredAt resolution)) (nullableTime stamp (dl_retryAt resolution))
    (nullableTime stamp (dl_deadline resolution)) in
  reject negb (bigint_fits (dl_token resolution)) with DriverError "bigint";
  reject negb (slen (rr_fingerprint row) =? 64) || (rr_token row <=? 0)
    || negb (match rr_retry row, rr_deadline row with
             | Some retryAt, Some deadline =>
                 (rr_action row =? 1) && negb (instant_ltb retryAt (rr_occurred row)) && instant_ltb retryAt deadline
             | None, None => rr_action row =? 2
             | _, _ => false
             end) with DriverError "check";
  if bool_decide (is_Some (db_resolutions db !! dl_commandID resolution)) || resolved (rr_work row) (rr_token row) db
  then Ok (None, db)
  else
    reject negb (bool_decide (is_Some (db_work db !! rr_work row))) with DriverError "foreign key";
    Ok (Some (rr_fingerprint row), set_resolutions db (<[dl_commandID resolution := row]> (db_resolutions db))).

(** retryDeadLetter *)
Definition sql_retryDeadLetter (workID : string) (token : Z) (retryAt deadline : Time) (db : Database)
    : result (option WorkRow * Database) :=
  Ok (sql_update_work workID (fun row => (rw_state row =? 4) && (rw_token row =? token))
        (fun row => mkWorkRow (rw_kind row) (rw_instance row) (rw_sequence row) (stamp retryAt) (stamp deadline)
           (rw_payload row) (rw_tenant row) (rw_correlation row) 1 (rw_attempts row) None (rw_token row) None "" None) db).

(** listDeadLetters: [after] is NULL for the zero cursor *)
Definition dead_key (row : string * WorkRow) : Time * string := (default zeroTime (rw_completed row.2), row.1).

Definition unresolved_dead (db : Database) (row : string * WorkRow) : bool :=
  (rw_state row.2 =? 4) && bool_decide (is_Some (rw_completed row.2)) && negb (resolved row.1 (rw_token row.2) db).

Definition sql_listDeadLetters (after : option (Time * string)) (limit : Z) (db : Database) : list (string * WorkRow) :=
  take (Z.to_nat limit)
    (order_by (fun a b => keyset_leb (dead_key a) (dead_key b))
       (filter (fun row => unresolved_dead db row && after_key after (dead_key row) = true) (map_to_list (db_work db)))).

(** ** Instances *)

Definition instance_key (row : string * InstanceRow) : Time * string := (ri_created row.2, row.1).

Definition selected (selection : InstanceListSelection) (row : InstanceRow) : bool :=
  match selection with
  | ListActiveInstances => bool_decide (ri_archived row = None)
  | ListArchivedInstances => bool_decide (is_Some (ri_archived row))
  | _ => true
  end.

(** listActive, listArchived and listAll *)
Definition sql_list (selection : InstanceListSelection) (after : option (Time * string)) (limit : Z) (db : Database)
    : list (string * InstanceRow) :=
  take (Z.to_nat limit)
    (order_by (fun a b => keyset_leb (instance_key a) (instance_key b))
       (filter (fun row => selected selection row.2 && after_key after (instance_key row) = true)
          (map_to_list (db_instances db)))).
End Statements.

(** ** Facts *)

#[export] Instance byte_order : TextOrder String.ltb.
Proof. split; [apply string_ltb_irrefl | apply string_ltb_trans | apply string_ltb_total]. Qed.
