(* ===== verification/Migration.v ===== *)
(** * The schema migrations (postgres/migration.go, and New of postgres/store.go)

    The DDL of each migration is the exact text the code formats. [Statement] is the
    fragment of SQL these texts are written in: [script] is its text and [execute]
    what PostgreSQL documents of it on a catalog. How pgx quotes an identifier is a
    parameter; the catalog is about names, not about their quoted text. *)
From Stdlib Require Import Ascii.
From S2P Require Import Prelude Names.

(** [[a-z_]] is letters and '_' 95. *)
Definition isSchemaFirst (c : Ascii.ascii) : bool := isLower c || (code_of c =? 95).
Definition isSchemaChar (c : Ascii.ascii) : bool := isSchemaFirst c || isDigit c.
Definition schemaPattern : string -> bool := match_name isSchemaFirst isSchemaChar 62.

Definition nl : string := String (Ascii.ascii_of_nat 10) EmptyString.

(** [fmt.Sprintf] of a format whose only verb is %s, with as many arguments as verbs. *)
Fixpoint Sprintf (format : string) (arguments : list string) : string :=
  match format, arguments with
  | String "%"%char (String "s"%char rest), argument :: arguments' => argument +:+ Sprintf rest arguments'
  | String c rest, _ => String c (Sprintf rest arguments)
  | EmptyString, _ => EmptyString
  end.

(** [Migration] of package postgres *)
Record StoreMigration := mkMigration {
  mg_Version : Z;    (** uint *)
  mg_Name : string;
  mg_Up : string;
  mg_Down : string
}.

Definition zeroMigration : StoreMigration := mkMigration 0 "" "" "".

(** [newStore]: the tables the queries are written over. *)
Record StoreTables := mkStoreTables {
  tb_instances : string;
  tb_transitions : string;
  tb_history : string;
  tb_work : string;
  tb_resolutions : string
}.

Section Migrations.
Context (Sanitize : list string -> string).

Definition newStore (schema : string) : StoreTables :=
  mkStoreTables (Sanitize [schema; "workflow_instances"]) (Sanitize [schema; "workflow_transitions"])
    (Sanitize [schema; "workflow_history"]) (Sanitize [schema; "workflow_work"])
    (Sanitize [schema; "workflow_work_resolutions"]).

(** [pool] says whether the pool is not nil. *)
Definition New (pool : bool) (schema : string) : result StoreTables :=
  let schema := if bool_decide (schema = "") then "workflow" else schema in
  reject negb pool || negb (schemaPattern schema) with ErrInvalidStoreRequest;
  Ok (newStore schema).

Definition SchemaMigrationFor (schema : string) : result StoreMigration :=
  reject negb (schemaPattern schema) with ErrInvalidStoreRequest;
  let instances := Sanitize [schema; "workflow_instances"] in
  let transitions := Sanitize [schema; "workflow_transitions"] in
  let history := Sanitize [schema; "workflow_history"] in
  let work := Sanitize [schema; "workflow_work"] in
  let dueIndex := Sanitize ["workflow_work_due_idx"] in
  let archiveIndex := Sanitize ["workflow_instances_archive_idx"] in
  Ok (mkMigration 1 "create_workflow_store"
    (Sprintf "CREATE TABLE %s (
    instance_id text PRIMARY KEY,
    definition_name text NOT NULL,
    definition_version text NOT NULL,
    definition_fingerprint text NOT NULL CHECK (length(definition_fingerprint) = 64),
    sequence bigint NOT NULL CHECK (sequence >= 0),
    created_at timestamptz NOT NULL,
    updated_at timestamptz NOT NULL,
    archived_at timestamptz
);
CREATE INDEX %s ON %s (archived_at, instance_id)
    WHERE archived_at IS NOT NULL;

CREATE TABLE %s (
    transition_id text PRIMARY KEY,
    instance_id text NOT NULL REFERENCES %s(instance_id),
    fingerprint text NOT NULL CHECK (length(fingerprint) = 64),
    expected_sequence bigint NOT NULL CHECK (expected_sequence >= 0),
    committed_sequence bigint NOT NULL CHECK (committed_sequence > expected_sequence),
    committed_at timestamptz NOT NULL
);

CREATE TABLE %s (
    instance_id text NOT NULL REFERENCES %s(instance_id),
    sequence bigint NOT NULL CHECK (sequence > 0),
    kind smallint NOT NULL CHECK (kind > 0),
    occurred_at timestamptz NOT NULL,
    definition_name text NOT NULL DEFAULT '',
    definition_version text NOT NULL DEFAULT '',
    definition_fingerprint text NOT NULL DEFAULT '',
    successor_id text NOT NULL DEFAULT '',
    step_name text NOT NULL DEFAULT '',
    attempt bigint NOT NULL DEFAULT 0 CHECK (attempt >= 0),
    idempotency_key text NOT NULL DEFAULT '',
    due_at timestamptz,
    code text NOT NULL DEFAULT '',
    retryable boolean NOT NULL DEFAULT false,
    data bytea,
    PRIMARY KEY (instance_id, sequence)
);

CREATE TABLE %s (
    work_id text PRIMARY KEY,
    kind smallint NOT NULL CHECK (kind > 0),
    instance_id text NOT NULL,
    sequence bigint NOT NULL,
    available_at timestamptz NOT NULL,
    deadline timestamptz NOT NULL,
    payload bytea,
    tenant_id text NOT NULL DEFAULT '',
    correlation_id text NOT NULL DEFAULT '',
    state smallint NOT NULL DEFAULT 1 CHECK (state BETWEEN 1 AND 4),
    attempts integer NOT NULL DEFAULT 0 CHECK (attempts >= 0),
    lease_owner text,
    lease_token bigint NOT NULL DEFAULT 0 CHECK (lease_token >= 0),
    lease_expires_at timestamptz,
    failure_code text NOT NULL DEFAULT '',
    completed_at timestamptz,
    FOREIGN KEY (instance_id, sequence) REFERENCES %s(instance_id, sequence)
);
CREATE INDEX %s ON %s (available_at, work_id) WHERE state = 1;"
      [instances; archiveIndex; instances; transitions; instances; history; instances; work; history; dueIndex; work])
    (Sprintf ("DROP TABLE %s;" +:+ nl +:+ "DROP TABLE %s;" +:+ nl +:+ "DROP TABLE %s;" +:+ nl +:+ "DROP TABLE %s;")
      [work; history; transitions; instances])).

Definition deadLetterResolutionMigrationFor (schema : string) : StoreMigration :=
  let work := Sanitize [schema; "workflow_work"] in
  let resolutions := Sanitize [schema; "workflow_work_resolutions"] in
  let deadLettersIndex := Sanitize ["workflow_work_dead_letter_idx"] in
  let qualifiedDeadLettersIndex := Sanitize [schema; "workflow_work_dead_letter_idx"] in
  mkMigration 2 "add_workflow_dead_letter_resolutions"
    (Sprintf "CREATE TABLE %s (
    command_id text PRIMARY KEY,
    fingerprint text NOT NULL CHECK (length(fingerprint) = 64),
    work_id text NOT NULL REFERENCES %s(work_id),
    lease_token bigint NOT NULL CHECK (lease_token > 0),
    action smallint NOT NULL CHECK (action BETWEEN 1 AND 2),
    actor text NOT NULL,
    reason text NOT NULL,
    occurred_at timestamptz NOT NULL,
    retry_at timestamptz,
    deadline timestamptz,
    UNIQUE (work_id, lease_token),
    CHECK (
        (action = 1 AND retry_at IS NOT NULL AND deadline IS NOT NULL
            AND retry_at >= occurred_at AND deadline > retry_at)
        OR (action = 2 AND retry_at IS NULL AND deadline IS NULL)
    )
);
CREATE INDEX %s ON %s (completed_at, work_id, lease_token)
    WHERE state = 4;" [resolutions; work; deadLettersIndex; work])
    (Sprintf ("DROP INDEX %s;" +:+ nl +:+ "DROP TABLE %s;") [qualifiedDeadLettersIndex; resolutions]).

Definition SchemaMigrationsFor (schema : string) : result (list StoreMigration) :=
  match SchemaMigrationFor schema with
  | Err err => Err err
  | Ok initial => Ok [initial; deadLetterResolutionMigrationFor schema]
  end.

Definition SchemaMigration : StoreMigration := or_zero zeroMigration (SchemaMigrationFor "workflow").
Definition SchemaMigrations : list StoreMigration := or_zero [] (SchemaMigrationsFor "workflow").

(** ** The fragment of DDL the migrations are written in *)

(** A relation of the migrated schema. *)
Inductive Fragment := Text (text : string) | Ref (table : string).

Inductive Statement :=
  | CreateTable (table : string) (body : list Fragment)
  | CreateIndex (index table body : string)
  | DropTable (table : string)
  | DropIndex (index : string).

(** The text of each is followed by [rest]. *)
Fixpoint fragments (schema : string) (body : list Fragment) (rest : string) : string :=
  match body with
  | [] => rest
  | Text text :: body' => text +:+ fragments schema body' rest
  | Ref table :: body' => Sanitize [schema; table] +:+ fragments schema body' rest
  end.

(** An index is created in the schema of its table, so its name is not qualified. *)
Definition statement_text (schema : string) (statement : Statement) (rest : string) : string :=
  match statement with
  | CreateTable table body =>
      "CREATE TABLE " +:+ Sanitize [schema; table] +:+ " (" +:+ nl +:+ fragments schema body (nl +:+ ");" +:+ rest)
  | CreateIndex index table body =>
      "CREATE INDEX " +:+ Sanitize [index] +:+ " ON " +:+ Sanitize [schema; table] +:+ " " +:+ body +:+ ";" +:+ rest
  | DropTable table => "DROP TABLE " +:+ Sanitize [schema; table] +:+ ";" +:+ rest
  | DropIndex index => "DROP INDEX " +:+ Sanitize [schema; index] +:+ ";" +:+ rest
  end.

(** A table is set off by an empty line. *)
Definition separator (statement : Statement) : string :=
  match statement with CreateTable _ _ => nl +:+ nl | _ => nl end.

Fixpoint script (schema : string) (statements : list Statement) : string :=
  match statements with
  | [] => ""
  | [statement] => statement_text schema statement ""
  | statement :: ((next :: _) as rest) => statement_text schema statement (separator next +:+ script schema rest)
  end.
End Migrations.

(** ** The migrations as statements *)

Definition initial_up : list Statement := [
  CreateTable "workflow_instances" [Text "    instance_id text PRIMARY KEY,
    definition_name text NOT NULL,
    definition_version text NOT NULL,
    definition_fingerprint text NOT NULL CHECK (length(definition_fingerprint) = 64),
    sequence bigint NOT NULL CHECK (sequence >= 0),
    created_at timestamptz NOT NULL,
    updated_at timestamptz NOT NULL,
    archived_at timestamptz"];
  CreateIndex "workflow_instances_archive_idx" "workflow_instances" "(archived_at, instance_id)
    WHERE archived_at IS NOT NULL";
  CreateTable "workflow_transitions" [Text "    transition_id text PRIMARY KEY,
    instance_id text NOT NULL REFERENCES "; Ref "workflow_instances"; Text "(instance_id),
    fingerprint text NOT NULL CHECK (length(fingerprint) = 64),
    expected_sequence bigint NOT NULL CHECK (expected_sequence >= 0),
    committed_sequence bigint NOT NULL CHECK (committed_sequence > expected_sequence),
    committed_at timestamptz NOT NULL"];
  CreateTable "workflow_history" [Text "    instance_id text NOT NULL REFERENCES "; Ref "workflow_instances"; Text "(instance_id),
    sequence bigint NOT NULL CHECK (sequence > 0),
    kind smallint NOT NULL CHECK (kind > 0),
    occurred_at timestamptz NOT NULL,
    definition_name text NOT NULL DEFAULT '',
    definition_version text NOT NULL DEFAULT '',
    definition_fingerprint text NOT NULL DEFAULT '',
    successor_id text NOT NULL DEFAULT '',
    step_name text NOT NULL DEFAULT '',
    attempt bigint NOT NULL DEFAULT 0 CHECK (attempt >= 0),
    idempotency_key text NOT NULL DEFAULT '',
    due_at timestamptz,
    code text NOT NULL DEFAULT '',
    retryable boolean NOT NULL DEFAULT false,
    data bytea,
    PRIMARY KEY (instance_id, sequence)"];
  CreateTable "workflow_work" [Text "    work_id text PRIMARY KEY,
    kind smallint NOT NULL CHECK (kind > 0),
    instance_id text NOT NULL,
    sequence bigint NOT NULL,
    available_at timestamptz NOT NULL,
    deadline timestamptz NOT NULL,
    payload bytea,
    tenant_id text NOT NULL DEFAULT '',
    correlation_id text NOT NULL DEFAULT '',
    state smallint NOT NULL DEFAULT 1 CHECK (state BETWEEN 1 AND 4),
    attempts integer NOT NULL DEFAULT 0 CHECK (attempts >= 0),
    lease_owner text,
    lease_token bigint NOT NULL DEFAULT 0 CHECK (lease_token >= 0),
    lease_expires_at timestamptz,
    failure_code text NOT NULL DEFAULT '',
    completed_at timestamptz,
    FOREIGN KEY (instance_id, sequence) REFERENCES "; Ref "workflow_history"; Text "(instance_id, sequence)"];
  CreateIndex "workflow_work_due_idx" "workflow_work" "(available_at, work_id) WHERE state = 1"].

Definition initial_down : list Statement :=
  [DropTable "workflow_work"; DropTable "workflow_history"; DropTable "workflow_transitions"; DropTable "workflow_instances"].

Definition resolution_up : list Statement := [
  CreateTable "workflow_work_resolutions" [Text "    command_id text PRIMARY KEY,
    fingerprint text NOT NULL CHECK (length(fingerprint) = 64),
    work_id text NOT NULL REFERENCES "; Ref "workflow_work"; Text "(work_id),
    lease_token bigint NOT NULL CHECK (lease_token > 0),
    action smallint NOT NULL CHECK (action BETWEEN 1 AND 2),
    actor text NOT NULL,
    reason text NOT NULL,
    occurred_at timestamptz NOT NULL,
    retry_at timestamptz,
    deadline timestamptz,
    UNIQUE (work_id, lease_token),
    CHECK (
        (action = 1 AND retry_at IS NOT NULL AND deadline IS NOT NULL
            AND retry_at >= occurred_at AND deadline > retry_at)
        OR (action = 2 AND retry_at IS NULL AND deadline IS NULL)
    )"];
  CreateIndex "workflow_work_dead_letter_idx" "workflow_work" "(completed_at, work_id, lease_token)
    WHERE state = 4"].

Definition resolution_down : list Statement :=
  [DropIndex "workflow_work_dead_letter_idx"; DropTable "workflow_work_resolutions"].

(** ** A catalog, and what the statements do to it

    The relations (tables with the tables they reference, and indexes with their
    table) by schema and name; the indexes of constraints, which the database names
    itself, are part of their tables. DROP without CASCADE refuses a table others
    reference, and drops the indexes of a table with it. *)

Abbreviation RelationName := (string * string)%type.

Inductive Relation :=
  | TableRelation (references : list RelationName)
  | IndexRelation (table : RelationName).

Definition references (relation : Relation) : list RelationName :=
  match relation with TableRelation refs => refs | IndexRelation _ => [] end.

Definition is_table (relation : option Relation) : bool :=
  match relation with Some (TableRelation _) => true | _ => false end.

Definition indexes_table (table : RelationName) (relation : Relation) : bool :=
  match relation with IndexRelation table' => bool_decide (table' = table) | TableRelation _ => false end.

Record Catalog := mkCatalog {
  cat_schemas : gset string;
  cat_relations : gmap RelationName Relation
}.

Definition with_relations (catalog : Catalog) (relations : gmap RelationName Relation) : Catalog :=
  mkCatalog (cat_schemas catalog) relations.

Definition referenced (schema : string) (body : list Fragment) : list RelationName :=
  omap (fun fragment => match fragment with Ref table => Some (schema, table) | Text _ => None end) body.

Definition execute (schema : string) (statement : Statement) (catalog : Catalog) : option Catalog :=
  let relations := cat_relations catalog in
  let free name := bool_decide (schema ∈ cat_schemas catalog) && bool_decide (relations !! (schema, name) = None) in
  match statement with
  | CreateTable table body =>
      let refs := referenced schema body in
      if free table && forallb (fun name => bool_decide (name = (schema, table)) || is_table (relations !! name)) refs
      then Some (with_relations catalog (<[(schema, table) := TableRelation refs]> relations)) else None
  | CreateIndex index table _ =>
      if free index && is_table (relations !! (schema, table))
      then Some (with_relations catalog (<[(schema, index) := IndexRelation (schema, table)]> relations)) else None
  | DropTable table =>
      let own := (schema, table) in
      if is_table (relations !! own)
        && bool_decide (map_Forall (fun name relation => name = own \/ own ∉ references relation) relations)
      then Some (with_relations catalog
        (filter (fun entry => indexes_table own entry.2 = false) (delete own relations))) else None
  | DropIndex index =>
      if bool_decide (is_Some (relations !! (schema, index))) && negb (is_table (relations !! (schema, index)))
      then Some (with_relations catalog (delete (schema, index) relations)) else None
  end.

Definition executing (schema : string) (statements : list Statement) (catalog : Catalog) : option Catalog :=
  foldl (fun catalog statement => catalog ≫= execute schema statement) (Some catalog) statements.

(** Everything a relation refers to exists. *)
Definition catalog_wf (catalog : Catalog) : Prop :=
  map_Forall (fun name relation =>
      Forall (fun table => is_table (cat_relations catalog !! table) = true) (references relation)
      /\ match relation with IndexRelation table => is_table (cat_relations catalog !! table) = true | TableRelation _ => True end)
    (cat_relations catalog).

(** ** Facts *)

Section Texts.
Context (Sanitize : list string -> string) (schema : string).

Lemma initial_text m : SchemaMigrationFor Sanitize schema = Ok m ->
  mg_Version m = 1 /\ mg_Up m = script Sanitize schema initial_up /\ mg_Down m = script Sanitize schema initial_down.
Proof.
  unfold SchemaMigrationFor. destruct (schemaPattern schema); [| done]. intros H. injection H as <-.
  split; [done |]. split; vm_compute; reflexivity.
Qed.

Lemma resolution_text :
  mg_Up (deadLetterResolutionMigrationFor Sanitize schema) = script Sanitize schema resolution_up
  /\ mg_Down (deadLetterResolutionMigrationFor Sanitize schema) = script Sanitize schema resolution_down.
Proof. split; vm_compute; reflexivity. Qed.
End Texts.

Section Catalogs.
Context (schema : string).

Lemma executing_cons statement statements catalog :
  executing schema (statement :: statements) catalog = execute schema statement catalog ≫= executing schema statements.
Proof.
  unfold executing. cbn [foldl mbind option_bind]. destruct (execute schema statement catalog) as [c |]; [done |]. cbn.
  by induction statements.
Qed.

Lemma executing_app first second catalog :
  executing schema (first ++ second) catalog = executing schema first catalog ≫= executing schema second.
Proof.
  revert catalog. induction first as [| s first IH]; intros catalog; [done |]. cbn [app]. rewrite !executing_cons.
  destruct (execute schema s catalog) as [c |]; cbn [mbind option_bind]; [apply IH | done].
Qed.

(** No relation of the catalog depends on an absent one. *)
Lemma wf_reference catalog name relation table :
  catalog_wf catalog -> cat_relations catalog !! name = Some relation ->
  cat_relations catalog !! table = None -> (table ∉ references relation) /\ indexes_table table relation = false.
Proof.
  intros Hwf Hn Ht. destruct (Hwf name relation Hn) as [Hr Hi]. split.
  - intros H. rewrite Forall_forall in Hr. specialize (Hr table H). by rewrite Ht in Hr.
  - destruct relation as [| t]; [done |]. cbn [indexes_table]. apply bool_decide_eq_false. intros ->. by rewrite Ht in Hi.
Qed.

(** Adding a relation keeps the catalog well formed. *)
Lemma insert_wf catalog name relation :
  catalog_wf catalog -> cat_relations catalog !! name = None ->
  Forall (fun table => table = name \/ is_table (cat_relations catalog !! table) = true) (references relation) ->
  match relation with IndexRelation table => is_table (cat_relations catalog !! table) = true | TableRelation _ => True end ->
  catalog_wf (with_relations catalog (<[name := relation]> (cat_relations catalog))).
Proof.
  intros Hwf Hn Hr Hi other r Ho. cbn [with_relations cat_relations] in *.
  assert (Hkeep : forall table, is_table (cat_relations catalog !! table) = true ->
    is_table (<[name := relation]> (cat_relations catalog) !! table) = true).
  { intros table Ht. rewrite lookup_insert_ne; [done |]. intros ->. by rewrite Hn in Ht. }
  apply lookup_insert_Some in Ho as [[<- <-] | [Hne Ho]].
  - split.
    + rewrite Forall_forall in *. intros table Ht. destruct (Hr table Ht) as [-> | H]; [| auto].
      destruct relation as [refs |]; [| by apply elem_of_nil in Ht]. by rewrite lookup_insert_eq.
    + destruct relation as [| table]; [done |]. auto.
  - destruct (Hwf other r Ho) as [H1 H2]. split; [eapply Forall_impl; [exact H1 | auto] |]. destruct r; auto.
Qed.

Lemma create_table_inv table body catalog catalog' :
  execute schema (CreateTable table body) catalog = Some catalog' -> catalog_wf catalog ->
  cat_relations catalog !! (schema, table) = None /\ catalog_wf catalog'
  /\ catalog' = with_relations catalog (<[(schema, table) := TableRelation (referenced schema body)]> (cat_relations catalog)).
Proof.
  cbn [execute]. intros H Hwf. destruct (_ && _) eqn:G in H; [| done]. injection H as <-. apply andb_true_iff in G as [[_ G]%andb_true_iff Hr]. apply bool_decide_eq_true in G.
  split; [done |]. split; [| done]. apply insert_wf; [done | done | | done].
  rewrite Forall_forall. rewrite forallb_forall in Hr. intros t Ht%list_elem_of_In. specialize (Hr t Ht).
  apply orb_true_iff in Hr as [->%bool_decide_eq_true | Hr]; auto.
Qed.

Lemma create_index_inv index table body catalog catalog' :
  execute schema (CreateIndex index table body) catalog = Some catalog' -> catalog_wf catalog ->
  cat_relations catalog !! (schema, index) = None /\ is_table (cat_relations catalog !! (schema, table)) = true /\ catalog_wf catalog'
  /\ catalog' = with_relations catalog (<[(schema, index) := IndexRelation (schema, table)]> (cat_relations catalog)).
Proof.
  cbn [execute]. intros H Hwf. destruct (_ && _) eqn:G in H; [| done]. injection H as <-. apply andb_true_iff in G as [[_ G]%andb_true_iff Ht]. apply bool_decide_eq_true in G.
  split; [done |]. split; [done |]. split; [| done]. by apply insert_wf; [..| constructor |].
Qed.

Lemma with_relations_id catalog : with_relations catalog (cat_relations catalog) = catalog.
Proof. by destruct catalog. Qed.

(** Dropping an index takes back its creation. *)
Lemma drop_index_reverts index table body catalog catalog' :
  catalog_wf catalog -> execute schema (CreateIndex index table body) catalog = Some catalog' ->
  execute schema (DropIndex index) catalog' = Some catalog.
Proof.
  intros Hwf H. apply create_index_inv in H as (Hn & _ & _ & ->); [| done]. cbn [execute with_relations cat_relations].
  rewrite lookup_insert_eq. cbn [is_table negb]. rewrite (bool_decide_eq_true_2 (is_Some _)) by done. cbn [andb].
  f_equal. unfold with_relations. cbn. rewrite delete_insert_id by done. apply with_relations_id.
Qed.

(** [after] is [before] with one more table, and indexes of that table. *)
Record owned (before : Catalog) (table : string) (after : Catalog) : Prop := {
  ow_schemas : cat_schemas after = cat_schemas before;
  ow_new : cat_relations before !! (schema, table) = None;
  ow_table : is_table (cat_relations after !! (schema, table)) = true;
  ow_others : forall name, name <> (schema, table) -> cat_relations after !! name = cat_relations before !! name
    \/ cat_relations before !! name = None /\ cat_relations after !! name = Some (IndexRelation (schema, table))
}.

Lemma create_table_owned table body catalog catalog' :
  execute schema (CreateTable table body) catalog = Some catalog' -> catalog_wf catalog -> owned catalog table catalog'.
Proof.
  intros H Hwf. apply create_table_inv in H as (Hn & _ & ->); [| done].
  split; cbn [with_relations cat_schemas cat_relations]; [done | done | by rewrite lookup_insert_eq |].
  intros name Hne. left. by rewrite lookup_insert_ne.
Qed.

Lemma create_index_owned index table body before catalog catalog' :
  execute schema (CreateIndex index table body) catalog = Some catalog' -> catalog_wf catalog ->
  owned before table catalog -> owned before table catalog'.
Proof.
  intros H Hwf [Hs Hnew Ht Ho]. apply create_index_inv in H as (Hn & _ & _ & ->); [| done].
  split; cbn [with_relations cat_schemas cat_relations]; [done | done | |].
  - rewrite lookup_insert_ne; [done |]. intros [= ->]. by rewrite Hn in Ht.
  - intros name Hne. destruct (decide (name = (schema, index))) as [-> | Hi]; [| rewrite lookup_insert_ne by done; auto].
    right. rewrite lookup_insert_eq. split; [| done]. destruct (Ho _ Hne) as [<- | [? _]]; done.
Qed.

(** Dropping a table takes back its creation and that of its indexes. *)
Lemma drop_table_reverts table before after :
  catalog_wf before -> owned before table after -> execute schema (DropTable table) after = Some before.
Proof.
  intros Hwf [Hs Hnew Ht Ho]. cbn [execute]. rewrite Ht. rewrite bool_decide_eq_true_2; cbn [andb].
  - f_equal. destruct before as [schemas relations]. unfold with_relations. cbn [cat_schemas cat_relations] in *. rewrite Hs. f_equal.
    apply map_eq. intros name. apply option_eq. intros relation. cbn [cat_relations].
    rewrite map_lookup_filter_Some. cbn [snd]. destruct (decide (name = (schema, table))) as [-> | Hne].
    { rewrite lookup_delete_eq, Hnew. split; [intros [? _]; done | done]. }
    rewrite lookup_delete_ne by done. destruct (Ho name Hne) as [-> | [Hn ->]].
    + split; [by intros [? _] |]. intros Hr. split; [done |]. eapply (wf_reference (mkCatalog schemas relations)); eauto.
    + rewrite Hn. split; [| done]. intros [[= <-] Hi]. cbn in Hi. by rewrite bool_decide_eq_true_2 in Hi.
  - intros name relation Hr. destruct (decide (name = (schema, table))) as [-> | Hne]; [by left |]. right.
    destruct (Ho name Hne) as [Heq | [_ Heq]]; rewrite Heq in Hr; [by eapply wf_reference |].
    injection Hr as <-. by apply not_elem_of_nil.
Qed.

(** ** The migrations on a schema without their relations *)

Definition initial_relations : list (string * Relation) := [
  ("workflow_work_due_idx", IndexRelation (schema, "workflow_work"));
  ("workflow_work", TableRelation [(schema, "workflow_history")]);
  ("workflow_history", TableRelation [(schema, "workflow_instances")]);
  ("workflow_transitions", TableRelation [(schema, "workflow_instances")]);
  ("workflow_instances_archive_idx", IndexRelation (schema, "workflow_instances"));
  ("workflow_instances", TableRelation [])]%string.

Definition resolution_relations : list (string * Relation) := [
  ("workflow_work_dead_letter_idx", IndexRelation (schema, "workflow_work"));
  ("workflow_work_resolutions", TableRelation [(schema, "workflow_work")])]%string.

(** [catalog] with [new] relations of the schema. *)
Definition with_new (catalog : Catalog) (new : list (string * Relation)) : Catalog :=
  with_relations catalog
    (foldr (fun entry relations => <[(schema, entry.1) := entry.2]> relations) (cat_relations catalog) new).

Definition vacant (catalog : Catalog) : Prop :=
  forall name, name ∈ map fst (resolution_relations ++ initial_relations) -> cat_relations catalog !! (schema, name) = None.

Lemma vacant_each catalog : vacant catalog ->
  foldr (fun name P => cat_relations catalog !! (schema, name) = None /\ P) True
    (map fst (resolution_relations ++ initial_relations)).
Proof. intros Hv. cbn [map fst app resolution_relations initial_relations foldr] in *. split_and!; try done; apply Hv; cbn; set_solver. Qed.

Ltac permitted :=
  symmetry; cbn [referenced omap list_omap with_relations cat_relations cat_schemas forallb];
  rewrite ?andb_true_iff, ?orb_true_iff, ?bool_decide_eq_true; split_and?;
  rewrite ?lookup_insert_ne by congruence; rewrite ?lookup_insert_eq; auto.

Ltac permit_statement :=
  rewrite executing_cons; cbn [execute mbind option_bind];
  match goal with |- context [if ?b then Some _ else None] => replace b with true by permitted end;
  cbn [mbind option_bind].

Lemma initial_applies catalog : schema ∈ cat_schemas catalog -> vacant catalog ->
  executing schema initial_up catalog = Some (with_new catalog initial_relations).
Proof.
  intros Hs (_ & _ & H1 & H2 & H3 & H4 & H5 & H6 & _)%vacant_each.
  unfold initial_up. do 6 permit_statement. done.
Qed.

Lemma resolution_applies catalog : schema ∈ cat_schemas catalog -> vacant catalog ->
  executing schema resolution_up (with_new catalog initial_relations)
  = Some (with_new catalog (resolution_relations ++ initial_relations)).
Proof.
  intros Hs (H1 & H2 & _)%vacant_each. unfold resolution_up, with_new. cbn [initial_relations foldr fst snd].
  do 2 permit_statement. done.
Qed.

(** The work table cannot be dropped while resolutions reference it. *)
Lemma down_order catalog : executing schema initial_down (with_new catalog (resolution_relations ++ initial_relations)) = None.
Proof.
  unfold initial_down. rewrite executing_cons. cbn [execute mbind option_bind]. rewrite bool_decide_eq_false_2; [by rewrite andb_false_r |].
  intros H. destruct (H (schema, "workflow_work_resolutions"%string) (TableRelation [(schema, "workflow_work"%string)])) as [[=] | Hr].
  - unfold with_new. cbn [with_relations cat_relations foldr app resolution_relations initial_relations fst snd].
    rewrite lookup_insert_ne by congruence. by rewrite lookup_insert_eq.
  - apply Hr. by left.
Qed.

(** A table, created with its indexes. *)
Definition block : Type := string * list Fragment * list (string * string).
Definition block_up (b : block) : list Statement :=
  CreateTable b.1.1 b.1.2 :: map (fun index => CreateIndex index.1 b.1.1 index.2) b.2.

Lemma indexes_owned table indexes before catalog catalog' :
  executing schema (map (fun index => CreateIndex index.1 table index.2) indexes) catalog = Some catalog' ->
  catalog_wf catalog -> owned before table catalog -> catalog_wf catalog' /\ owned before table catalog'.
Proof.
  revert catalog. induction indexes as [| index indexes IH]; intros catalog H Hwf Ho; [by injection H as <- |].
  cbn [map] in H. rewrite executing_cons in H. destruct (execute _ _ catalog) as [c |] eqn:E; [| done]. cbn [mbind option_bind] in H.
  pose proof (create_index_owned _ _ _ _ _ _ E Hwf Ho) as Ho'. apply create_index_inv in E as (_ & _ & Hwf' & _); [| done]. by apply (IH c).
Qed.

(** Dropping the tables in reverse order takes all of them back. *)
Lemma blocks_revert blocks catalog catalog' :
  catalog_wf catalog -> executing schema (concat (map block_up blocks)) catalog = Some catalog' ->
  catalog_wf catalog' /\ executing schema (reverse (map (fun b => DropTable b.1.1) blocks)) catalog' = Some catalog.
Proof.
  revert catalog. induction blocks as [| [[table body] indexes] blocks IH]; intros catalog Hwf H; [by injection H as <- |].
  cbn [map concat] in *. rewrite executing_app in H. 
  change (block_up (table, body, indexes)) with (CreateTable table body :: map (fun index => CreateIndex index.1 table index.2) indexes) in H.
  rewrite executing_cons in H.
  destruct (execute _ _ catalog) as [c |] eqn:E; [| done]. cbn [mbind option_bind] in H.
  pose proof (create_table_owned _ _ _ _ E Hwf) as Ho. apply create_table_inv in E as (_ & Hwfc & _); [| done].
  destruct (executing _ _ c) as [c' |] eqn:Ei; [| done]. cbn [mbind option_bind] in H.
  destruct (indexes_owned _ _ _ _ _ Ei Hwfc Ho) as [Hwf' Ho']. destruct (IH c' Hwf' H) as [Hwf'' Hdown].
  split; [done |]. rewrite reverse_cons, executing_app, Hdown. cbn [mbind option_bind fst]. rewrite executing_cons.
  by rewrite (drop_table_reverts _ _ _ Hwf Ho').
Qed.

Lemma initial_reverts catalog catalog' :
  catalog_wf catalog -> executing schema initial_up catalog = Some catalog' ->
  catalog_wf catalog' /\ executing schema initial_down catalog' = Some catalog.
Proof.
  intros Hwf. unfold initial_up.
  match goal with |- context [[CreateTable ?i ?b1; CreateIndex ?x ?i ?bx; CreateTable ?t ?b2; CreateTable ?h ?b3; CreateTable ?w ?b4; CreateIndex ?y ?w ?by_]] =>
    apply (blocks_revert [(i, b1, [(x, bx)]); (t, b2, []); (h, b3, []); (w, b4, [(y, by_)])] catalog catalog' Hwf) end.
Qed.

Lemma resolution_reverts catalog catalog' :
  catalog_wf catalog -> executing schema resolution_up catalog = Some catalog' ->
  executing schema resolution_down catalog' = Some catalog.
Proof.
  intros Hwf. unfold resolution_up, resolution_down. rewrite executing_cons.
  destruct (execute schema (CreateTable _ _) catalog) as [c1 |] eqn:E1; cbn [mbind option_bind]; [| done].
  pose proof (create_table_owned _ _ _ _ E1 Hwf) as Ho. apply create_table_inv in E1 as (_ & Hwf1 & _); [| done].
  rewrite executing_cons. destruct (execute schema (CreateIndex _ _ _) c1) as [c2 |] eqn:E2; cbn [mbind option_bind]; [| done].
  intros H. injection H as <-. rewrite executing_cons, (drop_index_reverts _ _ _ _ _ Hwf1 E2). cbn [mbind option_bind].
  rewrite executing_cons. by rewrite (drop_table_reverts _ _ _ Hwf Ho).
Qed.
End Catalogs.

(** ** Samples *)

(** pgx quotes each part and joins them with dots. *)
Definition sample_sanitize (parts : list string) : string := String.concat "." parts.

Definition sample_catalog : Catalog := mkCatalog {["app"]} {[("app", "users") := TableRelation []; ("app", "users_idx") := IndexRelation ("app", "users")]}%string.

(** ** Properties *)

(** C37: The migrations apply and revert: a schema name outside the pattern is refused,
    and only such a name;
    otherwise the texts of the two migrations, versions 1 and 2, are DDL scripts that
    apply in order to any catalog whose schema exists and has none of their names,
    adding exactly the five tables, their references and the three indexes; the Down
    scripts, run in reverse order, give back exactly the catalog there was; and the
    first one is refused as long as the second migration is applied. *)
Theorem migrations_revert Sanitize schema :
  (schemaPattern schema = false -> SchemaMigrationsFor Sanitize schema = Err ErrInvalidStoreRequest)
  /\ (schemaPattern schema = true -> exists initial resolution, SchemaMigrationsFor Sanitize schema = Ok [initial; resolution]
      /\ mg_Version initial = 1 /\ mg_Version resolution = 2
      /\ mg_Up initial = script Sanitize schema initial_up /\ mg_Up resolution = script Sanitize schema resolution_up
      /\ mg_Down initial = script Sanitize schema initial_down /\ mg_Down resolution = script Sanitize schema resolution_down
      /\ forall catalog, catalog_wf catalog -> schema ∈ cat_schemas catalog -> vacant schema catalog ->
           exists first second, executing schema initial_up catalog = Some first
           /\ executing schema resolution_up first = Some second
           /\ second = with_new schema catalog (resolution_relations schema ++ initial_relations schema)
           /\ executing schema resolution_down second = Some first /\ executing schema initial_down first = Some catalog
           /\ executing schema initial_down second = None).
Proof.
  unfold SchemaMigrationsFor. split.
  - intros Hbad. unfold SchemaMigrationFor. by rewrite Hbad.
  - intros Hgood. destruct (SchemaMigrationFor Sanitize schema) as [initial | err] eqn:E.
    2: { unfold SchemaMigrationFor in E. by rewrite Hgood in E. }
    apply initial_text in E as (Hver & Hup & Hdown). destruct (resolution_text Sanitize schema) as [Hup' Hdown'].
    exists initial, (deadLetterResolutionMigrationFor Sanitize schema). split_and!; try done. intros catalog Hwf Hs Hv.
    pose proof (initial_applies schema catalog Hs Hv) as H1. pose proof (resolution_applies schema catalog Hs Hv) as H2.
    destruct (initial_reverts schema _ _ Hwf H1) as [Hwf1 H3]. pose proof (resolution_reverts schema _ _ Hwf1 H2) as H4.
    eexists _, _. split_and!; [exact H1 | exact H2 | done | exact H4 | exact H3 | apply down_order].
Qed.

Lemma migrations_revert_witness :
  SchemaMigrationsFor sample_sanitize "App" = Err ErrInvalidStoreRequest
  /\ exists first second, executing "app" initial_up sample_catalog = Some first /\ executing "app" resolution_up first = Some second
    /\ executing "app" resolution_down second = Some first /\ executing "app" initial_down first = Some sample_catalog.
Proof.
  assert (Hwf : catalog_wf sample_catalog).
  { intros name relation. unfold sample_catalog. cbn [cat_relations].
    intros [[<- <-] | [_ [<- <-]%lookup_singleton_Some]]%lookup_insert_Some;
      (split; [constructor | vm_compute; try exact I; reflexivity]). }
  assert (Hv : vacant "app" sample_catalog).
  { intros name Hn. cbn in Hn. repeat (apply elem_of_cons in Hn as [-> | Hn]; [vm_compute; reflexivity |]). by apply elem_of_nil in Hn. }
  split; [apply (migrations_revert sample_sanitize "App"); vm_compute; reflexivity |].
  destruct (proj2 (migrations_revert sample_sanitize "app") eq_refl) as (i & r & _ & _ & _ & _ & _ & _ & _ & H).
  destruct (H sample_catalog Hwf) as (first & second & H1 & H2 & _ & H4 & H5 & _); [vm_compute; reflexivity | exact Hv |].
  exists first, second. split_and!; assumption.
Defined.
