(* ===== verification/PostgresCommit.v ===== *)
(** * The transition store (postgres/store.go: Commit, Stage, History, ReconcileTransition)

    A transaction runs its statements one after the other on the tables; between two
    statements other sessions may commit, and any statement, the begin and the
    commit may fail in transport. A [Session] fixes all of that for one call, so a
    theorem for every session covers every failure and every interleaving it allows. *)
From S2P Require Import Prelude GoTime Names Definitions Event.
From S2P Require Import Work Transition Store Administration DeadLetter Tables Statements.

(** ** Sessions and transactions *)

(** How a commit ends: acknowledged, or with an error that leaves it open whether
    the transaction is durable. *)
Inductive CommitReply :=
  | CommitAcknowledged
  | CommitLost (cause : GoError) (durable : bool).

Record Session := mkSession {
  ss_context : option GoError;                       (** [ctx.Err()] *)
  ss_begin : option GoError;
  ss_statement : nat -> option (GoError * bool);     (** the failure of the n-th statement; whether it was applied *)
  ss_rows : nat -> option (nat * GoError * bool);    (** the rows of the n-th statement break after so many; whether it was applied *)
  ss_others : nat -> Database -> Database;           (** what others commit just before the n-th statement *)
  ss_locked : gset string;                           (** the work rows others have locked when a claim looks for candidates *)
  ss_commit : CommitReply
}.

(** No failure and no other session. *)
Definition quiet : Session := mkSession None None (fun _ => None) (fun _ => None) (fun _ db => db) ∅ CommitAcknowledged.

(** The tables without and with the transaction's own writes. *)
Record Tx := mkTx { tx_shared : Database; tx_db : Database; tx_count : nat }.

Definition TxM (A : Type) := Tx -> result A * Tx.

#[export] Instance tx_ret : MRet TxM := fun A a tx => (Ok a, tx).
#[export] Instance tx_bind : MBind TxM := fun A B f m tx =>
  match m tx with
  | (Ok a, tx') => f a tx'
  | (Err e, tx') => (Err e, tx')
  end.

Definition tx_fail {A} (e : GoError) : TxM A := fun tx => (Err e, tx).

Definition statement {A} (session : Session) (f : Database -> result (A * Database)) : TxM A := fun tx =>
  let shared := ss_others session (tx_count tx) (tx_shared tx) in
  let db := ss_others session (tx_count tx) (tx_db tx) in
  let next := S (tx_count tx) in
  match ss_statement session (tx_count tx) with
  | Some (cause, _) => (Err cause, mkTx shared db next)
  | None =>
      match f db with
      | Ok (a, db') => (Ok a, mkTx shared db' next)
      | Err e => (Err e, mkTx shared db next)
      end
  end.

(** A statement that only reads. *)
Definition reading {A} (f : Database -> A) : Database -> result (A * Database) := fun db => Ok (f db, db).

(** A statement outside a transaction: it commits on its own, and its answer may be
    lost after that. *)
Definition autocommit {A} (session : Session) (n : nat) (f : Database -> result (A * Database)) (db : Database)
    : result A * Database :=
  let db := ss_others session n db in
  match ss_statement session n with
  | Some (cause, applied) =>
      (Err cause, if applied then match f db with Ok (_, db') => db' | Err _ => db end else db)
  | None =>
      match f db with
      | Ok (a, db') => (Ok a, db')
      | Err e => (Err e, db)
      end
  end.

(** A query outside a transaction: the rows that arrive and what [rows.Err] says
    after them. *)
Definition autoquery {A} (session : Session) (n : nat) (f : Database -> result (list A * Database)) (db : Database)
    : result (list A * option GoError) * Database :=
  let before := ss_others session n db in
  match autocommit session n f db with
  | (Err err, db') => (Err err, db')
  | (Ok rows, db') =>
      match ss_rows session n with
      | Some (arrived, cause, applied) => (Ok (take arrived rows, Some cause), if (applied : bool) then db' else before)
      | None => (Ok (rows, None), db')
      end
  end.

Definition notCommitted (cause : GoError) : GoError := NewStoreCommitError StoreCommitNotCommitted (Some cause).

(** [if err != nil { return notCommitted(err) }] *)
Definition or_not_committed {A} (m : TxM A) : TxM A := fun tx =>
  match m tx with
  | (Ok a, tx') => (Ok a, tx')
  | (Err e, tx') => (Err (notCommitted e), tx')
  end.

Section Store.
Context (stamp : Time -> Time) (session : Session).

(** ** Staging a transition *)

(** [transitionSequenceFits]; a constructed transition has events. *)
Definition last_event (transition : Transition) : HistoryEvent := default zeroEvent (last (tr_events transition)).

Definition transitionSequenceFits (transition : Transition) : bool :=
  ev_sequence (last_event transition) <=? maxPostgreSQLSequence.

Definition exactTransition (transition : Transition) : TxM bool :=
  found ← statement session (reading (sql_findTransition (tr_id transition)));
  match found with
  | None => mret false
  | Some fingerprint =>
      if negb (bool_decide (fingerprint = tr_fingerprint transition)) then tx_fail ErrDuplicateTransition else mret true
  end.

(** nil is [mret tt]. *)
Definition concurrentTransition (transition : Transition) : TxM unit :=
  exact ← or_not_committed (exactTransition transition);
  if (exact : bool) then mret tt else tx_fail (notCommitted ErrStoreConflict).

Definition terminalArchiveTime (event : HistoryEvent) : option Time :=
  match ev_kind event with
  | EventInstanceCompleted | EventInstanceFailed | EventInstanceCancelled | EventInstanceTerminated
  | EventContinuedAsNew => Some (ev_occurredAt event)
  | _ => None
  end.

Fixpoint each {A} (f : A -> TxM unit) (l : list A) : TxM unit :=
  match l with
  | [] => mret tt
  | x :: rest => _ ← f x; each f rest
  end.

(** The definition after the events: the last migration's, if any. *)
Definition nextDefinition (transition : Transition) : DefinitionReference :=
  foldl (fun definition event =>
    if bool_decide (ev_kind event = EventDefinitionMigrated) then ev_definition event else definition)
    (tr_definition transition) (tr_events transition).

(** The instance row: [Some] is an early return of [false, concurrentTransition]. *)
Definition lockOrInsert (transition : Transition) : TxM (option unit) :=
  let first := default zeroEvent (head (tr_events transition)) in
  if tr_expectedSequence transition =? 0 then
    inserted ← or_not_committed (statement session
      (sql_insertInstance stamp (tr_instanceID transition) (tr_definition transition) (ev_occurredAt first)));
    if negb (inserted =? 1) then (u ← concurrentTransition transition; mret (Some u)) else mret None
  else
    locked ← or_not_committed (statement session (reading (sql_lockInstance (tr_instanceID transition))));
    match locked with
    | None => tx_fail (notCommitted ErrStoreNotFound)
    | Some row =>
        if negb (u64 (ri_sequence row) =? tr_expectedSequence transition)
           || negb (bool_decide (ri_name row = ref_name (tr_definition transition)))
           || negb (bool_decide (ri_version row = ref_version (tr_definition transition)))
           || negb (bool_decide (ri_fingerprint row = ref_fingerprint (tr_definition transition)))
        then (u ← concurrentTransition transition; mret (Some u)) else mret None
    end.

(** The writes under the lock. *)
Definition writeTransition (transition : Transition) : TxM bool :=
  let last := last_event transition in
  inserted ← or_not_committed (statement session
    (sql_insertTransition stamp transition (ev_sequence last) (ev_occurredAt last)));
  match inserted with
  | None => _ ← concurrentTransition transition; mret false
  | Some fingerprint =>
      if negb (bool_decide (fingerprint = tr_fingerprint transition)) then tx_fail (notCommitted ErrDuplicateTransition)
      else
        _ ← each (fun event => or_not_committed (statement session (sql_insertHistory stamp event))) (tr_events transition);
        _ ← each (fun work => or_not_committed (statement session (sql_insertWork stamp work))) (tr_work transition);
        updated ← or_not_committed (statement session
          (sql_updateInstance stamp (nextDefinition transition) (ev_sequence last) (ev_occurredAt last)
             (tr_instanceID transition) (tr_expectedSequence transition) (terminalArchiveTime last)));
        if negb (updated =? 1) then tx_fail (notCommitted ErrStoreConflict) else mret true
  end.

Definition stageTransition (transition : Transition) : TxM bool :=
  exact ← or_not_committed (exactTransition transition);
  if (exact : bool) then mret false else
  returned ← lockOrInsert transition;
  match returned with
  | Some _ => mret false
  | None => writeTransition transition
  end.

(** ** The operations *)

Definition store_Commit (transition : Transition) (db : Database) : option GoError * Database :=
  if negb (transition_Valid transition) || negb (transitionSequenceFits transition)
  then (Some (notCommitted ErrInvalidStoreRequest), db)
  else match ss_context session with
  | Some err => (Some (notCommitted err), db)
  | None =>
      match ss_begin session with
      | Some err => (Some (notCommitted err), db)
      | None =>
          match stageTransition transition (mkTx db db 0) with
          | (Err err, tx) => (Some err, tx_shared tx)
          | (Ok false, tx) => (None, tx_shared tx)
          | (Ok true, tx) =>
              match ss_commit session with
              | CommitAcknowledged => (None, tx_db tx)
              | CommitLost cause durable =>
                  (Some (NewStoreCommitError StoreCommitUnknown (Some cause)), if (durable : bool) then tx_db tx else tx_shared tx)
              end
          end
      end
  end.

(** [Stage]: in the caller's transaction, which it neither commits nor rolls back. *)
Definition store_Stage (transition : Transition) : TxM unit := fun tx =>
  if negb (transition_Valid transition) || negb (transitionSequenceFits transition)
  then (Err (notCommitted ErrInvalidStoreRequest), tx)
  else match ss_context session with
  | Some err => (Err (notCommitted err), tx)
  | None => (_ ← stageTransition transition; mret tt) tx
  end.

Definition newOperationError (operation : string) (cause : GoError) : GoError := OperationError operation cause.

Fixpoint scanRows {A B} (scan : A -> result B) (operation : string) (rows : list A) : result (list B) :=
  match rows with
  | [] => Ok []
  | row :: rest =>
      match scan row with
      | Err err => Err (newOperationError operation err)
      | Ok item => items ← scanRows scan operation rest; Ok (item :: items)
      end
  end.

(** [for rows.Next() { scan }; rows.Err()] *)
Definition scanAll {A B} (scan : A -> result B) (scanning iterating : string) (rows : list A * option GoError) : result (list B) :=
  items ← scanRows scan scanning rows.1;
  match rows.2 with
  | Some err => Err (newOperationError iterating err)
  | None => Ok items
  end.

(** [hasMore := len(items) > limit; if hasMore { items = items[:limit] }] *)
Definition cut {A} (limit : Z) (items : list A) : list A * bool :=
  let hasMore := limit <? Z.of_nat (length items) in
  (if hasMore then take (Z.to_nat limit) items else items, hasMore).

Definition store_History (query : HistoryQuery) (db : Database) : result HistoryPage * Database :=
  if negb (historyQuery_valid query) || (maxPostgreSQLSequence <? hq_afterSequence query)
  then (Err ErrInvalidStoreRequest, db)
  else match ss_context session with
  | Some err => (Err err, db)
  | None =>
      match autocommit session 0 (reading (sql_instanceExists (hq_instanceID query))) db with
      | (Err err, db) => (Err (newOperationError "inspect history instance" err), db)
      | (Ok false, db) => (Err ErrStoreNotFound, db)
      | (Ok true, db) =>
          match autoquery session 1
                  (reading (sql_history (hq_instanceID query) (hq_afterSequence query) (hq_limit query + 1))) db with
          | (Err err, db) => (Err (newOperationError "query history" err), db)
          | (Ok rows, db) =>
              (events ← scanAll (scanHistoryEvent (hq_instanceID query)) "scan history" "iterate history" rows;
               let '(events, hasMore) := cut (hq_limit query) events in
               match NewHistoryPage query events hasMore with
               | Ok page => Ok page
               | Err err => Err (newOperationError "validate history" (Joined ErrCorruptStore err))
               end, db)
          end
      end
  end.

Definition store_ReconcileTransition (reconciliation : TransitionReconciliation) (db : Database)
    : result TransitionReconciliationOutcome * Database :=
  if negb (reconciliation_Valid reconciliation) then (Err ErrInvalidStoreRequest, db)
  else match ss_context session with
  | Some err => (Err err, db)
  | None =>
      match autocommit session 0 (reading (sql_findTransition (rl_transitionID reconciliation))) db with
      | (Err err, db) => (Err (newOperationError "reconcile transition" err), db)
      | (Ok None, db) => (Ok TransitionMissing, db)
      | (Ok (Some fingerprint), db) =>
          (Ok (if bool_decide (fingerprint = rl_fingerprint reconciliation) then TransitionCommitted
               else TransitionConflicting), db)
      end
  end.
End Store.
