(* ===== verification/PostgresAppend.v ===== *)
(** * What a staged transition writes

    The pure effect of a staged transition on the tables, and the proof that the
    transaction of PostgresCommit.v either has exactly that effect, or finds the
    transition already durable, or fails with an error classified not committed,
    for every failure of its statements and whatever others commit before the
    instance row is locked. *)
From S2P Require Import Prelude GoTime Names Definitions Event.
From S2P Require Import Work Transition Store Administration DeadLetter Tables Statements PostgresCommit.

(** ** Postconditions of transaction code *)

Definition post {A} (m : TxM A) (tx : Tx) (Q : result A -> Tx -> Prop) : Prop := Q (m tx).1 (m tx).2.

Lemma post_bind {A B} (m : TxM A) (f : A -> TxM B) tx Q :
  post m tx (fun r tx' => match r with Ok a => post (f a) tx' Q | Err e => Q (Err e) tx' end) ->
  post (m ≫= f) tx Q.
Proof. unfold post, mbind, tx_bind. by destruct (m tx) as [[a | e] tx']. Qed.

Lemma post_ret {A} (a : A) tx (Q : result A -> Tx -> Prop) : Q (Ok a) tx -> post (mret a) tx Q.
Proof. done. Qed.

Lemma post_statement {A} session (f : Database -> result (A * Database)) tx (Q : result A -> Tx -> Prop) :
  let shared := ss_others session (tx_count tx) (tx_shared tx) in
  let db := ss_others session (tx_count tx) (tx_db tx) in
  (forall e, Q (Err e) (mkTx shared db (S (tx_count tx)))) ->
  (forall a db', f db = Ok (a, db') -> Q (Ok a) (mkTx shared db' (S (tx_count tx)))) ->
  post (statement session f) tx Q.
Proof.
  intros shared db He Ho. unfold post, statement. fold shared db.
  destruct (ss_statement session (tx_count tx)) as [[e applied] |]; [apply He |].
  destruct (f db) as [[a db'] | e] eqn:E; [by apply Ho | apply He].
Qed.

Lemma post_not_committed {A} (m : TxM A) tx (Q : result A -> Tx -> Prop) :
  post m tx (fun r tx' => match r with Ok a => Q (Ok a) tx' | Err e => Q (Err (notCommitted e)) tx' end) ->
  post (or_not_committed m) tx Q.
Proof. unfold post, or_not_committed. by destruct (m tx) as [[a | e] tx']. Qed.

(** Others stop at the lock: from statement [k] on they do not touch what the
    transaction reads or writes. *)
Definition quiet_from (session : Session) (k : nat) : Prop :=
  forall n db, (k <= n)%nat -> ss_others session n db = db.

(** The statement rule under the lock, for a statement whose errors are wrapped. *)
Lemma post_locked {A} session (f : Database -> result (A * Database)) shared db n (Q : result A -> Tx -> Prop) :
  quiet_from session 2 -> (2 <= n)%nat ->
  (forall e, Q (Err (notCommitted e)) (mkTx shared db (S n))) ->
  (forall a db', f db = Ok (a, db') -> Q (Ok a) (mkTx shared db' (S n))) ->
  post (or_not_committed (statement session f)) (mkTx shared db n) Q.
Proof.
  intros Hq Hn He Ho. apply post_not_committed, post_statement; cbn [tx_count tx_shared tx_db]; rewrite !Hq by done; done.
Qed.

Fixpoint run_all {A} (f : A -> Database -> result (unit * Database)) (l : list A) (db : Database) : option Database :=
  match l with
  | [] => Some db
  | x :: rest => match f x db with Ok (_, db') => run_all f rest db' | Err _ => None end
  end.

Lemma post_each {A} session (f : A -> Database -> result (unit * Database)) l : forall shared db n (Q : result unit -> Tx -> Prop),
  quiet_from session 2 -> (2 <= n)%nat ->
  (forall e db' n', (2 <= n')%nat -> Q (Err (notCommitted e)) (mkTx shared db' n')) ->
  (forall db' n', (2 <= n')%nat -> run_all f l db = Some db' -> Q (Ok tt) (mkTx shared db' n')) ->
  post (each (fun x => or_not_committed (statement session (f x))) l) (mkTx shared db n) Q.
Proof.
  induction l as [| x l IH]; intros shared db n Q Hq Hn He Ho; cbn [each run_all] in *; [by apply Ho |].
  apply post_bind, post_locked; [done | done | intros e; apply He; lia |].
  intros [] db' Hf. apply IH; [done | lia | done |]. intros db'' n' Hn' Hr. apply Ho; [done |]. by rewrite Hf.
Qed.

(** ** The writes *)

Section Effect.
Context (stamp : Time -> Time).

Definition insert_history (db : Database) (event : HistoryEvent) : Database :=
  set_history db (<[(ev_instanceID event, ev_sequence event) := historyArguments stamp event]> (db_history db)).
Definition insert_work (db : Database) (work : PendingWork) : Database :=
  set_work db (<[wk_id work := workArguments stamp work]> (db_work db)).

Definition transition_row (t : Transition) : TransitionRow :=
  mkTransitionRow (tr_instanceID t) (tr_fingerprint t) (tr_expectedSequence t) (ev_sequence (last_event t))
    (stamp (ev_occurredAt (last_event t))).

Definition first_event (t : Transition) : HistoryEvent := default zeroEvent (head (tr_events t)).

(** The instance row as the lock leaves it. *)
Definition base_row (t : Transition) (db : Database) : InstanceRow :=
  default (mkInstanceRow (ref_name (tr_definition t)) (ref_version (tr_definition t)) (ref_fingerprint (tr_definition t)) 0
             (stamp (ev_occurredAt (first_event t))) (stamp (ev_occurredAt (first_event t))) None)
    (db_instances db !! tr_instanceID t).

Definition advanced_row (t : Transition) (row : InstanceRow) : InstanceRow :=
  let next := nextDefinition t in
  mkInstanceRow (ref_name next) (ref_version next) (ref_fingerprint next) (ev_sequence (last_event t))
    (ri_created row) (stamp (ev_occurredAt (last_event t)))
    (match ri_archived row with
     | Some archived => Some archived
     | None => stamp <$> terminalArchiveTime (last_event t)
     end).

Definition appended (t : Transition) (db : Database) : Database :=
  mkDatabase (<[tr_instanceID t := advanced_row t (base_row t db)]> (db_instances db))
    (<[tr_id t := transition_row t]> (db_transitions db))
    (db_history (foldl insert_history db (tr_events t)))
    (db_work (foldl insert_work db (tr_work t)))
    (db_resolutions db).

(** The transition is durable under its own fingerprint. *)
Definition durable (t : Transition) (db : Database) : Prop :=
  exists row, db_transitions db !! tr_id t = Some row /\ rt_fingerprint row = tr_fingerprint t.

(** The instance row matches the expected sequence and pin, or is to be created. *)
Definition lockable (t : Transition) (db : Database) : Prop :=
  if tr_expectedSequence t =? 0 then db_instances db !! tr_instanceID t = None
  else exists row, db_instances db !! tr_instanceID t = Some row /\ u64 (ri_sequence row) = tr_expectedSequence t
    /\ ri_name row = ref_name (tr_definition t) /\ ri_version row = ref_version (tr_definition t)
    /\ ri_fingerprint row = ref_fingerprint (tr_definition t).

Record appendable (t : Transition) (db : Database) : Prop := {
  ap_lock : lockable t db;
  ap_new : db_transitions db !! tr_id t = None;
  ap_work : forall w, w ∈ tr_work t -> db_work db !! wk_id w = None
}.

Lemma foldl_history events : forall db,
  db_instances (foldl insert_history db events) = db_instances db
  /\ db_transitions (foldl insert_history db events) = db_transitions db
  /\ db_work (foldl insert_history db events) = db_work db
  /\ db_resolutions (foldl insert_history db events) = db_resolutions db.
Proof. induction events as [| e events IH]; intros db; cbn [foldl]; [done |]. apply (IH (insert_history db e)). Qed.

Lemma foldl_work work : forall db,
  db_instances (foldl insert_work db work) = db_instances db
  /\ db_transitions (foldl insert_work db work) = db_transitions db
  /\ db_history (foldl insert_work db work) = db_history db
  /\ db_resolutions (foldl insert_work db work) = db_resolutions db.
Proof. induction work as [| w work IH]; intros db; cbn [foldl]; [done |]. apply (IH (insert_work db w)). Qed.

Lemma foldl_history_proper events : forall db db',
  db_history db = db_history db' -> db_history (foldl insert_history db events) = db_history (foldl insert_history db' events).
Proof. induction events as [| e events IH]; intros db db' H; cbn [foldl]; [done |]. apply IH. cbn. by rewrite H. Qed.

Lemma foldl_work_proper work : forall db db',
  db_work db = db_work db' -> db_work (foldl insert_work db work) = db_work (foldl insert_work db' work).
Proof. induction work as [| w work IH]; intros db db' H; cbn [foldl]; [done |]. apply IH. cbn. by rewrite H. Qed.

Lemma insert_history_runs events : forall db db',
  run_all (sql_insertHistory stamp) events db = Some db' -> db' = foldl insert_history db events.
Proof.
  induction events as [| e events IH]; intros db db' H; cbn [run_all foldl] in *; [by injection H |].
  destruct (sql_insertHistory stamp e db) as [[[] db1] |] eqn:E; [| done]. apply IH in H as ->.
  unfold sql_insertHistory in E. walk E. by subst.
Qed.

Lemma run_work work : forall db db',
  run_all (sql_insertWork stamp) work db = Some db' ->
  db' = foldl insert_work db work /\ (forall w, w ∈ work -> db_work db !! wk_id w = None).
Proof.
  induction work as [| w work IH]; intros db db' H; cbn [run_all foldl] in *.
  { injection H as <-. split; [done |]. by intros w ?%elem_of_nil. }
  destruct (sql_insertWork stamp w db) as [[[] db1] |] eqn:E; [| done].
  unfold sql_insertWork in E. walk E. subst db1. apply IH in H as [-> Hn]. split; [done |].
  bool_norm. intros x [-> | Hx]%elem_of_cons; [by apply eq_None_not_Some |].
  specialize (Hn x Hx). cbn in Hn. by apply lookup_insert_None in Hn as [? _].
Qed.
End Effect.

(** ** Staging, for every session *)

Section Staging.
Context (stamp : Time -> Time) (session : Session) (t : Transition) (db : Database).

(** What the transaction sees at its first and at its second statement. *)
Definition first_view : Database := ss_others session 0 db.
Definition locked_view : Database := ss_others session 1 first_view.

Definition staged_as (r : result bool) (tx : Tx) : Prop :=
  match r with
  | Ok true => tx_shared tx = locked_view /\ tx_db tx = appended stamp t locked_view /\ appendable t locked_view
  | Ok false => (tx_shared tx = first_view \/ tx_shared tx = locked_view) /\ durable t (tx_shared tx)
  | Err e => (tx_shared tx = first_view \/ tx_shared tx = locked_view)
      /\ StoreCommitOutcomeOf (Some e) = StoreCommitNotCommitted
  end.

Hypothesis Hquiet : quiet_from session 2.

Lemma post_reading {A} (f : Database -> A) shared db' n (Q : result A -> Tx -> Prop) :
  (2 <= n)%nat -> (forall e, Q (Err e) (mkTx shared db' (S n))) -> Q (Ok (f db')) (mkTx shared db' (S n)) ->
  post (statement session (reading f)) (mkTx shared db' n) Q.
Proof.
  intros Hn He Ho. apply post_statement; cbn [tx_count tx_shared tx_db]; rewrite !Hquiet by done; [done |].
  intros a db'' [= <- <-]. exact Ho.
Qed.

(** The second look for an exact transition, under the lock. *)
Lemma post_concurrent db' n (Q : result unit -> Tx -> Prop) :
  (2 <= n)%nat -> db_transitions db' = db_transitions locked_view ->
  (forall e, StoreCommitOutcomeOf (Some e) = StoreCommitNotCommitted -> Q (Err e) (mkTx locked_view db' (S n))) ->
  (durable t locked_view -> Q (Ok tt) (mkTx locked_view db' (S n))) ->
  post (concurrentTransition session t) (mkTx locked_view db' n) Q.
Proof.
  intros Hn Ht He Ho. apply post_bind, post_not_committed. unfold exactTransition. apply post_bind.
  apply post_reading; [done | intros e; by apply He |]. cbv beta iota.
  unfold sql_findTransition. rewrite Ht. destruct (db_transitions locked_view !! tr_id t) as [row |] eqn:E; cbn [fmap option_fmap option_map].
  - destruct (bool_decide_reflect (rt_fingerprint row = tr_fingerprint t)) as [Hf | Hf]; cbn [negb].
    + apply Ho. by exists row.
    + by apply He.
  - by apply He.
Qed.

Lemma post_write (Q : result bool -> Tx -> Prop) db' :
  db_transitions db' = db_transitions locked_view -> db_work db' = db_work locked_view ->
  db_history db' = db_history locked_view -> db_resolutions db' = db_resolutions locked_view ->
  db_instances db' = <[tr_instanceID t := base_row stamp t locked_view]> (db_instances locked_view) ->
  lockable t locked_view ->
  (forall r tx, staged_as r tx -> Q r tx) ->
  post (writeTransition stamp session t) (mkTx locked_view db' 2) Q.
Proof.
  intros Ht Hw Hh Hr Hi Hl HQ. unfold writeTransition.
  assert (Herr : forall e d n, Q (Err (notCommitted e)) (mkTx locked_view d n)).
  { intros e d n. apply HQ. split; [by right | done]. }
  apply post_bind, post_locked; [done | lia | done |].
  intros inserted db1 Hins. unfold sql_insertTransition in Hins. walk Hins; subst.
  { apply post_bind. apply post_concurrent; [lia | done | |].
    - intros e He. apply HQ. split; [by right | done].
    - intros Hd. apply HQ. split; [by right | done]. }
  rewrite bool_decide_eq_true_2 by done. cbn [negb].
  match goal with H : db_transitions db' !! _ = None |- _ => rewrite Ht in H; rename H into Hnew end.
  apply post_bind, post_each; [done | lia | intros; apply Herr |].
  intros db2 n2 Hn2 ->%insert_history_runs. apply post_bind, post_each; [done | lia | intros; apply Herr |].
  intros db3 n3 Hn3 [-> Hfresh]%run_work. apply post_bind, post_locked; [done | lia | intros; apply Herr |].
  intros updated db4 Hup. unfold sql_updateInstance in Hup.
  match type of Hup with context [foldl (insert_history stamp) ?d (tr_events t)] => set (d1 := d) in * end.
  set (d2 := foldl (insert_history stamp) d1 (tr_events t)) in *.
  set (d3 := foldl (insert_work stamp) d2 (tr_work t)) in *.
  destruct (foldl_work stamp (tr_work t) d2) as (Wi & Wt & Wh & Wr).
  destruct (foldl_history stamp (tr_events t) d1) as (Hi1 & Ht1 & Hw1 & Hr1).
  assert (Hd3 : db_transitions d3 = <[tr_id t := transition_row stamp t]> (db_transitions locked_view)
    /\ db_history d3 = db_history (foldl (insert_history stamp) locked_view (tr_events t))
    /\ db_work d3 = db_work (foldl (insert_work stamp) locked_view (tr_work t))
    /\ db_resolutions d3 = db_resolutions locked_view).
  { subst d3. rewrite Wt, Wh, Wr. subst d2. rewrite Ht1, Hr1. split_and!; [subst d1; cbn; by rewrite Ht | | | done].
    - by apply foldl_history_proper.
    - apply foldl_work_proper. by rewrite Hw1. }
  destruct Hd3 as (D1 & D2 & D3 & D4).
  assert (Hinst : db_instances d3 = <[tr_instanceID t := base_row stamp t locked_view]> (db_instances locked_view)).
  { subst d3. rewrite Wi. subst d2. rewrite Hi1. done. }
  clearbody d3. rewrite Hinst, lookup_insert_eq in Hup. walk Hup; subst updated db4.
  { by apply Herr. }
  change (negb (1 =? 1)) with false. cbv beta iota. apply HQ. split; [done |]. split.
  - unfold appended, set_instances, mret, tx_ret. cbn [snd tx_db]. f_equal.
    + by rewrite insert_insert_eq.
    + exact D1.
    + exact D2.
    + exact D3.
    + exact D4.
  - split; [done | done |]. intros w Hin. specialize (Hfresh w Hin). subst d2. rewrite Hw1 in Hfresh. cbn in Hfresh. by rewrite Hw in Hfresh.
Qed.

Lemma stage_outcome (Q : result bool -> Tx -> Prop) :
  (forall r tx, staged_as r tx -> Q r tx) -> post (stageTransition stamp session t) (mkTx db db 0) Q.
Proof.
  intros HQ. unfold stageTransition. apply post_bind, post_not_committed. unfold exactTransition. apply post_bind.
  apply post_statement; cbn [tx_count tx_shared tx_db]; fold first_view.
  { intros e. apply HQ. split; [by left | done]. }
  intros found db' [= <- <-]. unfold sql_findTransition.
  destruct (db_transitions first_view !! tr_id t) as [row |] eqn:E; cbn [fmap option_fmap option_map].
  { destruct (bool_decide_reflect (rt_fingerprint row = tr_fingerprint t)) as [Hf | Hf]; cbn [negb]; apply HQ.
    - split; [by left |]. by exists row.
    - split; [by left | done]. }
  apply post_ret. cbv beta iota. apply post_bind. unfold lockOrInsert.
  assert (Herr : forall e d n, Q (Err (notCommitted e)) (mkTx locked_view d n)).
  { intros e d n. apply HQ. split; [by right | done]. }
  assert (Hconc : forall d, db_transitions d = db_transitions locked_view ->
    post (u ← concurrentTransition session t; mret (Some u)) (mkTx locked_view d 2)
      (fun r tx' => match r with
                    | Ok a => post (match a with Some _ => mret false | None => writeTransition stamp session t end) tx' Q
                    | Err e => Q (Err e) tx' end)).
  { intros d Hd. apply post_bind, post_concurrent; [lia | done | |].
    - intros e He. apply HQ. split; [by right | done].
    - intros Hdur. apply HQ. split; [by right | done]. }
  destruct (tr_expectedSequence t =? 0) eqn:Hz.
  - apply post_bind, post_not_committed, post_statement; cbn [tx_count tx_shared tx_db]; fold locked_view; [intros; apply Herr |].
    intros inserted db1 Hins. unfold sql_insertInstance in Hins. walk Hins; subst.
    + cbn [Z.eqb negb]. apply Hconc. done.
    + change (negb (1 =? 1)) with false. cbv beta iota. apply post_ret, post_write; try done.
      * cbn. f_equal. unfold base_row.
        match goal with H : db_instances _ !! _ = None |- _ => by rewrite H end.
      * unfold lockable. by rewrite Hz.
  - apply post_bind, post_not_committed, post_statement; cbn [tx_count tx_shared tx_db]; fold locked_view; [intros; apply Herr |].
    intros locked db1 [= <- <-]. unfold sql_lockInstance.
    destruct (db_instances locked_view !! tr_instanceID t) as [row |] eqn:Er; [| by apply Herr].
    destruct (_ || _ || _ || _) eqn:Hg; [by apply Hconc |]. bool_norm. apply post_ret, post_write; try done.
    + unfold base_row. rewrite Er. by rewrite insert_id.
    + unfold lockable. rewrite (proj2 (Z.eqb_neq _ 0)) by done. exists row. split_and!; done.
Qed.
End Staging.
