(* ===== verification/PostgresLog.v ===== *)
(** * The store's invariant and its append-only log

    The invariant every operation keeps, the log of an instance (the abstract view
    of workflow_history) and the proof that a staged transition appends its events
    to one log and keeps the invariant. *)
From S2P Require Import Prelude GoTime Names Definitions Event.
From S2P Require Import Work Transition Store Administration DeadLetter Tables Statements PostgresCommit PostgresAppend.

(** ** The invariant *)

Record work_row_wf (row : WorkRow) : Prop := {
  wr_state : 1 <= rw_state row <= 4;
  wr_leased : rw_state row = 2 <-> is_Some (rw_owner row) /\ is_Some (rw_expires row);
  wr_released : rw_state row <> 2 -> rw_owner row = None /\ rw_expires row = None;
  wr_attempts : rw_attempts row = rw_token row;
  wr_token : 0 <= rw_token row;
  wr_claimed : rw_state row <> 1 -> 1 <= rw_token row;
  wr_completed : rw_state row = 3 \/ rw_state row = 4 <-> is_Some (rw_completed row)
}.

Definition row_reference (row : InstanceRow) : DefinitionReference :=
  mkDefinitionReference (ri_name row) (ri_version row) (ri_fingerprint row).

(** The sequence of an instance; zero when there is none. *)
Definition sequence_of (db : Database) (instanceID : string) : Z :=
  match db_instances db !! instanceID with Some row => ri_sequence row | None => 0 end.

Record store_wf (db : Database) : Prop := {
  sw_instances : forall id row, db_instances db !! id = Some row ->
    1 <= ri_sequence row <= maxPostgreSQLSequence /\ reference_valid (row_reference row) = true;
  sw_history : forall id k, is_Some (db_history db !! (id, k)) <-> 1 <= k <= sequence_of db id;
  sw_transitions : forall tid row, db_transitions db !! tid = Some row ->
    0 <= rt_expected row < rt_committed row /\ rt_committed row <= sequence_of db (rt_instance row);
  sw_work : forall id row, db_work db !! id = Some row ->
    work_row_wf row /\ 1 <= rw_sequence row <= sequence_of db (rw_instance row);
  sw_resolutions : forall id row, db_resolutions db !! id = Some row ->
    exists work, db_work db !! rr_work row = Some work /\ 1 <= rr_token row <= rw_token work
}.

Lemma empty_wf : store_wf emptyDatabase.
Proof.
  split; cbn; try (intros ? ? H; by rewrite lookup_empty in H).
  intros id k. unfold sequence_of. cbn. rewrite !lookup_empty. split; [by intros [? ?] | lia].
Qed.

(** ** The log *)

Definition log (db : Database) (instanceID : string) : list HistoryRow :=
  omap (fun k => db_history db !! (instanceID, k)) (seqZ 1 (sequence_of db instanceID)).

Lemma sequence_nonneg db id : store_wf db -> 0 <= sequence_of db id.
Proof.
  intros Hwf. unfold sequence_of. destruct (db_instances db !! id) as [row |] eqn:E; [| lia].
  pose proof (sw_instances _ Hwf _ _ E) as [? _]. lia.
Qed.

Lemma omap_all_length {A B} (f : A -> option B) (l : list A) : (forall x, x ∈ l -> is_Some (f x)) -> length (omap f l) = length l.
Proof.
  induction l as [| x l IH]; [done |]. intros H. destruct (H x ltac:(by left)) as [y Hy].
  cbn. rewrite Hy. cbn. f_equal. apply IH. intros z Hz. apply H. by right.
Qed.

Lemma log_length db id : store_wf db -> Z.of_nat (length (log db id)) = sequence_of db id.
Proof.
  intros Hwf. pose proof (sequence_nonneg db id Hwf) as Hn. unfold log. rewrite omap_all_length.
  - rewrite length_seqZ. lia.
  - intros k Hk%elem_of_seqZ. apply sw_history; [done |]. lia.
Qed.

Lemma length_omap_le {A B} (f : A -> option B) (l : list A) : (length (omap f l) <= length l)%nat.
Proof. induction l as [| x l IH]; [done |]. cbn. destruct (f x); cbn; lia. Qed.

Lemma omap_some_None {A B} (f : A -> option B) (l : list A) x :
  x ∈ l -> f x = None -> (length (omap f l) < length l)%nat.
Proof.
  induction l as [| y l IH]; [by intros ?%elem_of_nil |]. intros [-> | Hx]%elem_of_cons Hf; cbn.
  - rewrite Hf. pose proof (length_omap_le f l). cbn. lia.
  - destruct (f y); cbn; specialize (IH Hx Hf); lia.
Qed.

Lemma omap_ext_elem {A B} (f g : A -> option B) (l : list A) : (forall x, x ∈ l -> f x = g x) -> omap f l = omap g l.
Proof.
  induction l as [| x l IH]; [done |]. intros H. cbn. rewrite (H x) by left.
  rewrite IH; [done |]. intros y Hy. apply H. by right.
Qed.

(** ** What a plan must satisfy: the outcome of [NewTransition] *)

Record plan_wf (t : Transition) : Prop := {
  pl_batch : batch_wf t;
  pl_events : Forall event_wf (tr_events t);
  pl_work : Forall work_wf (tr_work t);
  pl_fingerprint : fingerprintPattern (tr_fingerprint t) = true;
  pl_expected : 0 <= tr_expectedSequence t;
  pl_fits : transitionSequenceFits t = true
}.

Section Append.
Context (stamp : Time -> Time) (t : Transition).
Hypothesis Hplan : plan_wf t.
Let X : string := tr_instanceID t.
Let expected : Z := tr_expectedSequence t.
Let count : Z := Z.of_nat (length (tr_events t)).

Lemma plan_positions k e :
  tr_events t !! k = Some e -> ev_instanceID e = X /\ ev_sequence e = expected + 1 + Z.of_nat k.
Proof. apply (batch_positions _ (pl_batch _ Hplan)). Qed.

Lemma plan_last : ev_sequence (last_event t) = expected + count /\ last_event t ∈ tr_events t /\ 1 <= count.
Proof.
  pose proof (batch_events _ (pl_batch _ Hplan)) as Hn. fold count in Hn. unfold last_event.
  destruct (last (tr_events t)) as [e |] eqn:E.
  - cbn [default from_option id]. split_and!; [| by apply last_Some_elem_of | lia].
    rewrite last_lookup in E. destruct (plan_positions _ _ E) as [_ ->]. unfold count in *. lia.
  - apply last_None in E. unfold count in Hn. rewrite E in Hn. cbn in Hn. lia.
Qed.

(** The events' keys are fresh positions of the instance. *)
Lemma history_frame key : forall events db,
  (forall e, e ∈ events -> key <> (ev_instanceID e, ev_sequence e)) ->
  db_history (foldl (insert_history stamp) db events) !! key = db_history db !! key.
Proof.
  intros events. induction events as [| e events IH]; intros db H; cbn [foldl]; [done |].
  rewrite IH by (intros x Hx; apply H; by right). cbn. apply lookup_insert_ne. intros Hk. by apply (H e); [left |].
Qed.

Lemma history_written db : forall events s,
  (forall k e, events !! k = Some e -> ev_instanceID e = X /\ ev_sequence e = s + Z.of_nat k) ->
  omap (fun k => db_history (foldl (insert_history stamp) db events) !! (X, k)) (seqZ s (Z.of_nat (length events)))
  = map (historyArguments stamp) events.
Proof.
  intros events. induction events as [| e events IH] using rev_ind; intros s H; [done |].
  rewrite length_app, foldl_app, map_app. cbn [length foldl map].
  replace (Z.of_nat (length events + 1)) with (Z.of_nat (length events) + 1) by lia.
  rewrite seqZ_app, omap_app by lia. destruct (H (length events) e) as [Hid Hs]; [by rewrite lookup_app_r, Nat.sub_diag |].
  f_equal.
  - rewrite <- (IH s); [| intros k x Hx; apply H; by apply lookup_app_l_Some].
    apply omap_ext_elem. intros k Hk%elem_of_seqZ. cbn. apply lookup_insert_ne. intros [= _ ?]. lia.
  - rewrite <- Hs, <- Hid. change (seqZ (ev_sequence e) 1) with [0 + ev_sequence e]. rewrite Z.add_0_l. cbn.
    by rewrite lookup_insert_eq.
Qed.

Lemma appended_sequence db id :
  sequence_of (appended stamp t db) id = if decide (id = X) then expected + count else sequence_of db id.
Proof.
  unfold sequence_of, appended. cbn [db_instances]. fold X. destruct (decide (id = X)) as [-> | Hne].
  - rewrite lookup_insert_eq. cbn [advanced_row ri_sequence]. apply plan_last.
  - by rewrite lookup_insert_ne.
Qed.

Lemma lockable_sequence db : store_wf db -> lockable t db -> sequence_of db X = expected.
Proof.
  intros Hwf. unfold lockable, sequence_of. fold X expected. destruct (Z.eqb_spec expected 0) as [He | He].
  - intros ->. lia.
  - intros (row & Hrow & Hs & _). rewrite Hrow. pose proof (sw_instances _ Hwf _ _ Hrow) as [Hr _].
    unfold maxPostgreSQLSequence in Hr. rewrite u64_small in Hs by lia. exact Hs.
Qed.

(** A staged transition appends its events to its instance's log and touches no other. *)
Lemma appended_log db id :
  store_wf db -> lockable t db ->
  log (appended stamp t db) id
  = if decide (id = X) then log db X ++ map (historyArguments stamp) (tr_events t) else log db id.
Proof.
  intros Hwf Hl. unfold log. rewrite appended_sequence.
  assert (Hfar : forall k, id <> X \/ k <= expected ->
    db_history (appended stamp t db) !! (id, k) = db_history db !! (id, k)).
  { intros k Hk. apply history_frame. intros e [j Hj]%list_elem_of_lookup_1 [= Hi Hs].
    destruct (plan_positions _ _ Hj) as [Hx Hp]. destruct Hk; [congruence | lia]. }
  destruct (decide (id = X)) as [-> | Hne].
  - rewrite (lockable_sequence db Hwf Hl). pose proof (sequence_nonneg db X Hwf) as Hn. rewrite (lockable_sequence db Hwf Hl) in Hn.
    rewrite seqZ_app, omap_app by (unfold count; lia). f_equal.
    + apply omap_ext_elem. intros k Hk%elem_of_seqZ. apply Hfar. right. lia.
    + rewrite <- (history_written db (tr_events t) (1 + expected)); [done |].
      intros k e Hk. destruct (plan_positions _ _ Hk) as [? ?]. split; [done | lia].
  - apply omap_ext_elem. intros k _. apply Hfar. by left.
Qed.

(** *** The invariant *)

Lemma next_definition_valid : reference_valid (nextDefinition t) = true.
Proof.
  unfold nextDefinition. pose proof (batch_definition _ (pl_batch _ Hplan)) as Hd. pose proof (pl_events _ Hplan) as He.
  revert Hd. generalize (tr_definition t). induction He as [| e events He Hes IH]; intros d Hd; cbn [foldl]; [done |].
  apply IH. case_bool_decide as Hk; [| done].
  pose proof (shape_definition _ (event_wf_shape _ He)) as Hs. by rewrite Hk in Hs.
Qed.

Lemma insert_work_lookup id : forall work db,
  (exists w, w ∈ work /\ wk_id w = id /\ db_work (foldl (insert_work stamp) db work) !! id = Some (workArguments stamp w))
  \/ ((forall w, w ∈ work -> wk_id w <> id) /\ db_work (foldl (insert_work stamp) db work) !! id = db_work db !! id).
Proof.
  intros work. induction work as [| w work IH] using rev_ind; intros db.
  { right. split; [by intros w ?%elem_of_nil | done]. }
  rewrite foldl_app. cbn [foldl]. cbn [insert_work set_work db_work].
  destruct (decide (wk_id w = id)) as [He | He].
  - left. exists w. split_and!; [set_solver | done |]. rewrite He. apply lookup_insert_eq.
  - rewrite lookup_insert_ne by done. destruct (IH db) as [(x & Hx & Hid & Hl) | [Hn Hl]].
    + left. exists x. split_and!; [set_solver | done | done].
    + right. split; [| done]. intros x [Hx | ->%list_elem_of_singleton]%elem_of_app; [by apply Hn | done].
Qed.

Lemma new_work_wf w : work_wf w -> work_row_wf (workArguments stamp w).
Proof.
  intros _. split; cbn; try lia; try done.
  - split; [lia | by intros [[? [=]] _]].
  - split; [lia | by intros [? [=]]].
Qed.

Lemma plan_work_position db w :
  store_wf db -> lockable t db -> w ∈ tr_work t ->
  wk_instanceID w = X /\ 1 <= wk_sequence w <= expected + count.
Proof.
  intros Hwf Hl Hin. destruct (batch_tied _ (pl_batch _ Hplan) w Hin) as (Hid & e & He & Hs & _). split; [done |].
  apply list_elem_of_lookup_1 in He as [k Hk]. destruct (plan_positions _ _ Hk) as [_ Hp].
  apply lookup_lt_Some in Hk. pose proof (pl_expected _ Hplan). unfold expected, count in *. lia.
Qed.

Lemma sequence_grows db id : store_wf db -> lockable t db -> sequence_of db id <= sequence_of (appended stamp t db) id.
Proof.
  intros Hwf Hl. rewrite appended_sequence. destruct (decide (id = X)) as [-> |]; [| lia].
  rewrite (lockable_sequence db Hwf Hl). unfold count. lia.
Qed.

Lemma appended_wf db : store_wf db -> appendable t db -> store_wf (appended stamp t db).
Proof.
  intros Hwf [Hl Hnew Hfresh]. pose proof plan_last as (Hlast & Hin & Hcount).
  pose proof (pl_expected _ Hplan) as Hexp. fold expected in Hexp.
  assert (Hgrow : forall id, sequence_of db id <= sequence_of (appended stamp t db) id) by (intros; by apply sequence_grows).
  split.
  - intros id row. unfold appended. cbn [db_instances]. intros [[<- <-] | [_ H]]%lookup_insert_Some; [| by eapply sw_instances].
    cbn [advanced_row ri_sequence row_reference ri_name ri_version ri_fingerprint].
    pose proof (pl_fits _ Hplan) as Hf. unfold transitionSequenceFits in Hf. apply Z.leb_le in Hf.
    rewrite Hlast in *. split; [lia |].
    assert (Hd : row_reference (advanced_row stamp t (base_row stamp t db)) = nextDefinition t).
    { unfold row_reference, advanced_row. cbn. by destruct (nextDefinition t). }
    rewrite Hd. apply next_definition_valid.
  - intros id k. rewrite appended_sequence. unfold appended at 1. cbn [db_history].
    destruct (decide (id = X /\ expected < k <= expected + count)) as [[-> Hk] | Hk].
    + rewrite decide_True by done. split; [lia |]. intros _.
      destruct (tr_events t !! Z.to_nat (k - expected - 1)) as [e |] eqn:He.
      2: { apply lookup_ge_None in He. unfold count in Hk. lia. }
      destruct (plan_positions _ _ He) as [Hx Hs].
      pose proof (history_written db (tr_events t) (1 + expected)) as Hw.
      assert (Hk' : k ∈ seqZ (1 + expected) (Z.of_nat (length (tr_events t)))) by (apply elem_of_seqZ; unfold count in Hk; lia).
      destruct (db_history (foldl (insert_history stamp) db (tr_events t)) !! (X, k)) eqn:Hn; [by eexists |].
      exfalso. specialize (Hw ltac:(intros j x Hj; destruct (plan_positions _ _ Hj); split; [done | lia])).
      apply (f_equal length) in Hw. rewrite length_map in Hw.
      apply (omap_some_None (fun k => db_history (foldl (insert_history stamp) db (tr_events t)) !! (X, k)) _ k) in Hk'; [| done].
      rewrite Hw, length_seqZ in Hk'. lia.
    + rewrite history_frame.
      * rewrite (sw_history _ Hwf). destruct (decide (id = X)) as [-> |]; [| done].
        rewrite (lockable_sequence db Hwf Hl). split; [lia |]. intros ?. destruct (decide (expected < k)); [| lia].
        destruct Hk. split; [done | lia].
      * intros e [j Hj]%list_elem_of_lookup_1 [= Hi Hs]. destruct (plan_positions _ _ Hj) as [Hx Hp]. apply Hk.
        split; [congruence |]. apply lookup_lt_Some in Hj. unfold count. lia.
  - intros tid row. unfold appended at 1. cbn [db_transitions]. intros [[<- <-] | [_ H]]%lookup_insert_Some.
    + cbn [transition_row rt_expected rt_committed rt_instance]. rewrite appended_sequence, decide_True by done.
      fold expected. rewrite Hlast. lia.
    + pose proof (sw_transitions _ Hwf _ _ H) as [? ?]. split; [done |]. etrans; [done | apply Hgrow].
  - intros id row. unfold appended at 1. cbn [db_work]. intros H.
    destruct (insert_work_lookup id (tr_work t) db) as [(w & Hw & Hid & Hrow) | [_ Hrow]]; rewrite H in Hrow.
    + injection Hrow as ->. destruct (plan_work_position db w Hwf Hl Hw) as [Hx Hs].
      pose proof (pl_work _ Hplan) as Hww. rewrite Forall_forall in Hww. split; [by apply new_work_wf, Hww |].
      cbn [workArguments rw_sequence rw_instance]. by rewrite Hx, appended_sequence, decide_True by done.
    + symmetry in Hrow. pose proof (sw_work _ Hwf _ _ Hrow) as [? [? ?]]. split; [done |]. split; [done |].
      etrans; [done | apply Hgrow].
  - intros id row H. cbn [appended db_resolutions] in H. destruct (sw_resolutions _ Hwf _ _ H) as (work & Hw & Ht).
    exists work. split; [| done]. unfold appended. cbn [db_work].
    destruct (insert_work_lookup (rr_work row) (tr_work t) db) as [(w & Hin' & Hid & _) | [_ ->]]; [| done].
    specialize (Hfresh w Hin'). congruence.
Qed.
End Append.
