(* ===== verification/PostgresStore.v ===== *)
(** * What the transition store guarantees (postgres/store.go)

    Atomicity and classification of [Commit] under every failure, its exact outcome
    when nothing fails, the retry of an unknown outcome, and the store as a reader
    of logs, so that inspection replays what was committed. *)
From stdpp Require Import sorting.
From S2P Require Import Prelude GoTime Names Sha256 Json Definitions Registry OperatorAudit Event.
From S2P Require Import Instances Replay ReplayInvariant ReplayProperties.
From S2P Require Import Work Transition Plans Store Inspection Administration DeadLetter Tables Statements.
From S2P Require Import PostgresCommit PostgresAppend PostgresLog Samples.

(** ** One call of Commit, for every session *)

Section Atomic.
Context (stamp : Time -> Time) (session : Session) (t : Transition) (db : Database).
Hypothesis Hquiet : quiet_from session 2.

(** The tables with what others committed, and nothing of this call. *)
Definition untouched (db' : Database) : Prop :=
  db' = db \/ db' = first_view session db \/ db' = locked_view session db.

Definition appends (db' : Database) : Prop :=
  appendable t (locked_view session db) /\ db' = appended stamp t (locked_view session db).

Lemma commit_outcome err db' :
  store_Commit stamp session t db = (err, db') ->
  match err with
  | None => durable t db' /\ (untouched db' \/ appends db')
  | Some e =>
      match StoreCommitOutcomeOf (Some e) with
      | StoreCommitNotCommitted => untouched db'
      | StoreCommitUnknown => appendable t (locked_view session db) /\ (db' = locked_view session db \/ appends db')
      | _ => False
      end
  end.
Proof.
  intros H. unfold store_Commit in H.
  destruct (negb (transition_Valid t) || negb (transitionSequenceFits t)); [injection H as <- <-; by left |].
  destruct (ss_context session); [injection H as <- <-; by left |].
  destruct (ss_begin session); [injection H as <- <-; by left |].
  pose proof (stage_outcome stamp session t db Hquiet (staged_as stamp session t db) (fun _ _ Hs => Hs)) as Hs.
  unfold post in Hs. destruct (stageTransition stamp session t (mkTx db db 0)) as [[[] | e] tx]; cbn [fst snd] in Hs.
  - destruct Hs as (Hsh & Hdb & Ha).
    assert (Happ : appends (tx_db tx)) by by split.
    destruct (ss_commit session) as [| cause []]; injection H as <- <-.
    + split; [| by right]. rewrite Hdb. exists (transition_row stamp t). split; [apply lookup_insert_eq | done].
    + split; [done | by right].
    + split; [done | by left].
  - destruct Hs as [Hsh Hd]. injection H as <- <-. split; [done |]. left. destruct Hsh as [-> | ->]; [by right; left | by right; right].
  - destruct Hs as [Hsh He]. injection H as <- <-. rewrite He. destruct Hsh as [-> | ->]; [by right; left | by right; right].
Qed.
End Atomic.

(** ** The run without failures *)

Section Quiet.
Context (stamp : Time -> Time) (t : Transition).

Lemma quiet_statement {A} (f : Database -> result (A * Database)) shared db n :
  statement quiet f (mkTx shared db n)
  = match f db with
    | Ok (a, db') => (Ok a, mkTx shared db' (S n))
    | Err e => (Err e, mkTx shared db (S n))
    end.
Proof. unfold statement. cbn. by destruct (f db) as [[]|]. Qed.

Lemma quiet_read {A} (f : Database -> A) shared db n :
  statement quiet (reading f) (mkTx shared db n) = (Ok (f db), mkTx shared db (S n)).
Proof. done. Qed.

Lemma bind_Ok {A B} (m : TxM A) (f : A -> TxM B) tx a tx' : m tx = (Ok a, tx') -> (m ≫= f) tx = f a tx'.
Proof. unfold mbind, tx_bind. by intros ->. Qed.

Lemma bind_Err {A B} (m : TxM A) (f : A -> TxM B) tx e tx' : m tx = (Err e, tx') -> (m ≫= f) tx = (Err e, tx').
Proof. unfold mbind, tx_bind. by intros ->. Qed.

Lemma quiet_wrapped {A} (f : Database -> result (A * Database)) shared db n :
  or_not_committed (statement quiet f) (mkTx shared db n)
  = match f db with
    | Ok (a, db') => (Ok a, mkTx shared db' (S n))
    | Err e => (Err (notCommitted e), mkTx shared db (S n))
    end.
Proof. unfold or_not_committed. rewrite quiet_statement. by destruct (f db) as [[]|]. Qed.

Lemma quiet_each {A} (f : A -> Database -> result (unit * Database)) l : forall shared db n,
  match run_all f l db with
  | Some db' => exists n', each (fun x => or_not_committed (statement quiet (f x))) l (mkTx shared db n) = (Ok tt, mkTx shared db' n')
  | None => exists e tx, each (fun x => or_not_committed (statement quiet (f x))) l (mkTx shared db n) = (Err (notCommitted e), tx)
      /\ tx_shared tx = shared
  end.
Proof.
  induction l as [| x l IH]; intros shared db n; cbn [run_all each]; [by exists n |].
  pose proof (quiet_wrapped (f x) shared db n) as Hx. destruct (f x db) as [[[] db1] | e].
  - rewrite (bind_Ok _ _ _ _ _ Hx). apply IH.
  - rewrite (bind_Err _ _ _ _ _ Hx). by eexists _, _.
Qed.

Hypothesis Hplan : plan_wf t.
Let X : string := tr_instanceID t.
Let expected : Z := tr_expectedSequence t.
Let count : Z := Z.of_nat (length (tr_events t)).

Lemma run_history_ok events : forall db s,
  1 <= s -> s + Z.of_nat (length events) - 1 <= maxPostgreSQLSequence ->
  (forall k e, events !! k = Some e -> ev_instanceID e = X /\ ev_sequence e = s + Z.of_nat k) ->
  Forall event_wf events -> is_Some (db_instances db !! X) ->
  (forall k, s <= k -> db_history db !! (X, k) = None) ->
  run_all (sql_insertHistory stamp) events db = Some (foldl (insert_history stamp) db events).
Proof.
  induction events as [| e events IH]; intros db s Hs Hmax Hpos Hw Hi Hfree; cbn [run_all foldl]; [done |].
  apply Forall_cons in Hw as [He Hw]. destruct (Hpos 0%nat e eq_refl) as [Hid Hsq]. cbn [length] in Hmax.
  pose proof (event_attempt_range _ He) as Ha. pose proof (event_wf_shape _ He) as Hsh.
  pose proof (EventKind_code_declared _ (shape_declared _ Hsh)) as Hk.
  unfold sql_insertHistory at 1. unfold bigint_fits.
  replace (db_history db !! (ev_instanceID e, ev_sequence e)) with (@None HistoryRow) by (rewrite Hid; symmetry; apply Hfree; lia).
  rewrite Hid, (bool_decide_eq_true_2 _ Hi), bool_decide_eq_false_2 by (by intros [? ?]).
  guard_ok. rewrite <- Hid at 1. apply (IH (insert_history stamp db e) (s + 1)); [lia | lia | | done | done |].
  - intros k x Hx. destruct (Hpos (S k) x Hx) as [? ?]. split; [done | lia].
  - intros k Hk'. cbn. rewrite lookup_insert_ne by (intros [= _ ?]; lia). apply Hfree. lia.
Qed.

Lemma run_work_ok work : forall db,
  Forall work_wf work -> NoDup (map wk_id work) -> (forall w, w ∈ work -> db_work db !! wk_id w = None) ->
  (forall w, w ∈ work -> wk_sequence w <= maxPostgreSQLSequence /\ is_Some (db_history db !! (wk_instanceID w, wk_sequence w))) ->
  run_all (sql_insertWork stamp) work db = Some (foldl (insert_work stamp) db work).
Proof.
  induction work as [| w work IH]; intros db Hw Hnd Hfree Hfk; cbn [run_all foldl]; [done |].
  apply Forall_cons in Hw as [[Hv _] Hw]. cbn [map] in Hnd. apply NoDup_cons in Hnd as [Hni Hnd].
  destruct (Hfk w ltac:(by left)) as [Hs Hh]. unfold sql_insertWork at 1. unfold bigint_fits.
  rewrite (Hfree w) by left. rewrite (bool_decide_eq_true_2 _ Hh), bool_decide_eq_false_2 by (by intros [? ?]).
  assert (1 <= WorkKind_code (wk_kind w)) by (unfold work_valid in Hv; bool_norm; lia).
  guard_ok. apply (IH (insert_work stamp db w)); [done | done | |].
  - intros x Hx. cbn. rewrite lookup_insert_ne; [apply Hfree; by right |]. intros He. apply Hni. rewrite He. by apply list_elem_of_fmap_2.
  - intros x Hx. apply Hfk. by right.
Qed.

(** *** The writes under the lock *)

(** The tables as the lock leaves them. *)
Definition locked_db (db : Database) : Database :=
  set_instances db (<[X := base_row stamp t db]> (db_instances db)).

Lemma plan_fits : expected + count <= maxPostgreSQLSequence /\ 0 <= expected /\ 1 <= count.
Proof.
  pose proof (plan_last t Hplan) as (Hl & _ & Hc). pose proof (pl_fits _ Hplan) as Hf. pose proof (pl_expected _ Hplan).
  unfold transitionSequenceFits in Hf. apply Z.leb_le in Hf. unfold expected, count in *. lia.
Qed.

Lemma fingerprint_length reference : reference_valid reference = true -> slen (ref_fingerprint reference) = 64.
Proof. unfold reference_valid. intros H. bool_norm. by apply fingerprint_slen. Qed.

Lemma quiet_write db :
  store_wf db -> lockable t db -> db_transitions db !! tr_id t = None ->
  if decide (Forall (fun w => db_work db !! wk_id w = None) (tr_work t))
  then exists tx, writeTransition stamp quiet t (mkTx db (locked_db db) 2) = (Ok true, tx)
  else exists e tx, writeTransition stamp quiet t (mkTx db (locked_db db) 2) = (Err (notCommitted e), tx) /\ tx_shared tx = db.
Proof.
  intros Hwf Hl Hnew. pose proof plan_fits as (Hfit & He & Hc). pose proof (plan_last t Hplan) as (Hlast & _ & _).
  pose proof (lockable_sequence t db Hwf Hl) as Hseq.
  fold X expected count in Hlast, Hseq. unfold writeTransition.
  assert (Hins : sql_insertTransition stamp t (ev_sequence (last_event t)) (ev_occurredAt (last_event t)) (locked_db db)
    = Ok (Some (tr_fingerprint t), set_transitions (locked_db db) (<[tr_id t := transition_row stamp t]> (db_transitions db)))).
  { unfold sql_insertTransition, bigint_fits. cbn [locked_db set_instances db_transitions db_instances]. rewrite Hnew.
    fold X expected. rewrite lookup_insert_eq, (fingerprint_slen _ (pl_fingerprint _ Hplan)), (bool_decide_eq_true_2 (is_Some _)) by (by eexists).
    guard_ok. done. }
  set (db1 := set_transitions (locked_db db) _) in Hins.
  rewrite (bind_Ok _ _ _ _ _ (eq_trans (quiet_wrapped _ _ _ _) ltac:(rewrite Hins; reflexivity))).
  rewrite bool_decide_eq_true_2 by done. cbn [negb].
  assert (Hrun : run_all (sql_insertHistory stamp) (tr_events t) db1 = Some (foldl (insert_history stamp) db1 (tr_events t))).
  { apply (run_history_ok (tr_events t) db1 (expected + 1)); [lia | fold count; lia | | apply Hplan | |].
    - intros k e Hk. by apply plan_positions.
    - cbn. rewrite lookup_insert_eq. by eexists.
    - intros k Hk. cbn. apply eq_None_not_Some. intros Hs. apply sw_history in Hs; [| done]. fold X in Hs. lia. }
  pose proof (quiet_each (sql_insertHistory stamp) (tr_events t) db db1 3) as Heach. rewrite Hrun in Heach.
  destruct Heach as [n2 Heach]. rewrite (bind_Ok _ _ _ _ _ Heach).
  set (db2 := foldl (insert_history stamp) db1 (tr_events t)) in *.
  pose proof (foldl_history stamp (tr_events t) db1) as (Hi2 & _ & Hw2 & _). fold db2 in Hi2, Hw2.
  pose proof (quiet_each (sql_insertWork stamp) (tr_work t) db db2 n2) as Hwork.
  destruct (decide _) as [Hfree | Hfree].
  - rewrite Forall_forall in Hfree. rewrite (run_work_ok (tr_work t) db2) in Hwork.
    + destruct Hwork as [n3 Hwork]. rewrite (bind_Ok _ _ _ _ _ Hwork).
      set (db3 := foldl (insert_work stamp) db2 (tr_work t)).
      pose proof (foldl_work stamp (tr_work t) db2) as (Hi3 & _). fold db3 in Hi3.
      assert (Hup : exists db4, sql_updateInstance stamp (nextDefinition t) (ev_sequence (last_event t))
        (ev_occurredAt (last_event t)) (tr_instanceID t) (tr_expectedSequence t) (terminalArchiveTime (last_event t)) db3 = Ok (1, db4)).
      { unfold sql_updateInstance, bigint_fits. rewrite Hi3, Hi2. cbn [db1 set_transitions locked_db set_instances db_instances].
        fold X expected. rewrite lookup_insert_eq.
        assert (Hb : ri_sequence (base_row stamp t db) = expected).
        { unfold base_row. fold X. unfold sequence_of in Hseq. destruct (db_instances db !! X); [done |]. cbn. done. }
        rewrite Hb, Z.eqb_refl, (fingerprint_length _ (next_definition_valid t Hplan)). cbn [negb]. guard_ok. by eexists. }
      destruct Hup as [db4 Hup].
      rewrite (bind_Ok _ _ _ _ _ (eq_trans (quiet_wrapped _ _ _ _) ltac:(rewrite Hup; reflexivity))).
      by eexists.
    + apply Hplan.
    + apply (batch_unique _ (pl_batch _ Hplan)).
    + intros w Hw. rewrite Hw2. by apply Hfree.
    + intros w Hw. destruct (batch_tied _ (pl_batch _ Hplan) w Hw) as (Hid & e & Hin & Hs & _).
      destruct (plan_work_position t Hplan db w Hwf Hl Hw) as [_ Hr]. split; [fold expected count in Hr; lia |].
      apply list_elem_of_lookup_1 in Hin as [k Hk]. destruct (plan_positions t Hplan _ _ Hk) as [_ Hp]. rewrite Hs in Hp.
      pose proof (history_written stamp t db1 (tr_events t) (expected + 1)) as Hwr.
      specialize (Hwr ltac:(intros j x Hj; by apply plan_positions)). fold db2 in Hwr.
      destruct (db_history db2 !! (wk_instanceID w, wk_sequence w)) eqn:Hn; [by eexists |]. exfalso.
      apply (f_equal length) in Hwr. rewrite length_map in Hwr.
      assert (Hk' : wk_sequence w ∈ seqZ (expected + 1) (Z.of_nat (length (tr_events t)))).
      { apply elem_of_seqZ. apply lookup_lt_Some in Hk. unfold expected. lia. }
      apply (omap_some_None (fun k => db_history db2 !! (tr_instanceID t, k)) _ (wk_sequence w)) in Hk'; [| by rewrite <- Hid].
      rewrite Hwr, length_seqZ in Hk'. lia.
  - destruct (run_all (sql_insertWork stamp) (tr_work t) db2) as [db3 |] eqn:Hr.
    + destruct Hfree. apply run_work in Hr as [_ Hr]. apply Forall_forall. intros w Hw. specialize (Hr w Hw). by rewrite Hw2 in Hr.
    + destruct Hwork as (e & tx & Hwork & Hsh). rewrite (bind_Err _ _ _ _ _ Hwork). by eexists _, _.
Qed.
End Quiet.

(** ** The abstract specification of Commit: an append-only store of logs

    Exactly one of these happens when nothing fails in transport. *)
Inductive append_spec (stamp : Time -> Time) (t : Transition) (db : Database) : option GoError -> Database -> Prop :=
  | append_exact :  (** the same transition is durable: idempotent *)
      durable t db -> append_spec stamp t db None db
  | append_duplicate row :  (** its identity is durable with other content *)
      db_transitions db !! tr_id t = Some row -> rt_fingerprint row <> tr_fingerprint t ->
      append_spec stamp t db (Some (notCommitted ErrDuplicateTransition)) db
  | append_missing :
      db_transitions db !! tr_id t = None -> tr_expectedSequence t <> 0 -> db_instances db !! tr_instanceID t = None ->
      append_spec stamp t db (Some (notCommitted ErrStoreNotFound)) db
  | append_conflict :  (** another sequence or another pin *)
      db_transitions db !! tr_id t = None -> is_Some (db_instances db !! tr_instanceID t) -> ~ lockable t db ->
      append_spec stamp t db (Some (notCommitted ErrStoreConflict)) db
  | append_work_taken w e :
      db_transitions db !! tr_id t = None -> lockable t db -> w ∈ tr_work t -> is_Some (db_work db !! wk_id w) ->
      append_spec stamp t db (Some (notCommitted e)) db
  | append_done :
      appendable t db -> append_spec stamp t db None (appended stamp t db).

Section Exact.
Context (stamp : Time -> Time) (t : Transition) (db : Database).
Hypothesis Hplan : plan_wf t.
Hypothesis Hwf : store_wf db.

Lemma quiet_find shared db' n :
  exactTransition quiet t (mkTx shared db' n)
  = match db_transitions db' !! tr_id t with
    | None => (Ok false, mkTx shared db' (S n))
    | Some row => (if bool_decide (rt_fingerprint row = tr_fingerprint t) then Ok true else Err ErrDuplicateTransition,
                   mkTx shared db' (S n))
    end.
Proof.
  unfold exactTransition. rewrite (bind_Ok _ _ _ _ _ (quiet_read _ _ _ _)). unfold sql_findTransition.
  destruct (db_transitions db' !! tr_id t) as [row |]; cbn; [| done]. by destruct (bool_decide _).
Qed.

Lemma quiet_concurrent shared db' n :
  db_transitions db' !! tr_id t = None ->
  concurrentTransition quiet t (mkTx shared db' n) = (Err (notCommitted ErrStoreConflict), mkTx shared db' (S n)).
Proof.
  intros Hn. unfold concurrentTransition. erewrite (bind_Ok _ _ _ false); [reflexivity |].
  unfold or_not_committed. rewrite quiet_find, Hn. reflexivity.
Qed.

(** What the lock decides. *)
Lemma quiet_lock :
  db_transitions db !! tr_id t = None ->
  (lockable t db /\ lockOrInsert stamp quiet t (mkTx db db 1) = (Ok None, mkTx db (locked_db stamp t db) 2))
  \/ (exists e tx, lockOrInsert stamp quiet t (mkTx db db 1) = (Err (notCommitted e), tx) /\ tx_shared tx = db
      /\ append_spec stamp t db (Some (notCommitted e)) db).
Proof.
  intros Hnew. unfold lockOrInsert. destruct (tr_expectedSequence t =? 0) eqn:Hz.
  - destruct (db_instances db !! tr_instanceID t) as [row |] eqn:Hi.
    + right. erewrite (bind_Ok _ _ _ 0).
      2: { rewrite quiet_wrapped. unfold sql_insertInstance.
           rewrite (fingerprint_length _ (batch_definition _ (pl_batch _ Hplan))), Hi. reflexivity. }
      cbn [Z.eqb negb]. rewrite (bind_Err _ _ _ _ _ (quiet_concurrent _ _ _ Hnew)).
      eexists _, _. split_and!; [reflexivity | done |]. apply append_conflict; [done | by eexists |].
      unfold lockable. rewrite Hz, Hi. done.
    + left. split; [unfold lockable; by rewrite Hz |]. erewrite (bind_Ok _ _ _ 1).
      2: { rewrite quiet_wrapped. unfold sql_insertInstance.
           rewrite (fingerprint_length _ (batch_definition _ (pl_batch _ Hplan))), Hi. reflexivity. }
      change (negb (1 =? 1)) with false. unfold mret, tx_ret. do 2 f_equal. unfold locked_db, base_row. by rewrite Hi.
  - rewrite (bind_Ok _ _ _ (sql_lockInstance (tr_instanceID t) db) (mkTx db db 2)) by reflexivity. unfold sql_lockInstance.
    destruct (db_instances db !! tr_instanceID t) as [row |] eqn:Hi.
    + destruct (_ || _ || _ || _) eqn:Hg.
      * right. rewrite (bind_Err _ _ _ _ _ (quiet_concurrent _ _ _ Hnew)). eexists _, _. split_and!; [reflexivity | done |].
        apply append_conflict; [done | by eexists |]. unfold lockable. rewrite Hz, Hi.
        intros (r & [= <-] & Hs & Hn & Hv & Hf). rewrite Hs, Hn, Hv, Hf, Z.eqb_refl, !bool_decide_eq_true_2 in Hg by done. done.
      * left. bool_norm. split.
        -- unfold lockable. rewrite (proj2 (Z.eqb_neq _ 0)), Hi by done. by exists row.
        -- unfold mret, tx_ret. do 2 f_equal. unfold locked_db, base_row, set_instances. rewrite Hi. cbn [default from_option id].
           rewrite insert_id by done. by destruct db.
    + right. eexists _, _. split_and!; [reflexivity | done |]. apply append_missing; [done | by apply Z.eqb_neq | done].
Qed.

Lemma commit_spec :
  append_spec stamp t db (store_Commit stamp quiet t db).1 (store_Commit stamp quiet t db).2.
Proof.
  unfold store_Commit.
  assert (Hv : transition_Valid t = true).
  { unfold transition_Valid. apply negb_true_iff, bool_decide_eq_false_2. intros He.
    pose proof (fingerprint_slen _ (pl_fingerprint _ Hplan)) as Hf. by rewrite He in Hf. }
  rewrite Hv, (pl_fits _ Hplan). cbn [negb orb ss_context quiet ss_begin]. unfold stageTransition.
  destruct (db_transitions db !! tr_id t) as [row |] eqn:Hi.
  - destruct (decide (rt_fingerprint row = tr_fingerprint t)) as [Hf | Hf].
    + erewrite (bind_Ok _ _ _ true).
      2: { unfold or_not_committed. rewrite quiet_find, Hi, bool_decide_eq_true_2 by done. reflexivity. }
      apply append_exact. by exists row.
    + erewrite (bind_Err _ _ _ (notCommitted ErrDuplicateTransition)).
      2: { unfold or_not_committed. rewrite quiet_find, Hi, bool_decide_eq_false_2 by done. reflexivity. }
      by eapply append_duplicate.
  - erewrite (bind_Ok _ _ _ false). 2: { unfold or_not_committed. rewrite quiet_find, Hi. reflexivity. }
    cbv beta iota. destruct (quiet_lock Hi) as [[Hl Hlock] | (e & tx & Hlock & Hsh & Hspec)].
    + rewrite (bind_Ok _ _ _ _ _ Hlock). cbv beta iota. pose proof (quiet_write stamp t Hplan db Hwf Hl Hi) as Hw.
      destruct (decide _) as [Hfree | Hfree].
      * destruct Hw as [tx Hw]. rewrite Hw. cbn [ss_commit quiet fst snd].
        assert (Ha : appendable t db) by (split; [done | done | by apply Forall_forall]).
        pose proof (stage_outcome stamp quiet t db (fun _ _ _ => eq_refl) (staged_as stamp quiet t db) (fun _ _ H => H)) as Hs.
        unfold post, stageTransition in Hs.
        erewrite (bind_Ok _ _ _ false) in Hs. 2: { unfold or_not_committed. rewrite quiet_find, Hi. reflexivity. }
        cbv beta iota in Hs. rewrite (bind_Ok _ _ _ _ _ Hlock) in Hs. cbv beta iota in Hs. rewrite Hw in Hs.
        cbn [fst snd] in Hs. destruct Hs as (_ & -> & _). by apply append_done.
      * destruct Hw as (e & tx & Hw & Hsh). rewrite Hw. cbn [fst snd]. rewrite Hsh.
        apply not_Forall_Exists in Hfree; [| solve_decision]. apply Exists_exists in Hfree as (w & Hin & Hw').
        by eapply (append_work_taken _ _ _ w e); [done | done | done | apply not_eq_None_Some].
    + rewrite (bind_Err _ _ _ _ _ Hlock). cbn [fst snd]. by rewrite Hsh.
Qed.
End Exact.

(** ** Reading a log back *)

Lemma history_sequences_spec db id k :
  k ∈ history_sequences id db <-> is_Some (db_history db !! (id, k)).
Proof.
  unfold history_sequences. rewrite list_elem_of_omap. split.
  - intros ([i j] & Hin & H). cbn in H. case_bool_decide as He; [| done]. injection H as <-. subst i.
    by apply elem_of_elements, elem_of_dom in Hin.
  - intros Hs. exists (id, k). split; [by apply elem_of_elements, elem_of_dom |]. cbn. by rewrite bool_decide_eq_true_2.
Qed.

Lemma NoDup_omap_inj {A B} (f : A -> option B) (l : list A) :
  (forall x y z, x ∈ l -> y ∈ l -> f x = Some z -> f y = Some z -> x = y) -> NoDup l -> NoDup (omap f l).
Proof.
  induction l as [| x l IH]; [constructor |]. intros Hinj [Hni Hnd]%NoDup_cons. cbn.
  assert (IH' : NoDup (omap f l)) by (apply IH; [intros a b z Ha Hb; apply Hinj; by right | done]).
  destruct (f x) as [z |] eqn:E; [| done]. constructor; [| done].
  intros (y & Hy & Hf)%list_elem_of_omap. apply Hni. rewrite (Hinj x y z); [done | by left | by right | done | done].
Qed.

Lemma history_sequences_NoDup db id : NoDup (history_sequences id db).
Proof.
  apply NoDup_omap_inj; [| apply NoDup_elements].
  intros [i j] [i' j'] z _ _. cbn. do 2 (case_bool_decide; [| done]). naive_solver.
Qed.

#[export] Instance Zleb_trans : Transitive (fun a b => Z.leb a b = true).
Proof. intros a b c. rewrite !Z.leb_le. lia. Qed.
#[export] Instance Zleb_total : Total (fun a b => Z.leb a b = true).
Proof. intros a b. rewrite !Z.leb_le. lia. Qed.
#[export] Instance Zleb_antisymm : AntiSymm eq (fun a b => Z.leb a b = true).
Proof. intros a b. rewrite !Z.leb_le. lia. Qed.

Lemma seqZ_sorted s n : Sorted (fun a b => Z.leb a b = true) (seqZ s n).
Proof.
  destruct (Z.le_gt_cases n 0) as [Hn | Hn]; [rewrite seqZ_nil by lia; constructor |].
  remember (Z.to_nat n) as m eqn:Hm. revert s n Hn Hm. induction m as [| m IH]; intros s n Hn Hm; [lia |].
  rewrite seqZ_cons by lia. destruct (decide (n = 1)) as [-> | Hne].
  { change (Z.pred 1) with 0. rewrite seqZ_nil by lia. repeat constructor. }
  constructor; [apply IH; lia |]. rewrite seqZ_cons by lia. constructor. apply Z.leb_le. lia.
Qed.

Lemma omap_seqZ_lookup {B} (f : Z -> option B) s n (j : nat) :
  0 <= n -> (forall k, s <= k < s + n -> is_Some (f k)) ->
  omap f (seqZ s n) !! j = if decide (Z.of_nat j < n) then f (s + Z.of_nat j) else None.
Proof.
  intros Hn Hf. destruct (decide _) as [Hj | Hj].
  - replace n with (Z.of_nat j + (1 + (n - Z.of_nat j - 1))) by lia. rewrite seqZ_app, omap_app by lia.
    assert (Hl : length (omap f (seqZ s (Z.of_nat j))) = j).
    { rewrite omap_all_length; [rewrite length_seqZ; lia |]. intros x Hx%elem_of_seqZ. apply Hf. lia. }
    rewrite lookup_app_r, Hl, Nat.sub_diag, (Z.add_comm 1), seqZ_cons by lia. cbn.
    destruct (Hf (s + Z.of_nat j) ltac:(lia)) as [y ->]. done.
  - apply lookup_ge_None_2. etrans; [apply length_omap_le |]. rewrite length_seqZ. lia.
Qed.

(** The rows a history query returns are a slice of the log. *)
Lemma sql_history_log db id after limit :
  store_wf db -> 0 <= after ->
  sql_history id after limit db
  = take (Z.to_nat limit) (drop (Z.to_nat after) (imap (fun k row => (Z.of_nat k + 1, row)) (log db id))).
Proof.
  intros Hwf Ha. unfold sql_history. f_equal. pose proof (sequence_nonneg db id Hwf) as Hn.
  assert (Hs : order_by Z.leb (filter (fun sequence => after < sequence) (history_sequences id db))
    = seqZ (after + 1) (sequence_of db id - after)).
  { apply (Sorted_unique (fun a b => Z.leb a b = true)); [apply (Sorted_merge_sort (fun a b => Z.leb a b = true)) | apply seqZ_sorted |].
    etrans; [apply (merge_sort_Permutation (fun a b => Z.leb a b = true)) |]. apply NoDup_Permutation.
    - apply NoDup_filter, history_sequences_NoDup.
    - apply NoDup_seqZ.
    - intros k. rewrite list_elem_of_filter, history_sequences_spec, (sw_history _ Hwf), elem_of_seqZ. lia. }
  rewrite Hs. clear Hs. apply list_eq. intros j. rewrite lookup_drop, list_lookup_imap.
  assert (Hall : forall k, 1 <= k < 1 + sequence_of db id -> is_Some (db_history db !! (id, k))).
  { intros k Hk. apply sw_history; [done | lia]. }
  unfold log. rewrite (omap_seqZ_lookup (fun k => db_history db !! (id, k))) by (done || lia).
  destruct (decide (Z.of_nat j < sequence_of db id - after)) as [Hj | Hj].
  - rewrite (omap_seqZ_lookup (fun k => pair k <$> db_history db !! (id, k))); [| lia |].
    + rewrite !decide_True by lia. replace (1 + Z.of_nat (Z.to_nat after + j)) with (after + 1 + Z.of_nat j) by lia.
      replace (Z.of_nat (Z.to_nat after + j) + 1) with (after + 1 + Z.of_nat j) by lia. done.
    + intros k Hk. destruct (Hall k ltac:(lia)) as [row ->]. by eexists.
  - rewrite decide_False by lia. cbn. apply lookup_ge_None_2. etrans; [apply length_omap_le |]. rewrite length_seqZ. lia.
Qed.

(** An instance of the store holds a history: its log is the encoding of well-formed
    events, in order, whose times the columns keep exactly. *)
Record stores (stamp : Time -> Time) (db : Database) (id : string) (es : list HistoryEvent) : Prop := {
  st_log : log db id = map (historyArguments stamp) es;
  st_events : Forall event_wf es;
  st_kept : Forall (fun e => stamped stamp e = e) es;
  st_follows : follows id 0 es
}.

Section Read.
Context (stamp : Time -> Time).

Lemma scan_slice operation id : forall es first,
  Forall event_wf es -> Forall (fun e => stamped stamp e = e) es -> follows id first es ->
  scanRows (scanHistoryEvent id) operation
    (imap (fun k row => (first + Z.of_nat k + 1, row)) (map (historyArguments stamp) es)) = Ok es.
Proof.
  intros es. induction es as [| e es IH]; intros first Hw Hk Hf; [done |].
  apply Forall_cons in Hw as [He Hw]. apply Forall_cons in Hk as [Hke Hk].
  apply follows_cons in Hf as (_ & Hid & Hs & Hf). cbn [map imap scanRows].
  replace (first + Z.of_nat 0 + 1) with (ev_sequence e) by lia. rewrite <- Hid at 1.
  rewrite scan_history; [| done | rewrite Hke; apply He]. rewrite Hke.
  rewrite (imap_ext _ (fun k row => (first + 1 + Z.of_nat k + 1, row))) by (intros; cbn; f_equal; lia).
  rewrite IH by done. done.
Qed.

Lemma imap_drop {A B} (f : nat -> A -> B) (l : list A) : forall n, drop n (imap f l) = imap (fun k => f (n + k)%nat) (drop n l).
Proof.
  intros n. apply list_eq. intros k. rewrite lookup_drop, !list_lookup_imap, lookup_drop. done.
Qed.

Lemma imap_take {A B} (f : nat -> A -> B) (l : list A) n : take n (imap f l) = imap f (take n l).
Proof.
  apply list_eq. intros k. rewrite list_lookup_imap. destruct (decide (k < n)%nat).
  - by rewrite !lookup_take_lt, list_lookup_imap by done.
  - by rewrite !lookup_take_ge by lia.
Qed.

Lemma follows_take id first n es : follows id first es -> follows id first (take n es).
Proof. rewrite <- (take_drop n es) at 1. by intros [H _]%follows_app. Qed.

(** The rows of one query, decoded. *)
Lemma scan_query operation db id es after limit :
  store_wf db -> stores stamp db id es -> 0 <= after <= Z.of_nat (length es) ->
  scanRows (scanHistoryEvent id) operation (sql_history id after limit db)
  = Ok (take (Z.to_nat limit) (drop (Z.to_nat after) es)).
Proof.
  intros Hwf [Hlog Hw Hk Hf] Ha. rewrite (sql_history_log db id after limit Hwf), Hlog, imap_drop, imap_take by lia.
  rewrite skipn_map, firstn_map.
  rewrite (imap_ext _ (fun k row => (after + Z.of_nat k + 1, row))) by (intros; cbn; f_equal; lia).
  apply scan_slice; [by apply Forall_take, Forall_drop | by apply Forall_take, Forall_drop |].
  apply follows_take. pose proof (follows_drop id es (Z.to_nat after) ltac:(lia) Hf) as Hd. by rewrite Z2Nat.id in Hd by lia.
Qed.

#[export] Instance history_reader db id es :
  store_wf db -> stores stamp db id es -> instanceIDPattern id = true -> es <> [] ->
  LogReader (store_History quiet) db id es.
Proof.
  intros Hwf Hst Hid Hne. pose proof Hst as [Hlog Hw Hk Hf]. split; [done |]. intros after limit Ha Hv.
  pose proof (log_length db id Hwf) as Hlen. rewrite Hlog, length_map in Hlen.
  assert (Hi : exists row, db_instances db !! id = Some row /\ Z.of_nat (length es) <= maxPostgreSQLSequence).
  { unfold sequence_of in Hlen. destruct (db_instances db !! id) as [row |] eqn:E; [| destruct es; [done | cbn in Hlen; lia]].
    exists row. split; [done |]. pose proof (sw_instances _ Hwf _ _ E) as [? _]. lia. }
  destruct Hi as (row & Hi & Hmax). unfold store_History. rewrite Hv. cbn [negb orb hq_afterSequence hq_instanceID hq_limit].
  rewrite (proj2 (Z.ltb_ge _ _)) by lia. cbn [ss_context quiet]. unfold autoquery, autocommit. cbn [ss_others ss_statement ss_rows quiet reading].
  unfold sql_instanceExists. rewrite Hi, bool_decide_eq_true_2 by by eexists.
  unfold scanAll. cbn [fst snd]. rewrite (scan_query _ db id es after (limit + 1) Hwf Hst Ha). cbn [mbind result_bind].
  assert (Hl : 1 <= limit <= MaxHistoryPageEvents).
  { unfold historyQuery_valid in Hv. cbn [hq_limit] in Hv. bool_norm. lia. }
  assert (Hcut : cut limit (take (Z.to_nat (limit + 1)) (drop (Z.to_nat after) es))
    = (take (Z.to_nat limit) (drop (Z.to_nat after) es), after + limit <? Z.of_nat (length es))).
  { unfold cut. rewrite length_take, length_drop.
    replace (limit <? _) with (after + limit <? Z.of_nat (length es)) by (apply eq_true_iff_eq; rewrite !Z.ltb_lt; lia).
    f_equal. destruct (Z.ltb_spec (after + limit) (Z.of_nat (length es))).
    - rewrite take_take. f_equal. lia.
    - rewrite !take_ge; [done | |]; rewrite length_drop; lia. }
  rewrite Hcut. cbv beta iota.
  pose proof (log_page_ok id es after limit Hid ltac:(unfold maxPostgreSQLSequence in Hmax; lia) Hf Ha Hl) as Hpage.
  cbn zeta in Hpage. by rewrite Hpage.
Qed.
End Read.
