(* ===== verification/PostgresDurability.v ===== *)
(** * Durability: the theorems about committing and reading back (postgres/store.go) *)
From S2P Require Import Prelude GoTime Names Sha256 Json Definitions Registry OperatorAudit Event.
From S2P Require Import Instances Replay ReplayInvariant ReplayProperties.
From S2P Require Import Work Transition Plans Store Inspection Administration DeadLetter Tables Statements.
From S2P Require Import PostgresCommit PostgresAppend PostgresLog PostgresStore Samples.

(** What a commit adds to the tables: the events, in order, at the end of the
    instance's log, the work, and the transition's identity; no other log changes. *)
Record committed_to (stamp : Time -> Time) (t : Transition) (before after : Database) : Prop := {
  ct_wf : store_wf after;
  ct_durable : durable t after;
  ct_log : log after (tr_instanceID t) = log before (tr_instanceID t) ++ map (historyArguments stamp) (tr_events t);
  ct_others : forall id, id <> tr_instanceID t -> log after id = log before id;
  ct_work : forall w, w ∈ tr_work t -> db_work before !! wk_id w = None
    /\ db_work after !! wk_id w = Some (workArguments stamp w);
  ct_kept : forall id row, db_work before !! id = Some row -> db_work after !! id = Some row
}.

Lemma appended_committed_to stamp t db :
  plan_wf t -> store_wf db -> appendable t db -> committed_to stamp t db (appended stamp t db).
Proof.
  intros Hplan Hwf Ha. pose proof Ha as [Hl Hnew Hfresh]. split.
  - by apply appended_wf.
  - exists (transition_row stamp t). split; [apply lookup_insert_eq | done].
  - rewrite appended_log by done. by rewrite decide_True.
  - intros id Hid. rewrite appended_log by done. by rewrite decide_False.
  - intros w Hw. split; [by apply Hfresh |]. unfold appended. cbn [db_work].
    destruct (insert_work_lookup stamp t Hplan (wk_id w) (tr_work t) db) as [(x & Hx & Hid & ->) | [Hn _]]; [| by destruct (Hn w Hw)].
    do 2 f_equal. eapply (NoDup_map_unique wk_id); [apply (batch_unique _ (pl_batch _ Hplan)) | done ..].
  - intros id row Hrow. unfold appended. cbn [db_work].
    destruct (insert_work_lookup stamp t Hplan id (tr_work t) db) as [(x & Hx & Hid & _) | [_ ->]]; [| done].
    specialize (Hfresh x Hx). congruence.
Qed.

Lemma exact_reconciles t db :
  fingerprintPattern (tr_fingerprint t) = true -> instanceIDPattern (tr_id t) = true -> durable t db ->
  store_ReconcileTransition quiet (mkReconciliation (tr_id t) (tr_fingerprint t)) db = (Ok TransitionCommitted, db).
Proof.
  intros Hf Hid (row & Hrow & Hfp). unfold store_ReconcileTransition, reconciliation_Valid.
  cbn [rl_transitionID rl_fingerprint]. rewrite Hf, Hid. cbn [negb andb ss_context quiet].
  unfold autocommit. cbn [ss_others ss_statement quiet reading]. unfold sql_findTransition. rewrite Hrow.
  cbn [fmap option_fmap option_map]. by rewrite Hfp, bool_decide_eq_true_2.
Qed.

Lemma missing_reconciles t db :
  fingerprintPattern (tr_fingerprint t) = true -> instanceIDPattern (tr_id t) = true ->
  db_transitions db !! tr_id t = None ->
  store_ReconcileTransition quiet (mkReconciliation (tr_id t) (tr_fingerprint t)) db = (Ok TransitionMissing, db).
Proof.
  intros Hf Hid Hn. unfold store_ReconcileTransition, reconciliation_Valid.
  cbn [rl_transitionID rl_fingerprint]. rewrite Hf, Hid. cbn [negb andb ss_context quiet].
  unfold autocommit. cbn [ss_others ss_statement quiet reading]. unfold sql_findTransition. by rewrite Hn.
Qed.

(** A plan made by [NewTransition] is well formed. *)
Lemma NewTransition_plan spec t :
  Forall event_wf (ts_Events spec) -> Forall work_wf (ts_Work spec) -> 0 <= ts_ExpectedSequence spec < 2 ^ 64 ->
  NewTransition spec = Ok t -> transitionSequenceFits t = true -> plan_wf t.
Proof.
  intros He Hw Hr [Hv ->]%NewTransition_inv Hf. split; try done; try lia.
  - by apply transition_valid_wf in Hv as [].
  - apply sha256_hex_fingerprint.
  - cbn. lia.
Qed.

(** The quiet commit of an appendable plan. *)
Lemma commit_appends stamp t db :
  plan_wf t -> store_wf db -> appendable t db -> store_Commit stamp quiet t db = (None, appended stamp t db).
Proof.
  intros Hplan Hwf [Hl Hnew Hfresh]. pose proof (commit_spec stamp t db Hplan Hwf) as Hs.
  destruct (store_Commit stamp quiet t db) as [err db']. cbn [fst snd] in Hs. inversion Hs; subst; try done.
  - match goal with H : durable t _ |- _ => destruct H as (row & Hrow & _) end. congruence.
  - congruence.
  - exfalso. unfold lockable in Hl. rewrite (proj2 (Z.eqb_neq _ 0)) in Hl by done. destruct Hl as (row & Hrow & _). congruence.
  - match goal with H : w ∈ _ |- _ => specialize (Hfresh w H) end.
    match goal with H : is_Some (db_work _ !! _) |- _ => destruct H; congruence end.
Qed.

(** The quiet commit of a durable plan finds it. *)
Lemma durable_repeats stamp t db : plan_wf t -> store_wf db -> durable t db -> store_Commit stamp quiet t db = (None, db).
Proof.
  intros Hplan Hwf (row & Hrow & Hfp). pose proof (commit_spec stamp t db Hplan Hwf) as Hs.
  destruct (store_Commit stamp quiet t db) as [err db2]. cbn [fst snd] in Hs. inversion Hs; subst; try congruence; try done.
  match goal with H : appendable t _ |- _ => pose proof (ap_new _ _ H) end. congruence.
Qed.

(** The log after an append, as a reader's log. *)
Lemma stores_append stamp es t db :
  store_wf db -> plan_wf t -> stores stamp db (tr_instanceID t) es -> appendable t db ->
  Forall (fun e => stamped stamp e = e) (tr_events t) ->
  stores stamp (appended stamp t db) (tr_instanceID t) (es ++ tr_events t).
Proof.
  intros Hwf Hplan [Hlog Hew Hek Hf] Ha Hkept. pose proof (appended_committed_to stamp t db Hplan Hwf Ha) as Hct.
  assert (Hseq : tr_expectedSequence t = Z.of_nat (length es)).
  { rewrite <- (lockable_sequence t db Hwf (ap_lock _ _ Ha)), <- (log_length db _ Hwf), Hlog, length_map. done. }
  split.
  - by rewrite (ct_log _ _ _ _ Hct), Hlog, map_app.
  - apply Forall_app. split; [done | apply Hplan].
  - by apply Forall_app.
  - apply follows_app. split; [done |]. intros k e Hk. destruct (plan_positions t Hplan k e Hk) as [Hx Hs].
    pose proof (pl_events _ Hplan) as He. apply (Forall_lookup_1 _ _ _ _ He) in Hk as Hw.
    split_and!; [apply Hw | done | lia].
Qed.

(** Inspecting a store that holds a history replays it. *)
Lemma stores_inspect stamp registry es i db id spec :
  store_wf db -> stores stamp db id es -> Replay registry es = Ok i -> es <> [] -> is_Some registry ->
  is_InstanceID spec = id -> validHistoryTraversal id (is_PageSize spec) (is_MaxEvents spec) = true ->
  0 <= is_PageSize spec < 2 ^ 32 -> Z.of_nat (length es) <= is_MaxEvents spec ->
  InspectInstance (store_History quiet) (fun _ => None) registry spec db = Some (Ok i, db).
Proof.
  intros Hwf Hst Hreplay Hne [r ->] Hsp Hv Hp Hmax. unfold InspectInstance. rewrite Hsp, Hv. cbn [negb].
  unfold validHistoryTraversal in Hv. destruct (instanceIDPattern id) eqn:Hpat; [cbn [negb] in Hv | done].
  destruct (_ || _) eqn:G; [done |]. bool_norm. unfold MaxInspectionHistoryEvents, MaxHistoryPageEvents in *.
  pose proof (history_reader stamp _ id _ Hwf Hst Hpat Hne) as Hreader.
  rewrite (traverse_log (store_History quiet) id es db Hpat ltac:(lia)
    (is_PageSize spec) (is_MaxEvents spec)) by (unfold traverse_fuel, MaxHistoryPageEvents, MaxInspectionHistoryEvents in *; lia).
  cbn [mbind option_bind app]. rewrite drop_0, (proj2 (Z.ltb_ge _ _)), take_ge by lia. by rewrite Hreplay.
Qed.

(** ** Samples *)

Definition order_reference : DefinitionReference := Reference order_definition.

(** The start of the sample order as a plan; any legal text serves as its fingerprint. *)
Definition start_work : PendingWork :=
  mkWork "work-1" WorkActivity "wf-1" 1 (sample_time 1) (sample_time 60) (Some "p"%string) "" "".
Definition start_plan : Transition :=
  mkTransition "tr-1" "wf-1" 0 order_reference order_started [start_work] sample_fingerprint.
Definition pause_event : HistoryEvent := order_event 2 EventInstancePaused "" 0 "" zeroTime "" false None.
Definition pause_plan : Transition :=
  mkTransition "tr-2" "wf-1" 1 order_reference [pause_event] [] sample_fingerprint.
Definition started_db : Database := appended microseconds start_plan emptyDatabase.

Definition plan_check (t : Transition) : bool :=
  transition_valid t && forallb event_check (tr_events t) && forallb work_valid (tr_work t)
  && forallb (fun w => bool_decide (canonicalTime (wk_availableAt w) = wk_availableAt w)
       && bool_decide (canonicalTime (wk_deadline w) = wk_deadline w)) (tr_work t)
  && fingerprintPattern (tr_fingerprint t) && (0 <=? tr_expectedSequence t) && (tr_expectedSequence t <? 2 ^ 64)
  && transitionSequenceFits t.

Lemma plan_check_wf t : plan_check t = true -> plan_wf t.
Proof.
  unfold plan_check. intros H. bool_norm.
  assert (He : Forall event_wf (tr_events t)) by by apply events_check_wf.
  assert (Hw : Forall work_wf (tr_work t)).
  { apply Forall_forall. intros w Hw%list_elem_of_In. rewrite forallb_forall in *.
    match goal with H : forall x, In x (tr_work t) -> bool_decide _ && _ = true |- _ => specialize (H w Hw) as Hc end.
    bool_norm. split; [auto |]. split;
      match goal with H : canonicalTime ?x = ?x |- canonical ?x => rewrite <- H end; apply canonicalTime_canonical. }
  split; try done. by apply transition_valid_wf.
Qed.

Lemma start_plan_wf : plan_wf start_plan.
Proof. apply plan_check_wf. vm_compute. reflexivity. Qed.

Lemma pause_plan_wf : plan_wf pause_plan.
Proof. apply plan_check_wf. vm_compute. reflexivity. Qed.

Lemma start_appendable : appendable start_plan emptyDatabase.
Proof.
  split; [vm_compute; reflexivity | vm_compute; reflexivity |].
  intros w _. cbn. apply lookup_empty.
Qed.

Lemma started_wf : store_wf started_db.
Proof. apply appended_wf; [apply start_plan_wf | apply empty_wf | apply start_appendable]. Qed.

Lemma pause_appendable : appendable pause_plan started_db.
Proof.
  split; [| vm_compute; reflexivity | by intros w ?%elem_of_nil].
  exists (advanced_row microseconds start_plan (base_row microseconds start_plan emptyDatabase)).
  split_and!; vm_compute; reflexivity.
Qed.

(** A session whose commit is durable although its acknowledgement is lost. *)
Definition lost_reply : Session :=
  mkSession None None (fun _ => None) (fun _ => None) (fun _ db => db) ∅ (CommitLost (DriverError "reset") true).

(** A session whose commit is lost with its acknowledgement. *)
Definition lost_commit : Session :=
  mkSession None None (fun _ => None) (fun _ => None) (fun _ db => db) ∅ (CommitLost (DriverError "reset") false).

(** Another session commits the same plan between our first look and our lock. *)
Definition raced (t : Transition) : Session :=
  mkSession None None (fun _ => None) (fun _ => None)
    (fun n db => if Nat.eqb n 1 then (store_Commit microseconds quiet t db).2 else db) ∅ CommitAcknowledged.

(** ** Properties *)

(** C6: Commit is atomic and its classification is truthful, for every failure of the
    begin, of any statement and of the commit, and whatever other sessions commit
    until the instance row is locked: nil means the transition is durable, appended
    once or found as it was; an error classified not committed left the tables to
    the others; an unknown error left either nothing or the whole append; and no
    other classification is returned. *)
Theorem commit_atomic stamp session t db err db' :
  plan_wf t -> quiet_from session 2 -> store_wf (locked_view session db) ->
  store_Commit stamp session t db = (err, db') ->
  match err with
  | None => durable t db' /\ (untouched session db db' \/ committed_to stamp t (locked_view session db) db')
  | Some e =>
      match StoreCommitOutcomeOf (Some e) with
      | StoreCommitNotCommitted => untouched session db db'
      | StoreCommitUnknown =>
          db' = locked_view session db \/ committed_to stamp t (locked_view session db) db'
      | _ => False
      end
  end.
Proof.
  intros Hplan Hq Hwf H. pose proof (commit_outcome stamp session t db Hq err db' H) as Ho.
  assert (Happ : appends stamp session t db db' -> committed_to stamp t (locked_view session db) db').
  { intros [Ha ->]. by apply appended_committed_to. }
  destruct err as [e |]; [destruct (StoreCommitOutcomeOf (Some e)) |]; naive_solver.
Qed.

Lemma commit_atomic_witness :
  (exists e db', store_Commit microseconds lost_reply start_plan emptyDatabase = (Some e, db')
     /\ (db' = emptyDatabase \/ committed_to microseconds start_plan emptyDatabase db'))
  /\ exists db', store_Commit microseconds (raced start_plan) start_plan emptyDatabase = (None, db') /\ durable start_plan db'.
Proof.
  split.
  - assert (H : exists e db', store_Commit microseconds lost_reply start_plan emptyDatabase = (Some e, db')
      /\ StoreCommitOutcomeOf (Some e) = StoreCommitUnknown).
    { eexists _, _. split; [vm_compute; reflexivity | reflexivity]. }
    destruct H as (e & db' & H & He). exists e, db'. split; [exact H |].
    pose proof (commit_atomic microseconds lost_reply start_plan emptyDatabase (Some e) db' start_plan_wf
      (fun _ _ _ => eq_refl) empty_wf H) as Hc.
    cbv beta iota in Hc. rewrite He in Hc. exact Hc.
  - assert (H : exists db', store_Commit microseconds (raced start_plan) start_plan emptyDatabase = (None, db')).
    { eexists. vm_compute. reflexivity. }
    destruct H as (db' & H). exists db'. split; [exact H |].
    apply (commit_atomic microseconds (raced start_plan) start_plan emptyDatabase None db' start_plan_wf).
    + intros n db Hn. destruct n as [| [| n]]; [lia | lia | reflexivity].
    + replace (locked_view (raced start_plan) emptyDatabase) with started_db; [apply started_wf |].
      change (locked_view (raced start_plan) emptyDatabase) with (store_Commit microseconds quiet start_plan emptyDatabase).2.
      rewrite commit_appends; [reflexivity | apply start_plan_wf | apply empty_wf | apply start_appendable].
    + exact H.
Defined.

(** C17: Commit refines the append-only specification: on a store that satisfies the
    invariant and when nothing fails, every call has exactly the outcome the
    specification gives it: the exact replay is idempotent, a reused identity, a
    missing instance, another sequence or pin and a taken work identity are the
    specified errors and change nothing, and otherwise the events are appended to
    the one log, the work becomes durable and the invariant still holds. *)
Theorem commit_refines_log stamp t db :
  plan_wf t -> store_wf db ->
  let '(err, db') := store_Commit stamp quiet t db in
  append_spec stamp t db err db' /\ store_wf db' /\ (db' = db \/ committed_to stamp t db db').
Proof.
  intros Hplan Hwf. pose proof (commit_spec stamp t db Hplan Hwf) as Hs.
  destruct (store_Commit stamp quiet t db) as [err db']. cbn [fst snd] in Hs. split; [done |].
  destruct Hs as [| | | | | Ha]; try (split; [done | by left]).
  pose proof (appended_committed_to stamp t db Hplan Hwf Ha) as Hc. split; [apply Hc | by right].
Qed.

Lemma commit_refines_log_witness :
  exists err db', store_Commit microseconds quiet pause_plan started_db = (err, db') /\ err = None
    /\ length (log db' "wf-1") = 2%nat /\ store_wf db'.
Proof.
  pose proof (commit_refines_log microseconds pause_plan started_db pause_plan_wf started_wf) as H.
  destruct (store_Commit microseconds quiet pause_plan started_db) as [err db'] eqn:E. exists err, db'. split; [reflexivity |].
  destruct H as (_ & Hwf & _). rewrite commit_appends in E; [| apply pause_plan_wf | apply started_wf | apply pause_appendable].
  injection E as <- <-. split; [reflexivity |]. split; [vm_compute; reflexivity | exact Hwf].
Defined.

(** C36: An unknown commit is resolved exactly once: after an error of unknown outcome
    either the append is durable and reconciliation by identity and fingerprint answers
    committed, or nothing was committed and it answers missing, and neither changes
    anything; and repeating the same Commit returns nil and leaves the events appended
    to the log exactly once, in both cases: it changes nothing in the first. *)
Theorem commit_retried_once stamp session t db e db' :
  plan_wf t -> quiet_from session 2 -> store_wf (locked_view session db) ->
  store_Commit stamp session t db = (Some e, db') -> StoreCommitOutcomeOf (Some e) = StoreCommitUnknown ->
  let reconciled := store_ReconcileTransition quiet (mkReconciliation (tr_id t) (tr_fingerprint t)) db' in
  let repeated := store_Commit stamp quiet t db' in
  ((durable t db' /\ committed_to stamp t (locked_view session db) db' /\ reconciled = (Ok TransitionCommitted, db')
      /\ repeated = (None, db'))
   \/ (db_transitions db' !! tr_id t = None /\ db' = locked_view session db /\ reconciled = (Ok TransitionMissing, db')
       /\ repeated.1 = None))
  /\ committed_to stamp t (locked_view session db) repeated.2.
Proof.
  intros Hplan Hq Hwf H He reconciled repeated. pose proof (commit_outcome stamp session t db Hq _ _ H) as Ho. cbv beta iota in Ho. rewrite He in Ho.
  pose proof (pl_fingerprint _ Hplan) as Hf. pose proof (batch_id _ (pl_batch _ Hplan)) as Hid.
  destruct Ho as [Ha [-> | [_ ->]]]; subst reconciled repeated.
  - rewrite (commit_appends stamp t _ Hplan Hwf Ha). split; [right | by apply appended_committed_to].
    split_and!; [apply Ha | done | by apply missing_reconciles, Ha | done].
  - pose proof (appended_committed_to stamp t _ Hplan Hwf Ha) as Hc. rewrite (durable_repeats stamp t _ Hplan (ct_wf _ _ _ _ Hc) (ct_durable _ _ _ _ Hc)).
    split; [left | done]. split_and!; [apply Hc | done | by apply exact_reconciles, Hc | done].
Qed.

(** A reply lost after the commit, and a commit lost with its reply. *)
Lemma commit_retried_once_witness :
  (exists e db', store_Commit microseconds lost_reply start_plan emptyDatabase = (Some e, db')
    /\ store_Commit microseconds quiet start_plan db' = (None, db') /\ length (log db' "wf-1") = 1%nat)
  /\ exists e, store_Commit microseconds lost_commit start_plan emptyDatabase = (Some e, emptyDatabase)
    /\ store_ReconcileTransition quiet (mkReconciliation (tr_id start_plan) (tr_fingerprint start_plan)) emptyDatabase
       = (Ok TransitionMissing, emptyDatabase).
Proof.
  split.
  - assert (H : exists e db', store_Commit microseconds lost_reply start_plan emptyDatabase = (Some e, db')
      /\ StoreCommitOutcomeOf (Some e) = StoreCommitUnknown /\ length (log db' "wf-1") = 1%nat).
    { eexists _, _. split; [vm_compute; reflexivity | split; vm_compute; reflexivity]. }
    destruct H as (e & db' & H & He & Hl). exists e, db'. split; [exact H |]. split; [| exact Hl].
    destruct (commit_retried_once microseconds lost_reply start_plan emptyDatabase e db' start_plan_wf
      (fun _ _ _ => eq_refl) empty_wf H He) as [[(_ & _ & _ & Hr) | (_ & -> & _)] _]; [exact Hr |].
    vm_compute in Hl. discriminate Hl.
  - assert (H : exists e, store_Commit microseconds lost_commit start_plan emptyDatabase = (Some e, emptyDatabase)
      /\ StoreCommitOutcomeOf (Some e) = StoreCommitUnknown).
    { eexists. split; [vm_compute; reflexivity | vm_compute; reflexivity]. }
    destruct H as (e & H & He). exists e. split; [exact H |].
    destruct (commit_retried_once microseconds lost_commit start_plan emptyDatabase e emptyDatabase start_plan_wf
      (fun _ _ _ => eq_refl) empty_wf H He) as [[([row [Hrow _]] & _) | (_ & _ & Hr & _)] _]; [| exact Hr].
    vm_compute in Hrow. discriminate Hrow.
Defined.

(** What is committed is what is inspected: on a store that holds the committed
    history [es] of an instance, committing a plan whose events replay to [i'], and
    whose times the columns keep, leaves a store that holds [es] extended by the
    plan's events, and inspecting the instance through the store's pages, of any
    size, returns exactly [i']. *)
Theorem commit_then_inspect stamp registry es i i' t db spec :
  store_wf db -> plan_wf t -> stores stamp db (in_id i) es -> committed registry es i -> commits registry es i t i' ->
  Forall (fun e => stamped stamp e = e) (tr_events t) -> appendable t db -> is_Some registry ->
  is_InstanceID spec = in_id i -> validHistoryTraversal (in_id i) (is_PageSize spec) (is_MaxEvents spec) = true ->
  0 <= is_PageSize spec < 2 ^ 32 -> Z.of_nat (length (es ++ tr_events t)) <= is_MaxEvents spec ->
  exists db', store_Commit stamp quiet t db = (None, db') /\ store_wf db' /\ stores stamp db' (in_id i) (es ++ tr_events t)
    /\ InspectInstance (store_History quiet) (fun _ => None) registry spec db' = Some (Ok i', db').
Proof.
  intros Hwf Hplan Hst Hc Hcm Hkept Ha Hr Hsp Hv Hp Hmax. pose proof Hcm as (_ & Hid & _ & _ & [_ Hreplay]).
  pose proof (appended_committed_to stamp t db Hplan Hwf Ha) as Hct.
  assert (Hst' : stores stamp (appended stamp t db) (in_id i) (es ++ tr_events t)) by (rewrite <- Hid in *; by apply stores_append).
  exists (appended stamp t db). split; [by apply commit_appends |]. split; [apply Hct |]. split; [done |].
  assert (Hne : es ++ tr_events t <> []) by (pose proof (committed_sequence _ _ _ Hc) as [Hseq Hpos]; intros [-> _]%app_nil; cbn in Hseq; lia).
  by apply (stores_inspect stamp registry (es ++ tr_events t) i' (appended stamp t db) (in_id i) spec); [apply Hct | ..].
Qed.

Lemma commit_then_inspect_witness :
  exists db', InspectInstance (store_History quiet) (fun _ => None) order_registry (mkInspectionSpec "wf-1" 1 10) db'
    = Some (Ok (order_instance (order_started ++ [pause_event])), db').
Proof.
  destruct (commit_then_inspect microseconds order_registry order_started (order_instance order_started)
    (order_instance (order_started ++ [pause_event])) pause_plan started_db (mkInspectionSpec "wf-1" 1 10)) as (db' & _ & _ & _ & H).
  - apply started_wf.
  - apply pause_plan_wf.
  - split; [vm_compute; reflexivity | apply events_check_wf; vm_compute; reflexivity | |].
    + repeat constructor.
    + apply follows_check_ok. vm_compute. reflexivity.
  - apply order_committed. vm_compute. reflexivity.
  - split; [apply (pl_batch _ pause_plan_wf) |].
    split; [vm_compute; reflexivity | split; [vm_compute; reflexivity | split; [vm_compute; reflexivity |]]].
    apply order_committed. vm_compute. reflexivity.
  - repeat constructor.
  - apply pause_appendable.
  - eexists. reflexivity.
  - vm_compute. reflexivity.
  - vm_compute. reflexivity.
  - vm_compute. split; [discriminate | reflexivity].
  - vm_compute. discriminate.
  - exists db'. exact H.
Defined.
