(* ===== verification/PostgresWork.v ===== *)
(** * Leases in the store (postgres/store.go: Claim, Renew, Complete, Fail)

    Claim and Renew are single statements outside a transaction; Complete and Fail
    run one statement in a transaction of their own. Every one compares the caller's
    times with the stored ones, never a database clock. *)
From S2P Require Import Prelude GoTime Names Definitions Event.
From S2P Require Import Work Transition Store Administration DeadLetter Tables Statements PostgresCommit.

Section Leases.
Context (stamp : Time -> Time) (text_ltb : string -> string -> bool) (session : Session).

Definition store_Claim (request : WorkClaimRequest) (db : Database) : result (list WorkLease) * Database :=
  if negb (claim_Valid request) then (Err ErrInvalidStoreRequest, db)
  else match ss_context session with
  | Some err => (Err err, db)
  | None =>
      let expiresAt := Add (cr_now request) (cr_leaseDuration request) in
      match autoquery session 0
              (sql_claimWork stamp text_ltb (cr_now request) (cr_limit request) (cr_owner request) expiresAt
                 (ss_locked session)) db with
      | (Err err, db) => (Err (newOperationError "claim work" err), db)
      | (Ok rows, db) =>
          (scanAll (scanWorkLease (cr_owner request) (cr_now request)) "scan claimed work" "iterate claimed work" rows, db)
      end
  end.

Definition store_Renew (renewal : WorkLeaseRenewal) (db : Database) : result WorkLease * Database :=
  if negb (renewal_Valid renewal) then (Err ErrInvalidStoreRequest, db)
  else match ss_context session with
  | Some err => (Err err, db)
  | None =>
      let expiresAt := Add (rn_now renewal) (rn_extendBy renewal) in
      match autocommit session 0
              (sql_renewWork stamp (rn_workID renewal) (rn_owner renewal) (rn_token renewal) expiresAt (rn_now renewal)) db with
      | (Err err, db) => (Err (newOperationError "renew work" err), db)
      | (Ok None, db) => (Err ErrStaleWorkLease, db)
      | (Ok (Some row), db) =>
          (match scanWorkLease (rn_owner renewal) (rn_now renewal) (rn_workID renewal, row) with
           | Ok lease => Ok lease
           | Err err => Err (newOperationError "renew work" err)
           end, db)
      end
  end.

(** [databaseExec]: begin, one statement, commit; any error rolls back, unless it is
    the commit's. *)
Definition databaseExec {A} (query : Database -> result (A * Database)) (db : Database) : result A * Database :=
  match ss_begin session with
  | Some err => (Err err, db)
  | None =>
      match statement session query (mkTx db db 0) with
      | (Err err, tx) => (Err err, tx_shared tx)
      | (Ok answer, tx) =>
          match ss_commit session with
          | CommitAcknowledged => (Ok answer, tx_db tx)
          | CommitLost cause durable => (Err cause, if (durable : bool) then tx_db tx else tx_shared tx)
          end
      end
  end.

(** [fencedExec]; the statement's key is unique, so it affects one row or none. *)
Definition fencedExec (query : Database -> result (option WorkRow * Database)) (operation : string) (db : Database)
    : option GoError * Database :=
  match databaseExec query db with
  | (Err err, db) => (Some (newOperationError operation err), db)
  | (Ok None, db) => (Some ErrStaleWorkLease, db)
  | (Ok (Some _), db) => (None, db)
  end.

Definition store_Complete (completion : WorkCompletion) (db : Database) : option GoError * Database :=
  if negb (completion_Valid completion) then (Some ErrInvalidStoreRequest, db)
  else match ss_context session with
  | Some err => (Some err, db)
  | None =>
      fencedExec (sql_completeWork stamp (co_workID completion) (co_owner completion) (co_token completion)
        (co_completedAt completion)) "complete work" db
  end.

Definition store_Fail (failure : WorkFailure) (db : Database) : option GoError * Database :=
  if negb (failure_Valid failure) then (Some ErrInvalidStoreRequest, db)
  else match ss_context session with
  | Some err => (Some err, db)
  | None =>
      if bool_decide (fa_disposition failure = WorkRetry)
      then fencedExec (sql_retryWork stamp (fa_workID failure) (fa_owner failure) (fa_token failure) (fa_code failure)
             (fa_retryAt failure) (fa_failedAt failure)) "retry work" db
      else fencedExec (sql_deadLetterWork stamp (fa_workID failure) (fa_owner failure) (fa_token failure) (fa_code failure)
             (fa_failedAt failure)) "dead-letter work" db
  end.
End Leases.
