(* ===== verification/PostgresAdmin.v ===== *)
(** * Listings and dead-letter resolution (postgres/store.go: ListInstances,
    ListDeadLetters, ResolveDeadLetter) *)
From S2P Require Import Prelude GoTime Names Definitions Event.
From S2P Require Import Work Transition Store Administration DeadLetter Tables Statements PostgresCommit.

Section Administration.
Context (stamp : Time -> Time) (text_ltb : string -> string -> bool) (session : Session).

(** The cursor as the first two arguments of a listing: the zero time is NULL. *)
Definition cursorArguments (at_ : Time) (id : string) : option (Time * string) :=
  if IsZero at_ then None else Some (at_, id).

Definition store_ListInstances (query : InstanceListQuery) (db : Database) : result InstanceListPage * Database :=
  if negb (listQuery_Valid query) then (Err ErrInvalidStoreRequest, db)
  else match ss_context session with
  | Some err => (Err err, db)
  | None =>
      let after := lq_after query in
      match autoquery session 0
              (reading (sql_list stamp text_ltb (lq_selection query)
                 (cursorArguments (lc_createdAt after) (lc_instanceID after)) (lq_limit query + 1))) db with
      | (Err err, db) => (Err (newOperationError "list instances" err), db)
      | (Ok rows, db) =>
          (items ← scanAll scanInstanceRecord "scan instance" "iterate instances" rows;
           let '(items, hasMore) := cut (lq_limit query) items in
           match NewInstanceListPage query items hasMore with
           | Ok page => Ok page
           | Err err => Err (newOperationError "validate instance page" (Joined ErrCorruptStore err))
           end, db)
      end
  end.

Definition store_ListDeadLetters (query : DeadLetterQuery) (db : Database) : result DeadLetterPage * Database :=
  if negb (deadQuery_Valid query) then (Err ErrInvalidStoreRequest, db)
  else match ss_context session with
  | Some err => (Err err, db)
  | None =>
      let after := dq_after query in
      match autoquery session 0
              (reading (sql_listDeadLetters stamp text_ltb
                 (cursorArguments (dc_failedAt after) (dc_workID after)) (dq_limit query + 1))) db with
      | (Err err, db) => (Err (newOperationError "list dead letters" err), db)
      | (Ok rows, db) =>
          (items ← scanAll scanDeadLetterRecord "scan dead letter" "iterate dead letters" rows;
           let '(items, hasMore) := cut (dq_limit query) items in
           match NewDeadLetterPage query items hasMore with
           | Ok page => Ok page
           | Err err => Err (newOperationError "validate dead-letter page" (Joined ErrCorruptStore err))
           end, db)
      end
  end.

(** ** Resolution *)

Definition exactDeadLetterResolution (resolution : DeadLetterResolution) : TxM bool :=
  found ← statement session (reading (sql_findResolution (dl_commandID resolution)));
  match found with
  | None => mret false
  | Some fingerprint =>
      if negb (bool_decide (fingerprint = dl_fingerprint resolution)) then tx_fail ErrStoreConflict else mret true
  end.

(** The body of the transaction: whether it is to be committed. *)
Definition resolveDeadLetter (resolution : DeadLetterResolution) : TxM bool :=
  exact ← or_not_committed (exactDeadLetterResolution resolution);
  if (exact : bool) then mret false else
  locked ← or_not_committed (statement session (fun db =>
    locked ← sql_lockDeadLetter (dl_workID resolution) (dl_token resolution) db; Ok (locked, db)));
  match locked with
  | None => tx_fail (notCommitted ErrStaleWorkLease)
  | Some _ =>
      inserted ← or_not_committed (statement session (sql_insertResolution stamp resolution));
      match inserted with
      | None =>
          exact ← or_not_committed (exactDeadLetterResolution resolution);
          if (exact : bool) then mret false else tx_fail (notCommitted ErrStoreConflict)
      | Some fingerprint =>
          if negb (bool_decide (fingerprint = dl_fingerprint resolution)) then tx_fail (notCommitted ErrStoreConflict)
          else if bool_decide (dl_action resolution = DeadLetterRetry) then
            updated ← or_not_committed (statement session
              (sql_retryDeadLetter stamp (dl_workID resolution) (dl_token resolution) (dl_retryAt resolution)
                 (dl_deadline resolution)));
            match updated with
            | None => tx_fail (notCommitted ErrStaleWorkLease)
            | Some _ => mret true
            end
          else mret true
      end
  end.

Definition store_ResolveDeadLetter (resolution : DeadLetterResolution) (db : Database) : option GoError * Database :=
  if negb (resolution_Valid resolution) then (Some (notCommitted ErrInvalidStoreRequest), db)
  else match ss_context session with
  | Some err => (Some (notCommitted err), db)
  | None =>
      match ss_begin session with
      | Some err => (Some (notCommitted err), db)
      | None =>
          match resolveDeadLetter resolution (mkTx db db 0) with
          | (Err err, tx) => (Some err, tx_shared tx)
          | (Ok false, tx) => (None, tx_shared tx)
          | (Ok true, tx) =>
              match ss_commit session with
              | CommitAcknowledged => (None, tx_db tx)
              | CommitLost cause durable =>
                  (Some (NewStoreCommitError StoreCommitUnknown (Some cause)), if (durable : bool) then tx_db tx else tx_shared tx)
              end
          end
      end
  end.
End Administration.
