(* ===== verification/PostgresFencing.v ===== *)
(** * Append-only tables and fencing tokens (postgres/store.go)

    What every statement, and so every operation under any failure and any
    interleaving with other operations, does to the tables: transitions, history
    and resolutions only grow, and a work row moves only as its fence allows. *)
From stdpp Require Import sorting.
From S2P Require Import Prelude GoTime Names Definitions Event.
From S2P Require Import Work Transition Store Administration DeadLetter Tables Statements.
From S2P Require Import PostgresCommit PostgresAppend PostgresWork PostgresAdmin.

(** ** The protocol *)

(** A row keeps its work; its token counts the claims and never decreases; a lease
    appears only with a new token, so a fence has one owner; done is final. *)
Record row_step (row row' : WorkRow) : Prop := {
  rs_kind : rw_kind row' = rw_kind row;
  rs_instance : rw_instance row' = rw_instance row;
  rs_sequence : rw_sequence row' = rw_sequence row;
  rs_payload : rw_payload row' = rw_payload row;
  rs_tenant : rw_tenant row' = rw_tenant row;
  rs_correlation : rw_correlation row' = rw_correlation row;
  rs_token : rw_token row <= rw_token row';
  rs_attempts : rw_attempts row' - rw_attempts row = rw_token row' - rw_token row;
  rs_lease : rw_token row' = rw_token row -> rw_state row' = 2 -> rw_state row = 2 /\ rw_owner row' = rw_owner row;
  rs_done : rw_state row = 3 -> row' = row
}.

#[export] Instance row_step_preorder : PreOrder row_step.
Proof.
  split; [by intros row; split; try done; lia |].
  intros a b c [] []. split; try congruence; try lia.
  - intros Ht Hs. assert (He : rw_token c = rw_token b) by lia. assert (Hb : rw_token b = rw_token a) by lia.
    destruct rs_lease1 as [Hsb Ho]; [done | done |]. destruct rs_lease0; [done | done |]. split; congruence.
  - intros Hs. rewrite rs_done1; [by apply rs_done0 |]. by rewrite rs_done0.
Qed.

(** The tables as other readers see them over time. *)
Record store_step (db db' : Database) : Prop := {
  ss_transitions : db_transitions db ⊆ db_transitions db';
  ss_history : db_history db ⊆ db_history db';
  ss_resolutions : db_resolutions db ⊆ db_resolutions db';
  ss_work : forall id row, db_work db !! id = Some row -> exists row', db_work db' !! id = Some row' /\ row_step row row'
}.

#[export] Instance store_step_preorder : PreOrder store_step.
Proof.
  split; [by intros db; split; eauto; intros x row ?; exists row |].
  intros a b c [] []. split; [by etrans.. |]. intros id row Hrow.
  destruct (ss_work0 _ _ Hrow) as (row' & Hrow' & H1). destruct (ss_work1 _ _ Hrow') as (row'' & Hrow'' & H2).
  exists row''. split; [done |]. by etrans.
Qed.

(** A function on the tables that follows the protocol. *)
Definition follows_protocol {A} (f : Database -> result (A * Database)) : Prop :=
  forall db a db', f db = Ok (a, db') -> store_step db db'.

Create HintDb protocol.

Lemma reading_protocol {A} (f : Database -> A) : follows_protocol (reading f).
Proof. by intros db a db' [= <- <-]. Qed.

Lemma work_only db w : (forall id row, db_work db !! id = Some row -> exists row', w !! id = Some row' /\ row_step row row') ->
  store_step db (set_work db w).
Proof. by split. Qed.

#[export] Hint Resolve reading_protocol : protocol.

(** ** Statements *)

Section Statements.
Context (stamp : Time -> Time) (text_ltb : string -> string -> bool).

Lemma insertInstance_protocol id definition at_ : follows_protocol (sql_insertInstance stamp id definition at_).
Proof.
  intros db a db'. unfold sql_insertInstance. destruct (negb _); [done |].
  destruct (db_instances db !! id); intros [= <- <-]; [done |]. by split; eauto; intros x row ?; exists row.
Qed.

Lemma insertTransition_protocol t committed at_ : follows_protocol (sql_insertTransition stamp t committed at_).
Proof.
  intros db a db'. unfold sql_insertTransition. destruct (_ || _); [done |]. destruct (_ || _); [done |].
  destruct (db_transitions db !! tr_id t) eqn:E; [by intros [= <- <-] |].
  destruct (negb _); [done |]. intros [= <- <-]. split; cbn; [by apply insert_subseteq | done | done |].
  intros x row ?. by exists row.
Qed.

Lemma insertHistory_protocol event : follows_protocol (sql_insertHistory stamp event).
Proof.
  intros db a db'. unfold sql_insertHistory. destruct (negb _); [done |]. destruct (_ || _); [done |].
  destruct (bool_decide _) eqn:E; [done |]. destruct (negb _); [done |]. intros [= <- <-].
  apply bool_decide_eq_false in E. split; cbn; [done | by apply insert_subseteq, eq_None_not_Some | done |].
  intros x row ?. by exists row.
Qed.

Lemma insertWork_protocol work : follows_protocol (sql_insertWork stamp work).
Proof.
  intros db a db'. unfold sql_insertWork. destruct (negb _); [done |]. destruct (_ <=? _); [done |].
  destruct (bool_decide _) eqn:E; [done |]. destruct (negb _); [done |]. intros [= <- <-].
  apply bool_decide_eq_false in E. apply work_only. intros i row Hrow. exists row. split; [| done].
  rewrite lookup_insert_ne; [done |]. intros <-. destruct E. by eexists.
Qed.

Lemma updateInstance_protocol definition sequence at_ id expected archived :
  follows_protocol (sql_updateInstance stamp definition sequence at_ id expected archived).
Proof.
  intros db a db'. unfold sql_updateInstance. destruct (_ || _); [done |].
  destruct (db_instances db !! id); [| by intros [= <- <-]].
  destruct (negb _); [by intros [= <- <-] |]. destruct (_ || _); [done |].
  intros [= <- <-]. by split; eauto; intros x row ?; exists row.
Qed.

Lemma insertResolution_protocol resolution : follows_protocol (sql_insertResolution stamp resolution).
Proof.
  intros db a db'. unfold sql_insertResolution. destruct (negb _); [done |]. destruct (_ || _); [done |].
  destruct (_ || _) eqn:E; [by intros [= <- <-] |]. destruct (negb _); [done |]. intros [= <- <-].
  apply orb_false_iff in E as [E%bool_decide_eq_false _].
  split; cbn; [done | done | by apply insert_subseteq, eq_None_not_Some |]. intros x row ?. by exists row.
Qed.

(** An update of one work row follows the protocol when its write does. *)
Lemma update_work_protocol id condition write db :
  (forall row, condition row = true -> row_step row (write row)) ->
  store_step db (sql_update_work id condition write db).2.
Proof.
  intros Hw. unfold sql_update_work. destruct (db_work db !! id) as [row |] eqn:E; [| done].
  destruct (condition row) eqn:Hc; [| done]. apply work_only. intros i r Hr.
  destruct (decide (i = id)) as [-> | Hne]; [| by exists r; rewrite lookup_insert_ne].
  assert (r = row) as -> by congruence. exists (write row). rewrite lookup_insert_eq. auto.
Qed.

Lemma fenced_state owner token now row : fenced owner token now row = true ->
  rw_state row = 2 /\ rw_owner row = Some owner /\ rw_token row = token.
Proof. unfold fenced. intros H. bool_norm. done. Qed.

Lemma release_step state available code completed row :
  rw_state row = 2 -> state <> 2 -> row_step row (release state available code completed row).
Proof. intros Hs Hne. by split; cbn; try done; try lia; intros. Qed.

(** The write of one row, under the condition of its statement. *)
Ltac start_update := intros db a db'; cbv delta [sql_renewWork sql_completeWork sql_retryWork sql_deadLetterWork
  sql_retryDeadLetter] beta; repeat (destruct (negb _); [done |]); intros [= H]; symmetry in H;
  replace db' with (a, db').2 by done; rewrite H; apply update_work_protocol.

Lemma renewWork_protocol id owner token expires now : follows_protocol (sql_renewWork stamp id owner token expires now).
Proof.
  start_update.
  intros row [(Hs & _ & _)%fenced_state _]%andb_true_iff. by split; cbn; try done; lia.
Qed.

Lemma completeWork_protocol id owner token at_ : follows_protocol (sql_completeWork stamp id owner token at_).
Proof. start_update. intros row (Hs & _ & _)%fenced_state. by apply release_step. Qed.

Lemma retryWork_protocol id owner token code retryAt failedAt :
  follows_protocol (sql_retryWork stamp id owner token code retryAt failedAt).
Proof. start_update. intros row (Hs & _ & _)%fenced_state. by apply release_step. Qed.

Lemma deadLetterWork_protocol id owner token code failedAt :
  follows_protocol (sql_deadLetterWork stamp id owner token code failedAt).
Proof. start_update. intros row (Hs & _ & _)%fenced_state. by apply release_step. Qed.

Lemma retryDeadLetter_protocol id token retryAt deadline : follows_protocol (sql_retryDeadLetter stamp id token retryAt deadline).
Proof.
  start_update.
  intros row Hc. bool_norm. by split; cbn; try done; lia.
Qed.

(** ** Claims *)

Lemma candidates_spec now limit locked db id row :
  (id, row) ∈ candidates text_ltb now limit locked db ->
  db_work db !! id = Some row /\ due now row = true /\ id ∉ locked.
Proof.
  intros (i & Hin & _)%elem_of_take. apply list_elem_of_lookup_2, list_elem_of_filter in Hin as [Hl Hin].
  apply elem_of_order_by, list_elem_of_filter in Hin as [Hd Hin]. by apply elem_of_map_to_list in Hin.
Qed.

Lemma candidates_NoDup now limit locked db : NoDup (candidates text_ltb now limit locked db).*1.
Proof.
  apply NoDup_fmap_fst; [intros x r1 r2 (H1 & _)%candidates_spec (H2 & _)%candidates_spec; congruence |].
  unfold candidates. eapply sublist_NoDup; [| apply sublist_take]. apply NoDup_filter.
  rewrite order_by_Permutation. apply NoDup_filter, NoDup_map_to_list.
Qed.

(** The rows after a claim. *)
Lemma claim_lookup now limit owner expires locked db rows db' id row :
  sql_claimWork stamp text_ltb now limit owner expires locked db = Ok (rows, db') ->
  db_work db !! id = Some row ->
  db_work db' !! id
  = Some (if decide ((id, row) ∈ candidates text_ltb (stamp now) limit locked db)
          then claimed_row owner (stamp expires) row else row).
Proof.
  unfold sql_claimWork. destruct (bool_decide _); [done |]. destruct (bool_decide _); [done |].
  set (rs := candidates _ _ _ _ _). set (claimed := map _ rs). intros [= _ <-] Hrow. cbn [db_work set_work].
  assert (Hkeys : claimed.*1 = rs.*1). { unfold claimed. rewrite <- list_fmap_compose. by apply list_fmap_ext. }
  assert (Hnd : NoDup claimed.*1). { rewrite Hkeys. apply candidates_NoDup. }
  destruct (decide _) as [Hin | Hin].
  - apply lookup_union_Some_l, elem_of_list_to_map; [done |].
    change (id, claimed_row owner (stamp expires) row)
      with ((fun row : string * WorkRow => (row.1, claimed_row owner (stamp expires) row.2)) (id, row)).
    by apply list_elem_of_fmap_2.
  - rewrite lookup_union_r; [done |]. apply not_elem_of_list_to_map. rewrite Hkeys.
    intros ([id' r] & -> & Hr)%list_elem_of_fmap. apply candidates_spec in Hr as Hr'. cbn in *.
    destruct Hr' as (Hr' & _). assert (r = row) as -> by congruence. done.
Qed.

Lemma due_open now row : due now row = true -> rw_state row = 1 \/ rw_state row = 2.
Proof. intros [[[H%Z.eqb_eq _]%andb_true_iff | [H%Z.eqb_eq _]%andb_true_iff]%orb_true_iff _]%andb_true_iff; auto. Qed.

Lemma claim_protocol now limit owner expires locked :
  follows_protocol (sql_claimWork stamp text_ltb now limit owner expires locked).
Proof.
  intros db rows db' Hc.
  assert (Hdb : exists w, db' = set_work db w).
  { unfold sql_claimWork in Hc. do 2 (destruct (bool_decide _); [done |]). injection Hc as _ <-. by eexists. }
  destruct Hdb as [w ->]. apply work_only. intros id row Hrow.
  pose proof (claim_lookup _ _ _ _ _ _ _ _ _ _ Hc Hrow) as Hl. cbn in Hl. rewrite Hl. eexists. split; [done |].
  destruct (decide _) as [(_ & Hd & _)%candidates_spec |]; [| done]. apply due_open in Hd.
  split; cbn; try done; lia.
Qed.
End Statements.

#[export] Hint Resolve insertInstance_protocol insertTransition_protocol insertHistory_protocol insertWork_protocol
  updateInstance_protocol insertResolution_protocol renewWork_protocol completeWork_protocol retryWork_protocol
  deadLetterWork_protocol retryDeadLetter_protocol claim_protocol : protocol.

(** ** Transactions *)

Section Sessions.
Context (stamp : Time -> Time) (text_ltb : string -> string -> bool) (session : Session).

(** Other sessions keep the protocol too. *)
Definition cooperative : Prop := forall n db, store_step db (ss_others session n db).

Definition guarantees {A} (m : TxM A) : Prop := forall tx,
  store_step (tx_shared tx) (tx_shared (m tx).2) /\ store_step (tx_db tx) (tx_db (m tx).2).

Lemma guarantees_ret {A} (a : A) : guarantees (mret a).
Proof. by intros tx. Qed.

Lemma guarantees_fail {A} e : guarantees (tx_fail (A := A) e).
Proof. by intros tx. Qed.

Lemma guarantees_bind {A B} (m : TxM A) (f : A -> TxM B) :
  guarantees m -> (forall a, guarantees (f a)) -> guarantees (m ≫= f).
Proof.
  intros Hm Hf tx. destruct (Hm tx) as [H1 H2]. unfold mbind, tx_bind.
  destruct (m tx) as [[a | e] tx']; [| done]. destruct (Hf a tx') as [H3 H4]. cbn [snd] in *. split; by etrans.
Qed.

Lemma guarantees_wrapped {A} (m : TxM A) : guarantees m -> guarantees (or_not_committed m).
Proof. intros Hm tx. specialize (Hm tx). unfold or_not_committed. by destruct (m tx) as [[a | e] tx']. Qed.

Lemma guarantees_if {A} (b : bool) (m m' : TxM A) : guarantees m -> guarantees m' -> guarantees (if b then m else m').
Proof. by destruct b. Qed.

Lemma guarantees_option {A B} (o : option B) (m : B -> TxM A) m' :
  (forall x, guarantees (m x)) -> guarantees m' -> guarantees (match o with Some x => m x | None => m' end).
Proof. destruct o; auto. Qed.

Lemma guarantees_each {A} (f : A -> TxM unit) l : (forall x, guarantees (f x)) -> guarantees (each f l).
Proof. intros Hf. induction l as [| x l IH]; cbn [each]; [apply guarantees_ret |]. by apply guarantees_bind. Qed.

Hypothesis Hothers : cooperative.

Lemma guarantees_statement {A} (f : Database -> result (A * Database)) : follows_protocol f -> guarantees (statement session f).
Proof.
  intros Hf tx. unfold statement.
  destruct (ss_statement session (tx_count tx)) as [[cause applied] |]; [cbn; auto |].
  destruct (f _) as [[a db'] | e] eqn:E; cbn; [| auto]. split; [auto |]. etrans; [apply Hothers | by eapply Hf].
Qed.

Lemma autocommit_protocol {A} n (f : Database -> result (A * Database)) db :
  follows_protocol f -> store_step db (autocommit session n f db).2.
Proof.
  intros Hf. unfold autocommit. etrans; [apply (Hothers n) |].
  destruct (ss_statement session n) as [[cause applied] |].
  - destruct applied; [| done]. cbn. destruct (f _) as [[a db'] | e] eqn:E; [by eapply Hf | done].
  - destruct (f _) as [[a db'] | e] eqn:E; [by eapply Hf | done].
Qed.

Lemma autoquery_protocol {A} n (f : Database -> result (list A * Database)) db :
  follows_protocol f -> store_step db (autoquery session n f db).2.
Proof.
  intros Hf. pose proof (autocommit_protocol n f db Hf) as Hs. unfold autoquery.
  destruct (autocommit session n f db) as [[rows | e] db']; [| done].
  destruct (ss_rows session n) as [[[arrived cause] []] |]; [done | apply Hothers | done].
Qed.

Lemma fencedExec_protocol f operation db : follows_protocol f -> store_step db (fencedExec session f operation db).2.
Proof.
  intros Hf. unfold fencedExec, databaseExec. destruct (ss_begin session); [done |].
  destruct (guarantees_statement f Hf (mkTx db db 0)) as [H1 H2].
  destruct (statement session f (mkTx db db 0)) as [[answer | e] tx]; cbn [fst snd tx_shared tx_db] in *; [| done].
  destruct (ss_commit session) as [| cause []]; destruct answer; done.
Qed.
End Sessions.

#[export] Hint Resolve guarantees_ret guarantees_fail guarantees_bind guarantees_wrapped guarantees_if guarantees_option
  guarantees_each guarantees_statement : protocol.

Section Transactions.
Context (stamp : Time -> Time) (session : Session) (Hothers : cooperative session).

Ltac guarantee := repeat first [ apply guarantees_wrapped | apply guarantees_bind; [| intros ?] | apply guarantees_each; intros ?
  | apply guarantees_if | apply guarantees_option; [intros ? |] | apply guarantees_ret | apply guarantees_fail
  | apply guarantees_statement; [exact Hothers |] ]; auto with protocol.

Lemma concurrentTransition_guarantees t : guarantees (concurrentTransition session t).
Proof. unfold concurrentTransition, exactTransition. guarantee. Qed.

Lemma stageTransition_guarantees t : guarantees (stageTransition stamp session t).
Proof.
  pose proof (concurrentTransition_guarantees t) as Hc.
  unfold stageTransition, exactTransition, lockOrInsert, writeTransition. guarantee.
Qed.

Lemma lockDeadLetter_protocol id token :
  follows_protocol (fun db => locked ← sql_lockDeadLetter id token db; Ok (locked, db)).
Proof. intros db a db'. cbn. destruct (sql_lockDeadLetter id token db); [by intros [= _ <-] | done]. Qed.

Lemma resolveDeadLetter_guarantees r : guarantees (resolveDeadLetter stamp session r).
Proof.
  unfold resolveDeadLetter, exactDeadLetterResolution. guarantee. apply lockDeadLetter_protocol.
Qed.
End Transactions.

(** ** Calls and traces *)

Inductive StoreCall :=
  | CallCommit (t : Transition)
  | CallClaim (request : WorkClaimRequest)
  | CallRenew (renewal : WorkLeaseRenewal)
  | CallComplete (completion : WorkCompletion)
  | CallFail (failure : WorkFailure)
  | CallResolve (resolution : DeadLetterResolution)
  | CallHistory (query : HistoryQuery)
  | CallReconcile (reconciliation : TransitionReconciliation)
  | CallListInstances (query : InstanceListQuery)
  | CallListDeadLetters (query : DeadLetterQuery).

Section Calls.
Context (stamp : Time -> Time) (text_ltb : string -> string -> bool).

(** The tables after a call. *)
Definition run_call (session : Session) (call : StoreCall) (db : Database) : Database :=
  match call with
  | CallCommit t => (store_Commit stamp session t db).2
  | CallClaim request => (store_Claim stamp text_ltb session request db).2
  | CallRenew renewal => (store_Renew stamp session renewal db).2
  | CallComplete completion => (store_Complete stamp session completion db).2
  | CallFail failure => (store_Fail stamp session failure db).2
  | CallResolve resolution => (store_ResolveDeadLetter stamp session resolution db).2
  | CallHistory query => (store_History session query db).2
  | CallReconcile reconciliation => (store_ReconcileTransition session reconciliation db).2
  | CallListInstances query => (store_ListInstances stamp text_ltb session query db).2
  | CallListDeadLetters query => (store_ListDeadLetters stamp text_ltb session query db).2
  end.

(** Calls one after the other; what runs between the statements of each is its session's. *)
Fixpoint run_calls (trace : list (Session * StoreCall)) (db : Database) : Database :=
  match trace with
  | [] => db
  | (session, call) :: rest => run_calls rest (run_call session call db)
  end.

Lemma committing_protocol (m : TxM bool) (db : Database) :
  guarantees m ->
  let tx := (m (mkTx db db 0)).2 in store_step db (tx_shared tx) /\ store_step db (tx_db tx).
Proof. intros Hm. apply (Hm (mkTx db db 0)). Qed.

Lemma store_Commit_protocol session t db : cooperative session -> store_step db (store_Commit stamp session t db).2.
Proof.
  intros Ho. unfold store_Commit. destruct (_ || _); [done |].
  destruct (ss_context session); [done |]. destruct (ss_begin session); [done |].
  destruct (committing_protocol _ db (stageTransition_guarantees stamp session Ho t)) as [H1 H2].
  destruct (stageTransition stamp session t _) as [[[] | e] tx]; [| done..].
  by destruct (ss_commit session) as [| cause []].
Qed.

Lemma store_Resolve_protocol session r db : cooperative session -> store_step db (store_ResolveDeadLetter stamp session r db).2.
Proof.
  intros Ho. unfold store_ResolveDeadLetter. destruct (negb _); [done |].
  destruct (ss_context session); [done |]. destruct (ss_begin session); [done |].
  destruct (committing_protocol _ db (resolveDeadLetter_guarantees stamp session Ho r)) as [H1 H2].
  destruct (resolveDeadLetter stamp session r _) as [[[] | e] tx]; [| done..].
  by destruct (ss_commit session) as [| cause []].
Qed.

Ltac queries Ho := 
  repeat match goal with
  | |- context [autocommit ?session ?n ?f ?db] =>
      let H := fresh "Hstep" in
      pose proof (autocommit_protocol session Ho n f db ltac:(auto with protocol)) as H;
      destruct (autocommit session n f db) as [[] ?]; cbn [snd] in H
  | |- context [autoquery ?session ?n ?f ?db] =>
      let H := fresh "Hstep" in
      pose proof (autoquery_protocol session Ho n f db ltac:(auto with protocol)) as H;
      destruct (autoquery session n f db) as [[] ?]; cbn [snd] in H
  | |- context [match ?x with Some _ => _ | None => _ end] => destruct x
  | |- context [if ?b then _ else _] => destruct b
  end; cbn [snd]; try done; try (by etrans).

Lemma run_call_protocol session call db : cooperative session -> store_step db (run_call session call db).
Proof.
  intros Ho. destruct call; cbn [run_call].
  - by apply store_Commit_protocol.
  - unfold store_Claim. queries Ho.
  - unfold store_Renew. queries Ho.
  - unfold store_Complete. destruct (negb _); [done |]. destruct (ss_context session); [done |].
    apply fencedExec_protocol; auto with protocol.
  - unfold store_Fail. destruct (negb _); [done |]. destruct (ss_context session); [done |].
    destruct (bool_decide _); apply fencedExec_protocol; auto with protocol.
  - by apply store_Resolve_protocol.
  - unfold store_History. queries Ho.
  - unfold store_ReconcileTransition. queries Ho.
  - unfold store_ListInstances. queries Ho.
  - unfold store_ListDeadLetters. queries Ho.
Qed.

Lemma run_calls_protocol trace : forall db,
  Forall (fun entry => cooperative entry.1) trace -> store_step db (run_calls trace db).
Proof.
  induction trace as [| [session call] trace IH]; intros db; [done |]. intros [Ho Hrest]%Forall_cons. cbn [run_calls fst] in *.
  etrans; [by apply run_call_protocol | by apply IH].
Qed.
End Calls.
