(* ===== verification/PostgresClaim.v ===== *)
(** * What a claim leases (postgres/store.go, claimWork and Claim)

    The candidates are the due, unlocked rows of lowest rank within their tenant,
    so every tenant's first row comes before any tenant's second; each of them
    becomes a valid lease under a new token. *)
From stdpp Require Import sorting.
From S2P Require Import Prelude GoTime Names Definitions Event.
From S2P Require Import Work Transition Store Administration DeadLetter Tables Statements.
From S2P Require Import PostgresCommit PostgresAppend PostgresWork PostgresAdmin PostgresFencing.

(** ** The order of candidates *)

Lemma StronglySorted_sublist {A} (R : relation A) l k : sublist l k -> StronglySorted R k -> StronglySorted R l.
Proof.
  induction 1 as [| x l k Hs IH | x l k Hs IH]; [done | |]; intros [Hall Hk]%StronglySorted_cons; [| by apply IH].
  apply StronglySorted_cons. split; [| by apply IH]. rewrite Forall_forall in *. intros y Hy. apply Hall.
  by eapply elem_of_submseteq, sublist_submseteq.
Qed.

Section Order.
Context (text_ltb : string -> string -> bool) `{!TextOrder text_ltb}.

Lemma keyset_ltb_iff a b : keyset_ltb text_ltb a b = true <->
  instant_ltb a.1 b.1 = true \/ (same_instant a.1 b.1 /\ text_ltb a.2 b.2 = true).
Proof.
  unfold keyset_ltb, same_instant, instant_ltb. rewrite orb_true_iff, andb_true_iff, negb_true_iff.
  rewrite !orb_true_iff, !orb_false_iff, !andb_true_iff, !andb_false_iff, !Z.ltb_lt, !Z.ltb_ge, !Z.eqb_eq, !Z.eqb_neq.
  destruct (text_ltb a.2 b.2); [| by intuition lia]. split; [intros [H | [H _]] | intros [H | [H _]]]; lia.
Qed.

Lemma instant_cases a b : instant_ltb a b = true \/ same_instant a b \/ instant_ltb b a = true.
Proof.
  unfold same_instant, instant_ltb. rewrite !orb_true_iff, !andb_true_iff, !Z.ltb_lt, !Z.eqb_eq. lia.
Qed.

Lemma instant_ltb_same a b c : same_instant a b -> instant_ltb a c = instant_ltb b c.
Proof. intros [H1 H2]. unfold instant_ltb. by rewrite H1, H2. Qed.

Lemma instant_ltb_same_r a b c : same_instant a b -> instant_ltb c a = instant_ltb c b.
Proof. intros [H1 H2]. unfold instant_ltb. by rewrite H1, H2. Qed.

Lemma keyset_ltb_trans a b c : keyset_ltb text_ltb a b = true -> keyset_ltb text_ltb b c = true -> keyset_ltb text_ltb a c = true.
Proof.
  rewrite !keyset_ltb_iff. intros [H1 | [H1 H1']] [H2 | [H2 H2']].
  - left. by eapply instant_ltb_trans.
  - left. by rewrite <- (instant_ltb_same_r _ _ a.1 H2).
  - left. by rewrite (instant_ltb_same _ _ c.1 H1).
  - right. split; [by etrans | by eapply text_transitive].
Qed.

Lemma keyset_ltb_irrefl a : keyset_ltb text_ltb a a = false.
Proof. apply not_true_is_false. rewrite keyset_ltb_iff, instant_ltb_irrefl, text_irreflexive. by intros [|[_ ?]]. Qed.

Lemma keyset_cases a b : keyset_ltb text_ltb a b = true \/ keyset_ltb text_ltb b a = true \/ (same_instant a.1 b.1 /\ a.2 = b.2).
Proof.
  rewrite !keyset_ltb_iff. destruct (instant_cases a.1 b.1) as [| [Hs |]]; [auto | | auto].
  destruct (text_ltb a.2 b.2) eqn:H1; [by auto |].
  destruct (text_ltb b.2 a.2) eqn:H2; [by right; left; right |].
  right. right. split; [done | by apply (text_total _ _ H1 H2)].
Qed.

Lemma keyset_leb_trans a b c : keyset_leb text_ltb a b = true -> keyset_leb text_ltb b c = true -> keyset_leb text_ltb a c = true.
Proof.
  unfold keyset_leb. rewrite !negb_true_iff, <- !not_true_iff_false. intros H1 H2 H3.
  destruct (keyset_cases b c) as [Hbc | [Hcb | [Hs He]]]; [| done |].
  - destruct H1. by eapply keyset_ltb_trans.
  - destruct H1. revert H3. rewrite !keyset_ltb_iff, He, (instant_ltb_same _ _ a.1 Hs). intros [| [? ?]]; [auto |].
    right. split; [by etrans | done].
Qed.

Lemma keyset_leb_total a b : keyset_leb text_ltb a b = true \/ keyset_leb text_ltb b a = true.
Proof.
  unfold keyset_leb. rewrite !negb_true_iff. destruct (keyset_ltb text_ltb b a) eqn:E; [right | by left].
  apply not_true_is_false. intros H. pose proof (keyset_ltb_trans _ _ _ H E) as Ht. by rewrite keyset_ltb_irrefl in Ht.
Qed.

Lemma candidate_leb_iff rows a b : candidate_leb text_ltb rows a b = true <->
  tenant_rank text_ltb rows a < tenant_rank text_ltb rows b
  \/ tenant_rank text_ltb rows a = tenant_rank text_ltb rows b /\ keyset_leb text_ltb (work_key a) (work_key b) = true.
Proof. unfold candidate_leb. by rewrite orb_true_iff, andb_true_iff, Z.ltb_lt, Z.eqb_eq. Qed.

#[export] Instance candidate_leb_total rows : Total (fun a b => candidate_leb text_ltb rows a b = true).
Proof.
  intros a b. rewrite !candidate_leb_iff. pose proof (keyset_leb_total (work_key a) (work_key b)) as H.
  destruct (Z.lt_trichotomy (tenant_rank text_ltb rows a) (tenant_rank text_ltb rows b)) as [| [|]]; [by left; left | | by right; left].
  destruct H; [left | right]; right; done.
Qed.

#[export] Instance candidate_leb_trans rows : Transitive (fun a b => candidate_leb text_ltb rows a b = true).
Proof.
  intros a b c. rewrite !candidate_leb_iff. intros [H1 | [H1 H1']] [H2 | [H2 H2']]; [lia.. |].
  right. split; [lia |]. by eapply keyset_leb_trans.
Qed.

(** The claimable rows, and those the limit leaves out. *)
Definition claimable (now : Time) (locked : gset string) (db : Database) : list (string * WorkRow) :=
  filter (fun row => row.1 ∉ locked) (order_by (candidate_leb text_ltb (due_rows now db)) (due_rows now db)).

Lemma candidates_claimable now limit locked db : candidates text_ltb now limit locked db = take (Z.to_nat limit) (claimable now locked db).
Proof. done. Qed.

Lemma elem_of_claimable now locked db id row :
  (id, row) ∈ claimable now locked db <-> db_work db !! id = Some row /\ due now row = true /\ id ∉ locked.
Proof.
  unfold claimable. rewrite list_elem_of_filter, elem_of_order_by. unfold due_rows.
  rewrite list_elem_of_filter, elem_of_map_to_list. cbn. tauto.
Qed.

(** No unclaimed row is ahead of a claimed one. *)
Lemma candidates_first now limit locked db a b :
  a ∈ candidates text_ltb now limit locked db -> b ∈ claimable now locked db ->
  b ∉ candidates text_ltb now limit locked db -> candidate_leb text_ltb (due_rows now db) a b = true.
Proof.
  rewrite candidates_claimable. intros Ha Hb Hnb.
  assert (Hs : StronglySorted (fun a b => candidate_leb text_ltb (due_rows now db) a b = true) (claimable now locked db)).
  { unfold claimable. apply (StronglySorted_sublist _ _ _ (sublist_filter _ _)). by apply StronglySorted_merge_sort; apply _. }
  rewrite <- (take_drop (Z.to_nat limit) (claimable now locked db)) in Hs, Hb.
  apply elem_of_app in Hb as [|Hb]; [done |].
  exact (StronglySorted_app_1_elem_of _ _ _ _ _ Hs Ha Hb).
Qed.
End Order.

(** ** From a claimed row to a lease *)

Section Lease.
Context (stamp : Time -> Time) `{!Timestamps stamp}.

(** A row whose columns are legal work below the limits of its counters. *)
Record leasable (id : string) (row : WorkRow) : Prop := {
  lb_decodes : is_ok (scanWork id row) = true;
  lb_kind : 1 <= rw_kind row <= 6;
  lb_sequence : 1 <= rw_sequence row;
  lb_attempts : 0 <= rw_attempts row < maxPostgreSQLInteger;
  lb_token : 0 <= rw_token row < maxPostgreSQLSequence;
  lb_deadline : wf_time (rw_deadline row)
}.

Definition leasable_check (entry : string * WorkRow) : bool :=
  let '(id, row) := entry in
  is_ok (scanWork id row) && (1 <=? rw_kind row) && (rw_kind row <=? 6) && (1 <=? rw_sequence row)
  && (0 <=? rw_attempts row) && (rw_attempts row <? maxPostgreSQLInteger)
  && (0 <=? rw_token row) && (rw_token row <? maxPostgreSQLSequence)
  && (MinInt64 <=? t_sec (rw_deadline row)) && (t_sec (rw_deadline row) <=? MaxInt64)
  && (0 <=? t_nsec (rw_deadline row)) && (t_nsec (rw_deadline row) <? 1000000000).

Lemma leasable_check_ok id row : leasable_check (id, row) = true -> leasable id row.
Proof. unfold leasable_check. intros H. bool_norm. by split. Qed.

(** The lease of a claimed row: a new token, one more attempt, an expiry clamped to
    the deadline. *)
Record lease_of (request : WorkClaimRequest) (id : string) (row : WorkRow) (lease : WorkLease) : Prop := {
  lo_valid : lease_Valid lease = true;
  lo_id : wk_id (le_work lease) = id;
  lo_work : scanWork id row = Ok (le_work lease);
  lo_owner : le_owner lease = cr_owner request;
  lo_token : le_token lease = rw_token row + 1;
  lo_attempt : le_attempt lease = rw_attempts row + 1;
  lo_claimedAt : le_claimedAt lease = cr_now request;
  lo_expiresAt : le_expiresAt lease
    = canonicalTime (least (stamp (Add (cr_now request) (cr_leaseDuration request))) (rw_deadline row))
}.

(** The columns keep the request's instants. *)
Record precise_request (request : WorkClaimRequest) : Prop := {
  pr_now : precise stamp (cr_now request);
  pr_canonical : canonical (cr_now request);
  pr_wf : wf_time (cr_now request);
  pr_expires : precise stamp (Add (cr_now request) (cr_leaseDuration request));
  pr_range : nanos (cr_now request) + cr_leaseDuration request < (MaxInt64 + 1) * 1000000000
}.

(** The expiry: after now, at most the duration later, not after the deadline. *)
Lemma expiry_bounds request deadline :
  precise_request request -> claim_Valid request = true -> wf_time deadline ->
  instant_ltb (stamp (cr_now request)) deadline = true ->
  let expires := canonicalTime (least (stamp (Add (cr_now request) (cr_leaseDuration request))) deadline) in
  After expires (cr_now request) = true
  /\ (Sub expires (cr_now request) <=? MaxWorkLeaseDuration) = true
  /\ After expires (canonicalTime deadline) = false.
Proof.
  intros [Hn [Hm Hl] Hwn He Hr] Hv Hwd Hd expires.
  unfold claim_Valid in Hv. bool_norm.
  assert (Hnn : - MaxWorkLeaseDuration <= MaxWorkLeaseDuration < 2 ^ 62) by (unfold MaxWorkLeaseDuration; lia).
  destruct (nanos_Add (cr_now request) (cr_leaseDuration request) Hwn) as [Hadd Hwa].
  { unfold wf_time, nanos in *. lia. }
  rewrite (instant_ltb_same _ _ _ Hn), nanos_ltb in Hd by done. apply Z.ltb_lt in Hd.
  assert (Hwe : wf_time expires /\ nanos (cr_now request) < nanos expires <= nanos (cr_now request) + cr_leaseDuration request
    /\ nanos expires <= nanos deadline /\ t_mono expires = None).
  { unfold expires, least. destruct (instant_ltb deadline _) eqn:Hlt; rewrite (instant_ltb_same_r _ _ _ He), nanos_ltb in Hlt by done.
    - apply Z.ltb_lt in Hlt. change (wf_time deadline /\ nanos (cr_now request) < nanos deadline
        <= nanos (cr_now request) + cr_leaseDuration request /\ nanos deadline <= nanos deadline /\ @None Z = None).
      split_and!; first [done | lia].
    - apply Z.ltb_ge in Hlt. destruct He as [He1 He2]. unfold canonicalTime, wf_time, nanos in *. cbn [t_sec t_nsec t_mono].
      rewrite He1, He2. split_and!; first [done | lia]. }
  clearbody expires. destruct Hwe as (Hwe & Hlo & Hdl & Hmono).
  split_and!.
  - unfold After. rewrite Hmono, nanos_ltb by done. lia.
  - rewrite (Sub_exact expires (cr_now request) (nanos expires - nanos (cr_now request))); try done; lia.
  - unfold After. rewrite Hmono. rewrite nanos_ltb by done. change (nanos (canonicalTime deadline)) with (nanos deadline). lia.
Qed.

Lemma scan_claimed request id row :
  precise_request request -> claim_Valid request = true -> leasable id row -> due (stamp (cr_now request)) row = true ->
  exists lease, scanWorkLease (cr_owner request) (cr_now request)
      (id, claimed_row (cr_owner request) (stamp (Add (cr_now request) (cr_leaseDuration request))) row) = Ok lease
    /\ lease_of request id row lease.
Proof.
  intros Hp Hv [(work & Hw)%is_ok_inv Hk Hs Ha Ht Hd] Hdue.
  assert (Hlive : instant_ltb (stamp (cr_now request)) (rw_deadline row) = true) by by apply andb_true_iff in Hdue as [_ ?].
  destruct (expiry_bounds request (rw_deadline row) Hp Hv Hd Hlive) as (Hafter & Hsub & Hdl).
  pose proof Hp as [_ Hc _ _ _]. apply NewPendingWork_spec in Hw as Hw'. destruct Hw' as [Hwv Hwork].
  unfold maxPostgreSQLInteger, maxPostgreSQLSequence in *.
  set (lease := mkLease work (cr_owner request) (rw_token row + 1) (rw_attempts row + 1) (cr_now request)
    (canonicalTime (least (stamp (Add (cr_now request) (cr_leaseDuration request))) (rw_deadline row)))).
  assert (Hlv : lease_Valid lease = true).
  { unfold lease_Valid, lease. cbn [le_work le_owner le_token le_attempt le_claimedAt le_expiresAt].
    unfold claim_Valid in Hv. bool_norm. rewrite Hwork at 1. split_and!; try done; try lia.
    rewrite Hwork. exact Hdl. }
  exists lease. split; [| by split; try done; cbn; rewrite Hwork].
  unfold scanWorkLease, claimed_row. cbn [rw_kind rw_sequence rw_attempts rw_token rw_expires]. guard_ok.
  change (scanWork id _) with (scanWork id row). rewrite Hw. rewrite u64_small, u32_small by lia.
  unfold NewWorkLease. cbn [le_work le_owner le_token le_attempt le_claimedAt le_expiresAt default Datatypes.id].
  rewrite cloneBytes_id, (canonicalTime_fix (cr_now request)) by done.
  replace (mkWork _ _ _ _ _ _ _ _ _) with work by by destruct work. fold lease. by rewrite Hlv.
Qed.
End Lease.

Lemma scanRows_Forall2 {A B} (scan : A -> result B) operation (P : A -> B -> Prop) rows :
  (forall x, x ∈ rows -> exists y, scan x = Ok y /\ P x y) ->
  exists ys, scanRows scan operation rows = Ok ys /\ Forall2 P rows ys.
Proof.
  induction rows as [| x rows IH]; intros H; [by exists [] |].
  destruct (H x ltac:(by left)) as (y & Hy & Hp). destruct IH as (ys & Hys & Hps); [intros z Hz; apply H; by right |].
  exists (y :: ys). cbn [scanRows]. rewrite Hy, Hys. by split; [| constructor].
Qed.

(** ** Claim *)

(** A session without failures in which others hold some work rows. *)
Definition claiming (locked : gset string) : Session :=
  mkSession None None (fun _ => None) (fun _ => None) (fun _ db => db) locked CommitAcknowledged.

Section Claim.
Context (stamp : Time -> Time) (text_ltb : string -> string -> bool).

(** What a claim returns and leaves in the tables. *)
Record claimed (request : WorkClaimRequest) (locked : gset string) (db : Database) (leases : list WorkLease)
    (db' : Database) : Prop := {
  cl_leases : forall lease, lease ∈ leases -> exists row,
    (lease_id lease, row) ∈ claimable text_ltb (stamp (cr_now request)) locked db
    /\ lease_of stamp request (lease_id lease) row lease;
  cl_unique : NoDup (map lease_id leases);
  cl_count : Z.of_nat (length leases)
    = Z.min (cr_limit request) (Z.of_nat (length (claimable text_ltb (stamp (cr_now request)) locked db)));
  cl_fair : forall a b,
    a ∈ claimable text_ltb (stamp (cr_now request)) locked db -> b ∈ claimable text_ltb (stamp (cr_now request)) locked db ->
    a.1 ∈ map lease_id leases -> b.1 ∉ map lease_id leases ->
    tenant_rank text_ltb (due_rows (stamp (cr_now request)) db) a
    <= tenant_rank text_ltb (due_rows (stamp (cr_now request)) db) b;
  cl_rows : forall id row, db_work db !! id = Some row -> db_work db' !! id
    = Some (if decide (id ∈ map lease_id leases)
            then claimed_row (cr_owner request) (stamp (Add (cr_now request) (cr_leaseDuration request))) row else row);
  cl_rest : db' = set_work db (db_work db') /\ dom (db_work db') = dom (db_work db)
}.

Context `{!Timestamps stamp, !TextOrder text_ltb}.

Lemma elem_of_candidates_id now limit locked db id row :
  db_work db !! id = Some row ->
  id ∈ (candidates text_ltb now limit locked db).*1 <-> (id, row) ∈ candidates text_ltb now limit locked db.
Proof.
  intros Hrow. rewrite list_elem_of_fmap. split; [| by exists (id, row)].
  intros ([i r] & -> & Hin). apply candidates_spec in Hin as Hs. destruct Hs as (Hs & _). cbn in *. by simplify_eq.
Qed.

Lemma claim_domain now limit owner expires locked db rows db' :
  sql_claimWork stamp text_ltb now limit owner expires locked db = Ok (rows, db') ->
  db' = set_work db (db_work db') /\ dom (db_work db') = dom (db_work db).
Proof.
  unfold sql_claimWork. do 2 (destruct (bool_decide _); [done |]). intros [= _ <-]. split; [done |].
  cbn [db_work set_work]. rewrite dom_union_L. apply leibniz_equiv. intros id. rewrite elem_of_union.
  split; [| by right]. intros [Hin |]; [| done]. rewrite dom_list_to_map, elem_of_list_to_set, <- list_fmap_compose in Hin.
  apply list_elem_of_fmap in Hin as ([i r] & -> & (Hr & _)%candidates_spec). by apply elem_of_dom_2 in Hr.
Qed.

(** The statement itself does not fail on leasable rows. *)
Lemma sql_claim_ok request locked db :
  (forall id row, (id, row) ∈ claimable text_ltb (stamp (cr_now request)) locked db -> leasable id row) ->
  let cs := candidates text_ltb (stamp (cr_now request)) (cr_limit request) locked db in
  let expires := Add (cr_now request) (cr_leaseDuration request) in
  exists db', sql_claimWork stamp text_ltb (cr_now request) (cr_limit request) (cr_owner request) expires locked db
    = Ok (order_by (fun a b => keyset_leb text_ltb (work_key a) (work_key b))
            (map (fun row => (row.1, claimed_row (cr_owner request) (stamp expires) row.2)) cs), db').
Proof.
  intros Hl cs expires. unfold sql_claimWork. fold cs.
  assert (Hcs : forall id row, (id, row) ∈ cs -> leasable id row).
  { intros id row Hin. apply Hl, elem_of_claimable. by apply candidates_spec in Hin. }
  rewrite !bool_decide_eq_false_2; [by eexists | |];
    intros ([id row] & Hin & Hlt)%Exists_exists; destruct (Hcs id row Hin); cbn [snd] in Hlt; lia.
Qed.

Lemma claim_runs request locked db :
  claim_Valid request = true -> precise_request stamp request ->
  (forall id row, (id, row) ∈ claimable text_ltb (stamp (cr_now request)) locked db -> leasable id row) ->
  exists leases db', store_Claim stamp text_ltb (claiming locked) request db = (Ok leases, db')
    /\ claimed request locked db leases db'.
Proof.
  intros Hv Hp Hl. destruct (sql_claim_ok request locked db Hl) as [db' Hsql].
  set (cs := candidates _ _ _ _ _) in *. set (rows := order_by _ _) in *.
  assert (Hrows : Permutation rows.*1 cs.*1).
  { unfold rows. rewrite order_by_Permutation. by rewrite <- list_fmap_compose. }
  destruct (scanRows_Forall2 (scanWorkLease (cr_owner request) (cr_now request)) "scan claimed work"
    (fun x lease => lease_id lease = x.1 /\ exists row, (x.1, row) ∈ cs /\ lease_of stamp request x.1 row lease) rows)
    as (leases & Hscan & Hall).
  { intros x Hx. unfold rows in Hx. rewrite elem_of_order_by in Hx.
    apply list_elem_of_fmap in Hx as ([id row] & -> & Hin). cbn [fst snd].
    apply candidates_spec in Hin as Hc. destruct (scan_claimed stamp request id row Hp Hv) as (lease & Hs & Hlo).
    - apply Hl, elem_of_claimable. tauto.
    - tauto.
    - exists lease. split; [done |]. split; [apply Hlo | by exists row]. }
  assert (Hids : map lease_id leases = rows.*1).
  { clear -Hall. induction Hall as [| x lease rs ls [Hid _] _ IH]; [done |]. cbn. by f_equal. }
  assert (Hmem : forall id row, db_work db !! id = Some row -> id ∈ map lease_id leases <-> (id, row) ∈ cs).
  { intros id row Hrow. rewrite Hids, Hrows. by apply elem_of_candidates_id. }
  exists leases, db'. split.
  { unfold store_Claim. rewrite Hv. cbn [negb ss_context claiming ss_locked].
    unfold autoquery, autocommit. cbn [ss_others ss_statement ss_rows claiming]. rewrite Hsql.
    unfold scanAll. cbn [fst snd]. by rewrite Hscan. }
  split.
  - intros lease Hin. apply list_elem_of_lookup in Hin as [i Hi].
    destruct (Forall2_lookup_r _ _ _ _ _ Hall Hi) as (x & _ & -> & row & Hr & Hlo).
    exists row. split; [| done]. apply elem_of_claimable. by apply candidates_spec in Hr.
  - rewrite Hids, Hrows. apply candidates_NoDup.
  - rewrite <- (length_map lease_id), Hids, Hrows, length_fmap. unfold cs. rewrite candidates_claimable, length_take.
    unfold claim_Valid in Hv. bool_norm. lia.
  - intros [ia ra] [ib rb] Ha Hb Hia Hib.
    apply elem_of_claimable in Ha as Ha'. apply elem_of_claimable in Hb as Hb'. cbn [fst] in *.
    rewrite Hmem in Hia, Hib by apply Ha' || apply Hb'.
    pose proof (candidates_first text_ltb _ _ _ _ _ _ Hia Hb Hib) as Hf%candidate_leb_iff. lia.
  - intros id row Hrow. rewrite (claim_lookup _ _ _ _ _ _ _ _ _ _ _ _ Hsql Hrow).
    f_equal. specialize (Hmem id row Hrow). fold cs. repeat case_decide; tauto.
  - by eapply claim_domain.
Qed.
End Claim.
