(* ===== verification/Listing.v ===== *)
(** * Paging through the instances (postgres/store.go: ListInstances; administration.go)

    A listing is read page by page, each from the cursor of the last row before it.
    When the text columns are ordered byte by byte, as Go orders strings, the pages
    are exactly the matching rows in order, each once; under any other order the
    adapter refuses legal pages. *)
From S2P Require Import Prelude GoTime Names Definitions Event.
From S2P Require Import Work Transition Store Administration DeadLetter Tables Statements.
From S2P Require Import ReplayProperties PostgresCommit PostgresAdmin PostgresClaim.

(** ** Rows in the order of a key *)

Section Keyset.
Context {R : Type} (key : R -> Time * string).

Definition key_lt (a b : R) : Prop := keyset_ltb String.ltb (key a) (key b) = true.
Definition by_key : list R -> list R := order_by (fun a b => keyset_leb String.ltb (key a) (key b)).

(** No two rows have the same name. *)
Definition apart (rows : list R) : Prop := NoDup (map (fun row => (key row).2) rows).

Lemma StronglySorted_filtered {A} (r : A -> A -> Prop) (P : A -> Prop) `{!forall x, Decision (P x)} l :
  StronglySorted r l -> StronglySorted r (filter P l).
Proof.
  induction 1 as [| x l Hs IH Hall]; [constructor |]. rewrite filter_cons. destruct (decide (P x)); [| done]. constructor; [done |].
  rewrite Forall_forall in *. intros y [_ Hy]%list_elem_of_filter. auto.
Qed.

Lemma filter_every {A} (P : A -> Prop) `{!forall x, Decision (P x)} l : Forall P l -> filter P l = l.
Proof. induction 1 as [| x l Hx Hl IH]; [done |]. by rewrite filter_cons_True, IH. Qed.

Lemma by_key_strict rows : apart rows -> StronglySorted key_lt (by_key rows).
Proof.
  intros Ha. pose proof (order_by_sorted (fun a b => keyset_leb String.ltb (key a) (key b))
    (fun a b => keyset_leb_total String.ltb (key a) (key b)) (fun a b c => keyset_leb_trans String.ltb (key a) (key b) (key c)) rows) as Hs.
  assert (Hn : NoDup (map (fun row => (key row).2) (by_key rows))) by (unfold by_key; by rewrite order_by_Permutation).
  fold (by_key rows) in Hs. induction Hs as [| a l Hs IH Hall]; cbn [map] in *; [constructor |].
  apply NoDup_cons in Hn as [Hna Hn]. constructor; [auto |]. rewrite Forall_forall in *. intros b Hb. unfold key_lt.
  specialize (Hall b Hb). destruct (keyset_cases String.ltb (key a) (key b)) as [| [H | [_ He]]]; [done | |].
  - unfold keyset_leb in Hall. by rewrite H in Hall.
  - destruct Hna. rewrite He. by apply (list_elem_of_fmap_2 (fun row => (key row).2)).
Qed.

Lemma by_key_filter (P : R -> Prop) `{!forall x, Decision (P x)} rows : apart rows ->
  by_key (filter P rows) = filter P (by_key rows).
Proof.
  intros Ha. assert (Hf : apart (filter P rows)).
  { unfold apart in *. eapply sublist_NoDup; [exact Ha |]. apply (fmap_sublist (fun row => (key row).2)), sublist_filter. }
  apply (StronglySorted_unique_strong key_lt).
  - intros a b _ _ H1 H2. exfalso. unfold key_lt in *. pose proof (keyset_ltb_trans String.ltb _ _ _ H1 H2) as Hx.
    by rewrite (keyset_ltb_irrefl String.ltb) in Hx.
  - by apply by_key_strict.
  - by apply StronglySorted_filtered, by_key_strict.
  - unfold by_key. by rewrite !order_by_Permutation.
Qed.

(** The rows after one of a sorted list are its tail. *)
Lemma filter_after rows k x : StronglySorted key_lt rows -> rows !! k = Some x ->
  filter (fun row => keyset_ltb String.ltb (key x) (key row) = true) rows = drop (S k) rows.
Proof.
  intros Hs. revert k. induction Hs as [| a l Hs IH Hall]; intros k Hk; [done |].
  rewrite filter_cons. destruct k as [| k]; cbn in Hk.
  - injection Hk as ->. rewrite decide_False by (by rewrite (keyset_ltb_irrefl String.ltb)). cbn [drop]. rewrite drop_0.
    apply filter_every. exact Hall.
  - rewrite decide_False; [by apply IH |]. rewrite Forall_forall in Hall. pose proof (Hall x (list_elem_of_lookup_2 _ _ _ Hk)) as Hx.
    intros H. pose proof (keyset_ltb_trans String.ltb _ _ _ Hx H) as Hc. by rewrite (keyset_ltb_irrefl String.ltb) in Hc.
Qed.
End Keyset.

(** Go's comparison of canonical cursors is the order of the key they were made of. *)
Lemma cursor_keyset s t a b :
  After (canonicalTime t) (canonicalTime s) || (Equal (canonicalTime t) (canonicalTime s) && String.ltb a b)
  = keyset_ltb String.ltb (s, a) (t, b).
Proof.
  unfold After, Equal, keyset_ltb, instant_ltb. cbn [t_mono t_sec t_nsec canonicalTime fst snd].
  destruct (Z.ltb_spec (t_sec s) (t_sec t)), (Z.ltb_spec (t_sec t) (t_sec s)), (Z.ltb_spec (t_nsec s) (t_nsec t)), (Z.ltb_spec (t_nsec t) (t_nsec s)),
    (Z.eqb_spec (t_sec s) (t_sec t)), (Z.eqb_spec (t_sec t) (t_sec s)), (Z.eqb_spec (t_nsec t) (t_nsec s)); cbn [andb orb negb]; (done || lia).
Qed.

Lemma scanRows_map {A B} (scan : A -> result B) (f : A -> B) operation rows : Forall (fun row => scan row = Ok (f row)) rows ->
  scanRows scan operation rows = Ok (map f rows).
Proof. induction 1 as [| row rows Hr Hall IH]; [done |]. cbn [scanRows map]. by rewrite Hr, IH. Qed.

Lemma cut_take {A} limit (l : list A) : 0 <= limit -> cut limit (take (Z.to_nat (limit + 1)) l) = (take (Z.to_nat limit) l, bool_decide (Z.to_nat limit < length l)%nat).
Proof.
  intros Hl. unfold cut. rewrite length_take. f_equal.
  - destruct (Z.ltb_spec limit (Z.of_nat (Nat.min (Z.to_nat (limit + 1)) (length l)))).
    + rewrite take_take. f_equal. lia.
    + rewrite !take_ge by lia. done.
  - destruct (Z.ltb_spec limit (Z.of_nat (Nat.min (Z.to_nat (limit + 1)) (length l)))); symmetry; [apply bool_decide_eq_true | apply bool_decide_eq_false]; lia.
Qed.

(** ** Following the cursors *)

Section Pages.
Context {R Item Cursor : Type} (rows : list R) (item : R -> Item) (limit : nat) (page : Cursor -> option (list Item * Cursor * bool)).
Context (position : Cursor -> nat -> Prop).

(** A client that reads pages until one is the last. *)
Fixpoint pages (fuel : nat) (cursor : Cursor) : option (list Item) :=
  match fuel with
  | O => None
  | S fuel =>
      '(items, next, hasMore) ← page cursor;
      if (hasMore : bool) then app items <$> pages fuel next else Some items
  end.

Hypothesis Hlimit : (0 < limit)%nat.
Hypothesis Hpage : forall cursor k, position cursor k -> (k <= length rows)%nat -> exists next,
  page cursor = Some (map item (take limit (drop k rows)), next, bool_decide (limit < length rows - k)%nat)
  /\ position next (k + length (take limit (drop k rows)))%nat.

Lemma pages_all fuel : forall cursor k, position cursor k -> (k <= length rows)%nat -> (length rows - k < fuel)%nat ->
  pages fuel cursor = Some (map item (drop k rows)).
Proof.
  induction fuel as [| fuel IH]; intros cursor k Hk Hle Hf; [lia |]. cbn [pages].
  destruct (Hpage cursor k Hk Hle) as (next & -> & Hn). cbn [mbind option_bind]. case_bool_decide as Hm.
  - rewrite length_take, length_drop, Nat.min_l in Hn by lia.
    rewrite (IH next (k + limit)%nat Hn) by lia. cbn [fmap option_fmap option_map]. rewrite <- map_app, <- drop_drop, take_drop. done.
  - rewrite take_ge; [done |]. rewrite length_drop. lia.
Qed.
End Pages.

(** ** The instances *)

Section Instances.
Context (stamp : Time -> Time) `{!Timestamps stamp}.

Definition zeroRecord : InstanceRecord := mkInstanceRecord "" zeroReference 0 zeroTime zeroTime zeroTime.

Definition record_of (row : string * InstanceRow) : InstanceRecord := or_zero zeroRecord (scanInstanceRecord row).

(** A row the adapter can read back and order, as the store writes them. *)
Record readable (row : string * InstanceRow) : Prop := {
  rd_scan : is_ok (scanInstanceRecord row) = true;
  rd_precise : precise stamp (ri_created row.2);
  rd_archived : forall t, ri_archived row.2 = Some t -> IsZero t = false
}.

Lemma readable_record row : readable row ->
  scanInstanceRecord row = Ok (record_of row) /\ instanceRecord_valid (record_of row) = true
  /\ rc_instanceID (record_of row) = row.1 /\ rc_createdAt (record_of row) = canonicalTime (ri_created row.2)
  /\ rc_archivedAt (record_of row) = canonicalTime (default zeroTime (ri_archived row.2)).
Proof.
  intros [Hs _ _]. unfold record_of. destruct (scanInstanceRecord row) as [record |] eqn:E; [| done]. cbn [or_zero].
  destruct row as [id row]. unfold scanInstanceRecord in E. destruct (_ <? _); [done |].
  destruct (NewDefinitionReference _ _ _) as [reference |]; [| done]. unfold NewInstanceRecord in E.
  destruct (instanceRecord_valid _) eqn:Hv; [| done]. injection E as <-. done.
Qed.

(** The rows of a selection in the order of the listing. *)
Definition listing (selection : InstanceListSelection) (db : Database) : list (string * InstanceRow) :=
  filter (fun row => selected selection row.2 = true) (by_key instance_key (map_to_list (db_instances db))).

Definition instance_cursor (row : string * InstanceRow) : InstanceListCursor :=
  mkListCursor (rc_createdAt (record_of row)) row.1.

(** The cursor that stands before row [k] of a list. *)
Definition stands (rows : list (string * InstanceRow)) (cursor : InstanceListCursor) (k : nat) : Prop :=
  match k with O => cursor = zeroListCursor | S j => exists row, rows !! j = Some row /\ cursor = instance_cursor row end.

Context (db : Database) (Hdb : map_Forall (fun id row => readable (id, row)) (db_instances db)).

Lemma instances_apart : apart instance_key (map_to_list (db_instances db)).
Proof. apply NoDup_fst_map_to_list. Qed.

Lemma listing_strict selection : StronglySorted (key_lt instance_key) (listing selection db).
Proof. apply StronglySorted_filtered, by_key_strict, instances_apart. Qed.

Lemma listing_rows selection row : row ∈ listing selection db -> readable row /\ selected selection row.2 = true.
Proof.
  unfold listing, by_key. rewrite list_elem_of_filter, elem_of_order_by. intros [Hs Hr]. split; [| done].
  destruct row as [id row]. by apply Hdb, elem_of_map_to_list.
Qed.

Lemma cursor_nonzero row : readable row -> IsZero (rc_createdAt (record_of row)) = false.
Proof. intros (_ & Hv & _)%readable_record. unfold instanceRecord_valid in Hv. bool_norm. by destruct (IsZero _). Qed.

Lemma after_cursor row other : readable row ->
  after_key stamp String.ltb (cursorArguments (rc_createdAt (record_of row)) row.1) (instance_key other)
  = keyset_ltb String.ltb (instance_key row) (instance_key other).
Proof.
  intros Hr. pose proof (cursor_nonzero row Hr) as Hz. destruct (readable_record row Hr) as (_ & _ & _ & Hc & _).
  unfold cursorArguments. rewrite Hz. cbn [after_key]. unfold keyset_ltb, instance_key. cbn [fst snd].
  assert (Hs : same_instant (stamp (rc_createdAt (record_of row))) (ri_created row.2)).
  { rewrite Hc. rewrite canonicalTime_same. apply (rd_precise row Hr). }
  by rewrite (instant_ltb_same _ _ _ Hs), (instant_ltb_same_r _ _ _ Hs).
Qed.

(** The query from a cursor reads the rows after it. *)
Lemma sql_list_page selection cursor k limit : stands (listing selection db) cursor k ->
  sql_list stamp String.ltb selection (cursorArguments (lc_createdAt cursor) (lc_instanceID cursor)) limit db
  = take (Z.to_nat limit) (drop k (listing selection db)).
Proof.
  intros Hk. unfold sql_list. f_equal. fold (by_key instance_key (filter (fun row => selected selection row.2
    && after_key stamp String.ltb (cursorArguments (lc_createdAt cursor) (lc_instanceID cursor)) (instance_key row) = true) (map_to_list (db_instances db)))).
  rewrite by_key_filter by apply instances_apart.
  transitivity (filter (fun row => after_key stamp String.ltb (cursorArguments (lc_createdAt cursor) (lc_instanceID cursor)) (instance_key row) = true)
    (listing selection db)).
  { unfold listing. rewrite list_filter_filter. apply list_filter_iff. intros row. rewrite andb_true_iff. tauto. }
  destruct k as [| k]; cbn [stands] in Hk.
  - subst cursor. rewrite drop_0. apply filter_every, Forall_forall. done.
  - destruct Hk as (row & Hrow & ->). cbn [instance_cursor lc_createdAt lc_instanceID].
    destruct (listing_rows selection row (list_elem_of_lookup_2 _ _ _ Hrow)) as [Hr _].
    rewrite <- (filter_after instance_key _ k row (listing_strict selection) Hrow). apply list_filter_iff.
    intros other. by rewrite after_cursor.
Qed.

(** The page the adapter validates: rows in order, after the cursor. *)
Lemma cursorBefore_key a b : readable a -> readable b ->
  cursorBefore (instance_cursor a) (rc_createdAt (record_of b)) (rc_instanceID (record_of b)) = keyset_ltb String.ltb (instance_key a) (instance_key b).
Proof.
  intros Ha Hb. pose proof (cursor_nonzero a Ha) as Hz. destruct (readable_record a Ha) as (_ & _ & _ & Hca & _).
  destruct (readable_record b Hb) as (_ & _ & Hid & Hcb & _). unfold cursorBefore, instance_cursor. cbn [lc_createdAt lc_instanceID].
  unfold instance_key. rewrite Hz, Hid, Hca, Hcb, <- cursor_keyset. cbn [orb]. by destruct (After _ _), (Equal _ _).
Qed.

Lemma selection_matches selection row : readable row -> selected selection row.2 = true ->
  instanceSelectionMatches selection (record_of row) = true.
Proof.
  intros Hr Hs. destruct (readable_record row Hr) as (_ & _ & _ & _ & Ha). destruct selection; cbn [instanceSelectionMatches selected] in *; try done;
    rewrite Ha, IsZero_canonicalTime; apply bool_decide_eq_true in Hs.
  - by rewrite Hs.
  - destruct Hs as [archived Hs]. rewrite Hs. cbn [default from_option id]. by rewrite (rd_archived row Hr archived Hs).
Qed.

Lemma listItems_ok query rows : forall previous,
  Forall (fun row => readable row /\ selected (lq_selection query) row.2 = true) rows -> StronglySorted (key_lt instance_key) rows ->
  match head rows with Some row => cursorBefore previous (rc_createdAt (record_of row)) (rc_instanceID (record_of row)) = true | None => True end ->
  listItems query previous (map record_of rows) = Ok (default previous (instance_cursor <$> last rows)).
Proof.
  induction rows as [| row rows IH]; intros previous Hall Hs Hh; [done |].
  apply Forall_cons in Hall as [[Hr Hsel] Hall]. apply StronglySorted_inv in Hs as [Hs Hle]. cbn [map listItems head] in *.
  destruct (readable_record row Hr) as (_ & Hv & Hid & _ & _). rewrite Hv, (selection_matches _ _ Hr Hsel), Hh. cbn [negb orb].
  change (mkListCursor (rc_createdAt (record_of row)) (rc_instanceID (record_of row))) with (mkListCursor (rc_createdAt (record_of row)) (rc_instanceID (record_of row))).
  rewrite Hid. fold (instance_cursor row). rewrite IH; [| done | done |].
  - destruct rows as [| next rows]; [done |]. cbn [last]. destruct (last (next :: rows)) eqn:E; [done |]. by apply last_None in E.
  - destruct rows as [| next rows]; [done |]. cbn [head]. apply Forall_cons in Hle as [Hle _]. apply Forall_cons in Hall as [[Hr' _] _].
    by rewrite cursorBefore_key.
Qed.

Lemma scanRows_records rows operation : Forall readable rows ->
  scanRows scanInstanceRecord operation rows = Ok (map record_of rows).
Proof. intros Hr. apply scanRows_map. eapply Forall_impl; [exact Hr |]. intros row H. by destruct (readable_record row H). Qed.

(** The cursor after some rows read from a cursor. *)
Lemma stands_next selection cursor k n : stands (listing selection db) cursor k -> (0 < n)%nat ->
  let items := take n (drop k (listing selection db)) in
  stands (listing selection db) (default cursor (instance_cursor <$> last items)) (k + length items).
Proof.
  intros Hk Hn. cbn zeta. set (items := take n (drop k (listing selection db))). destruct (last items) as [row |] eqn:E.
  - apply last_Some in E as [front E]. rewrite E, length_app. cbn [length]. replace (k + (length front + 1))%nat with (S (k + length front)) by lia.
    cbn [stands default from_option fmap option_fmap option_map]. exists row. split; [| done].
    assert (Hrow : items !! length front = Some row) by (rewrite E; by rewrite list_lookup_middle).
    unfold items in Hrow. apply lookup_take_Some in Hrow as [Hrow _]. by rewrite lookup_drop in Hrow.
  - apply last_None in E. rewrite E. cbn [length]. by rewrite Nat.add_0_r.
Qed.

Lemma strict_page selection k n : StronglySorted (key_lt instance_key) (take n (drop k (listing selection db))).
Proof.
  pose proof (listing_strict selection) as Hs. rewrite <- (take_drop k (listing selection db)) in Hs.
  apply StronglySorted_app_1_r in Hs. rewrite <- (take_drop n (drop k _)) in Hs. by apply StronglySorted_app_1_l in Hs.
Qed.

(** The first row of a page is after the cursor. *)
Lemma page_head selection cursor k n : stands (listing selection db) cursor k ->
  match head (take n (drop k (listing selection db))) with
  | Some row => cursorBefore cursor (rc_createdAt (record_of row)) (rc_instanceID (record_of row)) = true
  | None => True
  end.
Proof.
  intros Hk. destruct (head _) as [row |] eqn:E; [| done]. rewrite head_lookup in E. apply lookup_take_Some in E as [E _].
  rewrite lookup_drop, Nat.add_0_r in E. destruct k as [| k]; cbn [stands] in Hk; [by subst cursor |]. destruct Hk as (previous & Hp & ->).
  rewrite cursorBefore_key by (eapply listing_rows, list_elem_of_lookup_2; eassumption).
  pose proof (listing_strict selection) as Hs. rewrite <- (take_drop (S k) (listing selection db)) in Hs.
  refine (StronglySorted_app_1_elem_of _ _ _ _ _ Hs _ _).
  - eapply list_elem_of_lookup_2. rewrite lookup_take_lt; [exact Hp | lia].
  - eapply (list_elem_of_lookup_2 _ 0). by rewrite lookup_drop, Nat.add_0_r.
Qed.

Lemma cursor_query selection cursor k limit : selection <> ListSelectionUndeclared -> 1 <= limit <= MaxInstanceListItems ->
  stands (listing selection db) cursor k -> listQuery_Valid (mkListQuery selection cursor limit) = true.
Proof.
  intros Hsel Hlim Hk. unfold listQuery_Valid. cbn [lq_selection lq_after lq_limit]. rewrite (bool_decide_eq_false_2 _ Hsel). cbn [negb andb].
  rewrite (proj2 (Z.ltb_lt _ _)), (proj2 (Z.leb_le _ _)), !andb_true_r by lia. unfold listCursor_valid.
  destruct k as [| k]; cbn [stands] in Hk; [by subst cursor | destruct Hk as (row & Hrow & ->)]. cbn [lc_createdAt lc_instanceID instance_cursor].
  destruct (listing_rows selection row (list_elem_of_lookup_2 _ _ _ Hrow)) as [Hr _]. rewrite (cursor_nonzero row Hr).
  destruct (readable_record row Hr) as (_ & Hv & <- & _). unfold instanceRecord_valid in Hv. bool_norm. done.
Qed.

(** One page, from any cursor of the listing. *)
Lemma list_page selection cursor k limit : selection <> ListSelectionUndeclared -> 1 <= limit <= MaxInstanceListItems ->
  stands (listing selection db) cursor k ->
  let items := take (Z.to_nat limit) (drop k (listing selection db)) in
  exists next, store_ListInstances stamp String.ltb quiet (mkListQuery selection cursor limit) db
    = (Ok (mkListPage (map record_of items) next (bool_decide (Z.to_nat limit < length (listing selection db) - k)%nat)), db)
    /\ stands (listing selection db) next (k + length items).
Proof.
  intros Hsel Hlim Hk. pose proof (cursor_query selection cursor k limit Hsel Hlim Hk) as Hquery. set (L := listing selection db) in *.
  cbn zeta. set (items := take (Z.to_nat limit) (drop k L)). exists (default cursor (instance_cursor <$> last items)).
  split; [| apply stands_next; [exact Hk | lia]].
  assert (Hrows : forall n, Forall (fun row => readable row /\ selected selection row.2 = true) (take n (drop k L))).
  { intros n. apply Forall_take, Forall_forall. intros row Hr. apply (listing_rows selection). eapply subseteq_drop, Hr. }
  unfold store_ListInstances. rewrite Hquery. cbn [negb ss_context quiet lq_selection lq_after lq_limit].
  unfold autoquery, autocommit. cbn [ss_others ss_statement ss_rows quiet]. unfold reading. rewrite (sql_list_page selection cursor k) by done.
  unfold scanAll. cbn [fst snd]. rewrite scanRows_records by (eapply Forall_impl; [apply Hrows | tauto]).
  cbn [mbind result_bind]. rewrite <- firstn_map, cut_take, firstn_map, length_map, length_drop by lia. fold L. fold items.
  assert (Hpage : NewInstanceListPage (mkListQuery selection cursor limit) (map record_of items) (bool_decide (Z.to_nat limit < length L - k)%nat)
    = Ok (mkListPage (map record_of items) (default cursor (instance_cursor <$> last items)) (bool_decide (Z.to_nat limit < length L - k)%nat))).
  { unfold NewInstanceListPage. rewrite Hquery. cbn [negb orb lq_limit lq_after]. rewrite length_map.
    assert (Hlen : length items = Nat.min (Z.to_nat limit) (length L - k)) by (unfold items; by rewrite length_take, length_drop).
    rewrite (proj2 (Z.ltb_ge _ _)) by lia. replace (bool_decide _ && negb _) with false.
    - cbn [orb]. rewrite (listItems_ok (mkListQuery selection cursor limit) items cursor); [done | apply Hrows | apply strict_page | by apply page_head].
    - symmetry. case_bool_decide; [| done]. cbn [andb]. apply negb_false_iff, Z.eqb_eq. lia. }
  by rewrite Hpage.
Qed.
End Instances.

(** ** What a client reads under an order of the text columns *)

Section Orders.
Context (stamp : Time -> Time) `{!Timestamps stamp} (text_ltb : string -> string -> bool) `{!TextOrder text_ltb}.

Definition list_from (selection : InstanceListSelection) (limit : Z) (db : Database) (cursor : InstanceListCursor)
    : option (list InstanceRecord * InstanceListCursor * bool) :=
  match (store_ListInstances stamp text_ltb quiet (mkListQuery selection cursor limit) db).1 with
  | Ok page => Some (lp_items page, lp_nextCursor page, lp_hasMore page)
  | Err _ => None
  end.

(** All pages, each from the cursor the last one gave. *)
Definition read_all (selection : InstanceListSelection) (limit : Z) (db : Database) : option (list InstanceRecord) :=
  pages (list_from selection limit db) (S (length (listing selection db))) zeroListCursor.

Definition all_readable (db : Database) : Prop := map_Forall (fun id row => readable stamp (id, row)) (db_instances db).

Definition agrees : Prop := forall a b, instanceIDPattern a = true -> instanceIDPattern b = true -> text_ltb a b = String.ltb a b.

Lemma readable_id row : readable stamp row -> instanceIDPattern row.1 = true.
Proof. intros (_ & Hv & <- & _)%readable_record. unfold instanceRecord_valid in Hv. bool_norm. done. Qed.

Lemma keyset_agrees (a b : Time * string) : agrees -> instanceIDPattern a.2 = true -> instanceIDPattern b.2 = true ->
  keyset_ltb text_ltb a b = keyset_ltb String.ltb a b.
Proof. intros Ha H1 H2. unfold keyset_ltb. by rewrite Ha. Qed.

(** Two tests that agree on the elements sort alike. *)
Lemma order_by_agree {A} (leb leb' : A -> A -> bool) l :
  (forall a b, leb' a b = true \/ leb' b a = true) -> (forall a b c, leb' a b = true -> leb' b c = true -> leb' a c = true) ->
  (forall a b, leb a b = true \/ leb b a = true) -> (forall a b c, leb a b = true -> leb b c = true -> leb a c = true) ->
  (forall a b, a ∈ l -> b ∈ l -> leb a b = leb' a b) ->
  (forall a b, a ∈ l -> b ∈ l -> leb a b = true -> leb b a = true -> a = b) ->
  order_by leb l = order_by leb' l.
Proof.
  intros Htot' Htr' Htot Htr Hagree Hanti. apply (StronglySorted_unique_strong (fun a b => leb a b = true)).
  - intros a b Ha%elem_of_order_by Hb%elem_of_order_by. by apply Hanti.
  - by apply order_by_sorted.
  - assert (Hin : forall x, x ∈ order_by leb' l -> x ∈ l) by (intros x; apply elem_of_order_by).
    pose proof (order_by_sorted leb' Htot' Htr' l) as Hs. induction Hs as [| a k Hs IH Hall]; constructor.
    + apply IH. intros x Hx. apply Hin. by right.
    + rewrite Forall_forall in *. intros b Hb. rewrite Hagree; [by apply Hall | apply Hin; by left | apply Hin; by right].
  - by rewrite !order_by_Permutation.
Qed.

Lemma filter_agree {A} (P Q : A -> Prop) `{!forall x, Decision (P x), !forall x, Decision (Q x)} (l : list A) :
  (forall x, x ∈ l -> P x <-> Q x) -> filter P l = filter Q l.
Proof.
  induction l as [| x l IH]; intros Hpq; [done |]. rewrite !filter_cons, IH by (intros; apply Hpq; by right).
  assert (Hx : P x <-> Q x) by (apply Hpq; by left). destruct (decide (P x)), (decide (Q x)); tauto.
Qed.

(** Where the order agrees with Go's, the database answers as in byte order. *)
Lemma sql_list_agrees selection cursor k limit db : agrees -> all_readable db -> stands (listing selection db) cursor k ->
  sql_list stamp text_ltb selection (cursorArguments (lc_createdAt cursor) (lc_instanceID cursor)) limit db
  = sql_list stamp String.ltb selection (cursorArguments (lc_createdAt cursor) (lc_instanceID cursor)) limit db.
Proof.
  intros Ha Hdb Hk. assert (Hid : forall row, row ∈ map_to_list (db_instances db) -> instanceIDPattern (instance_key row).2 = true).
  { intros [id row] Hr%elem_of_map_to_list. by apply (readable_id (id, row)), Hdb. }
  unfold sql_list. f_equal. rewrite (filter_agree _ (fun row => selected selection row.2
    && after_key stamp String.ltb (cursorArguments (lc_createdAt cursor) (lc_instanceID cursor)) (instance_key row) = true)).
  - apply order_by_agree.
    + intros. apply (keyset_leb_total String.ltb).
    + intros a b c. apply (keyset_leb_trans String.ltb).
    + intros. apply keyset_leb_total; apply _.
    + intros a b c. apply keyset_leb_trans; apply _.
    + intros a b [_ Hx]%list_elem_of_filter [_ Hy]%list_elem_of_filter. unfold keyset_leb. by rewrite keyset_agrees by auto.
    + intros a b [_ Hx]%list_elem_of_filter [_ Hy]%list_elem_of_filter H1 H2. unfold keyset_leb in *.
      destruct (keyset_cases text_ltb (instance_key a) (instance_key b)) as [H | [H | [_ H]]]; [by rewrite H in H2 | by rewrite H in H1 |].
      destruct a as [x r], b as [y r']. cbn in H. subst y. apply elem_of_map_to_list in Hx, Hy. congruence.
  - intros row Hr. unfold cursorArguments. destruct (IsZero _) eqn:Hz; [done |]. cbn [after_key].
    rewrite keyset_agrees; [done | done | | by apply Hid]. destruct k as [| k]; cbn [stands] in Hk; [by subst cursor |].
    destruct Hk as (x & Hx & ->). apply list_elem_of_lookup_2, (listing_rows stamp db Hdb) in Hx as [Hx _]. by apply readable_id.
Qed.

Lemma read_all_agrees selection limit db : agrees -> all_readable db -> selection <> ListSelectionUndeclared -> 1 <= limit <= MaxInstanceListItems ->
  read_all selection limit db = Some (map record_of (listing selection db)).
Proof.
  intros Ha Hdb Hsel Hlim. unfold read_all. set (L := listing selection db).
  assert (Hpage : forall cursor k, stands L cursor k -> (k <= length L)%nat -> exists next,
    list_from selection limit db cursor = Some (map record_of (take (Z.to_nat limit) (drop k L)), next, bool_decide (Z.to_nat limit < length L - k)%nat)
    /\ stands L next (k + length (take (Z.to_nat limit) (drop k L)))%nat).
  { intros cursor k Hk _. destruct (list_page stamp db Hdb selection cursor k limit Hsel Hlim Hk) as (next & Hpage & Hnext).
    exists next. split; [| exact Hnext]. unfold list_from.
    assert (Heq : store_ListInstances stamp text_ltb quiet (mkListQuery selection cursor limit) db
      = store_ListInstances stamp String.ltb quiet (mkListQuery selection cursor limit) db).
    { unfold store_ListInstances, autoquery, autocommit, reading. cbn [lq_selection lq_after lq_limit ss_others quiet].
      by rewrite (sql_list_agrees selection cursor k) by done. }
    by rewrite Heq, Hpage. }
  by rewrite (pages_all L record_of (Z.to_nat limit) _ (stands L) ltac:(lia) Hpage (S (length L)) zeroListCursor 0 eq_refl ltac:(lia) ltac:(lia)).
Qed.

(** Two instances created at one time. *)
Definition twins (x y : string) (row : InstanceRow) : Database := mkDatabase (<[x := row]> {[y := row]}) ∅ ∅ ∅ ∅.

Lemma twins_listed x y row : text_ltb x y = true -> x <> y ->
  sql_list stamp text_ltb ListAllInstances None 101 (twins x y row) = [(x, row); (y, row)].
Proof.
  intros Hxy Hne. unfold sql_list. rewrite filter_every by (apply Forall_forall; done).
  replace (order_by _ _) with [(x, row); (y, row)]; [done |]. unfold twins. cbn [db_instances].
  assert (Hp : Permutation (map_to_list (<[x := row]> ({[y := row]} : gmap string InstanceRow))) [(x, row); (y, row)]).
  { rewrite map_to_list_insert by (by rewrite lookup_singleton_ne). by rewrite map_to_list_singleton. }
  assert (Hlt : keyset_ltb text_ltb (ri_created row, x) (ri_created row, y) = true) by (apply keyset_ltb_iff; right; by split).
  apply (StronglySorted_unique_strong (fun a b => keyset_leb text_ltb (instance_key a) (instance_key b) = true)).
  - intros a b Ha Hb H1 H2. unfold keyset_leb, instance_key in *.
    assert (Hcase : forall c, c ∈ [(x, row); (y, row)] -> c = (x, row) \/ c = (y, row)) by (intros c; rewrite !elem_of_cons, elem_of_nil; tauto).
    apply elem_of_order_by in Hb. rewrite Hp in Hb.
    destruct (Hcase a Ha) as [-> | ->], (Hcase b Hb) as [-> | ->]; try done; cbn [fst snd] in *; [by rewrite Hlt in H2 | by rewrite Hlt in H1].
  - repeat constructor. unfold keyset_leb, instance_key. cbn [fst snd]. apply negb_true_iff. apply not_true_is_false. intros H.
    pose proof (keyset_ltb_trans text_ltb _ _ _ Hlt H) as Hc. by rewrite (keyset_ltb_irrefl text_ltb) in Hc.
  - apply order_by_sorted; [intros; apply keyset_leb_total; apply _ | intros a b c; apply keyset_leb_trans; apply _].
  - by rewrite order_by_Permutation, Hp.
Qed.

Definition twin_row (t : Time) : InstanceRow := mkInstanceRow "order" "v1" sample_fingerprint 1 (canonicalTime t) (canonicalTime t) None.

Lemma twin_readable t name : precise stamp t -> IsZero t = false -> instanceIDPattern name = true -> readable stamp (name, twin_row t).
Proof.
  intros Hp Hz Hid. split; [| | done].
  - unfold scanInstanceRecord, twin_row. cbn [ri_sequence ri_name ri_version ri_fingerprint ri_created ri_updated ri_archived].
    change (NewDefinitionReference "order" "v1" sample_fingerprint) with (Ok (mkDefinitionReference "order" "v1" sample_fingerprint)).
    unfold NewInstanceRecord. cbn [rc_instanceID rc_definition rc_sequence rc_createdAt rc_updatedAt rc_archivedAt default from_option id].
    replace (instanceRecord_valid _) with true; [done |]. symmetry. unfold instanceRecord_valid.
    cbn [rc_instanceID rc_definition rc_sequence rc_createdAt rc_updatedAt rc_archivedAt].
    rewrite Hid, !canonicalTime_idem, IsZero_canonicalTime, Hz, Before_canonical_r by apply canonicalTime_canonical.
    rewrite instant_ltb_irrefl. vm_compute. done.
  - unfold precise, twin_row. cbn [snd ri_created]. unfold precise in Hp. rewrite (stamp_instant (Timestamps := Timestamps0) _ _ (canonicalTime_same t)).
    by rewrite Hp, canonicalTime_same.
Qed.

(** An order that disagrees with Go's on two identities refuses the page of both. *)
Lemma twins_refused x y t : precise stamp t -> IsZero t = false -> instanceIDPattern x = true -> instanceIDPattern y = true ->
  text_ltb x y = true -> String.ltb x y = false ->
  all_readable (twins x y (twin_row t)) /\ read_all ListAllInstances 100 (twins x y (twin_row t)) = None.
Proof.
  intros Hp Hz Hx Hy Ht Hs. assert (Hne : x <> y) by (intros ->; by rewrite (text_irreflexive y) in Ht).
  pose proof (twin_readable t x Hp Hz Hx) as Hrx. pose proof (twin_readable t y Hp Hz Hy) as Hry. split.
  - intros id row Hrow. unfold twins in Hrow. cbn [db_instances] in Hrow.
    apply lookup_insert_Some in Hrow as [[<- <-] | [_ [<- <-]%lookup_singleton_Some]]; done.
  - unfold read_all. cbn [pages]. replace (list_from _ _ _ _) with (@None (list InstanceRecord * InstanceListCursor * bool)); [done |].
    symmetry. unfold list_from, store_ListInstances. change (listQuery_Valid _) with true. cbn [negb ss_context quiet lq_selection lq_after lq_limit].
    unfold autoquery, autocommit, reading. cbn [ss_others ss_statement ss_rows quiet].
    change (cursorArguments _ _) with (@None (Time * string)). change (100 + 1) with 101. rewrite twins_listed by done.
    unfold scanAll. cbn [fst snd]. rewrite (scanRows_records stamp [(x, twin_row t); (y, twin_row t)]) by (rewrite !Forall_cons; split_and!; [exact Hrx | exact Hry | constructor]). cbn [mbind result_bind].
    change (cut 100 _) with (map record_of [(x, twin_row t); (y, twin_row t)], false). cbv beta iota.
    unfold NewInstanceListPage. change (_ || _ || _) with false. cbn [lq_after map listItems].
    destruct (readable_record stamp _ Hrx) as (_ & Hvx & Hix & _). destruct (readable_record stamp _ Hry) as (_ & Hvy & _).
    rewrite Hvx, Hvy, Hix. change (mkListCursor (rc_createdAt (record_of (x, twin_row t))) (x, twin_row t).1) with (instance_cursor (x, twin_row t)).
    rewrite (cursorBefore_key stamp) by done. cbn [negb orb].
    assert (Hkey : keyset_ltb String.ltb (instance_key (x, twin_row t)) (instance_key (y, twin_row t)) = false).
    { unfold keyset_ltb, instance_key. cbn [fst snd]. by rewrite instant_ltb_irrefl, Hs. }
    rewrite Hkey. reflexivity.
Qed.

Lemma text_asymmetric a b : text_ltb a b = true -> text_ltb b a = false.
Proof. intros H. apply not_true_is_false. intros H'. pose proof (text_transitive a b a H H') as Hc. by rewrite text_irreflexive in Hc. Qed.
End Orders.

(** ** Samples *)

Definition backwards (a b : string) : bool := String.ltb b a.

#[export] Instance backwards_order : TextOrder backwards.
Proof.
  unfold backwards. split.
  - apply string_ltb_irrefl.
  - intros a b c H1 H2. by eapply string_ltb_trans.
  - intros a b H1 H2. by apply string_ltb_total.
Qed.

(** ** Properties *)

(** C19: Listings are complete exactly when the database orders text as Go does. The
    listing of a selection holds exactly its instances, in strictly increasing order of
    creation time and identity; reading it page by page, each from the cursor the
    page before it gave, delivers exactly that listing, for every database whose rows
    read back and every page size, if and only if the order of the text columns agrees
    with the byte order on legal identities: under any other order some database cannot
    be read that way (see [twins_refused]: a legal page of two instances is refused). *)
Theorem instance_listing_exact stamp `{!Timestamps stamp} text_ltb `{!TextOrder text_ltb} kept :
  precise stamp kept -> IsZero kept = false ->
  (forall db selection, StronglySorted (key_lt instance_key) (listing selection db)
     /\ forall name row, (name, row) ∈ listing selection db <-> db_instances db !! name = Some row /\ selected selection row = true)
  /\ ((forall db selection limit, all_readable stamp db -> selection <> ListSelectionUndeclared -> 1 <= limit <= MaxInstanceListItems ->
         read_all stamp text_ltb selection limit db = Some (map record_of (listing selection db)))
      <-> agrees text_ltb).
Proof.
  intros Hp Hz. split.
  - intros db selection. split; [apply listing_strict |]. intros name row. unfold listing, by_key.
    rewrite list_elem_of_filter, elem_of_order_by, elem_of_map_to_list. cbn [snd]. tauto.
  - split; [| by intros; apply read_all_agrees].
    intros Hall a b Ha Hb. assert (Hno : forall x y, instanceIDPattern x = true -> instanceIDPattern y = true ->
      text_ltb x y = true -> String.ltb x y = false -> False).
    { intros x y Hx Hy Ht Hs. destruct (twins_refused stamp text_ltb x y kept Hp Hz Hx Hy Ht Hs) as [Hr Hn].
      rewrite (Hall _ ListAllInstances 100 Hr) in Hn; [done | done | unfold MaxInstanceListItems; lia]. }
    destruct (text_ltb a b) eqn:E1, (String.ltb a b) eqn:E2; try done; [by destruct (Hno a b) |].
    destruct (decide (a = b)) as [-> | Hne]; [by rewrite string_ltb_irrefl in E2 |].
    destruct (text_ltb b a) eqn:E3; [| by destruct Hne; apply (text_total a b)].
    destruct (Hno b a); try done. by apply (text_asymmetric String.ltb).
Qed.

(** In byte order everything is read; backwards, [a] and [b] are not. *)
Lemma instance_listing_exact_witness :
  read_all microseconds String.ltb ListAllInstances 1 (twins "b" "a" (twin_row (sample_time 1)))
    = Some (map record_of (listing ListAllInstances (twins "b" "a" (twin_row (sample_time 1)))))
  /\ ~ (forall db selection limit, all_readable microseconds db -> selection <> ListSelectionUndeclared -> 1 <= limit <= MaxInstanceListItems ->
         read_all microseconds backwards selection limit db = Some (map record_of (listing selection db))).
Proof.
  split.
  - apply (proj2 (proj2 (instance_listing_exact microseconds String.ltb (sample_time 1) (conj eq_refl eq_refl) eq_refl))); [done | | done | unfold MaxInstanceListItems; lia].
    intros name row Hrow. unfold twins in Hrow. cbn [db_instances] in Hrow.
    apply lookup_insert_Some in Hrow as [[<- <-] | [_ [<- <-]%lookup_singleton_Some]]; (apply (twin_readable microseconds); [split; reflexivity | reflexivity | reflexivity]).
  - intros H. apply (proj2 (instance_listing_exact microseconds backwards (sample_time 1) (conj eq_refl eq_refl) eq_refl)) in H.
    specialize (H "a"%string "b"%string eq_refl eq_refl). vm_compute in H. discriminate H.
Defined.
