(* ===== verification/PostgresInvariant.v ===== *)
(** * The store's invariant under leases and resolutions (postgres/store.go)

    The invariant of PostgresLog.v is kept by every operation, whatever fails in it,
    and a resolution has exactly its specified outcome. *)
From S2P Require Import Prelude GoTime Names Definitions Event.
From S2P Require Import Work Transition Store Administration DeadLetter Tables Statements.
From S2P Require Import PostgresCommit PostgresAppend PostgresLog PostgresStore PostgresWork PostgresAdmin PostgresFencing PostgresClaim.

(** ** Work rows *)

(** A change of the work table that follows the protocol keeps the invariant when it
    keeps the rows well formed. *)
Lemma set_work_wf db w :
  store_wf db -> store_step db (set_work db w) -> dom w = dom (db_work db) ->
  (forall id old row, db_work db !! id = Some old -> w !! id = Some row -> work_row_wf old -> work_row_wf row) ->
  store_wf (set_work db w).
Proof.
  intros [Hi Hh Ht Hw Hr] [_ _ _ Hstep] Hdom Hrows. split; try done.
  - intros id row Hrow. cbn [db_work set_work] in Hrow.
    assert (Hold : is_Some (db_work db !! id)) by (apply elem_of_dom; rewrite <- Hdom; by eapply elem_of_dom_2).
    destruct Hold as [old Hold]. destruct (Hw id old Hold) as [Hwf Hseq]. split; [by eapply Hrows |].
    destruct (Hstep id old Hold) as (row' & Hrow' & Hs). cbn [db_work set_work] in Hrow'. simplify_eq.
    change (sequence_of (set_work db w)) with (sequence_of db). by rewrite (rs_instance _ _ Hs), (rs_sequence _ _ Hs).
  - intros id row Hrow. destruct (Hr id row Hrow) as (old & Hold & Htok).
    destruct (Hstep _ _ Hold) as (row' & Hrow' & Hs). exists row'. split; [done |]. pose proof (rs_token _ _ Hs). lia.
Qed.

Lemma update_work_wf id condition write db :
  store_wf db -> (forall row, condition row = true -> row_step row (write row)) ->
  (forall row, condition row = true -> work_row_wf row -> work_row_wf (write row)) ->
  store_wf (sql_update_work id condition write db).2.
Proof.
  intros Hwf Hstep Hrow. pose proof (update_work_protocol id condition write db Hstep) as Hp. unfold sql_update_work in *.
  destruct (db_work db !! id) as [row |] eqn:E; [| done]. destruct (condition row) eqn:Hc; [| done].
  cbn [snd] in *. apply set_work_wf; [done | done | |].
  - rewrite dom_insert_L. apply elem_of_dom_2 in E. set_solver.
  - intros i old new Hold Hnew Hwo. destruct (decide (i = id)) as [-> | Hne].
    + rewrite lookup_insert_eq in Hnew. simplify_eq. by apply Hrow.
    + rewrite lookup_insert_ne in Hnew by done. by simplify_eq.
Qed.

Lemma open_not_completed row : work_row_wf row -> rw_state row = 1 \/ rw_state row = 2 -> rw_completed row = None.
Proof. intros [] Hs. apply eq_None_not_Some. intros Hc%wr_completed. lia. Qed.

Lemma claimed_row_wf now owner expires row : due now row = true -> work_row_wf row -> work_row_wf (claimed_row owner expires row).
Proof.
  intros Hd%due_open Hw. pose proof (open_not_completed row Hw Hd) as Hc. destruct Hw.
  split; cbn; try lia; [by split; [split; eauto |] | rewrite Hc; split; [lia | by intros []]].
Qed.

Lemma set_expires_wf expires row : rw_state row = 2 -> work_row_wf row -> work_row_wf (set_expires expires row).
Proof.
  intros Hs [? [Hl _] ? ? ? ? ?]. destruct (Hl Hs) as [Ho _]. by split; cbn; try done; try lia.
Qed.

Lemma release_wf state available code completed row :
  rw_state row = 2 -> work_row_wf row -> state = 1 \/ state = 3 \/ state = 4 ->
  (state = 3 \/ state = 4 <-> is_Some completed) -> work_row_wf (release state available code completed row).
Proof.
  intros Hs [] Hne Hc. specialize (wr_claimed ltac:(lia)). split; cbn; try done; try lia.
  split; [lia | by intros [[? ?] _]].
Qed.

Lemma retried_wf row available deadline : rw_state row = 4 -> work_row_wf row ->
  work_row_wf (mkWorkRow (rw_kind row) (rw_instance row) (rw_sequence row) available deadline
    (rw_payload row) (rw_tenant row) (rw_correlation row) 1 (rw_attempts row) None (rw_token row) None "" None).
Proof.
  intros Hs []. split; cbn; try done; try lia; split; try lia; [by intros [[? ?] _] | by intros [? ?]].
Qed.

(** ** Statements *)

Definition keeps {A} (f : Database -> result (A * Database)) : Prop :=
  forall db a db', store_wf db -> f db = Ok (a, db') -> store_wf db'.

Create HintDb invariant.

Lemma reading_keeps {A} (f : Database -> A) : keeps (reading f).
Proof. by intros db a db' H [= <- <-]. Qed.

Section Statements.
Context (stamp : Time -> Time) (text_ltb : string -> string -> bool).

Lemma claim_keeps now limit owner expires locked : keeps (sql_claimWork stamp text_ltb now limit owner expires locked).
Proof.
  intros db rows db' Hwf Hc. destruct (claim_domain _ _ _ _ _ _ _ _ _ _ Hc) as [Hdb Hdom].
  pose proof (claim_protocol _ _ _ _ _ _ _ _ _ _ Hc) as Hp. rewrite Hdb in Hp |- *. apply set_work_wf; try done.
  intros id old row Hold Hrow Hw. rewrite (claim_lookup _ _ _ _ _ _ _ _ _ _ _ _ Hc Hold) in Hrow. injection Hrow as <-.
  destruct (decide _) as [(_ & Hd & _)%candidates_spec |]; [by eapply claimed_row_wf | done].
Qed.

(** The write of one work row under the condition of its statement. *)
Ltac keeps_update := intros db a db' Hwf; cbv delta [sql_renewWork sql_completeWork sql_retryWork sql_deadLetterWork
  sql_retryDeadLetter] beta; repeat (destruct (negb _); [done |]); intros [= H]; symmetry in H;
  replace db' with (a, db').2 by done; rewrite H; apply update_work_wf; [done | |].

Lemma renewWork_keeps id owner token expires now : keeps (sql_renewWork stamp id owner token expires now).
Proof.
  keeps_update.
  - intros row [(Hs & _ & _)%fenced_state _]%andb_true_iff. by split; cbn; try done; lia.
  - intros row [(Hs & _ & _)%fenced_state _]%andb_true_iff. by apply set_expires_wf.
Qed.

Ltac keeps_release := keeps_update; intros row (Hs & _ & _)%fenced_state;
  [by apply release_step | intros Hw; apply release_wf; [done | done | lia |]].

Lemma completeWork_keeps id owner token at_ : keeps (sql_completeWork stamp id owner token at_).
Proof. keeps_release. split; [by eexists | lia]. Qed.

Lemma retryWork_keeps id owner token code retryAt failedAt : keeps (sql_retryWork stamp id owner token code retryAt failedAt).
Proof. keeps_release. rewrite open_not_completed by auto. split; [lia | by intros []]. Qed.

Lemma deadLetterWork_keeps id owner token code failedAt : keeps (sql_deadLetterWork stamp id owner token code failedAt).
Proof. keeps_release. split; [by eexists | lia]. Qed.

(** ** Resolutions *)

Definition recorded (r : DeadLetterResolution) (db : Database) : Prop :=
  exists row, db_resolutions db !! dl_commandID r = Some row /\ rr_fingerprint row = dl_fingerprint r.

(** The work is a dead letter under the fence of the resolution. *)
Definition fenced_dead (r : DeadLetterResolution) (db : Database) : Prop :=
  exists row, db_work db !! dl_workID r = Some row /\ rw_state row = 4 /\ rw_token row = dl_token r.

Definition resolution_row (r : DeadLetterResolution) : ResolutionRow :=
  mkResolutionRow (dl_fingerprint r) (dl_workID r) (dl_token r) (DeadLetterResolutionAction_code (dl_action r))
    (dl_actor r) (dl_reason r) (stamp (dl_occurredAt r)) (nullableTime stamp (dl_retryAt r)) (nullableTime stamp (dl_deadline r)).

Definition retried (r : DeadLetterResolution) (row : WorkRow) : WorkRow :=
  mkWorkRow (rw_kind row) (rw_instance row) (rw_sequence row) (stamp (dl_retryAt r)) (stamp (dl_deadline r))
    (rw_payload row) (rw_tenant row) (rw_correlation row) 1 (rw_attempts row) None (rw_token row) None "" None.

(** The audit row and, for a retry, the row back in admission. *)
Definition applied (r : DeadLetterResolution) (db : Database) : Database :=
  let audited := set_resolutions db (<[dl_commandID r := resolution_row r]> (db_resolutions db)) in
  if bool_decide (dl_action r = DeadLetterRetry)
  then set_work audited (alter (retried r) (dl_workID r) (db_work db)) else audited.

Record resolvable (r : DeadLetterResolution) (db : Database) : Prop := {
  rv_new : db_resolutions db !! dl_commandID r = None;
  rv_dead : fenced_dead r db;
  rv_open : resolved (dl_workID r) (dl_token r) db = false;
  rv_token : 0 < dl_token r <= maxPostgreSQLSequence
}.

Lemma lockDeadLetter_spec r db locked : sql_lockDeadLetter (dl_workID r) (dl_token r) db = Ok locked ->
  dl_token r <= maxPostgreSQLSequence /\ (is_Some locked <-> fenced_dead r db).
Proof.
  unfold sql_lockDeadLetter, bigint_fits. destruct (negb _) eqn:Hf; [done |]. intros [= <-].
  apply negb_false_iff, Z.leb_le in Hf. split; [done |]. unfold fenced_dead.
  destruct (db_work db !! dl_workID r) as [row |]; [| by split; [intros [] | intros (? & ? & _)]].
  destruct (_ && _) eqn:E.
  - apply andb_true_iff in E as [Hs%Z.eqb_eq Ht%Z.eqb_eq]. split; [by exists row | by eexists].
  - apply andb_false_iff in E as [E%Z.eqb_neq | E%Z.eqb_neq]; (split; [by intros [] | intros (? & ? & ? & ?); naive_solver]).
Qed.

Lemma insertResolution_spec r db inserted db' : sql_insertResolution stamp r db = Ok (inserted, db') ->
  0 < dl_token r
  /\ match inserted with
     | Some fingerprint => fingerprint = dl_fingerprint r /\ db_resolutions db !! dl_commandID r = None
         /\ resolved (dl_workID r) (dl_token r) db = false
         /\ db' = set_resolutions db (<[dl_commandID r := resolution_row r]> (db_resolutions db))
     | None => db' = db /\ (is_Some (db_resolutions db !! dl_commandID r) \/ resolved (dl_workID r) (dl_token r) db = true)
     end.
Proof.
  unfold sql_insertResolution. fold (resolution_row r). destruct (negb (bigint_fits _)); [done |].
  destruct (_ || negb _) eqn:Hc; [done |]. apply orb_false_iff in Hc as [[_ Ht%Z.leb_gt]%orb_false_iff _].
  cbn [rr_token resolution_row] in Ht. cbn [rr_work rr_token rr_fingerprint resolution_row].
  destruct (bool_decide _ || _) eqn:Hx.
  - intros [= <- <-]. split; [lia |]. split; [done |].
    apply orb_true_iff in Hx as [Hx%bool_decide_eq_true |]; auto.
  - destruct (negb _); [done |]. intros [= <- <-]. apply orb_false_iff in Hx as [Hx%bool_decide_eq_false Hr].
    split; [lia |]. split_and!; [done | by apply eq_None_not_Some | done | done].
Qed.
End Statements.

#[export] Hint Resolve reading_keeps claim_keeps renewWork_keeps completeWork_keeps retryWork_keeps deadLetterWork_keeps
  : invariant.

Section Resolution.
Context (stamp : Time -> Time).

Lemma audited_wf r db : store_wf db -> resolvable r db ->
  store_wf (set_resolutions db (<[dl_commandID r := resolution_row stamp r]> (db_resolutions db))).
Proof.
  intros [] [Hnew (row & Hrow & Hs & Ht) Hopen Htok]. split; try done. intros id x Hx. cbn [db_resolutions set_resolutions] in Hx.
  destruct (decide (id = dl_commandID r)) as [-> | Hne].
  - rewrite lookup_insert_eq in Hx. injection Hx as <-. exists row. cbn. split; [done | lia].
  - rewrite lookup_insert_ne in Hx by done. by apply sw_resolutions in Hx.
Qed.

(** The retry statement finds the dead letter it locked. *)
Lemma retryDeadLetter_spec r db : fenced_dead r db ->
  sql_retryDeadLetter stamp (dl_workID r) (dl_token r) (dl_retryAt r) (dl_deadline r) db
  = Ok (retried stamp r <$> db_work db !! dl_workID r, set_work db (alter (retried stamp r) (dl_workID r) (db_work db))).
Proof.
  intros (row & Hrow & Hs & Ht).
  assert (Hm : alter (retried stamp r) (dl_workID r) (db_work db) = <[dl_workID r := retried stamp r row]> (db_work db)).
  { apply map_eq. intros i. destruct (decide (i = dl_workID r)) as [-> | Hne].
    - rewrite lookup_insert_eq, lookup_alter_eq, Hrow. done.
    - rewrite lookup_insert_ne, lookup_alter_ne by done. done. }
  rewrite Hm. unfold sql_retryDeadLetter, sql_update_work. rewrite Hrow.
  rewrite (proj2 (Z.eqb_eq _ _) Hs), (proj2 (Z.eqb_eq _ _) Ht). done.
Qed.

Lemma applied_wf r db : store_wf db -> resolvable r db -> store_wf (applied stamp r db).
Proof.
  intros Hwf Hr. pose proof (audited_wf r db Hwf Hr) as Ha. unfold applied.
  destruct (bool_decide _) eqn:Hact; [| done]. destruct Hr as [_ (row & Hrow & Hs & Ht) _ _].
  set (audited := set_resolutions db _) in *.
  assert (Hfd : fenced_dead r audited) by by exists row.
  pose proof (retryDeadLetter_spec r audited Hfd) as Hq. unfold sql_retryDeadLetter in Hq. injection Hq as Hq.
  apply (f_equal snd) in Hq. cbn [snd] in Hq. change (db_work audited) with (db_work db) in Hq. rewrite <- Hq.
  apply update_work_wf; [done | |].
  - intros x Hx. apply andb_true_iff in Hx as [Hx%Z.eqb_eq _]. by split; cbn; try done; lia.
  - intros x Hx. apply andb_true_iff in Hx as [Hx%Z.eqb_eq _]. by apply retried_wf.
Qed.

(** No other session runs between the statements; any of them may fail. *)
Definition solo (session : Session) : Prop := forall n db, ss_others session n db = db.

Definition resolve_post (r : DeadLetterResolution) (db : Database) (res : result bool) (tx : Tx) : Prop :=
  tx_shared tx = db /\ match res with
  | Ok false => recorded r db
  | Ok true => resolvable r db /\ tx_db tx = applied stamp r db
  | Err e => exists cause, e = notCommitted cause
  end.

Lemma post_solo {A} session (f : Database -> result (A * Database)) shared db n (Q : result A -> Tx -> Prop) :
  solo session ->
  (forall e, Q (Err (notCommitted e)) (mkTx shared db (S n))) ->
  (forall a db', f db = Ok (a, db') -> Q (Ok a) (mkTx shared db' (S n))) ->
  post (or_not_committed (statement session f)) (mkTx shared db n) Q.
Proof.
  intros Hq He Ho. apply post_not_committed, post_statement; cbn [tx_count tx_shared tx_db]; rewrite !Hq; done.
Qed.

Lemma post_exact session r shared db n (Q : result bool -> Tx -> Prop) :
  solo session ->
  (forall e, Q (Err (notCommitted e)) (mkTx shared db (S n))) ->
  (recorded r db -> Q (Ok true) (mkTx shared db (S n))) ->
  (db_resolutions db !! dl_commandID r = None -> Q (Ok false) (mkTx shared db (S n))) ->
  post (or_not_committed (exactDeadLetterResolution session r)) (mkTx shared db n) Q.
Proof.
  intros Hq He Ht Hf. apply post_not_committed, post_bind, post_statement; cbn [tx_count tx_shared tx_db]; rewrite !Hq; [done |].
  unfold reading, sql_findResolution. intros found db' [= <- <-].
  destruct (db_resolutions db !! dl_commandID r) as [row |] eqn:E; cbn [fmap option_fmap option_map]; [| by apply post_ret, Hf].
  destruct (negb _) eqn:Hfp; [apply He |]. apply negb_false_iff, bool_decide_eq_true in Hfp. apply post_ret, Ht. by exists row.
Qed.

Lemma resolve_outcome session r db : solo session ->
  post (resolveDeadLetter stamp session r) (mkTx db db 0) (resolve_post r db).
Proof.
  intros Hq. unfold resolveDeadLetter. apply post_bind, post_exact; [done | by intros e; split; [| exists e] | |].
  { intros Hr. by apply post_ret. }
  intros Hnew. apply post_bind, post_solo; [done | by intros e; split; [| exists e] |].
  intros locked db' Hl. destruct (sql_lockDeadLetter _ _ db) as [l | e] eqn:El; [| done]. cbn in Hl. injection Hl as -> <-.
  apply lockDeadLetter_spec in El as [Hfit Hdead]. destruct locked as [id |]; [| by split; [| eexists]].
  pose proof (proj1 Hdead ltac:(by eexists)) as Hfd. clear Hdead.
  apply post_bind, post_solo; [done | by intros e; split; [| exists e] |].
  intros inserted db' Hi. apply insertResolution_spec in Hi as [Htok Hi]. destruct inserted as [fingerprint |].
  - destruct Hi as (-> & _ & Hopen & ->). rewrite bool_decide_eq_true_2 by done. cbn [negb].
    assert (Hr : resolvable r db) by by split.
    destruct (bool_decide (dl_action r = DeadLetterRetry)) eqn:Hact.
    + apply post_bind, post_solo; [done | by intros e; split; [| exists e] |].
      intros updated db' Hu. rewrite retryDeadLetter_spec in Hu by done. injection Hu as <- <-.
      destruct Hfd as (row & Hrow & _). cbn [db_work set_resolutions]. rewrite Hrow. cbn [fmap option_fmap option_map].
      apply post_ret. split; [done |]. split; [done |]. unfold applied. by rewrite Hact.
    + apply post_ret. split; [done |]. split; [done |]. unfold applied. by rewrite Hact.
  - destruct Hi as [-> _]. apply post_bind, post_exact; [done | by intros e; split; [| exists e] | |].
    + intros Hr. by apply post_ret.
    + intros _. by split; [| eexists].
Qed.
End Resolution.

(** ** Calls *)

Section Calls.
Context (stamp : Time -> Time) (text_ltb : string -> string -> bool).

(** A transition comes from [NewTransition] over constructed events and work. *)
Definition legal (call : StoreCall) : Prop := match call with CallCommit t => plan_wf t | _ => True end.

Lemma autocommit_keeps {A} session n (f : Database -> result (A * Database)) db :
  solo session -> keeps f -> store_wf db -> store_wf (autocommit session n f db).2.
Proof.
  intros Hs Hf Hwf. unfold autocommit. rewrite Hs. destruct (ss_statement session n) as [[cause []] |]; cbn [snd]; try done;
    destruct (f db) as [[a db'] | e] eqn:E; try done; by eapply Hf.
Qed.

Lemma autoquery_keeps {A} session n (f : Database -> result (list A * Database)) db :
  solo session -> keeps f -> store_wf db -> store_wf (autoquery session n f db).2.
Proof.
  intros Hs Hf Hwf. pose proof (autocommit_keeps session n f db Hs Hf Hwf) as H. unfold autoquery.
  destruct (autocommit session n f db) as [[rows | e] db']; [| done].
  destruct (ss_rows session n) as [[[arrived cause] []] |]; cbn [snd]; try done. by rewrite Hs.
Qed.

Lemma fencedExec_keeps session f operation db :
  solo session -> keeps f -> store_wf db -> store_wf (fencedExec session f operation db).2.
Proof.
  intros Hs Hf Hwf. unfold fencedExec, databaseExec. destruct (ss_begin session); [done |].
  unfold statement. cbn [tx_count tx_shared tx_db]. rewrite !Hs. destruct (ss_statement session 0) as [[cause applied] |]; [done |].
  destruct (f db) as [[answer db'] | e] eqn:E; [| done].
  destruct (ss_commit session) as [| cause []]; cbn [tx_db tx_shared]; destruct answer; cbn [snd]; try done; by eapply Hf.
Qed.

Lemma store_Commit_keeps session t db : solo session -> plan_wf t -> store_wf db -> store_wf (store_Commit stamp session t db).2.
Proof.
  intros Hs Hp Hwf. destruct (store_Commit stamp session t db) as [err db'] eqn:H.
  pose proof (commit_outcome stamp session t db (fun n x _ => Hs n x) err db' H) as Ho. cbn [snd].
  assert (Hv : locked_view session db = db) by (unfold locked_view, first_view; by rewrite !Hs).
  assert (Hu : forall x, untouched session db x -> store_wf x).
  { intros x [-> | [-> | ->]]; [done | unfold first_view; by rewrite Hs | by rewrite Hv]. }
  assert (Ha : forall x, appends stamp session t db x -> store_wf x).
  { intros x [Ha ->]. rewrite Hv in *. by apply appended_wf. }
  destruct err as [e |]; [destruct (StoreCommitOutcomeOf (Some e)) |]; naive_solver congruence.
Qed.

Lemma store_Resolve_keeps session r db : solo session -> store_wf db -> store_wf (store_ResolveDeadLetter stamp session r db).2.
Proof.
  intros Hs Hwf. unfold store_ResolveDeadLetter. destruct (negb _); [done |].
  destruct (ss_context session); [done |]. destruct (ss_begin session); [done |].
  destruct (resolve_outcome stamp session r db Hs) as [Hsh Hres].
  destruct (resolveDeadLetter stamp session r _) as [[[] | e] tx]; cbn [fst snd] in *; rewrite ?Hsh; try done.
  destruct Hres as [Hr Htx]. rewrite Htx. destruct (ss_commit session) as [| cause []]; cbn [snd]; try done; by apply applied_wf.
Qed.

Ltac keep Hs Hwf :=
  repeat match goal with
  | |- context [autocommit ?session ?n ?f ?db] =>
      let H := fresh "Hkept" in
      pose proof (autocommit_keeps session n f db Hs ltac:(auto with invariant) ltac:(assumption)) as H;
      destruct (autocommit session n f db) as [[] ?]; cbn [snd] in H
  | |- context [autoquery ?session ?n ?f ?db] =>
      let H := fresh "Hkept" in
      pose proof (autoquery_keeps session n f db Hs ltac:(auto with invariant) ltac:(assumption)) as H;
      destruct (autoquery session n f db) as [[] ?]; cbn [snd] in H
  | |- context [match ?x with Some _ => _ | None => _ end] => destruct x
  | |- context [if ?b then _ else _] => destruct b
  end; cbn [snd]; try done.

Lemma run_call_keeps session call db :
  solo session -> legal call -> store_wf db -> store_wf (run_call stamp text_ltb session call db).
Proof.
  intros Hs Hl Hwf. destruct call; cbn [run_call legal] in *.
  - by apply store_Commit_keeps.
  - unfold store_Claim. keep Hs Hwf.
  - unfold store_Renew. keep Hs Hwf.
  - unfold store_Complete. destruct (negb _); [done |]. destruct (ss_context session); [done |].
    apply fencedExec_keeps; auto with invariant.
  - unfold store_Fail. destruct (negb _); [done |]. destruct (ss_context session); [done |].
    destruct (bool_decide _); apply fencedExec_keeps; auto with invariant.
  - by apply store_Resolve_keeps.
  - unfold store_History. keep Hs Hwf.
  - unfold store_ReconcileTransition. keep Hs Hwf.
  - unfold store_ListInstances. keep Hs Hwf.
  - unfold store_ListDeadLetters. keep Hs Hwf.
Qed.

Lemma run_calls_keep trace : forall db,
  Forall (fun entry => solo entry.1 /\ legal entry.2) trace -> store_wf db -> store_wf (run_calls stamp text_ltb trace db).
Proof.
  induction trace as [| [session call] trace IH]; intros db; [done |]. intros [[Hs Hl] Hrest]%Forall_cons Hwf.
  cbn [run_calls fst snd] in *. apply IH; [done | by apply run_call_keeps].
Qed.
End Calls.
