(* ===== verification/PostgresLeases.v ===== *)
(** * Leases, fencing and resolutions: the theorems (postgres/store.go) *)
From S2P Require Import Prelude GoTime Names Definitions Event.
From S2P Require Import Work Transition Store Administration DeadLetter Tables Statements.
From S2P Require Import PostgresCommit PostgresAppend PostgresLog PostgresStore PostgresWork PostgresAdmin.
From S2P Require Import PostgresFencing PostgresClaim PostgresInvariant PostgresDurability Sha256 Samples ReplayProperties.

(** ** Superseded leases *)

(** The work exists and its fence has moved past the token, or it is done. *)
Definition superseded (id : string) (token : Z) (db : Database) : Prop :=
  exists row, db_work db !! id = Some row /\ (token < rw_token row \/ rw_state row = 3).

Lemma superseded_step id token db db' : store_step db db' -> superseded id token db -> superseded id token db'.
Proof.
  intros Hs (row & Hrow & Ht). destruct (ss_work _ _ Hs _ _ Hrow) as (row' & Hrow' & Hr). exists row'. split; [done |].
  destruct Ht as [Ht | Hd]; [left; pose proof (rs_token _ _ Hr); lia | right; by rewrite (rs_done _ _ Hr Hd)].
Qed.

Lemma superseded_update id owner token now condition write db :
  superseded id token db -> (forall row, condition row = true -> fenced owner token now row = true) ->
  sql_update_work id condition write db = (None, db).
Proof.
  intros (row & Hrow & Ht) Hc. unfold sql_update_work. rewrite Hrow. destruct (condition row) eqn:E; [| done].
  apply Hc, fenced_state in E as (Hs & _ & Heq). lia.
Qed.

(** A statement that finds no row to write, or refuses its arguments. *)
Definition refuses (f : Database -> result (option WorkRow * Database)) (db : Database) : Prop :=
  f db = Ok (None, db) \/ exists e, f db = Err e.

Lemma refuses_update id owner token now condition write db :
  superseded id token db -> (forall row, condition row = true -> fenced owner token now row = true) ->
  refuses (fun db => reject negb (bigint_fits token) with DriverError "bigint"; Ok (sql_update_work id condition write db)) db.
Proof.
  intros Hs Hc. unfold refuses. destruct (negb _); [right; by eexists | left]. by erewrite superseded_update.
Qed.

Section Refused.
Context (stamp : Time -> Time) (session : Session) (db : Database).

(** No success, and no change but those of other sessions. *)
Definition rejected {A} (success : A -> Prop) (answer : A * Database) : Prop :=
  ~ success answer.1 /\ (answer.2 = db \/ answer.2 = ss_others session 0 db).

Lemma fencedExec_refused f operation :
  refuses f (ss_others session 0 db) ->
  rejected (fun err => err = None) (fencedExec session f operation db)
  /\ (session = quiet -> f db = Ok (None, db) -> fencedExec session f operation db = (Some ErrStaleWorkLease, db)).
Proof.
  intros Hr. split.
  - unfold fencedExec, databaseExec. destruct (ss_begin session); [by split; [| left] |].
    unfold statement. cbn [tx_count tx_shared tx_db]. destruct (ss_statement session 0) as [[cause applied] |]; [by split; [| right] |].
    destruct Hr as [-> | [e ->]]; [| by split; [| right]].
    destruct (ss_commit session) as [| cause []]; by split; [| right].
  - intros -> Hf. unfold fencedExec, databaseExec, statement. cbn [ss_begin ss_statement ss_others ss_commit quiet tx_count tx_db tx_shared].
    by rewrite Hf.
Qed.

Lemma complete_refused completion :
  superseded (co_workID completion) (co_token completion) (ss_others session 0 db) ->
  rejected (fun err => err = None) (store_Complete stamp session completion db).
Proof.
  intros Hs. unfold store_Complete. destruct (negb _); [by split; [| left] |].
  destruct (ss_context session); [by split; [| left] |].
  apply fencedExec_refused. by eapply refuses_update.
Qed.

Lemma fail_refused failure :
  superseded (fa_workID failure) (fa_token failure) (ss_others session 0 db) ->
  rejected (fun err => err = None) (store_Fail stamp session failure db).
Proof.
  intros Hs. unfold store_Fail. destruct (negb _); [by split; [| left] |].
  destruct (ss_context session); [by split; [| left] |].
  destruct (bool_decide _); apply fencedExec_refused; by eapply refuses_update.
Qed.

Lemma renew_refused renewal :
  superseded (rn_workID renewal) (rn_token renewal) (ss_others session 0 db) ->
  rejected (fun r => is_ok r = true) (store_Renew stamp session renewal db).
Proof.
  intros Hs. unfold store_Renew. destruct (negb _); [by split; [| left] |].
  destruct (ss_context session); [by split; [| left] |].
  assert (Hr : refuses (sql_renewWork stamp (rn_workID renewal) (rn_owner renewal) (rn_token renewal)
    (Add (rn_now renewal) (rn_extendBy renewal)) (rn_now renewal)) (ss_others session 0 db)).
  { apply (refuses_update _ (rn_owner renewal) _ (stamp (rn_now renewal))); [done |]. by intros row [H _]%andb_true_iff. }
  unfold autocommit. destruct (ss_statement session 0) as [[cause []] |].
  - destruct Hr as [-> | [e ->]]; by split; [| right].
  - by split; [| right].
  - destruct Hr as [-> | [e ->]]; by split; [| right].
Qed.
End Refused.

(** ** Resolutions *)

(** The specification of a resolution, on tables no one else writes. *)
Inductive resolution_spec (stamp : Time -> Time) (r : DeadLetterResolution) (db : Database) : option GoError -> Database -> Prop :=
  | ResolutionReplayed : recorded r db -> resolution_spec stamp r db None db
  | ResolutionReused row : db_resolutions db !! dl_commandID r = Some row -> rr_fingerprint row <> dl_fingerprint r ->
      resolution_spec stamp r db (Some (notCommitted ErrStoreConflict)) db
  | ResolutionStale : db_resolutions db !! dl_commandID r = None -> ~ fenced_dead r db ->
      resolution_spec stamp r db (Some (notCommitted ErrStaleWorkLease)) db
  | ResolutionTaken : db_resolutions db !! dl_commandID r = None -> fenced_dead r db ->
      resolved (dl_workID r) (dl_token r) db = true -> resolution_spec stamp r db (Some (notCommitted ErrStoreConflict)) db
  | ResolutionApplied : resolvable r db -> resolution_spec stamp r db None (applied stamp r db).

(** The times of a resolution, as the columns keep them, still satisfy the schema. *)
Record storable (stamp : Time -> Time) (r : DeadLetterResolution) : Prop := {
  sr_token : 0 < dl_token r <= maxPostgreSQLSequence;
  sr_check : match nullableTime stamp (dl_retryAt r), nullableTime stamp (dl_deadline r) with
             | Some retryAt, Some deadline => dl_action r = DeadLetterRetry
                 /\ instant_ltb retryAt (stamp (dl_occurredAt r)) = false /\ instant_ltb retryAt deadline = true
             | None, None => dl_action r = DeadLetterDiscard
             | _, _ => False
             end
}.

Lemma resolution_fingerprint_length r : resolution_Valid r = true -> slen (dl_fingerprint r) = 64.
Proof.
  unfold resolution_Valid. intros [_ ->%bool_decide_eq_true]%andb_true_iff. unfold deadLetterResolutionFingerprint.
  apply fingerprint_slen, sha256_hex_fingerprint.
Qed.

Lemma storable_insert stamp r db : storable stamp r -> resolution_Valid r = true -> fenced_dead r db ->
  sql_insertResolution stamp r db
  = Ok (if bool_decide (is_Some (db_resolutions db !! dl_commandID r)) || resolved (dl_workID r) (dl_token r) db
        then (None, db)
        else (Some (dl_fingerprint r), set_resolutions db (<[dl_commandID r := resolution_row stamp r]> (db_resolutions db)))).
Proof.
  intros [Ht Hc] Hv (row & Hrow & _). unfold sql_insertResolution. fold (resolution_row stamp r). unfold bigint_fits.
  rewrite (proj2 (Z.leb_le _ _)) by lia. cbn [negb]. cbn [rr_fingerprint rr_token rr_retry rr_deadline rr_action rr_occurred rr_work resolution_row].
  rewrite resolution_fingerprint_length by done. rewrite (proj2 (Z.leb_gt _ _)) by lia.
  destruct (nullableTime stamp (dl_retryAt r)) as [retryAt |], (nullableTime stamp (dl_deadline r)) as [deadline |]; try done.
  - destruct Hc as (-> & -> & ->). cbn [Z.eqb negb andb orb DeadLetterResolutionAction_code Pos.eqb].
    destruct (_ || resolved _ _ _); [done |]. by rewrite Hrow, bool_decide_eq_true_2 by by eexists.
  - rewrite Hc. cbn [Z.eqb negb andb orb DeadLetterResolutionAction_code Pos.eqb].
    destruct (_ || resolved _ _ _); [done |]. by rewrite Hrow, bool_decide_eq_true_2 by by eexists.
Qed.

Lemma quiet_exact r shared db n :
  or_not_committed (exactDeadLetterResolution quiet r) (mkTx shared db n)
  = match db_resolutions db !! dl_commandID r with
    | None => (Ok false, mkTx shared db (S n))
    | Some row => (if bool_decide (rr_fingerprint row = dl_fingerprint r) then Ok true else Err (notCommitted ErrStoreConflict),
        mkTx shared db (S n))
    end.
Proof.
  unfold or_not_committed, exactDeadLetterResolution. rewrite (bind_Ok _ _ _ _ _ (quiet_read _ _ _ _)). unfold sql_findResolution.
  destruct (db_resolutions db !! dl_commandID r) as [row |]; cbn [fmap option_fmap option_map]; [| done].
  by destruct (bool_decide _).
Qed.

Lemma quiet_lockDeadLetter r shared db n : dl_token r <= maxPostgreSQLSequence ->
  exists locked, or_not_committed (statement quiet (fun db =>
      locked ← sql_lockDeadLetter (dl_workID r) (dl_token r) db; Ok (locked, db))) (mkTx shared db n)
    = (Ok locked, mkTx shared db (S n)) /\ (is_Some locked <-> fenced_dead r db).
Proof.
  intros Ht. rewrite quiet_wrapped. destruct (sql_lockDeadLetter (dl_workID r) (dl_token r) db) as [locked | e] eqn:El.
  - exists locked. split; [done |]. by apply lockDeadLetter_spec in El as [_ ?].
  - unfold sql_lockDeadLetter, bigint_fits in El. by rewrite (proj2 (Z.leb_le _ _)) in El by lia.
Qed.

(** The body of the transaction, when nothing fails. *)
Lemma quiet_resolve stamp r db : storable stamp r -> resolution_Valid r = true ->
  exists n, match resolveDeadLetter stamp quiet r (mkTx db db 0) with
  | (Ok true, tx) => resolvable r db /\ tx = mkTx db (applied stamp r db) n
  | (Ok false, tx) => recorded r db /\ tx = mkTx db db n
  | (Err e, tx) => resolution_spec stamp r db (Some e) db /\ tx_shared tx = db
  end.
Proof.
  intros Hst Hv. unfold resolveDeadLetter. pose proof (quiet_exact r db db 0) as He.
  destruct (db_resolutions db !! dl_commandID r) as [row |] eqn:E.
  { destruct (bool_decide _) eqn:Hf; [rewrite (bind_Ok _ _ _ _ _ He) | rewrite (bind_Err _ _ _ _ _ He)].
    - exists 1%nat. split; [| done]. exists row. by apply bool_decide_eq_true in Hf.
    - exists 0%nat. split; [| done]. apply bool_decide_eq_false in Hf. by eapply ResolutionReused. }
  rewrite (bind_Ok _ _ _ _ _ He).
  destruct (quiet_lockDeadLetter r db db 1 ltac:(apply Hst)) as (locked & Hl & Hd). rewrite (bind_Ok _ _ _ _ _ Hl).
  destruct locked as [id |]; [| exists 0%nat; split; [apply ResolutionStale; [done | by intros []%Hd] | done]].
  pose proof (proj1 Hd ltac:(by eexists)) as Hfd.
  pose proof (quiet_wrapped (sql_insertResolution stamp r) db db 2) as Hi.
  rewrite storable_insert, E, bool_decide_eq_false_2 in Hi by (done || by intros []). cbn [orb] in Hi.
  destruct (resolved (dl_workID r) (dl_token r) db) eqn:Hres; rewrite (bind_Ok _ _ _ _ _ Hi).
  { pose proof (quiet_exact r db db 3) as He'. rewrite E in He'. rewrite (bind_Ok _ _ _ _ _ He').
    exists 0%nat. split; [by apply ResolutionTaken | done]. }
  rewrite bool_decide_eq_true_2 by done. cbn [negb].
  assert (Hr : resolvable r db) by (split; try done; apply Hst).
  unfold applied. destruct (bool_decide (dl_action r = DeadLetterRetry)) eqn:Hact; [| by exists 3%nat].
  set (audited := set_resolutions db _). assert (Hfa : fenced_dead r audited) by exact Hfd.
  pose proof (quiet_wrapped (sql_retryDeadLetter stamp (dl_workID r) (dl_token r) (dl_retryAt r) (dl_deadline r)) db audited 3) as Hu.
  rewrite retryDeadLetter_spec in Hu by done. rewrite (bind_Ok _ _ _ _ _ Hu).
  destruct Hfd as (row & Hrow & _). change (db_work audited) with (db_work db). rewrite Hrow. by exists 4%nat.
Qed.

Lemma resolve_runs stamp r db : storable stamp r -> resolution_Valid r = true ->
  resolution_spec stamp r db (store_ResolveDeadLetter stamp quiet r db).1 (store_ResolveDeadLetter stamp quiet r db).2.
Proof.
  intros Hst Hv. unfold store_ResolveDeadLetter. rewrite Hv. cbn [negb ss_context ss_begin ss_commit quiet].
  destruct (quiet_resolve stamp r db Hst Hv) as [n Hn].
  destruct (resolveDeadLetter stamp quiet r (mkTx db db 0)) as [[[] | e] tx]; destruct Hn as [Hs Htx]; cbn [fst snd].
  - rewrite Htx. by apply ResolutionApplied.
  - rewrite Htx. by apply ResolutionReplayed.
  - by rewrite Htx.
Qed.

Lemma recorded_step r db db' : store_step db db' -> recorded r db -> recorded r db'.
Proof. intros Hs (row & Hrow & Hf). exists row. split; [| done]. by eapply lookup_weaken, ss_resolutions. Qed.

(** The exact command again, after any calls: nil and no change. *)
Lemma recorded_replays stamp r db : resolution_Valid r = true -> recorded r db ->
  store_ResolveDeadLetter stamp quiet r db = (None, db).
Proof.
  intros Hv (row & Hrow & Hf). unfold store_ResolveDeadLetter. rewrite Hv. cbn [negb ss_context ss_begin ss_commit quiet].
  unfold resolveDeadLetter, exactDeadLetterResolution, or_not_committed.
  unfold mbind, tx_bind, mret, tx_ret, tx_fail, statement, reading, sql_findResolution.
  cbn [ss_others ss_statement quiet tx_count tx_shared tx_db]. rewrite Hrow. cbn [fmap option_fmap option_map].
  by rewrite bool_decide_eq_true_2.
Qed.

(** ** Samples *)

Definition claim_at (owner : string) (now : Z) : WorkClaimRequest := mkClaimRequest owner (sample_time now) 10000000000 5.
Definition completion_of (owner : string) (token now : Z) : WorkCompletion := mkCompletion "work-1" owner token (sample_time now).

(** One worker claims the sample work, its lease expires and another claims it. *)
Definition takeover : list (Session * StoreCall) :=
  [(quiet, CallClaim (claim_at "worker-a" 2)); (quiet, CallClaim (claim_at "worker-b" 20))].

(** The claim of a session whose answer is lost on the way. *)
Definition claim_lost : Session :=
  mkSession None None (fun _ => None) (fun _ => Some (0%nat, DriverError "reset", true)) (fun _ db => db) ∅ CommitAcknowledged.

Definition dead_trace : list (Session * StoreCall) :=
  [(quiet, CallClaim (claim_at "worker-a" 2));
   (quiet, CallFail (mkFailure "work-1" "worker-a" 1 (sample_time 3) "poison" WorkDeadLetter zeroTime))].

Definition retry_spec : DeadLetterResolutionSpec :=
  mkResolutionSpec "cmd-1" "work-1" 1 DeadLetterRetry "operator" "fixed" (sample_time 5) (sample_time 6) (sample_time 90).
Definition retry_resolution : DeadLetterResolution :=
  or_zero (mkResolution "" "" 0 DeadLetterActionUndeclared "" "" zeroTime zeroTime zeroTime "") (NewDeadLetterResolution retry_spec).

Lemma cooperative_solo session : solo session -> cooperative session.
Proof. intros Hs n db. by rewrite Hs. Qed.

(** ** Properties *)



(** C2: A superseded lease is powerless: once the work's fence has moved past a token, or
    the work is done, then after any sequence of calls, each interleaved with others
    and failing anywhere, renewing, completing or failing the work under that token
    does not succeed and changes nothing, and when nothing fails in transport
    completing it answers stale. *)
Theorem superseded_lease_rejected stamp text_ltb trace session db id token row :
  Forall (fun entry => cooperative entry.1) trace -> cooperative session ->
  db_work db !! id = Some row -> token < rw_token row \/ rw_state row = 3 ->
  let later := run_calls stamp text_ltb trace db in
  (forall completion, co_workID completion = id -> co_token completion = token ->
     rejected session later (fun err => err = None) (store_Complete stamp session completion later)
     /\ (completion_Valid completion = true -> token <= maxPostgreSQLSequence ->
         store_Complete stamp quiet completion later = (Some ErrStaleWorkLease, later)))
  /\ (forall failure, fa_workID failure = id -> fa_token failure = token ->
       rejected session later (fun err => err = None) (store_Fail stamp session failure later))
  /\ (forall renewal, rn_workID renewal = id -> rn_token renewal = token ->
       rejected session later (fun r => is_ok r = true) (store_Renew stamp session renewal later)).
Proof.
  intros Ht Hs Hrow Hsup later.
  assert (Hl : superseded id token later).
  { eapply superseded_step; [by apply run_calls_protocol | by exists row]. }
  assert (Ho : superseded id token (ss_others session 0 later)) by (eapply superseded_step; [apply Hs | exact Hl]).
  split_and!.
  - intros completion <- <-. split; [by apply complete_refused |]. intros Hv Htok. unfold store_Complete. rewrite Hv.
    cbn [negb ss_context quiet]. apply (fencedExec_refused quiet later _ _);
      [apply (refuses_update _ (co_owner completion) _ (stamp (co_completedAt completion))); [exact Hl | done] | done |].
    unfold sql_completeWork, bigint_fits. rewrite (proj2 (Z.leb_le _ _)) by done. cbn [negb].
    by erewrite superseded_update.
  - intros failure <- <-. by apply fail_refused.
  - intros renewal <- <-. by apply renew_refused.
Qed.

Lemma superseded_lease_rejected_witness :
  let taken := run_calls microseconds String.ltb takeover started_db in
  store_Complete microseconds quiet (completion_of "worker-a" 1 21) taken = (Some ErrStaleWorkLease, taken)
  /\ (store_Complete microseconds quiet (completion_of "worker-b" 2 21) taken).1 = None.
Proof.
  intros taken. split; [| vm_compute; reflexivity].
  assert (H : exists row, db_work taken !! "work-1" = Some row /\ rw_token row = 2).
  { eexists. split; vm_compute; reflexivity. }
  destruct H as (row & Hrow & Ht).
  clearbody taken.
  destruct (superseded_lease_rejected microseconds String.ltb [] quiet taken "work-1" 1 row) as [Hc _];
    [constructor | by apply cooperative_solo | exact Hrow | left; lia |].
  destruct (Hc (completion_of "worker-a" 1 21) eq_refl eq_refl) as [_ H].
  apply H; [vm_compute; reflexivity | unfold maxPostgreSQLSequence; lia].
Defined.

(** C18: Claim leases exactly what it promises: on leasable rows and when nothing fails, it
    returns as many leases as the limit and the due, unlocked work allow, each a valid
    lease under a new token and attempt whose expiry is the requested one clamped to
    the deadline; no work is leased twice, no tenant's row waits for another tenant's
    row of higher rank, and only the leased rows change. *)
Theorem claim_exact stamp text_ltb `{!Timestamps stamp, !TextOrder text_ltb} request locked db :
  claim_Valid request = true -> precise_request stamp request ->
  (forall id row, (id, row) ∈ claimable text_ltb (stamp (cr_now request)) locked db -> leasable id row) ->
  exists leases db', store_Claim stamp text_ltb (claiming locked) request db = (Ok leases, db')
    /\ claimed stamp text_ltb request locked db leases db'.
Proof. intros. by apply claim_runs. Qed.

Lemma claim_exact_witness :
  exists leases db', store_Claim microseconds String.ltb (claiming ∅) (claim_at "worker-b" 20)
      (run_calls microseconds String.ltb [(quiet, CallClaim (claim_at "worker-a" 2))] started_db) = (Ok leases, db')
    /\ map lease_id leases = ["work-1"%string] /\ map le_token leases = [2]
    /\ rw_owner <$> db_work db' !! "work-1" = Some (Some "worker-b"%string).
Proof.
  set (db := run_calls _ _ _ _).
  destruct (claim_exact microseconds String.ltb (claim_at "worker-b" 20) ∅ db) as (leases & db' & Hclaim & Hc).
  - vm_compute. reflexivity.
  - split; [split; vm_compute; reflexivity | split; vm_compute; reflexivity
      | vm_compute; split; split; (discriminate || reflexivity) | split; vm_compute; reflexivity | vm_compute; reflexivity].
  - intros id row (Hrow & _)%elem_of_claimable.
    apply elem_of_map_to_list, list_elem_of_In in Hrow.
    assert (Hall : forallb leasable_check (map_to_list (db_work db)) = true) by (vm_compute; reflexivity).
    apply leasable_check_ok. exact (proj1 (forallb_forall _ _) Hall _ Hrow).
  - assert (Hrun : match store_Claim microseconds String.ltb (claiming ∅) (claim_at "worker-b" 20) db with
      | (Ok leases, db') => map lease_id leases = ["work-1"%string] /\ map le_token leases = [2]
          /\ rw_owner <$> db_work db' !! "work-1" = Some (Some "worker-b"%string)
      | _ => False
      end).
    { vm_compute. split; [reflexivity | split; reflexivity]. }
    exists leases, db'. split; [exact Hclaim |]. rewrite Hclaim in Hrun. exact Hrun.
Defined.

(** C22: A dead letter is resolved at most once per fence: on legal resolutions and when
    nothing fails, resolving answers exactly as specified (replayed, identity reused,
    stale fence, fence already resolved, or applied: the audit row added and for a
    retry the work due again with its token kept); and once a call, under any failures,
    has answered nil, repeating the command after any later calls, failing and
    interleaved in any way, answers nil and changes nothing. *)
Theorem dead_letter_resolved stamp text_ltb r db :
  resolution_Valid r = true -> storable stamp r ->
  resolution_spec stamp r db (store_ResolveDeadLetter stamp quiet r db).1 (store_ResolveDeadLetter stamp quiet r db).2
  /\ forall session trace, solo session -> Forall (fun entry => cooperative entry.1) trace ->
     (store_ResolveDeadLetter stamp session r db).1 = None ->
     let later := run_calls stamp text_ltb trace (store_ResolveDeadLetter stamp session r db).2 in
     store_ResolveDeadLetter stamp quiet r later = (None, later).
Proof.
  intros Hv Hst. split; [by apply resolve_runs |]. intros session trace Hs Ht Hnil later.
  apply recorded_replays; [done |]. eapply recorded_step; [by apply run_calls_protocol |]. clear later.
  revert Hnil. unfold store_ResolveDeadLetter. destruct (negb _); [done |].
  destruct (ss_context session); [done |]. destruct (ss_begin session); [done |].
  destruct (resolve_outcome stamp session r db Hs) as [Hsh Hres].
  destruct (resolveDeadLetter stamp session r _) as [[[] | e] tx]; cbn [fst snd] in *; [| by rewrite Hsh | done].
  destruct Hres as [Hr Htx]. destruct (ss_commit session) as [| cause durable]; [| done]. intros _. cbn [snd]. rewrite Htx.
  exists (resolution_row stamp r). split; [| done]. unfold applied. destruct (bool_decide _); apply lookup_insert_eq.
Qed.

Lemma dead_letter_resolved_witness :
  let dead := run_calls microseconds String.ltb dead_trace started_db in
  let once := (store_ResolveDeadLetter microseconds quiet retry_resolution dead).2 in
  resolution_spec microseconds retry_resolution dead (store_ResolveDeadLetter microseconds quiet retry_resolution dead).1 once
  /\ store_ResolveDeadLetter microseconds quiet retry_resolution once = (None, once)
  /\ rw_state <$> db_work once !! "work-1" = Some 1.
Proof.
  intros dead once.
  destruct (dead_letter_resolved microseconds String.ltb retry_resolution dead) as [Hspec Hagain].
  - vm_compute. reflexivity.
  - split; [vm_compute; split; [reflexivity | discriminate] | vm_compute; split; [reflexivity | split; reflexivity]].
  - split; [exact Hspec |]. split; [| vm_compute; reflexivity].
    apply (Hagain quiet [] (fun _ _ => eq_refl) (Forall_nil_2 _)). vm_compute. reflexivity.
Defined.
