(* ===== verification/DeadLetterListing.v ===== *)
(** * Paging through the dead letters (postgres/store.go: ListDeadLetters; deadletter.go)

    Work fails and is resolved while the letters are read, so every page is read from
    a database of its own. The cursors keep the pages in one strictly increasing
    order, and a letter that waits all along is in one of them. *)
From S2P Require Import Prelude GoTime Names Definitions Event.
From S2P Require Import Work Transition Store Administration DeadLetter Tables Statements.
From S2P Require Import ReplayProperties PostgresCommit PostgresAppend PostgresAdmin PostgresFencing PostgresClaim.
From S2P Require Import PostgresDurability PostgresLeases Listing.

Section Letters.
Context (stamp : Time -> Time) `{!Timestamps stamp}.

(** ** The letters of a database *)

Definition zeroLetter : DeadLetterRecord := mkDeadRecord zeroWork 0 0 "" zeroTime.

Definition letter_of (row : string * WorkRow) : DeadLetterRecord := or_zero zeroLetter (scanDeadLetterRecord row).

Definition letters (db : Database) : list (string * WorkRow) :=
  filter (fun row => unresolved_dead db row = true) (by_key dead_key (map_to_list (db_work db))).

(** A row the adapter can read back and order, as the store writes them. *)
Record readable_letter (row : string * WorkRow) : Prop := {
  rl_scan : is_ok (scanDeadLetterRecord row) = true;
  rl_precise : precise stamp (dead_key row).1
}.

Definition letters_readable (db : Database) : Prop := Forall readable_letter (letters db).

Definition letter_key (item : DeadLetterRecord) : Time * string := (dr_failedAt item, wk_id (dr_work item)).
Definition letter_lt : DeadLetterRecord -> DeadLetterRecord -> Prop := key_lt letter_key.
Definition letter_cursor (item : DeadLetterRecord) : DeadLetterCursor := mkDeadCursor (dr_failedAt item) (wk_id (dr_work item)).

Lemma scanWork_id id row work : scanWork id row = Ok work -> wk_id work = id.
Proof. unfold scanWork, NewPendingWork. intros H. destruct (work_valid _); [| done]. by injection H as <-. Qed.

Lemma readable_letter_of row : readable_letter row ->
  scanDeadLetterRecord row = Ok (letter_of row) /\ deadRecord_valid (letter_of row) = true
  /\ letter_key (letter_of row) = (canonicalTime (dead_key row).1, row.1).
Proof.
  intros [Hs _]. unfold letter_of. destruct (scanDeadLetterRecord row) as [item |] eqn:E; [| done]. cbn [or_zero].
  destruct row as [id row]. unfold scanDeadLetterRecord in E. repeat (destruct (_ <? _); [done |]).
  destruct (scanWork id row) as [work |] eqn:Hw; [| done]. apply scanWork_id in Hw. unfold NewDeadLetterRecord in E.
  destruct (deadRecord_valid _) eqn:Hv; [| done]. injection E as <-. cbn [negb] in *. split; [done |]. split; [exact Hv |].
  unfold letter_key. cbn. by rewrite Hw.
Qed.

Lemma letters_strict db : StronglySorted (key_lt dead_key) (letters db).
Proof. apply StronglySorted_filtered, by_key_strict, NoDup_fst_map_to_list. Qed.

Lemma elem_of_letters db name row :
  (name, row) ∈ letters db <-> db_work db !! name = Some row /\ unresolved_dead db (name, row) = true.
Proof. unfold letters, by_key. rewrite list_elem_of_filter, elem_of_order_by, elem_of_map_to_list. tauto. Qed.

(** ** Cursors *)

(** The cursors a client can hold: the first one and that of a letter it has read. *)
Definition held (cursor : DeadLetterCursor) : Prop :=
  cursor = zeroDeadCursor \/ exists row, readable_letter row /\ cursor = letter_cursor (letter_of row).

Definition follows (cursor : DeadLetterCursor) (key : Time * string) : bool :=
  IsZero (dc_failedAt cursor) || keyset_ltb String.ltb (dc_failedAt cursor, dc_workID cursor) key.

Lemma keyset_same s s' t t' a b : same_instant s s' -> same_instant t t' ->
  keyset_ltb String.ltb (s, a) (t, b) = keyset_ltb String.ltb (s', a) (t', b).
Proof.
  intros Hs Ht. unfold keyset_ltb. cbn [fst snd]. by rewrite (instant_ltb_same s s'), (instant_ltb_same_r t t'), (instant_ltb_same t t'), (instant_ltb_same_r s s').
Qed.

Lemma letter_nonzero row : readable_letter row -> IsZero (dr_failedAt (letter_of row)) = false.
Proof. intros (_ & Hv & _)%readable_letter_of. unfold deadRecord_valid in Hv. bool_norm. by destruct (IsZero _). Qed.

(** The order of the letters is that of their rows. *)
Lemma follows_row cursor row : readable_letter row -> follows cursor (letter_key (letter_of row)) = follows cursor (dead_key row).
Proof.
  intros (_ & _ & ->)%readable_letter_of. unfold follows. by f_equal.
Qed.

Lemma follows_letter a b : readable_letter a -> readable_letter b ->
  follows (letter_cursor (letter_of a)) (dead_key b) = keyset_ltb String.ltb (dead_key a) (dead_key b).
Proof.
  intros Ha Hb. unfold follows. cbn [letter_cursor dc_failedAt dc_workID]. rewrite (letter_nonzero a Ha). cbn [orb].
  destruct (readable_letter_of a Ha) as (_ & _ & Hk). unfold letter_key in Hk. injection Hk as -> ->.
  apply keyset_same; [apply canonicalTime_same | done].
Qed.

(** The adapter sends the cursor as a stored time. *)
Lemma held_arguments cursor row : held cursor ->
  after_key stamp String.ltb (cursorArguments (dc_failedAt cursor) (dc_workID cursor)) (dead_key row) = follows cursor (dead_key row).
Proof.
  unfold cursorArguments, follows. intros [-> | (previous & Hr & ->)]; [done |]. cbn [letter_cursor dc_failedAt dc_workID].
  rewrite (letter_nonzero previous Hr). cbn [after_key orb]. apply keyset_same; [| done].
  destruct (readable_letter_of previous Hr) as (_ & _ & Hk). unfold letter_key in Hk. injection Hk as -> _.
  rewrite canonicalTime_same. apply (rl_precise previous Hr).
Qed.

(** [deadLetterCursorBefore] checks the same order. *)
Lemma held_before cursor row : held cursor -> readable_letter row ->
  deadLetterCursorBefore cursor (dr_failedAt (letter_of row)) (wk_id (dr_work (letter_of row))) = follows cursor (dead_key row).
Proof.
  intros Hc Hr. rewrite <- follows_row by done. destruct (readable_letter_of row Hr) as (_ & _ & Hk). rewrite Hk.
  unfold letter_key in Hk. injection Hk as -> ->. unfold deadLetterCursorBefore, follows.
  destruct Hc as [-> | (previous & Hp & ->)]; [done |]. cbn [letter_cursor dc_failedAt dc_workID]. rewrite (letter_nonzero previous Hp). cbn [orb].
  destruct (readable_letter_of previous Hp) as (_ & _ & Hk). unfold letter_key in Hk. injection Hk as -> ->.
  rewrite (keyset_same _ (dead_key previous).1 _ (dead_key row).1), <- cursor_keyset by apply canonicalTime_same.
  by destruct (After _ _).
Qed.

Lemma held_valid cursor limit : held cursor -> 1 <= limit <= MaxDeadLetterPageItems -> deadQuery_Valid (mkDeadQuery cursor limit) = true.
Proof.
  intros Hc Hlim. unfold deadQuery_Valid. cbn [dq_after dq_limit]. rewrite (proj2 (Z.ltb_lt _ _)), (proj2 (Z.leb_le _ _)) by lia. cbn [andb].
  destruct Hc as [-> | (row & Hr & ->)]; [done |]. unfold deadCursor_valid. cbn [letter_cursor dc_failedAt dc_workID]. rewrite (letter_nonzero row Hr).
  destruct (readable_letter_of row Hr) as (_ & Hv & _). unfold deadRecord_valid, work_valid in Hv. bool_norm.
  match goal with H : instanceIDPattern (wk_id _) = true |- _ => rewrite H end. by right.
Qed.

(** ** One page *)

Definition waiting (cursor : DeadLetterCursor) (db : Database) : list (string * WorkRow) :=
  filter (fun row => follows cursor (dead_key row) = true) (letters db).

Lemma waiting_strict cursor db : StronglySorted (key_lt dead_key) (waiting cursor db).
Proof. apply StronglySorted_filtered, letters_strict. Qed.

Lemma waiting_readable cursor db : letters_readable db -> Forall readable_letter (waiting cursor db).
Proof. unfold letters_readable. rewrite !Forall_forall. intros H row [_ Hr]%list_elem_of_filter. auto. Qed.

Lemma sql_letters_page cursor limit db : held cursor ->
  sql_listDeadLetters stamp String.ltb (cursorArguments (dc_failedAt cursor) (dc_workID cursor)) limit db
  = take (Z.to_nat limit) (waiting cursor db).
Proof.
  intros Hc. unfold sql_listDeadLetters. f_equal.
  fold (by_key dead_key (filter (fun row => unresolved_dead db row
    && after_key stamp String.ltb (cursorArguments (dc_failedAt cursor) (dc_workID cursor)) (dead_key row) = true) (map_to_list (db_work db)))).
  rewrite by_key_filter by apply NoDup_fst_map_to_list. unfold waiting, letters. rewrite list_filter_filter. apply list_filter_iff.
  intros row. rewrite (held_arguments cursor row Hc), andb_true_iff. tauto.
Qed.

(** The cursor after some rows. *)
Definition cursor_after (cursor : DeadLetterCursor) (rows : list (string * WorkRow)) : DeadLetterCursor :=
  default cursor ((fun row => letter_cursor (letter_of row)) <$> last rows).

Lemma cursor_after_cons cursor row rows : cursor_after cursor (row :: rows) = cursor_after (letter_cursor (letter_of row)) rows.
Proof. destruct rows as [| next rows]; [done |]. unfold cursor_after. cbn [last]. by destruct (last (next :: rows)) eqn:E; [| apply last_None in E]. Qed.

Lemma cursor_after_held cursor rows : held cursor -> Forall readable_letter rows -> held (cursor_after cursor rows).
Proof.
  intros Hc Hr. unfold cursor_after. destruct (last rows) as [row |] eqn:E; [| done]. right. exists row. split; [| done].
  rewrite Forall_forall in Hr. apply Hr. apply last_Some in E as [front ->]. apply elem_of_app. right. by left.
Qed.

Lemma deadItems_ok rows : forall cursor, held cursor -> Forall readable_letter rows ->
  StronglySorted (key_lt dead_key) rows -> Forall (fun row => follows cursor (dead_key row) = true) rows ->
  deadItems cursor (map letter_of rows) = Ok (map letter_of rows, cursor_after cursor rows).
Proof.
  induction rows as [| row rows IH]; intros cursor Hc Hr Hs Hf; [done |].
  apply Forall_cons in Hr as [Hrow Hr]. apply StronglySorted_inv in Hs as [Hs Hlt]. apply Forall_cons in Hf as [Hf _]. cbn [map deadItems].
  destruct (readable_letter_of row Hrow) as (_ & Hv & _). rewrite Hv, held_before, Hf by done. cbn [negb orb].
  fold (letter_cursor (letter_of row)). rewrite IH; [| right; by exists row | done | done |].
  - cbn [mbind result_bind fst snd]. rewrite own_work_id, cursor_after_cons. by destruct (letter_of row).
  - rewrite Forall_forall in *. intros next Hnext. rewrite follows_letter by auto. by apply Hlt.
Qed.

(** One page, from any cursor a client can hold, whatever database it came from. *)
Lemma letters_page cursor limit db : held cursor -> letters_readable db -> 1 <= limit <= MaxDeadLetterPageItems ->
  let rows := take (Z.to_nat limit) (waiting cursor db) in
  store_ListDeadLetters stamp String.ltb quiet (mkDeadQuery cursor limit) db
  = (Ok (mkDeadPage (map letter_of rows) (cursor_after cursor rows) (bool_decide (Z.to_nat limit < length (waiting cursor db))%nat)), db).
Proof.
  intros Hc Hdb Hlim rows. pose proof (held_valid cursor limit Hc Hlim) as Hquery. pose proof (waiting_readable cursor db Hdb) as Hr.
  unfold store_ListDeadLetters. rewrite Hquery. cbn [negb ss_context quiet dq_after dq_limit].
  unfold autoquery, autocommit. cbn [ss_others ss_statement ss_rows quiet]. unfold reading. rewrite sql_letters_page by done.
  unfold scanAll. cbn [fst snd]. rewrite (scanRows_map _ letter_of).
  2: { apply Forall_take. eapply Forall_impl; [exact Hr |]. intros row H. by destruct (readable_letter_of row H). }
  cbn [mbind result_bind]. rewrite <- firstn_map, cut_take, firstn_map, length_map by lia. fold rows.
  assert (Hpage : NewDeadLetterPage (mkDeadQuery cursor limit) (map letter_of rows) (bool_decide (Z.to_nat limit < length (waiting cursor db))%nat)
    = Ok (mkDeadPage (map letter_of rows) (cursor_after cursor rows) (bool_decide (Z.to_nat limit < length (waiting cursor db))%nat))).
  { unfold NewDeadLetterPage. rewrite Hquery. cbn [negb orb dq_limit dq_after]. rewrite length_map.
    assert (Hlen : length rows = Nat.min (Z.to_nat limit) (length (waiting cursor db))) by (unfold rows; by rewrite length_take).
    rewrite (proj2 (Z.ltb_ge _ _)) by lia. replace (bool_decide _ && negb _) with false.
    - cbn [orb]. rewrite deadItems_ok; [done | done | by apply Forall_take | |].
      + eapply StronglySorted_sublist; [apply sublist_take | apply waiting_strict].
      + apply Forall_take, Forall_forall. by intros row [Hf _]%list_elem_of_filter.
    - symmetry. case_bool_decide; [| done]. cbn [andb]. apply negb_false_iff, Z.eqb_eq. lia. }
  by rewrite Hpage.
Qed.

(** ** Reading while the letters change *)

(** A client that follows the cursors until a page is the last; each page is read from
    the next database. The flag is whether it came to the last page. *)
Fixpoint read_letters (text_ltb : string -> string -> bool) (limit : Z) (dbs : list Database) (cursor : DeadLetterCursor)
    : option (list DeadLetterRecord * bool) :=
  match dbs with
  | [] => Some ([], false)
  | db :: dbs =>
      match (store_ListDeadLetters stamp text_ltb quiet (mkDeadQuery cursor limit) db).1 with
      | Err _ => None
      | Ok page =>
          if dp_hasMore page
          then '(items, finished) ← read_letters text_ltb limit dbs (dp_nextCursor page); Some (dp_items page ++ items, finished)
          else Some (dp_items page, true)
      end
  end.

(** What the rest of a reading from a cursor delivers. *)
Record delivers (dbs : list Database) (cursor : DeadLetterCursor) (items : list DeadLetterRecord) (finished : bool) : Prop := {
  dv_ordered : StronglySorted letter_lt items;
  dv_after : Forall (fun item => follows cursor (letter_key item) = true) items;
  dv_sound : forall item, item ∈ items -> exists db row, db ∈ dbs /\ row ∈ letters db /\ readable_letter row /\ item = letter_of row;
  dv_complete : finished = true -> forall row, (forall db, db ∈ dbs -> row ∈ letters db) -> follows cursor (dead_key row) = true ->
    letter_of row ∈ items;
  dv_progress : finished = false -> (length dbs <= length items)%nat
}.

Lemma letters_lt a b : readable_letter a -> readable_letter b -> key_lt dead_key a b -> letter_lt (letter_of a) (letter_of b).
Proof.
  intros Ha Hb Hlt. unfold letter_lt, key_lt in *. destruct (readable_letter_of a Ha) as (_ & _ & ->), (readable_letter_of b Hb) as (_ & _ & ->).
  rewrite <- Hlt. apply (keyset_same _ (dead_key a).1 _ (dead_key b).1); apply canonicalTime_same.
Qed.

Lemma map_letters_sorted rows : Forall readable_letter rows -> StronglySorted (key_lt dead_key) rows -> StronglySorted letter_lt (map letter_of rows).
Proof.
  intros Hr Hs. induction Hs as [| row rows Hs IH Hall]; [constructor |]. apply Forall_cons in Hr as [Hrow Hr]. cbn [map]. constructor; [auto |].
  apply Forall_map. rewrite Forall_forall in *. intros next Hnext. apply letters_lt; auto.
Qed.

Lemma follows_trans cursor row key : readable_letter row -> follows cursor (dead_key row) = true ->
  follows (letter_cursor (letter_of row)) key = true -> follows cursor key = true.
Proof.
  intros Hr Hc Hk. rewrite <- follows_row in Hc by done. unfold follows in *. cbn [letter_cursor dc_failedAt dc_workID] in Hk.
  rewrite (letter_nonzero row Hr) in Hk. cbn [orb] in Hk. destruct (IsZero _); [done |]. cbn [orb] in *.
  exact (keyset_ltb_trans String.ltb _ _ _ Hc Hk).
Qed.

Lemma follows_lt a item : readable_letter a -> follows (letter_cursor (letter_of a)) (letter_key item) = true -> letter_lt (letter_of a) item.
Proof. intros Ha. unfold follows. cbn [letter_cursor dc_failedAt dc_workID]. by rewrite (letter_nonzero a Ha). Qed.

(** A reading is a page and the reading from its cursor. *)
Lemma delivers_page db dbs cursor limit items finished :
  letters_readable db -> (0 < limit)%nat -> (limit < length (waiting cursor db))%nat ->
  let rows := take limit (waiting cursor db) in
  delivers dbs (cursor_after cursor rows) items finished -> delivers (db :: dbs) cursor (map letter_of rows ++ items) finished.
Proof.
  intros Hdb Hlim Hmore rows [Ho Ha Hs Hc Hp]. pose proof (waiting_readable cursor db Hdb) as Hr. pose proof (waiting_strict cursor db) as Hw.
  assert (Hrows : Forall readable_letter rows) by by apply Forall_take.
  assert (Hlen : length rows = limit) by (unfold rows; rewrite length_take; lia).
  assert (Hsplit : waiting cursor db = rows ++ drop limit (waiting cursor db)) by (symmetry; apply take_drop).
  destruct (last rows) as [row |] eqn:E; [| apply last_None in E; rewrite E in Hlen; cbn in Hlen; lia].
  unfold cursor_after in *. rewrite E in *. cbn [fmap option_fmap option_map default from_option id] in *.
  apply last_Some in E as [front E]. assert (Hrow : row ∈ rows) by (rewrite E; apply elem_of_app; right; by left).
  rewrite Forall_forall in Hrows. pose proof (Hrows row Hrow) as Hrr.
  assert (Hfollows : forall x, x ∈ waiting cursor db -> follows cursor (dead_key x) = true) by (by intros x [? _]%list_elem_of_filter).
  assert (Hfront : forall x, x ∈ rows -> x = row \/ key_lt dead_key x row).
  { intros x Hx. rewrite E in Hx. apply elem_of_app in Hx as [Hx | Hx%list_elem_of_singleton]; [right | by left].
    rewrite Hsplit, E, <- app_assoc in Hw. eapply (StronglySorted_app_1_elem_of _ _ _ _ _ Hw Hx). by left. }
  assert (Hrowin : row ∈ waiting cursor db) by (rewrite Hsplit; apply elem_of_app; by left).
  split.
  - apply StronglySorted_app_2; [| by apply map_letters_sorted; [apply Forall_forall | eapply StronglySorted_sublist; [apply sublist_take |]] | done].
    intros x item Hx Hitem. apply list_elem_of_fmap in Hx as (x' & -> & Hx). rewrite Forall_forall in Ha. pose proof (follows_lt row item Hrr (Ha item Hitem)) as Hlt.
    destruct (Hfront x' Hx) as [-> | Hxr]; [done |]. refine (keyset_ltb_trans String.ltb _ _ _ _ Hlt). by apply letters_lt; [apply Hrows | |].
  - apply Forall_app. split.
    + apply Forall_map, Forall_forall. intros x Hx. cbn. rewrite follows_row by auto. apply Hfollows. rewrite Hsplit. apply elem_of_app. by left.
    + eapply Forall_impl; [exact Ha |]. intros item. cbn. apply follows_trans; [done |]. by apply Hfollows.
  - intros item [Hi | Hi]%elem_of_app.
    + apply list_elem_of_fmap in Hi as (x & -> & Hx). exists db, x. split_and!; [by left | | by apply Hrows | done].
      assert (Hx' : x ∈ waiting cursor db) by (rewrite Hsplit; apply elem_of_app; by left). by apply list_elem_of_filter in Hx' as [_ ?].
    + destruct (Hs item Hi) as (db' & x & Hdb' & Hx). exists db', x. split; [by right | done].
  - intros Hf x Hx Hcx. apply elem_of_app. assert (Hxw : x ∈ waiting cursor db) by (apply list_elem_of_filter; split; [done | apply Hx; by left]).
    rewrite Hsplit in Hxw. apply elem_of_app in Hxw as [Hxw | Hxd]; [left; by apply (list_elem_of_fmap_2 letter_of) | right].
    apply Hc; [done | intros db' Hdb'; apply Hx; by right |]. rewrite Forall_forall in Hr.
    rewrite follows_letter; [| done | apply Hr; rewrite Hsplit; apply elem_of_app; by right].
    rewrite Hsplit in Hw. exact (StronglySorted_app_1_elem_of _ _ _ _ _ Hw Hrow Hxd).
  - intros Hf. rewrite length_app, length_map, Hlen. cbn [length]. specialize (Hp Hf). lia.
Qed.

(** The last page. *)
Lemma delivers_last db dbs cursor : letters_readable db -> delivers (db :: dbs) cursor (map letter_of (waiting cursor db)) true.
Proof.
  intros Hdb. pose proof (waiting_readable cursor db Hdb) as Hr. split; [| | | | done].
  - apply map_letters_sorted; [done | apply waiting_strict].
  - apply Forall_map. rewrite Forall_forall in *. intros x Hx. cbn. rewrite follows_row by auto. by apply list_elem_of_filter in Hx as [? _].
  - intros item Hi. apply list_elem_of_fmap in Hi as (x & -> & Hx). exists db, x. rewrite Forall_forall in Hr.
    split_and!; [by left | by apply list_elem_of_filter in Hx as [_ ?] | by apply Hr | done].
  - intros _ x Hx Hcx. apply (list_elem_of_fmap_2 letter_of), list_elem_of_filter. split; [done |]. apply Hx. by left.
Qed.

Lemma letters_NoDup items : StronglySorted letter_lt items -> NoDup items.
Proof.
  induction 1 as [| item items Hs IH Hall]; constructor; [| done]. intros Hin. rewrite Forall_forall in Hall. specialize (Hall item Hin).
  unfold letter_lt, key_lt in Hall. by rewrite (keyset_ltb_irrefl String.ltb) in Hall.
Qed.

Lemma reading_delivers limit dbs : 1 <= limit <= MaxDeadLetterPageItems -> Forall letters_readable dbs -> forall cursor, held cursor ->
  exists items finished, read_letters String.ltb limit dbs cursor = Some (items, finished) /\ delivers dbs cursor items finished.
Proof.
  intros Hlim Hall. induction Hall as [| db dbs Hdb Hall IH]; intros cursor Hc.
  - exists [], false. split; [done |]. split; [constructor | constructor | by intros item H%elem_of_nil | done | done].
  - cbn [read_letters]. rewrite letters_page by done. cbn [fst dp_hasMore dp_items dp_nextCursor]. case_bool_decide as Hm.
    + destruct (IH (cursor_after cursor (take (Z.to_nat limit) (waiting cursor db)))) as (items & finished & -> & Hd).
      { apply cursor_after_held; [done |]. by apply Forall_take, waiting_readable. }
      cbn [mbind option_bind]. eexists _, _. split; [done |]. apply delivers_page; [done | lia | done | exact Hd].
    + rewrite take_ge by lia. eexists _, _. split; [done |]. by apply delivers_last.
Qed.
End Letters.

(** ** Samples *)

(** Two letters that failed at one time, and the first of them resolved. *)
Definition two_letters : Database :=
  let dead := run_calls microseconds String.ltb dead_trace started_db in
  from_option (fun row => set_work dead (<["work-2" := row]> (db_work dead))) dead (db_work dead !! "work-1").

Definition one_resolved : Database := (store_ResolveDeadLetter microseconds quiet retry_resolution two_letters).2.

(** ** Properties *)

(** C20: Dead letters are read exactly, in byte order of the text columns, while they change:
    a client follows the cursors page by page and each page is read from whatever
    database there is by then. No page is ever refused; the letters come in strictly
    increasing order of failure time and work, so none twice; each is the letter of an
    unresolved row of the database of some page; when the client comes to a last page,
    every letter that waited in all of the databases has been delivered; and it comes
    to the last page as soon as it has read more pages than there are letters. *)
Theorem dead_letters_delivered stamp `{!Timestamps stamp} limit dbs :
  1 <= limit <= MaxDeadLetterPageItems -> Forall (letters_readable stamp) dbs ->
  (forall db name row, (name, row) ∈ letters db <-> db_work db !! name = Some row /\ unresolved_dead db (name, row) = true)
  /\ exists items finished, read_letters stamp String.ltb limit dbs zeroDeadCursor = Some (items, finished)
     /\ StronglySorted letter_lt items
     /\ (forall item, item ∈ items -> exists db row, db ∈ dbs /\ row ∈ letters db /\ scanDeadLetterRecord row = Ok item)
     /\ (finished = true -> forall row item, (forall db, db ∈ dbs -> row ∈ letters db) -> scanDeadLetterRecord row = Ok item -> item ∈ items)
     /\ (forall rows, (forall db row, db ∈ dbs -> row ∈ letters db -> row ∈ rows) -> (length rows < length dbs)%nat -> finished = true).
Proof.
  intros Hlim Hdbs. split; [apply elem_of_letters |].
  destruct (reading_delivers stamp limit dbs Hlim Hdbs zeroDeadCursor) as (items & finished & Hread & [Ho _ Hs Hc Hp]); [by left |].
  exists items, finished. split; [done |]. split; [done |]. split; [| split].
  - intros item Hi. destruct (Hs item Hi) as (db & row & Hdb & Hrow & Hr & ->). exists db, row. by destruct (readable_letter_of stamp row Hr).
  - intros Hf row item Hrow Hscan. specialize (Hc Hf row Hrow eq_refl). unfold letter_of in Hc. by rewrite Hscan in Hc.
  - intros rows Hrows Hlen. destruct finished; [done |]. specialize (Hp eq_refl).
    assert (Hle : (length items <= length (map letter_of rows))%nat); [| rewrite length_map in Hle; lia].
    apply submseteq_length, NoDup_submseteq; [by apply letters_NoDup |].
    intros item (db & row & Hdb & Hrow & _ & ->)%Hs. by apply (list_elem_of_fmap_2 letter_of), (Hrows db).
Qed.

Lemma dead_letters_delivered_witness :
  let dbs := [two_letters; one_resolved; one_resolved] in
  letters two_letters <> letters one_resolved
  /\ exists items finished, read_letters microseconds String.ltb 1 dbs zeroDeadCursor = Some (items, finished)
     /\ StronglySorted letter_lt items /\ finished = true /\ map (fun item => wk_id (dr_work item)) items = ["work-1"; "work-2"].
Proof.
  intros dbs. split; [by vm_compute |].
  destruct (dead_letters_delivered microseconds 1 dbs) as (_ & items & finished & Hread & Ho & _ & _ & Hf).
  - unfold MaxDeadLetterPageItems. lia.
  - repeat (apply Forall_cons; split; [unfold letters_readable; vm_compute letters; repeat (apply Forall_cons; split; [split; [reflexivity | split; reflexivity] |]); apply Forall_nil_2 |]). apply Forall_nil_2.
  - exists items, finished. split; [exact Hread |]. split; [exact Ho |].
    assert (Hc : read_letters microseconds String.ltb 1 dbs zeroDeadCursor = Some (items, true)
      /\ map (fun item => wk_id (dr_work item)) items = ["work-1"; "work-2"]).
    { rewrite Hread. vm_compute in Hread. injection Hread as <- <-. split; reflexivity. }
    destruct Hc as [Hc Hm]. rewrite Hread in Hc. injection Hc as Hfin. split; [exact Hfin | exact Hm].
Defined.
