(* ===== verification/Worker.v ===== *)
(** * The worker (worker.go; the WorkStore interface of work.go)

    Decisions, configuration, the handler of one lease, its finalization and the
    fair order of a batch. The handler's select is driven by a script of what
    becomes ready: the processor's result, the renewal timer, the cancellation of
    the context, and what others do to the store in between. The admission loop
    that runs handlers concurrently is in WorkerRun.v. *)
From S2P Require Import Prelude GoTime Names Definitions Work.

Definition MaxWorkerConcurrency : Z := 1000.
Definition MaxWorkerPollInterval : Z := 60 * 1000000000.

(** ** The store a worker borrows *)

(** [WorkStore] of work.go: operations on a state of the store. *)
Class WorkStore (S : Type) := {
  work_Claim : WorkClaimRequest -> S -> result (list WorkLease) * S;
  work_Renew : WorkLeaseRenewal -> S -> result WorkLease * S;
  work_Complete : WorkCompletion -> S -> option GoError * S;
  work_Fail : WorkFailure -> S -> option GoError * S
}.

(** What the interface documents of Renew: it returns the same fence, with an updated
    expiry. Nothing is assumed of the other methods. *)
Class FencedWorkStore (S : Type) `{!WorkStore S} : Prop := {
  renew_fenced renewal s lease s' : work_Renew renewal s = (Ok lease, s') ->
    lease_id lease = rn_workID renewal /\ le_owner lease = rn_owner renewal /\ le_token lease = rn_token renewal
}.

(** ** Decisions *)

Inductive WorkDecisionKind := WorkComplete | WorkRetryDecision | WorkDeadLetterDecision | WorkDecisionUndeclared.

Record WorkDecision := mkDecision { wd_kind : WorkDecisionKind; wd_code : string; wd_retryAt : Time }.

(** [WorkDecision.Valid] *)
Definition decision_Valid (decision : WorkDecision) : bool :=
  match wd_kind decision with
  | WorkComplete => bool_decide (wd_code decision = EmptyString) && IsZero (wd_retryAt decision)
  | WorkRetryDecision => stableName (wd_code decision) && negb (IsZero (wd_retryAt decision))
  | WorkDeadLetterDecision => stableName (wd_code decision) && IsZero (wd_retryAt decision)
  | WorkDecisionUndeclared => false
  end.

Definition NewWorkDecision (spec : WorkDecision) : result WorkDecision :=
  let decision := mkDecision (wd_kind spec) (wd_code spec) (canonicalTime (wd_retryAt spec)) in
  reject negb (decision_Valid decision) with ErrInvalidWorker;
  Ok decision.

(** ** Configuration *)

(** Whether the four borrowed collaborators are given, and the limits. *)
Record WorkerConfig := mkWorkerConfig {
  wc_store : bool;
  wc_processor : bool;
  wc_clock : bool;
  wc_hooks : bool;
  wc_owner : string;
  wc_maxConcurrent : Z;   (** uint32 *)
  wc_claimLimit : Z;      (** uint32 *)
  wc_leaseDuration : Z;   (** time.Duration, and so the next three *)
  wc_renewEvery : Z;
  wc_pollInterval : Z;
  wc_finalizeTimeout : Z
}.

Definition NewWorker (config : WorkerConfig) : result WorkerConfig :=
  reject negb (wc_store config) || negb (wc_processor config) || negb (wc_clock config)
    || negb (instanceIDPattern (wc_owner config)) || (wc_maxConcurrent config =? 0)
    || (MaxWorkerConcurrency <? wc_maxConcurrent config) || (wc_claimLimit config =? 0)
    || (MaxWorkClaimItems <? wc_claimLimit config) || (MaxWorkLeaseDuration <? wc_leaseDuration config)
    || (wc_renewEvery config <=? 0) || (wc_leaseDuration config <=? wc_renewEvery config) || (wc_pollInterval config <=? 0)
    || (MaxWorkerPollInterval <? wc_pollInterval config) || (wc_finalizeTimeout config <=? 0)
    || (MaxWorkLeaseDuration <? wc_finalizeTimeout config) with ErrInvalidWorker;
  Ok config.

(** ** Events *)

Inductive WorkerEventKind :=
  | WorkerClaimFailed | WorkerProcessingFailed | WorkerLeaseLost | WorkerWorkClaimed | WorkerWorkReadmitted
  | WorkerProcessingStarted | WorkerLeaseRenewed | WorkerCompleted | WorkerRetryScheduled | WorkerDeadLettered.

Record WorkerEvent := mkWorkerEvent {
  we_kind : WorkerEventKind;
  we_workKind : WorkKind;
  we_workID : string;
  we_attempt : Z;
  we_at : Time;
  we_cause : option GoError
}.

(** ** The worker's effects *)

(** The store, the number of clock readings so far and the events observed. *)
Record World (S : Type) := mkWorld { wo_store : S; wo_reads : nat; wo_events : list WorkerEvent }.
Arguments mkWorld {S}.
Arguments wo_store {S}.
Arguments wo_reads {S}.
Arguments wo_events {S}.

Definition WorkM (S A : Type) := World S -> A * World S.

#[export] Instance work_ret S : MRet (WorkM S) := fun A a w => (a, w).
#[export] Instance work_bind S : MBind (WorkM S) := fun A B f m w => let '(a, w') := m w in f a w'.

Section Worker.
Context {S : Type} `{!WorkStore S} (config : WorkerConfig) (clock : nat -> Time).

(** [Clock.Now]: the clock's next reading. *)
Definition now : WorkM S Time := fun w => (clock (wo_reads w), mkWorld (wo_store w) (wo_reads w + 1)%nat (wo_events w)).

Definition calling {A} (operation : S -> A * S) : WorkM S A := fun w =>
  let '(a, s) := operation (wo_store w) in (a, mkWorld s (wo_reads w) (wo_events w)).

Definition record (event : WorkerEvent) : WorkM S unit := fun w => (tt, mkWorld (wo_store w) (wo_reads w) (wo_events w ++ [event])).

Definition observe (kind : WorkerEventKind) (workID : string) (cause : option GoError) : WorkM S unit :=
  if negb (wc_hooks config) then mret tt else
  at_ ← now; record (mkWorkerEvent kind WorkKindUndeclared workID 0 at_ cause).

Definition observeLease (kind : WorkerEventKind) (lease : WorkLease) (cause : option GoError) : WorkM S unit :=
  if negb (wc_hooks config) then mret tt else
  let work := le_work lease in
  at_ ← now; record (mkWorkerEvent kind (wk_kind work) (wk_id work) (le_attempt lease) at_ cause).

(** ** Finalization *)

(** A fallible step of [finalize]: an error returns at once. *)
Definition or_return {A} (r : result A) (k : A -> WorkM S (option GoError)) : WorkM S (option GoError) :=
  match r with Ok a => k a | Err err => mret (Some err) end.

Definition finalize (lease : WorkLease) (decision : WorkDecision) : WorkM S (option GoError) :=
  at_ ← now;
  let workID := lease_id lease in
  match wd_kind decision with
  | WorkComplete =>
      or_return (NewWorkCompletion (mkCompletion workID (le_owner lease) (le_token lease) at_)) (fun completion =>
        err ← calling (work_Complete completion);
        match err with
        | Some err => mret (Some err)
        | None => _ ← observeLease WorkerCompleted lease None; mret None
        end)
  | WorkRetryDecision =>
      or_return (NewWorkFailure (mkFailure workID (le_owner lease) (le_token lease) at_ (wd_code decision) WorkRetry
                   (wd_retryAt decision))) (fun failure =>
        err ← calling (work_Fail failure);
        match err with
        | Some err => mret (Some err)
        | None => _ ← observeLease WorkerRetryScheduled lease None; mret None
        end)
  | _ =>
      or_return (NewWorkFailure (mkFailure workID (le_owner lease) (le_token lease) at_ (wd_code decision) WorkDeadLetter
                   zeroTime)) (fun failure =>
        err ← calling (work_Fail failure);
        match err with
        | Some err => mret (Some err)
        | None => _ ← observeLease WorkerDeadLettered lease None; mret None
        end)
  end.

(** ** Handling one lease *)

(** What the handler's select receives: the processor's result, the renewal timer, or
    the cancellation, after which the processor is joined and its result taken. In
    between, the processor and others use the store. *)
Inductive Signal :=
  | Processed (outcome : result WorkDecision)
  | RenewalDue
  | Cancelled (cause : GoError) (outcome : result WorkDecision)
  | Elsewhere (use : S -> S).

Definition finish (lease : WorkLease) (decision : WorkDecision) : WorkM S (option GoError) :=
  if negb (decision_Valid decision) then mret (Some ErrInvalidWorker) else finalize lease decision.

(** One turn of the loop: the current lease, or the handler's return value. *)
Definition handleSignal (signal : Signal) (current : WorkLease) : WorkM S (WorkLease + option GoError) :=
  match signal with
  | Processed (Err err) => mret (inr (Some err))
  | Processed (Ok decision) => err ← finish current decision; mret (inr err)
  | RenewalDue =>
      at_ ← now;
      match NewWorkLeaseRenewal (mkRenewal (lease_id current) (le_owner current) (le_token current) at_
              (wc_leaseDuration config)) with
      | Err err => mret (inr (Some err))
      | Ok renewal =>
          answer ← calling (work_Renew renewal);
          match answer with
          | Err err => mret (inr (Some err))
          | Ok renewed => _ ← observeLease WorkerLeaseRenewed renewed None; mret (inl renewed)
          end
      end
  | Cancelled cause (Err _) => mret (inr (Some cause))
  | Cancelled _ (Ok decision) => err ← finish current decision; mret (inr err)
  | Elsewhere use => _ ← calling (fun s => (tt, use s)); mret (inl current)
  end.

(** The loop over what becomes ready; the lease while the handler still waits. *)
Fixpoint handleLoop (script : list Signal) (current : WorkLease) : WorkM S (WorkLease + option GoError) :=
  match script with
  | [] => mret (inl current)
  | signal :: rest =>
      turn ← handleSignal signal current;
      match turn with
      | inl current => handleLoop rest current
      | inr err => mret (inr err)
      end
  end.

(** The entry of [Handle]: it refuses the lease or starts the processor. *)
Definition startHandle (lease : WorkLease) : WorkM S (WorkLease + option GoError) :=
  if negb (lease_Valid lease) || negb (bool_decide (le_owner lease = wc_owner config))
  then mret (inr (Some ErrInvalidWorker))
  else _ ← observeLease WorkerProcessingStarted lease None; mret (inl lease).

Definition Handle (lease : WorkLease) (script : list Signal) : WorkM S (WorkLease + option GoError) :=
  turn ← startHandle lease;
  match turn with
  | inl current => handleLoop script current
  | inr err => mret (inr err)
  end.
End Worker.
Arguments Signal : clear implicits.
Arguments Processed {S}.
Arguments RenewalDue {S}.
Arguments Cancelled {S}.
Arguments Elsewhere {S}.

(** ** The fair order of a batch *)

(** The groups by tenant and the tenants in the order they are first seen. *)
Fixpoint groupLeases (leases : list WorkLease) (groups : gmap string (list WorkLease)) (order : list string) (maximum : nat)
    : gmap string (list WorkLease) * list string * nat :=
  match leases with
  | [] => (groups, order, maximum)
  | lease :: rest =>
      let tenant := wk_tenantID (le_work lease) in
      let order := match groups !! tenant with Some _ => order | None => order ++ [tenant] end in
      let group := default [] (groups !! tenant) ++ [lease] in
      groupLeases rest (<[tenant := group]> groups) order (Nat.max maximum (length group))
  end.

Definition fairLeaseOrder (leases : list WorkLease) : list WorkLease :=
  let '(groups, order, maximum) := groupLeases leases ∅ [] 0 in
  concat (map (fun index => omap (fun tenant => default [] (groups !! tenant) !! index) order) (seq 0 maximum)).
