(* ===== verification/WorkerOrder.v ===== *)
(** * The fair order of a batch of leases (worker.go, fairLeaseOrder) *)
From S2P Require Import Prelude GoTime Names Definitions Work Worker.

Definition lease_tenant (lease : WorkLease) : string := wk_tenantID (le_work lease).

(** The leases of one tenant, in order. *)
Definition of_tenant (tenant : string) (leases : list WorkLease) : list WorkLease :=
  filter (fun lease => lease_tenant lease = tenant) leases.

Lemma of_tenant_app tenant l k : of_tenant tenant (l ++ k) = of_tenant tenant l ++ of_tenant tenant k.
Proof. apply filter_app. Qed.

Lemma of_tenant_cons tenant x l :
  of_tenant tenant (x :: l) = (if decide (lease_tenant x = tenant) then [x] else []) ++ of_tenant tenant l.
Proof. unfold of_tenant. rewrite filter_cons. by case_decide. Qed.

Lemma of_tenant_concat tenant ls : of_tenant tenant (concat ls) = concat (map (of_tenant tenant) ls).
Proof. induction ls as [| l ls IH]; [done |]. cbn [concat map]. by rewrite of_tenant_app, IH. Qed.

(** ** Grouping *)

(** What the groups hold after the leases [seen]. *)
Record grouped (seen : list WorkLease) (groups : gmap string (list WorkLease)) (order : list string) (maximum : nat) : Prop := {
  gr_groups : forall t, default [] (groups !! t) = of_tenant t seen;
  gr_order : forall t, is_Some (groups !! t) <-> t ∈ order;
  gr_seen : forall t, of_tenant t seen <> [] -> t ∈ order;
  gr_unique : NoDup order;
  gr_maximum : forall t, (length (of_tenant t seen) <= maximum)%nat
}.

Lemma groupLeases_grouped leases : forall seen groups order maximum,
  grouped seen groups order maximum ->
  let '(groups, order, maximum) := groupLeases leases groups order maximum in grouped (seen ++ leases) groups order maximum.
Proof.
  induction leases as [| x leases IH]; intros seen groups order maximum Hg; cbn [groupLeases]; [by rewrite app_nil_r |].
  fold (lease_tenant x). replace (seen ++ x :: leases) with ((seen ++ [x]) ++ leases) by by rewrite <- app_assoc.
  apply IH. destruct Hg as [Hgr Ho Hs Hu Hm].
  assert (Hgroup : default [] (groups !! lease_tenant x) ++ [x] = of_tenant (lease_tenant x) (seen ++ [x])).
  { by rewrite Hgr, of_tenant_app, of_tenant_cons, decide_True. }
  rewrite Hgroup.
  assert (Hne : forall t, t <> lease_tenant x -> of_tenant t (seen ++ [x]) = of_tenant t seen).
  { intros t Ht. by rewrite of_tenant_app, of_tenant_cons, decide_False, !app_nil_r by done. }
  assert (Hin : forall t, t ∈ (match groups !! lease_tenant x with Some _ => order | None => order ++ [lease_tenant x] end)
    <-> t = lease_tenant x \/ t ∈ order).
  { intros t. destruct (groups !! lease_tenant x) eqn:E.
    - pose proof (proj1 (Ho (lease_tenant x)) ltac:(by eexists)). split; [by right | by intros [-> |]].
    - rewrite elem_of_app, list_elem_of_singleton. tauto. }
  split.
  - intros t. destruct (decide (t = lease_tenant x)) as [-> | Ht]; [by rewrite lookup_insert_eq |].
    by rewrite lookup_insert_ne, Hne.
  - intros t. rewrite Hin, lookup_insert_is_Some', Ho. naive_solver.
  - intros t Ht. apply Hin. destruct (decide (t = lease_tenant x)) as [-> | Hx]; [by left | right].
    rewrite Hne in Ht by done. by apply Hs.
  - destruct (groups !! lease_tenant x) eqn:E; [done |]. apply NoDup_app. split_and!; [done | | apply NoDup_singleton].
    intros t Ht ->%list_elem_of_singleton. apply Ho in Ht. rewrite E in Ht. by destruct Ht.
  - intros t. destruct (decide (t = lease_tenant x)) as [-> | Ht]; [lia |]. rewrite Hne by done. specialize (Hm t). lia.
Qed.

Lemma grouped_nil : grouped [] ∅ [] 0.
Proof.
  split.
  - intros t. by rewrite lookup_empty.
  - intros t. rewrite lookup_empty. split; [by intros [] | by intros ?%elem_of_nil].
  - done.
  - constructor.
  - done.
Qed.

(** ** Rounds *)

(** The i-th lease of every tenant, in the tenants' order. *)
Definition round (leases : list WorkLease) (order : list string) (index : nat) : list WorkLease :=
  omap (fun tenant => of_tenant tenant leases !! index) order.

Lemma fairLeaseOrder_rounds leases : exists order maximum,
  fairLeaseOrder leases = concat (map (round leases order) (seq 0 maximum))
  /\ NoDup order /\ (forall t, of_tenant t leases <> [] -> t ∈ order)
  /\ (forall t, (length (of_tenant t leases) <= maximum)%nat).
Proof.
  unfold fairLeaseOrder. pose proof (groupLeases_grouped leases [] ∅ [] 0 grouped_nil) as Hg.
  destruct (groupLeases leases ∅ [] 0) as [[groups order] maximum]. cbn [app] in Hg. destruct Hg as [Hgr Ho Hs Hu Hm].
  exists order, maximum. split; [| done]. f_equal. apply map_ext. intros i. unfold round.
  apply list_omap_ext. apply Forall2_same_length_lookup. split; [done |]. intros k t t' Ht Ht'. simplify_eq. by rewrite Hgr.
Qed.

Lemma round_of_tenant leases order index t : NoDup order -> (of_tenant t leases <> [] -> t ∈ order) ->
  of_tenant t (round leases order index) = option_list (of_tenant t leases !! index).
Proof.
  intros Hu Hin.
  assert (Hout : forall o, t ∉ o -> of_tenant t (round leases o index) = []).
  { intros o. induction o as [| t' o IH]; [done |]. intros [Hne Ho]%not_elem_of_cons. unfold round in *. cbn [omap list_omap].
    destruct (of_tenant t' leases !! index) as [x |] eqn:E; [| by apply IH]. rewrite of_tenant_cons, IH by done.
    rewrite decide_False; [done |]. intros Hx. apply list_elem_of_lookup_2, list_elem_of_filter in E as [E _]. congruence. }
  destruct (decide (t ∈ order)) as [Ht | Ht].
  2: { rewrite Hout by done. destruct (of_tenant t leases) eqn:E; [done |]. by destruct Ht; apply Hin. }
  apply list_elem_of_split in Ht as (o1 & o2 & ->). apply NoDup_app in Hu as (_ & Hd & Hu). apply NoDup_cons in Hu as [Hn2 _].
  assert (Hn1 : t ∉ o1) by (intros H1; apply (Hd t H1); by left).
  unfold round in *. rewrite omap_app, of_tenant_app. rewrite (Hout o1) by done. cbn [app omap list_omap].
  destruct (of_tenant t leases !! index) as [x |] eqn:E; [| by apply Hout]. cbn [option_list].
  rewrite of_tenant_cons, (Hout o2) by done. rewrite decide_True; [done |].
  by apply list_elem_of_lookup_2, list_elem_of_filter in E as [E _].
Qed.

Lemma concat_options {A} (l : list A) n : concat (map (fun i => option_list (l !! i)) (seq 0 n)) = take n l.
Proof.
  induction n as [| n IH]; [by rewrite take_0 |]. rewrite seq_S, map_app, concat_app, IH. cbn [map concat].
  rewrite app_nil_r. cbn [Nat.add]. destruct (l !! n) as [x |] eqn:E; cbn [option_list].
  - by rewrite (take_S_r _ _ _ E).
  - rewrite app_nil_r. apply lookup_ge_None in E. by rewrite !take_ge by lia.
Qed.

Section Rounds.
Context (leases : list WorkLease) (order : list string).
Hypothesis Hunique : NoDup order.
Hypothesis Hseen : forall t, of_tenant t leases <> [] -> t ∈ order.

(** After n rounds every tenant has had its first n leases. *)
Lemma rounds_of_tenant t n :
  of_tenant t (concat (map (round leases order) (seq 0 n))) = take n (of_tenant t leases).
Proof.
  rewrite of_tenant_concat, map_map, <- concat_options. f_equal. apply map_ext. intros i. by apply round_of_tenant; auto.
Qed.

(** A prefix of the rounds: some whole rounds and a part of the next one. *)
Lemma rounds_prefix n p q : concat (map (round leases order) (seq 0 n)) = p ++ q ->
  exists i part rest, p = concat (map (round leases order) (seq 0 i)) ++ part /\ round leases order i = part ++ rest \/ q = [].
Proof.
  revert p q. induction n as [| n IH]; intros p q H.
  - cbn in H. symmetry in H. apply app_nil in H as [_ ->]. exists 0%nat, [], []. by right.
  - rewrite seq_S, map_app, concat_app in H. cbn [map concat Nat.add] in H. rewrite app_nil_r in H.
    apply app_eq_app in H as (m & [[Hp Hq] | [Hp Hq]]).
    + destruct (IH p m Hp) as (i & part & rest & Hi). destruct m as [| x m]; [| destruct Hi as [Hi | ?]; [| done]].
      * cbn [app] in Hq. exists n, [], (round leases order n). left. rewrite app_nil_r in *. done.
      * exists i, part, rest. by left.
    + exists n, m, q. by left.
Qed.
End Rounds.

(** Lists with the same leases of every tenant are permutations. *)
Lemma of_tenant_split t k x r : of_tenant t k = x :: r ->
  exists k1 k2, k = k1 ++ x :: k2 /\ of_tenant t k1 = [] /\ of_tenant t k2 = r.
Proof.
  induction k as [| y k IH]; [done |]. rewrite of_tenant_cons. case_decide; cbn [app].
  - intros [= <- <-]. by exists [], k.
  - intros (k1 & k2 & -> & H1 & H2)%IH. exists (y :: k1), k2. split_and!; [done | | done]. by rewrite of_tenant_cons, decide_False.
Qed.

Lemma of_tenant_Permutation l : forall k, (forall t, of_tenant t l = of_tenant t k) -> Permutation l k.
Proof.
  induction l as [| x l IH]; intros k H.
  - destruct k as [| y k]; [done |]. specialize (H (lease_tenant y)). rewrite of_tenant_cons, decide_True in H by done. done.
  - pose proof (H (lease_tenant x)) as Hx. rewrite of_tenant_cons, decide_True in Hx by done. cbn [app] in Hx. symmetry in Hx.
    apply of_tenant_split in Hx as (k1 & k2 & -> & H1 & H2). rewrite <- Permutation_middle. constructor. apply IH.
    intros t. specialize (H t). rewrite of_tenant_cons, !of_tenant_app, of_tenant_cons in *.
    destruct (decide (lease_tenant x = t)) as [<- |]; cbn [app] in *; [| done]. rewrite H1 in *. cbn [app] in *. congruence.
Qed.

Lemma fairLeaseOrder_of_tenant leases t : of_tenant t (fairLeaseOrder leases) = of_tenant t leases.
Proof.
  destruct (fairLeaseOrder_rounds leases) as (order & n & -> & Hu & Hs & Hn). rewrite rounds_of_tenant by done. by apply take_ge.
Qed.

Lemma fairLeaseOrder_Permutation leases : Permutation (fairLeaseOrder leases) leases.
Proof. apply of_tenant_Permutation. apply fairLeaseOrder_of_tenant. Qed.

(** ** Properties *)

Definition tenant_lease (id tenant : string) : WorkLease :=
  mkLease (mkWork id WorkActivity "wf-1" 1 zeroTime zeroTime None tenant "") "worker" 1 1 zeroTime zeroTime.

Example fair_order_sample :
  map lease_id (fairLeaseOrder (map (fun p => tenant_lease p.1 p.2)
    [("a1", "a"); ("a2", "a"); ("b1", "b"); ("a3", "a"); ("c1", "c"); ("b2", "b")]%string))
  = ["a1"; "b1"; "c1"; "a2"; "b2"; "a3"]%string.
Proof. vm_compute. reflexivity. Qed.

(** C11: The order a batch is started in is fair and loses nothing: it is a permutation of
    the batch that keeps every tenant's leases in their order, and at every point of
    it no tenant is more than one lease ahead of another that still has leases
    waiting. *)
Theorem fairLeaseOrder_fair leases :
  Permutation (fairLeaseOrder leases) leases
  /\ (forall t, of_tenant t (fairLeaseOrder leases) = of_tenant t leases)
  /\ forall started waiting s t, fairLeaseOrder leases = started ++ waiting ->
       of_tenant t waiting = [] \/ (length (of_tenant s started) <= length (of_tenant t started) + 1)%nat.
Proof.
  split_and!; [apply fairLeaseOrder_Permutation | apply fairLeaseOrder_of_tenant |]. intros p q s t Heq.
  pose proof (fairLeaseOrder_of_tenant leases t) as Hall. revert Heq Hall.
  destruct (fairLeaseOrder_rounds leases) as (order & n & -> & Hu & Hs & Hn). intros Heq Hall.
  destruct (rounds_prefix leases order n p q Heq) as (i & part & rest & [[-> Hi] | ->]); [| by left].
  assert (Hpart : forall u, exists r, option_list (of_tenant u leases !! i) = of_tenant u part ++ r).
  { intros u. exists (of_tenant u rest). by rewrite <- of_tenant_app, <- Hi, round_of_tenant by auto. }
  rewrite !of_tenant_app, !rounds_of_tenant, !length_app, !length_take by done.
  destruct (decide (length (of_tenant t leases) <= i)%nat) as [Hle | Hgt]; [left | right].
  - rewrite Heq, !of_tenant_app, rounds_of_tenant, take_ge in Hall by done.
    rewrite <- app_assoc in Hall. apply (f_equal length) in Hall. rewrite !length_app in Hall.
    apply nil_length_inv. lia.
  - destruct (Hpart s) as [r Hr]. apply (f_equal length) in Hr. rewrite length_app in Hr.
    assert (length (option_list (of_tenant s leases !! i)) <= 1)%nat by (destruct (_ !! i); cbn; lia). lia.
Qed.

Lemma fairLeaseOrder_fair_witness :
  let leases := map (fun p => tenant_lease p.1 p.2) [("a1", "a"); ("a2", "a"); ("b1", "b")]%string in
  (length (of_tenant "a" (take 1 (fairLeaseOrder leases))) <= 1)%nat.
Proof.
  intros leases. destruct (fairLeaseOrder_fair leases) as (_ & _ & Hfair).
  destruct (Hfair (take 1 (fairLeaseOrder leases)) (drop 1 (fairLeaseOrder leases)) "a"%string "b"%string) as [H | H].
  - symmetry. apply take_drop.
  - vm_compute in H. discriminate H.
  - exact H.
Defined.
