(* ===== verification/WorkerHandle.v ===== *)
(** * What handling a lease does to the store (worker.go, Handle and finalize)

    A log of the calls a handler makes, over any store that keeps its promises: some
    renewals of one fence, then at most one settlement under that fence. *)
From S2P Require Import Prelude GoTime Names Definitions Work Worker.

(** ** Logging the calls *)

Inductive WorkCall :=
  | CalledRenew (renewal : WorkLeaseRenewal)
  | CalledComplete (completion : WorkCompletion) (answer : option GoError)
  | CalledFail (failure : WorkFailure) (answer : option GoError).

Section Logged.
Context {S : Type} `{!WorkStore S}.

Definition logging {A} (call : A -> WorkCall) (operation : S -> A * S) (state : S * list WorkCall) : A * (S * list WorkCall) :=
  let '(s, calls) := state in let '(a, s') := operation s in (a, (s', calls ++ [call a])).

(** The same store; claims are not the handler's business. *)
#[export] Instance logged_store : WorkStore (S * list WorkCall) := {|
  work_Claim request state := let '(s, calls) := state in let '(r, s') := work_Claim request s in (r, (s', calls));
  work_Renew renewal := logging (fun _ => CalledRenew renewal) (work_Renew renewal);
  work_Complete completion := logging (CalledComplete completion) (work_Complete completion);
  work_Fail failure := logging (CalledFail failure) (work_Fail failure)
|}.

Definition logged_signal (signal : Signal S) : Signal (S * list WorkCall) :=
  match signal with
  | Processed outcome => Processed outcome
  | RenewalDue => RenewalDue
  | Cancelled cause outcome => Cancelled cause outcome
  | Elsewhere use => Elsewhere (fun state => (use state.1, state.2))
  end.
End Logged.

(** ** Settlements *)

(** The call that settles a decision under the fence of a lease, with its answer. *)
Definition settlement (lease : WorkLease) (decision : WorkDecision) (at_ : Time) (answer : option GoError) : WorkCall :=
  let at_ := canonicalTime at_ in
  match wd_kind decision with
  | WorkComplete => CalledComplete (mkCompletion (lease_id lease) (le_owner lease) (le_token lease) at_) answer
  | WorkRetryDecision =>
      CalledFail (mkFailure (lease_id lease) (le_owner lease) (le_token lease) at_ (wd_code decision) WorkRetry
        (canonicalTime (wd_retryAt decision))) answer
  | _ =>
      CalledFail (mkFailure (lease_id lease) (le_owner lease) (le_token lease) at_ (wd_code decision) WorkDeadLetter
        (canonicalTime zeroTime)) answer
  end.

Definition same_fence (a b : WorkLease) : Prop :=
  lease_id a = lease_id b /\ le_owner a = le_owner b /\ le_token a = le_token b.

#[export] Instance same_fence_equivalence : Equivalence same_fence.
Proof. unfold same_fence. split; [done | intros ? ?; naive_solver | intros ? ? ? (-> & -> & ->); done]. Qed.

#[export] Instance settlement_proper : Proper (same_fence ==> eq ==> eq ==> eq ==> eq) settlement.
Proof. intros a b (H1 & H2 & H3) d ? <- at_ ? <- e ? <-. unfold settlement. by rewrite H1, H2, H3. Qed.

Definition renews (lease : WorkLease) (call : WorkCall) : Prop :=
  exists at_ by_, call = CalledRenew (mkRenewal (lease_id lease) (le_owner lease) (le_token lease) at_ by_).

(** The processor returned the decision. *)
Definition decided {S} (script : list (Signal S)) (decision : WorkDecision) : Prop :=
  Processed (Ok decision) ∈ script \/ exists cause, Cancelled cause (Ok decision) ∈ script.

Lemma decided_logged {S} (script : list (Signal S)) decision : decided (map logged_signal script) decision -> decided script decision.
Proof.
  intros [H | [cause H]]; apply list_elem_of_fmap in H as (signal & Heq & Hin); destruct signal; try discriminate Heq.
  - left. by injection Heq as ->.
  - right. exists cause. by injection Heq as -> ->.
Qed.

(** The calls of a handler and its answer. *)
Inductive handled {S} (lease : WorkLease) (script : list (Signal S)) : list WorkCall -> WorkLease + option GoError -> Prop :=
  | HandledWaiting calls current : Forall (renews lease) calls -> same_fence current lease ->
      handled lease script calls (inl current)
  | HandledSettled calls decision at_ : Forall (renews lease) calls -> decided script decision -> decision_Valid decision = true ->
      handled lease script (calls ++ [settlement lease decision at_ None]) (inr None)
  | HandledRefused calls decision at_ err : Forall (renews lease) calls -> decided script decision -> decision_Valid decision = true ->
      handled lease script (calls ++ [settlement lease decision at_ (Some err)]) (inr (Some err))
  | HandledLeft calls err : Forall (renews lease) calls -> handled lease script calls (inr (Some err)).

Section Handling.
Context {S : Type} `{!WorkStore S} `{!FencedWorkStore S} (config : WorkerConfig) (clock : nat -> Time).

Definition calls_of (w : World (S * list WorkCall)) : list WorkCall := (wo_store w).2.

Lemma observeLease_store kind lease cause (w : World (S * list WorkCall)) :
  exists w', observeLease config clock kind lease cause w = (tt, w') /\ wo_store w' = wo_store w.
Proof. unfold observeLease. destruct (negb _); by eexists. Qed.

(** The three branches of [finalize] share their end. *)
Lemma settle_calls kind lease (operation : S * list WorkCall -> option GoError * (S * list WorkCall)) w :
  exists w', (err ← calling operation; match err with
    | Some err => mret (Some err)
    | None => _ ← observeLease config clock kind lease None; mret None
    end) w = ((operation (wo_store w)).1, w') /\ wo_store w' = (operation (wo_store w)).2.
Proof.
  unfold mbind, work_bind, calling. destruct (operation (wo_store w)) as [[err |] s']; cbn [fst snd].
  - by eexists.
  - destruct (observeLease_store kind lease None (mkWorld s' (wo_reads w) (wo_events w))) as (w' & -> & Hw). by exists w'.
Qed.

(** Finalization makes one call, unless the clock's reading makes no legal value. *)
Lemma finish_calls lease decision w answer w' :
  finish (S := S * list WorkCall) config clock lease decision w = (answer, w') ->
  (exists err, answer = Some err /\ calls_of w' = calls_of w)
  \/ (decision_Valid decision = true
      /\ exists at_, calls_of w' = calls_of w ++ [settlement lease decision at_ answer]).
Proof.
  unfold finish. destruct (decision_Valid decision) eqn:Hv; cbn [negb]; [| by intros [= <- <-]; left; eexists].
  unfold finalize, or_return. intros H. unfold mbind at 1, work_bind at 1, now at 1 in H.
  set (w1 := mkWorld (wo_store w) (wo_reads w + 1)%nat (wo_events w)) in H.
  assert (Hcalls : forall kind call (operation : S -> option GoError * S) w',
    (err ← calling (logging call operation); match err with
      | Some err => mret (Some err)
      | None => _ ← observeLease config clock kind lease None; mret None
      end) w1 = (answer, w') -> calls_of w' = calls_of w ++ [call answer]).
  { intros kind call operation x Hx. destruct (settle_calls kind lease (logging call operation) w1) as (y & Hy & Hs).
    rewrite Hy in Hx. injection Hx as Ha ->. unfold calls_of. rewrite Hs. unfold logging in *. cbn [wo_store w1] in *.
    destruct (wo_store w) as [s calls]. destruct (operation s) as [a s']. cbn [fst snd] in *. by subst a. }
  destruct (wd_kind decision) eqn:Hk; [| | | by unfold decision_Valid in Hv; rewrite Hk in Hv].
  - unfold NewWorkCompletion in H. destruct (negb _); [by injection H as <- <-; left; eexists |]. right. split; [done |].
    exists (clock (wo_reads w)). unfold settlement. rewrite Hk. exact (Hcalls _ (CalledComplete _) _ _ H).
  - unfold NewWorkFailure in H. destruct (negb _); [by injection H as <- <-; left; eexists |]. right. split; [done |].
    exists (clock (wo_reads w)). unfold settlement. rewrite Hk. exact (Hcalls _ (CalledFail _) _ _ H).
  - unfold NewWorkFailure in H. destruct (negb _); [by injection H as <- <-; left; eexists |]. right. split; [done |].
    exists (clock (wo_reads w)). unfold settlement. rewrite Hk. exact (Hcalls _ (CalledFail _) _ _ H).
Qed.

(** The calls of a turn are an extension of the log. *)
Definition extends (w w' : World (S * list WorkCall)) (lease : WorkLease) (script : list (Signal S))
    (turn : WorkLease + option GoError) : Prop :=
  exists calls, calls_of w' = calls_of w ++ calls /\ handled lease script calls turn.

Lemma finish_extends lease current decision w answer w' script :
  same_fence current lease -> decided script decision ->
  finish (S := S * list WorkCall) config clock current decision w = (answer, w') -> extends w w' lease script (inr answer).
Proof.
  intros Hf Hd [(err & -> & Hc) | (Hv & at_ & Hc)]%finish_calls.
  - exists []. rewrite app_nil_r. split; [done |]. by apply HandledLeft.
  - exists [settlement lease decision at_ answer]. rewrite Hc, Hf. split; [done |].
    destruct answer as [err |]; [by apply (HandledRefused _ _ []) | by apply (HandledSettled _ _ [])].
Qed.

Lemma renew_extends lease current w turn w' :
  same_fence current lease ->
  handleSignal (S := S * list WorkCall) config clock RenewalDue current w = (turn, w') ->
  match turn with
  | inl renewed => same_fence renewed lease | inr answer => exists err, answer = Some err
  end /\ exists calls, calls_of w' = calls_of w ++ calls /\ Forall (renews lease) calls.
Proof.
  intros Hf. unfold handleSignal. intros H. unfold mbind at 1, work_bind at 1, now at 1 in H.
  unfold NewWorkLeaseRenewal in H. destruct (negb _).
  { injection H as <- <-. split; [by eexists |]. exists []. by rewrite app_nil_r. }
  set (renewal := mkRenewal _ _ _ _ _) in H. unfold mbind at 1, work_bind at 1, calling at 1 in H.
  cbn [work_Renew logged_store wo_store] in H. unfold logging at 1 in H. destruct (wo_store w) as [s calls] eqn:Hs.
  assert (Hcalls : calls_of w = calls) by (unfold calls_of; by rewrite Hs). rewrite Hcalls.
  assert (Hr : Forall (renews lease) [CalledRenew renewal]).
  { constructor; [| constructor]. destruct Hf as (H1 & H2 & H3). eexists _, _. unfold renewal. by rewrite <- H1, <- H2, <- H3. }
  destruct (work_Renew renewal s) as [[renewed | err] s'] eqn:Hrun.
  - cbn [wo_reads wo_events] in H.
    destruct (observeLease_store WorkerLeaseRenewed renewed None (mkWorld (s', calls ++ [CalledRenew renewal]) (wo_reads w + 1)%nat (wo_events w)))
      as (w1 & Hob & Hst). unfold mbind, work_bind in H. rewrite Hob in H. injection H as <- <-.
    split; [| exists [CalledRenew renewal]; unfold calls_of; rewrite Hst; done].
    apply renew_fenced in Hrun as (Hid & Ho & Ht). etrans; [| exact Hf]. by split_and!.
  - injection H as <- <-. split; [by eexists |]. by exists [CalledRenew renewal].
Qed.

Lemma handled_weaken lease (script script' : list (Signal S)) calls turn :
  (forall decision, decided script decision -> decided script' decision) ->
  handled lease script calls turn -> handled lease script' calls turn.
Proof. intros Hd []; [by apply HandledWaiting | apply HandledSettled | apply HandledRefused | by apply HandledLeft]; auto. Qed.

Lemma handled_prepend lease (script : list (Signal S)) first calls turn :
  Forall (renews lease) first -> handled lease script calls turn -> handled lease script (first ++ calls) turn.
Proof.
  intros Hf []; rewrite ?app_assoc; [apply HandledWaiting | apply HandledSettled | apply HandledRefused | apply HandledLeft]; try done;
    by apply Forall_app.
Qed.

Lemma decided_cons signal (script : list (Signal S)) decision : decided script decision -> decided (signal :: script) decision.
Proof. intros [H | [cause H]]; [left | right; exists cause]; by right. Qed.

Lemma handleLoop_extends lease script : forall current w turn w',
  same_fence current lease ->
  handleLoop (S := S * list WorkCall) config clock (map logged_signal script) current w = (turn, w') -> extends w w' lease script turn.
Proof.
  induction script as [| signal script IH]; intros current w turn w' Hf H; cbn [map handleLoop] in H.
  { injection H as <- <-. exists []. rewrite app_nil_r. split; [done |]. by apply HandledWaiting. }
  assert (Hgo : forall current w1, same_fence current lease -> (exists calls, calls_of w1 = calls_of w ++ calls /\ Forall (renews lease) calls) ->
    handleLoop (S := S * list WorkCall) config clock (map logged_signal script) current w1 = (turn, w') ->
    extends w w' lease (signal :: script) turn).
  { intros c w1 Hc (first & Hcalls & Hr) Hl. destruct (IH _ _ _ _ Hc Hl) as (calls & Hw & Hh).
    exists (first ++ calls). rewrite Hw, Hcalls, app_assoc. split; [done |]. apply handled_prepend; [done |].
    eapply handled_weaken; [| exact Hh]. intros d. apply decided_cons. }
  destruct signal as [outcome | | cause outcome | use].
  - destruct outcome as [decision | err].
    + unfold mbind, work_bind in H. cbn [logged_signal handleSignal] in H. unfold mbind, work_bind in H.
      destruct (finish _ _ current decision w) as [answer w1] eqn:Hfin. injection H as <- <-.
      eapply finish_extends; [exact Hf | | exact Hfin]. left. by left.
    + injection H as <- <-. exists []. rewrite app_nil_r. split; [done |]. by apply HandledLeft.
  - unfold mbind, work_bind in H. cbn [logged_signal] in H.
    destruct (handleSignal config clock RenewalDue current w) as [[renewed | answer] w1] eqn:Hr;
      destruct (renew_extends _ _ _ _ _ Hf Hr) as [Ht Hcalls]; [by eapply Hgo |].
    injection H as <- <-. destruct Ht as [err ->]. destruct Hcalls as (calls & Hw & Hall). exists calls. split; [done |]. by apply HandledLeft.
  - destruct outcome as [decision | err].
    + unfold mbind, work_bind in H. cbn [logged_signal handleSignal] in H. unfold mbind, work_bind in H.
      destruct (finish _ _ current decision w) as [answer w1] eqn:Hfin. injection H as <- <-.
      eapply finish_extends; [exact Hf | | exact Hfin]. right. exists cause. by left.
    + injection H as <- <-. exists []. rewrite app_nil_r. split; [done |]. by apply HandledLeft.
  - unfold mbind, work_bind in H. cbn [logged_signal handleSignal] in H. unfold mbind, work_bind, calling in H. cbn [mret work_ret] in H.
    eapply Hgo; [exact Hf | | exact H]. exists []. by rewrite app_nil_r.
Qed.

Lemma Handle_extends lease script w turn w' :
  Handle (S := S * list WorkCall) config clock lease (map logged_signal script) w = (turn, w') -> extends w w' lease script turn.
Proof.
  unfold Handle, startHandle. destruct (_ || _).
  - intros [= <- <-]. exists []. rewrite app_nil_r. split; [done |]. by apply HandledLeft.
  - unfold mbind, work_bind. destruct (observeLease_store WorkerProcessingStarted lease None w) as (w1 & -> & Hs).
    cbn [mret work_ret]. intros H%(handleLoop_extends lease); [| done]. unfold extends, calls_of in *. by rewrite Hs in H.
Qed.
End Handling.

(** ** The store a handler leaves *)

Section Final.
Context {S : Type} `{!WorkStore S} `{!FencedWorkStore S} (config : WorkerConfig) (clock : nat -> Time).

(** The last operation of a handler that returned nil: the settlement, accepted. *)
Definition settles (lease : WorkLease) (decision : WorkDecision) (at_ : Time) (s s' : S) : Prop :=
  match settlement lease decision at_ None with
  | CalledComplete completion _ => work_Complete completion s = (None, s')
  | CalledFail failure _ => work_Fail failure s = (None, s')
  | CalledRenew _ => False
  end.

Lemma finish_final lease decision (w w' : World S) : finish config clock lease decision w = (None, w') ->
  decision_Valid decision = true /\ exists at_ s, settles lease decision at_ s (wo_store w').
Proof.
  unfold finish. destruct (decision_Valid decision) eqn:Hv; cbn [negb]; [intros H; split; [done |] | done].
  unfold finalize, or_return in H. unfold mbind at 1, work_bind at 1, now at 1 in H.
  set (w1 := mkWorld (wo_store w) (wo_reads w + 1)%nat (wo_events w)) in H.
  assert (Hrun : forall kind (operation : S -> option GoError * S),
    (err ← calling operation; match err with
      | Some err => mret (Some err)
      | None => _ ← observeLease config clock kind lease None; mret None
      end) w1 = (None, w') -> operation (wo_store w) = (None, wo_store w')).
  { intros kind operation Hx. unfold mbind, work_bind, calling in Hx. cbn [wo_store w1] in Hx.
    destruct (operation (wo_store w)) as [[err |] s']; [done |]. unfold observeLease in Hx.
    destruct (negb (wc_hooks config)); by injection Hx as <-. }
  exists (clock (wo_reads w)), (wo_store w). unfold settles, settlement.
  destruct (wd_kind decision) eqn:Hk; [| | | by unfold decision_Valid in Hv; rewrite Hk in Hv].
  - unfold NewWorkCompletion in H. destruct (negb _); [done |]. exact (Hrun _ _ H).
  - unfold NewWorkFailure in H. destruct (negb _); [done |]. exact (Hrun _ _ H).
  - unfold NewWorkFailure in H. destruct (negb _); [done |]. exact (Hrun _ _ H).
Qed.

Lemma handleSignal_fence signal current (w w' : World S) renewed :
  handleSignal config clock signal current w = (inl renewed, w') -> same_fence renewed current.
Proof.
  destruct signal as [[decision | err] | | cause [decision | err] | use]; unfold handleSignal, mbind, work_bind.
  - by destruct (finish _ _ _ _ _).
  - done.
  - unfold now. unfold NewWorkLeaseRenewal. destruct (negb _); [done |]. unfold calling. cbn [wo_store].
    destruct (work_Renew _ _) as [[lease | err] s'] eqn:E; [| done].
    unfold observeLease. destruct (negb (wc_hooks config)); intros [= <- _]; apply renew_fenced in E as (? & ? & ?); by split_and!.
  - by destruct (finish _ _ _ _ _).
  - done.
  - by intros [= <- _].
Qed.

Lemma handleLoop_final script : forall current (w w' : World S),
  handleLoop config clock script current w = (inr None, w') ->
  exists lease decision at_ s, same_fence lease current /\ decided script decision /\ decision_Valid decision = true
    /\ settles lease decision at_ s (wo_store w').
Proof.
  induction script as [| signal script IH]; intros current w w' H; cbn [handleLoop] in H; [done |].
  unfold mbind at 1, work_bind at 1 in H. destruct (handleSignal config clock signal current w) as [[renewed | answer] w1] eqn:E.
  - destruct (IH _ _ _ H) as (lease & decision & at_ & s & Hf & Hd & Hrest). exists lease, decision, at_, s.
    split; [etrans; [exact Hf | by eapply handleSignal_fence] |]. split; [by apply decided_cons | done].
  - injection H as -> <-.
    assert (Hdone : forall decision, decided (signal :: script) decision ->
      (let (answer, w2) := finish config clock current decision w in (inr answer, w2)) = (inr None : WorkLease + option GoError, w1) ->
      exists lease d at_ s, same_fence lease current /\ decided (signal :: script) d /\ decision_Valid d = true
        /\ settles lease d at_ s (wo_store w1)).
    { intros decision Hd Hx. destruct (finish _ _ _ _ _) as [answer w2] eqn:Hfin. injection Hx as -> ->.
      apply finish_final in Hfin as (Hv & at_ & s & Hs). by exists current, decision, at_, s. }
    destruct signal as [[decision | err] | | cause [decision | err] | use]; try done.
    + apply (Hdone decision); [left; by left | exact E].
    + exfalso. unfold handleSignal, mbind, work_bind, now in E. destruct (NewWorkLeaseRenewal _) as [renewal | err]; [| done].
      unfold calling in E. destruct (work_Renew _ _) as [[lease | err] s']; [| done].
      by destruct (observeLease _ _ _ _ _ _).
    + apply (Hdone decision); [right; exists cause; by left | exact E].
Qed.

Lemma Handle_final lease script (w w' : World S) :
  Handle config clock lease script w = (inr None, w') ->
  exists current decision at_ s, same_fence current lease /\ decided script decision /\ decision_Valid decision = true
    /\ settles current decision at_ s (wo_store w').
Proof.
  unfold Handle, startHandle. destruct (_ || _); [done |]. unfold mbind, work_bind.
  destruct (observeLease config clock WorkerProcessingStarted lease None w) as [u w1]. cbn [mret work_ret].
  apply handleLoop_final.
Qed.
End Final.
