(* ===== verification/PostgresWorker.v ===== *)
(** * A worker over the PostgreSQL store (worker.go over postgres/store.go)

    The store discharges the promises the worker relies on, and handling a lease
    settles its row exactly as the processor decided. *)
From S2P Require Import Prelude GoTime Names Definitions Event.
From S2P Require Import Work Transition Store Administration DeadLetter Tables Statements.
From S2P Require Import PostgresCommit PostgresWork PostgresAdmin PostgresFencing PostgresClaim PostgresDurability PostgresLeases.
From S2P Require Import ReplayProperties Worker WorkerHandle.

Section Store.
Context (stamp : Time -> Time) (text_ltb : string -> string -> bool) (session : Session).

#[local] Instance postgres_work : WorkStore Database := {|
  work_Claim := store_Claim stamp text_ltb session;
  work_Renew := store_Renew stamp session;
  work_Complete := store_Complete stamp session;
  work_Fail := store_Fail stamp session
|}.

Lemma scanWorkLease_fenced owner at_ id row lease : scanWorkLease owner at_ (id, row) = Ok lease ->
  lease_Valid lease = true /\ lease_id lease = id /\ le_owner lease = owner /\ le_token lease = u64 (rw_token row).
Proof.
  unfold scanWorkLease. destruct (_ || _); [done |]. destruct (scanWork id row) as [work | e] eqn:Hw; [| done].
  apply NewPendingWork_spec in Hw as [_ ->]. unfold NewWorkLease. destruct (negb (lease_Valid _)) eqn:Hv; [done |].
  intros [= <-]. by apply negb_false_iff in Hv.
Qed.

(** The store keeps the promise of the interface. *)
#[local] Instance postgres_fenced : FencedWorkStore Database.
Proof.
  split. intros renewal db lease db'. cbn [work_Renew postgres_work]. unfold store_Renew.
  destruct (renewal_Valid renewal) eqn:Hv; cbn [negb]; [| done]. destruct (ss_context session); [done |].
  unfold autocommit. set (before := ss_others session 0 db).
  destruct (ss_statement session 0) as [[cause applied] |]; [done |].
  unfold sql_renewWork, bigint_fits, maxPostgreSQLSequence. destruct (negb (_ <=? _)) eqn:Hfit; [done |].
  unfold sql_update_work. destruct (db_work before !! rn_workID renewal) as [row |]; [| done].
  destruct (fenced _ _ _ row && _) eqn:Hc; [| done]. apply andb_true_iff in Hc as [(_ & _ & Ht)%fenced_state _].
  destruct (scanWorkLease _ _ _) as [l | e] eqn:Hs; [| done]. intros [= <- _].
  apply scanWorkLease_fenced in Hs as (_ & Hid & Ho & Htok). split_and!; [done.. |].
  rewrite Htok. cbn [rw_token set_expires]. rewrite Ht. unfold renewal_Valid, leaseIdentityValid in Hv. bool_norm.
  rewrite u64_small by lia. done.
Qed.

(** ** The row a settlement leaves *)

Record settled_row (lease : WorkLease) (decision : WorkDecision) (row : WorkRow) : Prop := {
  se_token : rw_token row = le_token lease;
  se_released : rw_owner row = None /\ rw_expires row = None;
  se_state : rw_state row = match wd_kind decision with WorkComplete => 3 | WorkRetryDecision => 1 | _ => 4 end;
  se_code : wd_kind decision <> WorkComplete -> rw_code row = wd_code decision;
  se_retry : wd_kind decision = WorkRetryDecision -> rw_available row = stamp (canonicalTime (wd_retryAt decision))
}.

Lemma fencedExec_updates id owner token at_ state (available : WorkRow -> Time) (code : WorkRow -> string)
    (completed : WorkRow -> option Time) operation db db' :
  fencedExec session (fun db => reject negb (bigint_fits token) with DriverError "bigint";
    Ok (sql_update_work id (fenced owner token at_) (fun row => release state (available row) (code row) (completed row) row) db))
    operation db = (None, db') ->
  exists row, db_work db' !! id = Some (release state (available row) (code row) (completed row) row) /\ rw_token row = token.
Proof.
  unfold fencedExec, databaseExec. destruct (ss_begin session); [done |]. unfold statement. cbn [tx_count tx_db tx_shared].
  destruct (ss_statement session 0) as [[cause applied] |]; [done |]. set (before := ss_others session 0 db).
  destruct (negb (bigint_fits token)); [done |]. unfold sql_update_work.
  destruct (db_work before !! id) as [row |]; [| by destruct (ss_commit session)].
  destruct (fenced owner token at_ row) eqn:Hf; [| by destruct (ss_commit session)].
  destruct (ss_commit session); [| done]. cbn [tx_db]. intros [= <-]. apply fenced_state in Hf as (_ & _ & Ht).
  exists row. split; [apply lookup_insert_eq | done].
Qed.

Lemma settles_row lease decision at_ db db' : decision_Valid decision = true -> settles lease decision at_ db db' ->
  exists row, db_work db' !! lease_id lease = Some row /\ settled_row lease decision row.
Proof.
  intros Hv. unfold settles, settlement. destruct (wd_kind decision) eqn:Hk; [| | | by unfold decision_Valid in Hv; rewrite Hk in Hv].
  - cbn [work_Complete postgres_work]. unfold store_Complete. destruct (negb _); [done |]. destruct (ss_context session); [done |].
    intros (row & Hrow & Ht)%(fencedExec_updates _ _ _ _ 3 rw_available rw_code). eexists. split; [exact Hrow |].
    by split; cbn; rewrite ?Hk.
  - cbn [work_Fail postgres_work]. unfold store_Fail. destruct (negb _); [done |]. destruct (ss_context session); [done |].
    cbn [fa_disposition]. rewrite bool_decide_eq_true_2 by done.
    intros (row & Hrow & Ht)%(fencedExec_updates _ _ _ _ 1 (fun _ => _) (fun _ => _)). eexists. split; [exact Hrow |].
    by split; cbn; rewrite ?Hk.
  - cbn [work_Fail postgres_work]. unfold store_Fail. destruct (negb _); [done |]. destruct (ss_context session); [done |].
    cbn [fa_disposition]. rewrite bool_decide_eq_false_2 by done.
    intros (row & Hrow & Ht)%(fencedExec_updates _ _ _ _ 4 rw_available (fun _ => _)). eexists. split; [exact Hrow |].
    by split; cbn; rewrite ?Hk.
Qed.
End Store.

(** ** Samples *)

Definition sample_worker : WorkerConfig :=
  mkWorkerConfig true true true true "worker-a" 4 5 10000000000 5000000000 1000000000 1000000000.

Definition sample_clock (n : nat) : Time := sample_time (3 + Z.of_nat n).

Definition claimed_db : Database := run_calls microseconds String.ltb [(quiet, CallClaim (claim_at "worker-a" 2))] started_db.
Definition claimed_lease : WorkLease := mkLease start_work "worker-a" 1 1 (sample_time 2) (sample_time 12).

(** ** Properties *)

(** C9: Handling a lease settles its work exactly as the processor decided, at most once:
    over the PostgreSQL store, whatever becomes ready in whatever order, whatever
    others do in between and whatever fails, a handler renews only the lease's own
    fence, then makes at most one settling call, the one its processor's valid decision
    asks for under that fence; while it still waits it has settled nothing; and when
    it returns nil the store accepted that call and the work's row is completed,
    retried at the decided time or dead-lettered, under the same token and without
    a lease. *)
Theorem handle_settles_once stamp text_ltb session config clock lease script db reads events turn w :
  let _ := postgres_work stamp text_ltb session in
  Handle (S := Database * list WorkCall) config clock lease (map logged_signal script) (mkWorld (db, []) reads events) = (turn, w) ->
  handled lease script (calls_of w) turn
  /\ (turn = inr None -> exists decision row, decided script decision
      /\ db_work (wo_store w).1 !! lease_id lease = Some row /\ settled_row stamp lease decision row).
Proof.
  intros store H. pose proof (postgres_fenced stamp text_ltb session) as Hfenced.
  destruct (Handle_extends config clock lease script _ turn w H) as (calls & Hc & Hh). rewrite Hc. split; [exact Hh |].
  intros ->.
  assert (Hfl : FencedWorkStore (Database * list WorkCall)).
  { split. intros renewal [s log] renewed [s' log']. cbn. unfold logging.
    destruct (store_Renew stamp session renewal s) as [r s1] eqn:E. intros [= -> -> _]. by eapply (renew_fenced renewal s). }
  destruct (Handle_final config clock lease _ _ w H) as (current & decision & at_ & st & Hf & Hd & Hv & Hs).
  assert (Hsettles : settles current decision at_ st.1 (wo_store w).1).
  { unfold settles in *. destruct st as [s log], (wo_store w) as [s' log']. destruct (settlement current decision at_ None); [done | |];
      cbn in Hs; unfold logging in Hs; cbn [fst].
    - destruct (store_Complete stamp session completion s) as [a s1] eqn:E. injection Hs as -> ->. exact E.
    - destruct (store_Fail stamp session failure s) as [a s1] eqn:E. by injection Hs as -> ->. }
  apply settles_row in Hsettles as (row & Hrow & Hse); [| done]. destruct Hf as (Hid & Ho & Ht).
  exists decision, row. split_and!.
  - by apply decided_logged.
  - by rewrite <- Hid.
  - destruct Hse. split; try done. congruence.
Qed.

Lemma handle_settles_once_witness :
  let _ := postgres_work microseconds String.ltb quiet in
  let script := [RenewalDue; Processed (Ok (mkDecision WorkComplete "" zeroTime))] in
  exists w, Handle (S := Database * list WorkCall) sample_worker sample_clock claimed_lease (map logged_signal script)
      (mkWorld (claimed_db, []) 0 []) = (inr None, w)
    /\ length (calls_of w) = 2%nat
    /\ exists decision row, decided script decision /\ db_work (wo_store w).1 !! "work-1" = Some row
         /\ settled_row microseconds claimed_lease decision row.
Proof.
  intros store script.
  assert (Hrun : match Handle (S := Database * list WorkCall) sample_worker sample_clock claimed_lease (map logged_signal script)
      (mkWorld (claimed_db, []) 0 []) with (turn, w) => turn = inr None /\ length (calls_of w) = 2%nat end).
  { vm_compute. split; reflexivity. }
  destruct (Handle (S := Database * list WorkCall) sample_worker sample_clock claimed_lease (map logged_signal script)
      (mkWorld (claimed_db, []) 0 [])) as [turn w] eqn:H.
  destruct Hrun as [-> Hl]. exists w. split; [reflexivity |]. split; [exact Hl |].
  destruct (handle_settles_once microseconds String.ltb quiet sample_worker sample_clock claimed_lease script claimed_db 0 []
    (inr None) w H) as [_ Hfinal].
  exact (Hfinal eq_refl).
Defined.
