(* ===== verification/WorkerRun.v ===== *)
(** * The admission loop (worker.go, Run)

    Run and its handlers as a step relation: the loop claims when it has capacity,
    waits, or joins; every admitted handler takes turns of its own; the caller may
    cancel and others may use the store at any time. The loop's admission of one
    batch is one step, and so is a handler's turn. *)
From stdpp Require Import relations.
From S2P Require Import Prelude GoTime Names Definitions ReplayProperties Work Worker WorkerOrder.

(** A goroutine: not yet started, in its loop with its current lease, or done and
    about to send on [results]. *)
Inductive HandlerState := Fresh | Running (current : WorkLease) | Reporting.

Record Handler := mkHandler { ha_lease : WorkLease; ha_state : HandlerState }.

(** Where the loop is: at its top, in its select, in [handlers.Wait], or returned. *)
Inductive Phase := AtTop | Waiting | Joining | Returned.

Record RunState (S : Type) := mkRun {
  ru_world : World S;
  ru_active : Z;      (** uint32 *)
  ru_results : Z;     (** the results in the channel's buffer *)
  ru_handlers : list Handler;
  ru_cancelled : bool;
  ru_err : option GoError;
  ru_phase : Phase
}.
Arguments mkRun {S}.
Arguments ru_world {S}.
Arguments ru_active {S}.
Arguments ru_results {S}.
Arguments ru_handlers {S}.
Arguments ru_cancelled {S}.
Arguments ru_err {S}.
Arguments ru_phase {S}.

Section Run.
Context {S : Type} `{!WorkStore S} (config : WorkerConfig) (clock : nat -> Time).

Definition set_phase (phase : Phase) (s : RunState S) : RunState S :=
  mkRun (ru_world s) (ru_active s) (ru_results s) (ru_handlers s) (ru_cancelled s) (ru_err s) phase.
Definition set_world (w : World S) (s : RunState S) : RunState S :=
  mkRun w (ru_active s) (ru_results s) (ru_handlers s) (ru_cancelled s) (ru_err s) (ru_phase s).
Definition set_handlers (handlers : list Handler) (s : RunState S) : RunState S :=
  mkRun (ru_world s) (ru_active s) (ru_results s) handlers (ru_cancelled s) (ru_err s) (ru_phase s).
Definition cancel (s : RunState S) : RunState S :=
  mkRun (ru_world s) (ru_active s) (ru_results s) (ru_handlers s) true (ru_err s) (ru_phase s).

Definition capacity (s : RunState S) : Z := u32 (wc_maxConcurrent config - ru_active s).

(** [runErr = ErrInvalidWorker; cancel(); continue] *)
Definition leaveRun (w : World S) (s : RunState S) : RunState S :=
  mkRun w (ru_active s) (ru_results s) (ru_handlers s) true (Some ErrInvalidWorker) AtTop.

(** The started leases are observed one by one. *)
Fixpoint observeAdmitted (leases : list WorkLease) : WorkM S unit :=
  match leases with
  | [] => mret tt
  | lease :: rest =>
      _ ← observeLease config clock (if 1 <? le_attempt lease then WorkerWorkReadmitted else WorkerWorkClaimed) lease None;
      observeAdmitted rest
  end.

(** The body of the loop when there is capacity, up to its select. *)
Definition pollAndAdmit (s : RunState S) : RunState S :=
  let limit := Z.min (wc_claimLimit config) (capacity s) in
  let '(at_, w) := now clock (ru_world s) in
  match NewWorkClaimRequest (mkClaimRequest (wc_owner config) at_ (wc_leaseDuration config) limit) with
  | Err _ => leaveRun w s
  | Ok request =>
      let '(answer, w) := calling (work_Claim request) w in
      match answer with
      | Err err =>
          let '(_, w) := observe config clock WorkerClaimFailed "" (Some err) w in
          set_phase Waiting (set_world w s)
      | Ok leases =>
          if limit <? Z.of_nat (length leases) then leaveRun w s else
          let ordered := fairLeaseOrder leases in
          let '(_, w) := observeAdmitted ordered w in
          mkRun w (u32 (ru_active s + Z.of_nat (length ordered))) (ru_results s)
            (ru_handlers s ++ map (fun lease => mkHandler lease Fresh) ordered) (ru_cancelled s) (ru_err s)
            (match leases with [] => Waiting | _ => AtTop end)
      end
  end.

(** A handler's goroutine after [Handle] took a turn: it loops, or reports its error
    and is done. *)
Definition handler_turn (claimed : WorkLease) (turn : WorkLease + option GoError) (w : World S) : HandlerState * World S :=
  match turn with
  | inl current => (Running current, w)
  | inr None => (Reporting, w)
  | inr (Some err) =>
      let kind := if errors_Is err ErrStaleWorkLease then WorkerLeaseLost else WorkerProcessingFailed in
      (Reporting, (observeLease config clock kind claimed (Some err) w).2)
  end.

(** What a handler's select may receive: its context is done only when Run's is. *)
Definition ready (cancelled : bool) (signal : Signal S) : Prop :=
  match signal with
  | Processed _ | RenewalDue => True
  | Cancelled _ _ => cancelled = true
  | Elsewhere _ => False
  end.

Inductive run_step : RunState S -> RunState S -> Prop :=
  | StepCancel s : run_step s (cancel s)
  | StepElsewhere s (use : S -> S) :
      run_step s (set_world (mkWorld (use (wo_store (ru_world s))) (wo_reads (ru_world s)) (wo_events (ru_world s))) s)
  | StepStop s : ru_phase s = AtTop -> ru_cancelled s = true -> run_step s (set_phase Joining s)
  | StepAdmit s : ru_phase s = AtTop -> ru_cancelled s = false -> 0 < capacity s -> run_step s (pollAndAdmit s)
  | StepFull s : ru_phase s = AtTop -> ru_cancelled s = false -> capacity s = 0 -> run_step s (set_phase Waiting s)
  | StepDone s : ru_phase s = Waiting -> ru_cancelled s = true -> run_step s (set_phase AtTop s)
  | StepTimer s : ru_phase s = Waiting -> run_step s (set_phase AtTop s)
  | StepResult s : ru_phase s = Waiting -> 0 < ru_results s ->
      run_step s (mkRun (ru_world s) (u32 (ru_active s - 1)) (ru_results s - 1) (ru_handlers s) (ru_cancelled s) (ru_err s) AtTop)
  | StepJoined s : ru_phase s = Joining -> ru_handlers s = [] -> run_step s (set_phase Returned s)
  | StepStart s before after lease turn w state w' :
      ru_handlers s = before ++ mkHandler lease Fresh :: after ->
      startHandle config clock lease (ru_world s) = (turn, w) -> handler_turn lease turn w = (state, w') ->
      run_step s (set_world w' (set_handlers (before ++ mkHandler lease state :: after) s))
  | StepTurn s before after lease current signal turn w state w' :
      ru_handlers s = before ++ mkHandler lease (Running current) :: after -> ready (ru_cancelled s) signal ->
      handleSignal config clock signal current (ru_world s) = (turn, w) -> handler_turn lease turn w = (state, w') ->
      run_step s (set_world w' (set_handlers (before ++ mkHandler lease state :: after) s))
  | StepReport s before after lease :
      ru_handlers s = before ++ mkHandler lease Reporting :: after -> ru_results s < wc_maxConcurrent config ->
      run_step s (mkRun (ru_world s) (ru_active s) (ru_results s + 1) (before ++ after) (ru_cancelled s) (ru_err s) (ru_phase s)).

Definition start (w : World S) : RunState S := mkRun w 0 0 [] false None AtTop.

(** [Run] has reached a state. *)
Definition reachable (s : RunState S) : Prop := exists w, rtc run_step (start w) s.

(** ** The invariant *)

Definition admissible (lease : WorkLease) : Prop := lease_Valid lease = true /\ le_owner lease = wc_owner config.

(** [Handle] checks its lease before it does anything else with it. *)
Definition vetted (h : Handler) : Prop := match ha_state h with Running _ => admissible (ha_lease h) | _ => True end.

Lemma start_vetted lease (w w1 w2 : World S) turn state :
  startHandle config clock lease w = (turn, w1) -> handler_turn lease turn w1 = (state, w2) -> vetted (mkHandler lease state).
Proof.
  unfold startHandle. destruct (negb (lease_Valid lease) || _) eqn:G.
  - intros [= <- <-] [= <- _]. done.
  - bool_norm. intros _. destruct turn as [current | [err |]]; intros [= <- _]; done.
Qed.

Lemma turn_vetted lease current turn state (w w' : World S) :
  vetted (mkHandler lease (Running current)) -> handler_turn lease turn w = (state, w') -> vetted (mkHandler lease state).
Proof. intros Hv. by destruct turn as [renewed | [err |]]; intros [= <- _]. Qed.

Record run_wf (s : RunState S) : Prop := {
  rn_accounted : ru_active s = ru_results s + Z.of_nat (length (ru_handlers s));
  rn_bounded : ru_active s <= wc_maxConcurrent config;
  rn_results : 0 <= ru_results s;
  rn_leases : Forall vetted (ru_handlers s);
  rn_cancelled : ru_phase s = Joining \/ ru_phase s = Returned \/ is_Some (ru_err s) -> ru_cancelled s = true;
  rn_joined : ru_phase s = Returned -> ru_handlers s = [];
  rn_error : ru_err s = None \/ ru_err s = Some ErrInvalidWorker
}.

(** The configuration comes from [NewWorker]; its counts are uint32. *)
Hypothesis Hconfig : NewWorker config = Ok config.
Hypothesis Hcounts : 0 <= wc_maxConcurrent config /\ 0 <= wc_claimLimit config.

Lemma config_bounds : 0 < wc_maxConcurrent config <= MaxWorkerConcurrency /\ 0 < wc_claimLimit config <= MaxWorkClaimItems
  /\ instanceIDPattern (wc_owner config) = true /\ 0 < wc_leaseDuration config <= MaxWorkLeaseDuration.
Proof.
  unfold NewWorker in Hconfig. destruct (_ || _) eqn:E in Hconfig; [done |].
  clear Hconfig. repeat (apply orb_false_iff in E as [E ?]).
  repeat match goal with
  | H : (_ =? _) = false |- _ => apply Z.eqb_neq in H
  | H : (_ <? _) = false |- _ => apply Z.ltb_ge in H
  | H : (_ <=? _) = false |- _ => apply Z.leb_gt in H
  | H : negb (instanceIDPattern _) = false |- _ => apply negb_false_iff in H
  end.
  split_and!; first [assumption | lia].
Qed.

Lemma capacity_free s : run_wf s -> capacity s = wc_maxConcurrent config - ru_active s.
Proof.
  intros []. pose proof config_bounds as (Hm & _). unfold MaxWorkerConcurrency in Hm. unfold capacity. apply u32_small. lia.
Qed.

Lemma pollAndAdmit_wf s : run_wf s -> ru_phase s = AtTop -> ru_cancelled s = false -> run_wf (pollAndAdmit s).
Proof.
  intros Hwf Hp Hc. pose proof (capacity_free s Hwf) as Hcap. pose proof config_bounds as (Hm & Hl & _). destruct Hwf.
  assert (Hgive : forall w, run_wf (leaveRun w s)) by (intros w; split; cbn; try done; auto).
  unfold pollAndAdmit. rewrite Hcap. set (limit := Z.min _ _). destruct (now clock (ru_world s)) as [at_ w].
  unfold NewWorkClaimRequest. destruct (negb _); [apply Hgive |]. unfold calling.
  destruct (work_Claim _ (wo_store w)) as [[leases | err] st]; cbv beta iota.
  - destruct (limit <? _) eqn:Hlen; [apply Hgive |]. apply Z.ltb_ge in Hlen.
    assert (Hperm : Permutation (fairLeaseOrder leases) leases) by apply fairLeaseOrder_Permutation.
    destruct (observeAdmitted _ _) as [u w2].
    assert (Hlength : length (fairLeaseOrder leases) = length leases) by by rewrite Hperm.
    assert (Hactive : u32 (ru_active s + Z.of_nat (length (fairLeaseOrder leases)))
      = ru_active s + Z.of_nat (length (fairLeaseOrder leases))).
    { apply u32_small. unfold MaxWorkerConcurrency in Hm. lia. }
    rewrite Hactive, Hlength. split; cbn [ru_active ru_results ru_handlers ru_cancelled ru_err ru_phase].
    + rewrite length_app, length_map. lia.
    + lia.
    + done.
    + apply Forall_app. split; [done |]. apply Forall_map. by apply Forall_true.
    + intros [Hx | [Hx | Hx]]; [by destruct leases | by destruct leases | auto].
    + by destruct leases.
    + done.
  - unfold observe. destruct (negb (wc_hooks config)); split; cbn; try done; intros [|[|]]; auto; done.
Qed.

(** One admission starts at most as many handlers as there is room for, whatever
    the store answered. *)
Lemma pollAndAdmit_bounded s :
  Z.of_nat (length (ru_handlers (pollAndAdmit s))) <= Z.of_nat (length (ru_handlers s)) + Z.max 0 (Z.min (wc_claimLimit config) (capacity s)).
Proof.
  unfold pollAndAdmit. set (limit := Z.min _ _). destruct (now clock (ru_world s)) as [at_ w].
  destruct (NewWorkClaimRequest _); [| cbn; lia]. destruct (calling _ w) as [[leases | err] w1].
  - destruct (Z.ltb_spec limit (Z.of_nat (length leases))); [cbn; lia |].
    destruct (observeAdmitted _ _). cbn [ru_handlers]. rewrite length_app, length_map, fairLeaseOrder_Permutation. lia.
  - by destruct (observe _ _ _ _ _ _); cbn; lia.
Qed.

Lemma replace_handler_wf s w before after lease state state' :
  ru_handlers s = before ++ mkHandler lease state :: after -> vetted (mkHandler lease state') -> run_wf s ->
  run_wf (set_world w (set_handlers (before ++ mkHandler lease state' :: after) s)).
Proof.
  intros Hh Hv []. rewrite Hh in *. split; cbn; try done.
  - rewrite !length_app in *. cbn in *. lia.
  - apply Forall_app in rn_leases0 as [H1 [H2 H3]%Forall_cons]. apply Forall_app. split; [done |]. by constructor.
  - intros Hx. specialize (rn_joined0 Hx). by destruct before.
Qed.

Lemma run_step_wf s s' : run_step s s' -> run_wf s -> run_wf s'.
Proof.
  destruct 1; intros Hwf.
  - destruct Hwf. by split.
  - destruct Hwf. by split.
  - destruct Hwf. split; cbn; try done.
  - by apply pollAndAdmit_wf.
  - destruct Hwf. split; cbn; try done. intros [|[|]]; auto; done.
  - destruct Hwf. split; cbn; try done.
  - destruct Hwf. split; cbn; try done. intros [|[|]]; auto; done.
  - destruct Hwf. pose proof config_bounds as (Hm & _). unfold MaxWorkerConcurrency in Hm.
    split; cbn; rewrite ?u32_small by lia; try done; try lia. intros [|[|]]; auto; done.
  - destruct Hwf. split; cbn; try done. auto.
  - eapply replace_handler_wf; [done | by eapply start_vetted | done].
  - eapply replace_handler_wf; [done | eapply turn_vetted; [| done] | done].
    destruct Hwf as [_ _ _ Hl _ _ _]. rewrite H in Hl. by apply Forall_app in Hl as [_ [? _]%Forall_cons].
  - destruct Hwf. rewrite H in *. split; cbn; try done; try lia.
    + rewrite !length_app in *. cbn in *. lia.
    + apply Forall_app in rn_leases0 as [H1 [H2 H3]%Forall_cons]. by apply Forall_app.
    + intros Hx. specialize (rn_joined0 Hx). by destruct before.
Qed.

Lemma reachable_wf s : reachable s -> run_wf s.
Proof.
  intros [w Hr]. assert (Hstart : run_wf (start w)).
  { pose proof config_bounds as (Hm & _). split; cbn; try done; try lia; [| by left].
    intros [Hx | [Hx | Hx]]; [done.. | by destruct Hx]. }
  remember (start w) as s0 eqn:E. clear E. induction Hr as [| a b c Hab _ IH]; [done |]. apply IH. by eapply run_step_wf.
Qed.

(** ** Shutdown *)

(** A cancelled state in which the handlers have moved on and nothing else has. *)
Record drained (s s' : RunState S) : Prop := {
  dr_steps : rtc run_step s s';
  dr_wf : run_wf s';
  dr_cancelled : ru_cancelled s' = true;
  dr_phase : ru_phase s' = ru_phase s;
  dr_error : ru_err s' = ru_err s
}.

Lemma drained_trans a b c : drained a b -> drained b c -> drained a c.
Proof. intros [] []. split; try done; [by etrans | congruence..]. Qed.

Lemma drained_step s s' : run_wf s -> run_step s s' -> ru_cancelled s' = true ->
  ru_phase s' = ru_phase s -> ru_err s' = ru_err s -> drained s s'.
Proof. intros Hwf Hs Hc Hp He. split; try done; [by apply rtc_once | by eapply run_step_wf]. Qed.

(** One handler ends, whatever it was doing. *)
Lemma report_first s lease after : run_wf s -> ru_cancelled s = true -> ru_handlers s = mkHandler lease Reporting :: after ->
  exists s', drained s s' /\ ru_handlers s' = after.
Proof.
  intros Hwf Hc Hh. assert (Hroom : ru_results s < wc_maxConcurrent config).
  { destruct Hwf. rewrite Hh in *. cbn [length] in *. lia. }
  pose proof (StepReport s [] after lease Hh Hroom) as Hstep. eexists.
  split; [exact (drained_step _ _ Hwf Hstep Hc eq_refl eq_refl) | done].
Qed.

Lemma stop_first s lease current after : run_wf s -> ru_cancelled s = true ->
  ru_handlers s = mkHandler lease (Running current) :: after -> exists s', drained s s' /\ ru_handlers s' = after.
Proof.
  intros Hwf Hc Hh. destruct (handler_turn lease (inr (Some ContextCanceled)) (ru_world s)) as [state w] eqn:Ht.
  assert (Hstate : state = Reporting) by (cbn in Ht; congruence). subst state.
  pose proof (StepTurn s [] after lease current (Cancelled ContextCanceled (Err ContextCanceled)) _ _ _ _ Hh Hc eq_refl Ht) as Hstep.
  pose proof (drained_step _ _ Hwf Hstep Hc eq_refl eq_refl) as Hd.
  destruct (report_first _ lease after (dr_wf _ _ Hd) (dr_cancelled _ _ Hd) eq_refl) as (s' & Hd' & Hs').
  exists s'. split; [by eapply drained_trans | done].
Qed.

Lemma end_first s h after : run_wf s -> ru_cancelled s = true -> ru_handlers s = h :: after ->
  exists s', drained s s' /\ ru_handlers s' = after.
Proof.
  intros Hwf Hc Hh. destruct h as [lease [| current |]]; [| by eapply stop_first | by eapply report_first].
  destruct (startHandle config clock lease (ru_world s)) as [turn w] eqn:Hst.
  destruct (handler_turn lease turn w) as [state w'] eqn:Ht.
  pose proof (StepStart s [] after lease turn w state w' Hh Hst Ht) as Hstep.
  pose proof (drained_step _ _ Hwf Hstep Hc eq_refl eq_refl) as Hd.
  assert (Hnext : exists s', drained (set_world w' (set_handlers ([] ++ mkHandler lease state :: after) s)) s' /\ ru_handlers s' = after).
  { destruct state as [| current |]; [by destruct turn as [| []] | |].
    - exact (stop_first _ lease current after (dr_wf _ _ Hd) (dr_cancelled _ _ Hd) eq_refl).
    - exact (report_first _ lease after (dr_wf _ _ Hd) (dr_cancelled _ _ Hd) eq_refl). }
  destruct Hnext as (s' & Hd' & Hs'). exists s'. split; [by eapply drained_trans | done].
Qed.

Lemma drain s : run_wf s -> ru_cancelled s = true -> exists s', drained s s' /\ ru_handlers s' = [].
Proof.
  remember (ru_handlers s) as hs eqn:Hhs. revert s Hhs. induction hs as [| h hs IH]; intros s Hhs Hwf Hc.
  - exists s. split; [by split | done].
  - destruct (end_first s h hs Hwf Hc (eq_sym Hhs)) as (s1 & Hd & H1).
    destruct (IH s1 (eq_sym H1) (dr_wf _ _ Hd) (dr_cancelled _ _ Hd)) as (s2 & Hd2 & H2).
    exists s2. split; [by eapply drained_trans | done].
Qed.

(** The loop, once cancelled and without handlers, returns. *)
Lemma join s : ru_cancelled s = true -> ru_handlers s = [] ->
  exists s', rtc run_step s s' /\ ru_phase s' = Returned /\ ru_err s' = ru_err s.
Proof.
  intros Hc Hh.
  assert (Hjoining : forall x, ru_phase x = Joining -> ru_handlers x = [] ->
    exists s', rtc run_step x s' /\ ru_phase s' = Returned /\ ru_err s' = ru_err x).
  { intros x Hp Hx. eexists. split; [apply rtc_once, StepJoined; done | done]. }
  assert (Htop : forall x, ru_phase x = AtTop -> ru_cancelled x = true -> ru_handlers x = [] ->
    exists s', rtc run_step x s' /\ ru_phase s' = Returned /\ ru_err s' = ru_err x).
  { intros x Hp Hcx Hx. destruct (Hjoining (set_phase Joining x) eq_refl Hx) as (s' & Hs & Hr).
    exists s'. split; [| exact Hr]. eapply rtc_l; [by apply StepStop | exact Hs]. }
  destruct (ru_phase s) eqn:Hp; [by apply Htop | | by apply Hjoining | by exists s].
  destruct (Htop (set_phase AtTop s) eq_refl Hc Hh) as (s' & Hs & Hr). exists s'. split; [| exact Hr].
  eapply rtc_l; [by apply StepDone | exact Hs].
Qed.
End Run.

(** ** Samples *)

Definition given_lease : WorkLease :=
  mkLease (mkWork "work-1" WorkActivity "wf-1" 1 (sample_time 1) (sample_time 60) None "" "") "worker-a" 1 1
    (sample_time 2) (sample_time 12).

(** A store with one lease to give its owner, again and again. *)
Definition giving : WorkStore unit := {|
  work_Claim request s :=
    (if bool_decide (cr_owner request = "worker-a"%string) && (1 <=? cr_limit request) then Ok [given_lease]
     else Err ErrInvalidStoreRequest, s);
  work_Renew renewal s := (Err ErrStaleWorkLease, s);
  work_Complete completion s := (None, s);
  work_Fail failure s := (None, s)
|}.

(** A store that answers more than it was asked for, and to nobody's name. *)
Definition flooding : WorkStore unit := {|
  work_Claim request s := (Ok (repeat (mkLease (le_work given_lease) "" 1 0 zeroTime zeroTime) (Z.to_nat (cr_limit request + 1))), s);
  work_Renew renewal s := (Err ErrStaleWorkLease, s);
  work_Complete completion s := (None, s);
  work_Fail failure s := (None, s)
|}.

Definition run_config : WorkerConfig :=
  mkWorkerConfig true true true true "worker-a" 2 5 10000000000 5000000000 1000000000 1000000000.
Definition run_clock (n : nat) : Time := sample_time (3 + Z.of_nat n).


