(* ===== verification/Processor.v ===== *)
(** * What the processors share (activity_processor.go)

    The store a processor borrows, its effects, the confirmation of a transition
    whose commit may be uncertain, and bounded inspection. The three processors of
    ActivityProcessor.v, CompensationProcessor.v and ChildProcessor.v run on it. *)
From S2P Require Import Prelude GoTime Names Definitions Registry OperatorAudit Event Instances Replay.
From S2P Require Import Work Transition Store Administration Inspection Activity Worker.

(** [ActivityExecutionStore]: operations on a state that also holds whatever the
    handlers reach. *)
Class ExecutionStore (S : Type) := {
  exec_Commit : Transition -> S -> option GoError * S;
  exec_History : HistoryQuery -> S -> result HistoryPage * S;
  exec_Reconcile : TransitionReconciliation -> S -> result TransitionReconciliationOutcome * S
}.

(** ** Effects: the world of the worker, and errors *)

Definition ProcM (S A : Type) : Type := World S -> result A * World S.

#[export] Instance proc_ret S : MRet (ProcM S) := fun A a w => (Ok a, w).
#[export] Instance proc_bind S : MBind (ProcM S) := fun A B f m w =>
  match m w with
  | (Ok a, w') => f a w'
  | (Err err, w') => (Err err, w')
  end.

Definition ask {S A} (operation : S -> A * S) : ProcM S A := fun w =>
  let '(a, w') := calling operation w in (Ok a, w').

Definition readClock {S} (clock : nat -> Time) : ProcM S Time := fun w =>
  let '(t, w') := now clock w in (Ok t, w').

Definition fallible {S A} (r : result A) : ProcM S A := fun w => (r, w).

(** The result of [m] as a value, for a caller that inspects the error. *)
Definition attempt {S A} (m : ProcM S A) : ProcM S (result A) := fun w =>
  let '(r, w') := m w in (Ok r, w').

Notation "'refuse' b 'with' e ; k" := (if b then fallible (Err e) else k)
  (at level 10, b at level 100, e at level 100, k at level 200, format "'refuse'  b  'with'  e ;  '//' k").

(** [if err != nil { return WorkDecision{}, e }] *)
Notation "x <~~ m 'else' e ; k" := (fallible (map_err e m) ≫= (fun x => k))
  (at level 20, m at level 100, e at level 100, k at level 200, right associativity).

(** ** Decisions *)

Definition activityComplete {S} : ProcM S WorkDecision :=
  fallible (NewWorkDecision (mkDecision WorkComplete "" zeroTime)).

Definition activityDeadLetter {S} (code : string) : ProcM S WorkDecision :=
  fallible (NewWorkDecision (mkDecision WorkDeadLetterDecision code zeroTime)).

Definition activityProcessorStep (definition : Definition_) (name : string) : option StepSpec :=
  find (fun step => bool_decide (step_Name step = name) && bool_decide (step_Kind step = StepActivity))
    (ds_Steps (def_spec definition)).

Section Processor.
Context {S : Type} `{!ExecutionStore S} (ctx : S -> Context).

(** ** Confirmation of a transition *)

Definition zeroReconciliation : TransitionReconciliation := mkReconciliation "" "".

Definition commitActivityTransition (transition : Transition) : ProcM S unit :=
  err ← ask (exec_Commit transition);
  match err with
  | None => mret tt
  | Some failure =>
      let outcome := StoreCommitOutcomeOf err in
      if bool_decide (outcome = StoreCommitCommitted) then mret tt else
      refuse bool_decide (outcome = StoreCommitNotCommitted) with failure;
      let reconciliation := or_zero zeroReconciliation
        (NewTransitionReconciliation (mkReconciliation (tr_id transition) (tr_fingerprint transition))) in
      answer ← ask (exec_Reconcile reconciliation);
      match answer with
      | Err reconcileErr => fallible (Err reconcileErr)
      | Ok TransitionCommitted => mret tt
      | Ok TransitionConflicting => fallible (Err ErrDuplicateTransition)
      | Ok TransitionMissing =>
          again ← ask (exec_Commit transition);
          match again with None => mret tt | Some failure => fallible (Err failure) end
      | Ok TransitionReconciliationUndeclared => fallible (Err ErrInvalidStoreRequest)
      end
  end.

(** ** Inspection *)

(** The limit error stands for an iteration count that ran out, which never happens
    (see [inspection_returns]). *)
Definition inspecting (definitions : option Registry) (pageSize maxEvents : Z) (instanceID : string) : ProcM S Instance_ :=
  answer ← ask (fun s =>
    match InspectInstance exec_History (fun s => ctx_Err (ctx s)) definitions
            (mkInspectionSpec instanceID pageSize maxEvents) s with
    | Some answer => answer
    | None => (Err ErrHistoryLimitExceeded, s)
    end);
  fallible answer.

Lemma inspection_returns definitions pageSize maxEvents instanceID s :
  0 <= pageSize ->
  is_Some (InspectInstance exec_History (fun s => ctx_Err (ctx s)) definitions
    (mkInspectionSpec instanceID pageSize maxEvents) s).
Proof.
  intros Hp. unfold InspectInstance. destruct definitions as [definitions |]; [| by eexists].
  cbn [is_InstanceID is_PageSize is_MaxEvents].
  destruct (validHistoryTraversal _ _ _) eqn:Hv; cbn [negb]; [| by eexists].
  unfold validHistoryTraversal in Hv. destruct (negb _); [done |]. destruct (_ || _) eqn:G; [done |]. bool_norm.
  destruct (traverse_returns (collecting exec_History) (fun w => ctx_Err (ctx w.1)) collect instanceID pageSize maxEvents
    (traverse_fuel maxEvents) 0 0 (s, [])) as [[err [w' events]] ->]; [lia | lia | unfold traverse_fuel; lia | lia |].
  cbn. by eexists.
Qed.
End Processor.
