(* ===== verification/ActivityProcessor.v ===== *)
(** * The activity processor (activity_processor.go)

    Every attempt is durably started before its handler runs, and durably settled
    before the work is. *)
From S2P Require Import Prelude GoTime Names Sha256 Definitions Registry OperatorAudit Event Instances ActivityHistory Replay.
From S2P Require Import Work Transition Store Administration Inspection Activity ActivityTransition ChildTransition.
From S2P Require Import Worker Processor.

Record ActivityWorkProcessorConfig (S : Type) := mkActivityProcessor {
  pc_Store : bool;
  pc_Definitions : option Registry;
  pc_Activities : option (ActivityRegistry S);
  pc_Clock : bool;
  pc_PageSize : Z;          (** uint32 *)
  pc_MaxHistoryEvents : Z   (** uint32 *)
}.
Arguments mkActivityProcessor {S}.
Arguments pc_Store {S}.
Arguments pc_Definitions {S}.
Arguments pc_Activities {S}.
Arguments pc_Clock {S}.
Arguments pc_PageSize {S}.
Arguments pc_MaxHistoryEvents {S}.

Definition NewActivityWorkProcessor {S} (config : ActivityWorkProcessorConfig S) : result (ActivityWorkProcessorConfig S) :=
  reject negb (pc_Store config) with ErrInvalidActivityProcessor;
  reject bool_decide (pc_Definitions config = None) with ErrInvalidActivityProcessor;
  reject bool_decide (pc_Activities config = None) with ErrInvalidActivityProcessor;
  reject negb (pc_Clock config) with ErrInvalidActivityProcessor;
  reject negb (validHistoryTraversal "processor-instance" (pc_PageSize config) (pc_MaxHistoryEvents config))
    with ErrInvalidActivityProcessor;
  Ok config.

(** [executeActivitySafely]: a recovered panic and any error are unknown outcomes. *)
Definition unknownOutcome (code : string) : ActivityOutcome :=
  or_zero (mkOutcome ActivityOutcomeUndeclared "" false None)
    (NewActivityOutcome (mkOutcome ActivityUnknown code false None)).

Section Run.
Context {S : Type} `{!ExecutionStore S} (clock : nat -> Time) (ctx : S -> Context).

Definition executeActivitySafely (activity : Activity S) (request : ActivityRequest) : ProcM S ActivityOutcome :=
  executed ← ask (fun s => Execute activity (Some (ctx s)) request s);
  match executed with
  | Ok outcome => mret outcome
  | Err Panic => mret (unknownOutcome "activity-panic")
  | Err _ => mret (unknownOutcome "activity-execution-unknown")
  end.

Context (config : ActivityWorkProcessorConfig S).

Definition activity_inspect (instanceID : string) : ProcM S Instance_ :=
  inspecting ctx (pc_Definitions config) (pc_PageSize config) (pc_MaxHistoryEvents config) instanceID.

Definition activity_load (work : PendingWork) (dispatch : ActivityDispatch)
    : ProcM S (Instance_ * Definition_ * StepSpec * Activity S) :=
  instance ← activity_inspect (wk_instanceID work);
  let definition := or_zero zeroDefinition
    (Resolve (pc_Definitions config) (ref_name (in_definition instance)) (ref_version (in_definition instance))) in
  match activityProcessorStep definition (ad_stepName dispatch) with
  | None => fallible (Err ErrInvalidActivityProcessor)
  | Some step =>
      refuse (MaxAttempts (step_Retry step) <? ad_attempt dispatch) || (in_sequence instance <? wk_sequence work)
        with ErrInvalidActivityProcessor;
      activity ← fallible (resolveActivity (pc_Activities config) (step_Target step));
      mret (instance, definition, step, activity)
  end.

Definition activity_scheduleRetry (work : PendingWork) (instance : Instance_) (definition : Definition_) (step : StepSpec)
    (dispatch : ActivityDispatch) : ProcM S WorkDecision :=
  let progress := default zeroActivityProgress (in_activities instance !! ad_stepName dispatch) in
  if negb (ap_retryable progress) || (MaxAttempts (step_Retry step) <=? ap_attempt progress) then activityComplete else
  now ← readClock clock;
  let scheduledAt := if Before now (in_updatedAt instance) then in_updatedAt instance else now in
  if negb (Before (Add scheduledAt (retryDelay (step_Retry step) (ap_attempt progress))) (wk_deadline work))
  then activityComplete else
  retry <~~ NewActivityRetry (mkActivityRetrySpec (processorTransitionID (wk_id work) "retry")
      (processorTransitionID (wk_id work) "retry-work") instance definition (ad_stepName dispatch)
      (processorTransitionID (wk_id work) "retry-key") scheduledAt (wk_deadline work) (wk_tenantID work)
      (wk_correlationID work))
    else ErrInvalidActivityProcessor;
  _ ← commitActivityTransition retry;
  activityComplete.

Definition activity_persistOutcome (work : PendingWork) (instance : Instance_) (definition : Definition_)
    (dispatch : ActivityDispatch) (outcome : ActivityOutcome) : ProcM S WorkDecision :=
  now ← readClock clock;
  let occurredAt := if Before now (in_updatedAt instance) then in_updatedAt instance else now in
  transition <~~ NewActivityAttemptOutcome (mkActivityAttemptOutcomeSpec (processorTransitionID (wk_id work) "outcome")
      instance definition (ad_stepName dispatch) (ad_attempt dispatch) occurredAt outcome)
    else ErrInvalidActivityProcessor;
  _ ← commitActivityTransition transition;
  updated ← activity_inspect (wk_instanceID work);
  if bool_decide (oc_kind outcome = ActivityFailed) then
    let step := default zeroStep (activityProcessorStep definition (ad_stepName dispatch)) in
    activity_scheduleRetry work updated definition step dispatch
  else activityComplete.

Definition activity_execute (lease : WorkLease) (instance : Instance_) (definition : Definition_) (step : StepSpec)
    (activity : Activity S) (dispatch : ActivityDispatch) : ProcM S WorkDecision :=
  let work := le_work lease in
  startedAt ← readClock clock;
  start <~~ NewActivityAttemptStart (mkActivityAttemptStartSpec (processorTransitionID (wk_id work) "start") lease
      instance definition startedAt)
    else ErrInvalidActivityProcessor;
  _ ← commitActivityTransition start;
  running ← activity_inspect (wk_instanceID work);
  let progress := default zeroActivityProgress (in_activities running !! ad_stepName dispatch) in
  request <~~ NewActivityRequest (mkActivityRequest (in_id running) (in_definition running) (ad_stepName dispatch)
      (ad_attempt dispatch) (MaxAttempts (step_Retry step)) (ad_idempotencyKey dispatch)
      (Add (ap_dueAt progress) (i64 (- step_Timeout step))) (ap_dueAt progress) (ap_input progress)
      (step_InputLimit step) (step_ResultLimit step) (wk_tenantID work) (wk_correlationID work))
    else ErrInvalidActivityProcessor;
  outcome ← executeActivitySafely activity request;
  activity_persistOutcome work running definition dispatch outcome.

Definition activity_processProgress (lease : WorkLease) (instance : Instance_) (definition : Definition_) (step : StepSpec)
    (activity : Activity S) (dispatch : ActivityDispatch) (progress : ActivityProgress) : ProcM S WorkDecision :=
  let mismatch := negb (ap_attempt progress =? ad_attempt dispatch)
    || negb (bool_decide (ap_idempotencyKey progress = ad_idempotencyKey dispatch)) in
  match ap_status progress with
  | ActivityProgressReady | ActivityProgressRetryWaiting =>
      if negb (ad_attempt dispatch =? u32 (ap_attempt progress + 1)) then activityDeadLetter "invalid-activity-state"
      else activity_execute lease instance definition step activity dispatch
  | ActivityProgressRunning =>
      if mismatch then activityDeadLetter "invalid-activity-state"
      else activity_persistOutcome (le_work lease) instance definition dispatch (unknownOutcome "activity-outcome-unknown")
  | ActivityProgressFailed =>
      if mismatch then activityDeadLetter "invalid-activity-state"
      else activity_scheduleRetry (le_work lease) instance definition step dispatch
  | ActivityProgressSucceeded | ActivityProgressUnknown =>
      if mismatch then activityDeadLetter "invalid-activity-state" else activityComplete
  | _ => activityDeadLetter "invalid-activity-state"
  end.
End Run.

(** [Process] of a possibly nil processor on a possibly nil context. *)
Definition activity_Process {S} `{!ExecutionStore S} (clock : nat -> Time) (processor : option (ActivityWorkProcessorConfig S))
    (ctx : option (S -> Context)) (lease : WorkLease) : ProcM S WorkDecision :=
  match processor, ctx with
  | Some config, Some ctx =>
      refuse negb (lease_Valid lease) with ErrInvalidActivityProcessor;
      refuse negb (bool_decide (wk_kind (le_work lease) = WorkActivity)) with ErrInvalidActivityProcessor;
      let work := le_work lease in
      match DecodeActivityDispatch (wk_payload work) with
      | Err _ => activityDeadLetter "invalid-activity-dispatch"
      | Ok dispatch =>
          loaded ← attempt (activity_load ctx config work dispatch);
          match loaded with
          | Err err =>
              if errors_Is err ErrActivityNotFound || errors_Is err ErrInvalidActivityProcessor
              then activityDeadLetter "invalid-activity-definition" else fallible (Err err)
          | Ok (instance, definition, step, activity) =>
              match in_activities instance !! ad_stepName dispatch with
              | None => activityDeadLetter "invalid-activity-state"
              | Some progress => activity_processProgress clock ctx config lease instance definition step activity dispatch progress
              end
          end
      end
  | _, _ => fallible (Err ErrInvalidActivityProcessor)
  end.
