(* ===== verification/CompensationProcessor.v ===== *)
(** * The compensation processor (compensation_processor.go) *)
From S2P Require Import Prelude GoTime Names Sha256 Json Definitions Registry OperatorAudit Event Instances ActivityHistory Replay.
From S2P Require Import Work Transition Store Administration Inspection Activity ActivityTransition CompensationTransition.
From S2P Require Import Worker Processor ActivityProcessor.

Definition compensationProcessorTransitionPrefix : string := "compensation-processor-".

Definition compensationProcessorTransitionID (workID phase : string) : string :=
  compensationProcessorTransitionPrefix +:+ phase +:+ "-" +:+ sha256_hex (workID +:+ String (chr 0) phase).

Record CompensationWorkProcessorConfig (S : Type) := mkCompensationProcessor {
  kc_Store : bool;
  kc_Definitions : option Registry;
  kc_Compensations : option (ActivityRegistry S);
  kc_Clock : bool;
  kc_PageSize : Z;          (** uint32 *)
  kc_MaxHistoryEvents : Z   (** uint32 *)
}.
Arguments mkCompensationProcessor {S}.
Arguments kc_Store {S}.
Arguments kc_Definitions {S}.
Arguments kc_Compensations {S}.
Arguments kc_Clock {S}.
Arguments kc_PageSize {S}.
Arguments kc_MaxHistoryEvents {S}.

Definition NewCompensationWorkProcessor {S} (config : CompensationWorkProcessorConfig S)
    : result (CompensationWorkProcessorConfig S) :=
  reject negb (kc_Store config) with ErrInvalidCompensationProcessor;
  reject bool_decide (kc_Definitions config = None) with ErrInvalidCompensationProcessor;
  reject bool_decide (kc_Compensations config = None) with ErrInvalidCompensationProcessor;
  reject negb (kc_Clock config) with ErrInvalidCompensationProcessor;
  reject negb (validHistoryTraversal "processor-instance" (kc_PageSize config) (kc_MaxHistoryEvents config))
    with ErrInvalidCompensationProcessor;
  Ok config.

Definition compensationDeadLetter {S} (code : string) : ProcM S WorkDecision :=
  fallible (NewWorkDecision (mkDecision WorkDeadLetterDecision code zeroTime)).

Section Run.
Context {S : Type} `{!ExecutionStore S} (clock : nat -> Time) (ctx : S -> Context).

Definition executeCompensationSafely (compensation : Activity S) (request : ActivityRequest) : ProcM S ActivityOutcome :=
  executed ← ask (fun s => Execute compensation (Some (ctx s)) request s);
  match executed with
  | Ok outcome => mret outcome
  | Err Panic => mret (unknownOutcome "compensation-panic")
  | Err _ => mret (unknownOutcome "compensation-execution-unknown")
  end.

Context (config : CompensationWorkProcessorConfig S).

Definition compensation_inspect (instanceID : string) : ProcM S Instance_ :=
  inspecting ctx (kc_Definitions config) (kc_PageSize config) (kc_MaxHistoryEvents config) instanceID.

Definition compensation_load (work : PendingWork) (dispatch : CompensationDispatch)
    : ProcM S (Instance_ * Definition_ * StepSpec * Activity S) :=
  instance ← compensation_inspect (wk_instanceID work);
  let definition := or_zero zeroDefinition
    (Resolve (kc_Definitions config) (ref_name (in_definition instance)) (ref_version (in_definition instance))) in
  match activityProcessorStep definition (ad_stepName dispatch) with
  | None => fallible (Err ErrInvalidCompensationProcessor)
  | Some step =>
      match step_Compensation step with
      | None => fallible (Err ErrInvalidCompensationProcessor)
      | Some policy =>
          refuse (MaxAttempts (cs_Retry policy) <? ad_attempt dispatch) || (in_sequence instance <? wk_sequence work)
            with ErrInvalidCompensationProcessor;
          compensation ← fallible (resolveActivity (kc_Compensations config) (cs_Target policy));
          mret (instance, definition, step, compensation)
      end
  end.

Definition compensation_scheduleRetry (work : PendingWork) (instance : Instance_) (definition : Definition_)
    (step : StepSpec) (dispatch : CompensationDispatch) : ProcM S WorkDecision :=
  let progress := default zeroCompensationProgress (in_compensations instance !! ad_stepName dispatch) in
  match step_Compensation step with
  | None => activityComplete
  | Some policy =>
      if negb (cp_retryable progress) then activityComplete else
      if MaxAttempts (cs_Retry policy) <=? cp_attempt progress then activityComplete else
      now ← readClock clock;
      let scheduledAt := if Before now (in_updatedAt instance) then in_updatedAt instance else now in
      if negb (Before (Add scheduledAt (retryDelay (cs_Retry policy) (cp_attempt progress))) (wk_deadline work))
      then activityComplete else
      retry <~~ NewCompensationRetry (mkCompensationRetrySpec (compensationProcessorTransitionID (wk_id work) "retry")
          (compensationProcessorTransitionID (wk_id work) "retry-work") instance definition (ad_stepName dispatch)
          (compensationProcessorTransitionID (wk_id work) "retry-key") scheduledAt (wk_deadline work)
          (wk_tenantID work) (wk_correlationID work))
        else ErrInvalidCompensationProcessor;
      _ ← commitActivityTransition retry;
      activityComplete
  end.

Definition compensation_persistOutcome (work : PendingWork) (instance : Instance_) (definition : Definition_)
    (dispatch : CompensationDispatch) (outcome : ActivityOutcome) : ProcM S WorkDecision :=
  now ← readClock clock;
  let occurredAt := if Before now (in_updatedAt instance) then in_updatedAt instance else now in
  transition <~~ NewCompensationAttemptOutcome (mkCompensationAttemptOutcomeSpec
      (compensationProcessorTransitionID (wk_id work) "outcome") instance definition (ad_stepName dispatch)
      (ad_attempt dispatch) occurredAt outcome)
    else ErrInvalidCompensationProcessor;
  _ ← commitActivityTransition transition;
  updated ← compensation_inspect (wk_instanceID work);
  if bool_decide (oc_kind outcome = ActivityFailed) then
    let step := default zeroStep (activityProcessorStep definition (ad_stepName dispatch)) in
    compensation_scheduleRetry work updated definition step dispatch
  else activityComplete.

Definition compensation_execute (lease : WorkLease) (instance : Instance_) (definition : Definition_) (step : StepSpec)
    (compensation : Activity S) (dispatch : CompensationDispatch) : ProcM S WorkDecision :=
  let work := le_work lease in
  startedAt ← readClock clock;
  start <~~ NewCompensationAttemptStart (mkCompensationAttemptStartSpec
      (compensationProcessorTransitionID (wk_id work) "start") lease instance definition startedAt)
    else ErrInvalidCompensationProcessor;
  _ ← commitActivityTransition start;
  running ← compensation_inspect (wk_instanceID work);
  let progress := default zeroCompensationProgress (in_compensations running !! ad_stepName dispatch) in
  match step_Compensation step with
  | None => fallible (Err Panic)
  | Some policy =>
      request <~~ NewActivityRequest (mkActivityRequest (in_id running) (in_definition running) (ad_stepName dispatch)
          (ad_attempt dispatch) (MaxAttempts (cs_Retry policy)) (ad_idempotencyKey dispatch)
          (Add (cp_dueAt progress) (i64 (- cs_Timeout policy))) (cp_dueAt progress) (cp_input progress)
          (step_InputLimit step) (cs_ResultLimit policy) (wk_tenantID work) (wk_correlationID work))
        else ErrInvalidCompensationProcessor;
      outcome ← executeCompensationSafely compensation request;
      compensation_persistOutcome work running definition dispatch outcome
  end.

Definition compensation_processProgress (lease : WorkLease) (instance : Instance_) (definition : Definition_)
    (step : StepSpec) (compensation : Activity S) (dispatch : CompensationDispatch) (progress : CompensationProgress)
    : ProcM S WorkDecision :=
  let mismatch := negb (cp_attempt progress =? ad_attempt dispatch)
    || negb (bool_decide (cp_idempotencyKey progress = ad_idempotencyKey dispatch)) in
  match cp_status progress with
  | CompensationReady | CompensationRetryWaiting =>
      if negb (ad_attempt dispatch =? u32 (cp_attempt progress + 1))
      then compensationDeadLetter "invalid-compensation-state"
      else compensation_execute lease instance definition step compensation dispatch
  | CompensationRunning =>
      if mismatch then compensationDeadLetter "invalid-compensation-state"
      else compensation_persistOutcome (le_work lease) instance definition dispatch
             (unknownOutcome "compensation-outcome-unknown")
  | CompensationFailed =>
      if mismatch then compensationDeadLetter "invalid-compensation-state"
      else compensation_scheduleRetry (le_work lease) instance definition step dispatch
  | CompensationSucceeded | CompensationUnknown | CompensationManuallyResolved =>
      if mismatch then compensationDeadLetter "invalid-compensation-state" else activityComplete
  | _ => compensationDeadLetter "invalid-compensation-state"
  end.
End Run.

(** [Process] of a possibly nil processor on a possibly nil context. *)
Definition compensation_Process {S} `{!ExecutionStore S} (clock : nat -> Time)
    (processor : option (CompensationWorkProcessorConfig S)) (ctx : option (S -> Context)) (lease : WorkLease)
    : ProcM S WorkDecision :=
  match processor, ctx with
  | Some config, Some ctx =>
      refuse negb (lease_Valid lease) with ErrInvalidCompensationProcessor;
      refuse negb (bool_decide (wk_kind (le_work lease) = WorkCompensation)) with ErrInvalidCompensationProcessor;
      let work := le_work lease in
      match DecodeCompensationDispatch (wk_payload work) with
      | Err _ => compensationDeadLetter "invalid-compensation-dispatch"
      | Ok dispatch =>
          loaded ← attempt (compensation_load ctx config work dispatch);
          match loaded with
          | Err err =>
              if errors_Is err ErrActivityNotFound || errors_Is err ErrInvalidCompensationProcessor
              then compensationDeadLetter "invalid-compensation-definition" else fallible (Err err)
          | Ok (instance, definition, step, compensation) =>
              match in_compensations instance !! ad_stepName dispatch with
              | None => compensationDeadLetter "invalid-compensation-state"
              | Some progress =>
                  compensation_processProgress clock ctx config lease instance definition step compensation dispatch progress
              end
          end
      end
  | _, _ => fallible (Err ErrInvalidCompensationProcessor)
  end.
