(* ===== verification/ChildProcessor.v ===== *)
(** * The child processor (child_processor.go; the starter of child_start.go)

    The starter that creates the child is the caller's, as a handler is. *)
From S2P Require Import Prelude GoTime Names Sha256 Json Definitions Registry OperatorAudit Event Instances ActivityHistory Replay.
From S2P Require Import Work Transition Store Administration Inspection Activity ChildStart ChildTransition.
From S2P Require Import Worker Processor.

(** [ChildStarter.Start] *)
Definition ChildStarter (S : Type) : Type := Context -> ChildStartRequest -> S -> option ChildStartOutcome * S.

Definition childProcessorTransitionPrefix : string := "child-processor-".

Definition childProcessorTransitionID (workID phase : string) : string :=
  childProcessorTransitionPrefix +:+ phase +:+ "-" +:+ sha256_hex (workID +:+ String (chr 0) phase).

Record ChildWorkProcessorConfig (S : Type) := mkChildProcessor {
  cw_Store : bool;
  cw_Definitions : option Registry;
  cw_Starter : option (ChildStarter S);
  cw_Clock : bool;
  cw_PageSize : Z;          (** uint32 *)
  cw_MaxHistoryEvents : Z   (** uint32 *)
}.
Arguments mkChildProcessor {S}.
Arguments cw_Store {S}.
Arguments cw_Definitions {S}.
Arguments cw_Starter {S}.
Arguments cw_Clock {S}.
Arguments cw_PageSize {S}.
Arguments cw_MaxHistoryEvents {S}.

Definition NewChildWorkProcessor {S} (config : ChildWorkProcessorConfig S) : result (ChildWorkProcessorConfig S) :=
  reject negb (cw_Store config) || bool_decide (cw_Definitions config = None) || bool_decide (cw_Starter config = None)
    || negb (cw_Clock config)
    || negb (validHistoryTraversal "processor-instance" (cw_PageSize config) (cw_MaxHistoryEvents config))
    with ErrInvalidChildProcessor;
  Ok config.

(** An unknown start outcome of the processor's own. *)
Definition unknownStart (code : string) : ChildStartOutcome :=
  or_zero (mkStartOutcome ChildStartOutcomeUndeclared "" false)
    (NewChildStartOutcome (mkStartOutcome ChildStartUnknown code false)).

Section Run.
Context {S : Type} `{!ExecutionStore S} (clock : nat -> Time) (ctx : S -> Context).

(** A nil starter panics, and the panic is recovered. *)
Definition executeChildStartSafely (starter : option (ChildStarter S)) (request : ChildStartRequest)
    : ProcM S ChildStartOutcome :=
  ask (fun s =>
    match deadline_Err (ctx s) (sr_deadline request) with
    | Some _ =>
        (or_zero (mkStartOutcome ChildStartOutcomeUndeclared "" false)
           (NewChildStartOutcome (mkStartOutcome ChildStartFailed "child-start-context-done" true)), s)
    | None =>
        match starter with
        | None => (unknownStart "child-start-panic", s)
        | Some start =>
            let '(answer, s) := start (ctx s) request s in
            match answer with
            | None => (unknownStart "child-start-panic", s)
            | Some outcome =>
                if negb (start_outcome_valid outcome) then (unknownStart "child-start-invalid-outcome", s)
                else (outcome, s)
            end
        end
    end).

Context (config : ChildWorkProcessorConfig S).

Definition child_inspect (instanceID : string) : ProcM S Instance_ :=
  inspecting ctx (cw_Definitions config) (cw_PageSize config) (cw_MaxHistoryEvents config) instanceID.

Definition child_load (work : PendingWork) (dispatch : ChildDispatch) : ProcM S (Instance_ * Definition_ * StepSpec) :=
  instance ← child_inspect (wk_instanceID work);
  let definition := or_zero zeroDefinition
    (Resolve (cw_Definitions config) (ref_name (in_definition instance)) (ref_version (in_definition instance))) in
  let step := default zeroStep (definitionStep definition (hd_stepName dispatch) StepChild) in
  refuse negb (bool_decide (step_ChildDefinition step = hd_definition dispatch))
    || (MaxAttempts (step_Retry step) <? hd_attempt dispatch) || (in_sequence instance <? wk_sequence work)
    with ErrInvalidChildProcessor;
  mret (instance, definition, step).

Definition child_scheduleRetry (work : PendingWork) (instance : Instance_) (definition : Definition_) (step : StepSpec)
    (dispatch : ChildDispatch) : ProcM S WorkDecision :=
  let progress := default zeroChildProgress (in_children instance !! hd_stepName dispatch) in
  if negb (hp_retryable progress) || (MaxAttempts (step_Retry step) <=? hp_attempt progress) then activityComplete else
  now ← readClock clock;
  let scheduledAt := if Before now (in_updatedAt instance) then in_updatedAt instance else now in
  if negb (Before (Add scheduledAt (retryDelay (step_Retry step) (hp_attempt progress))) (wk_deadline work))
  then activityComplete else
  retry <~~ NewChildStartRetry (mkChildStartRetrySpec (childProcessorTransitionID (wk_id work) "retry")
      (childProcessorTransitionID (wk_id work) "retry-work") instance definition (hd_stepName dispatch) scheduledAt
      (wk_deadline work) (wk_tenantID work) (wk_correlationID work))
    else ErrInvalidChildProcessor;
  _ ← commitActivityTransition retry;
  activityComplete.

Definition child_persistOutcome (work : PendingWork) (instance : Instance_) (definition : Definition_)
    (dispatch : ChildDispatch) (outcome : ChildStartOutcome) : ProcM S WorkDecision :=
  now ← readClock clock;
  let occurredAt := if Before now (in_updatedAt instance) then in_updatedAt instance else now in
  transition <~~ NewChildStartAttemptOutcome (mkChildStartAttemptOutcomeSpec
      (childProcessorTransitionID (wk_id work) "outcome") instance definition (hd_stepName dispatch)
      (hd_childID dispatch) (hd_attempt dispatch) occurredAt outcome)
    else ErrInvalidChildProcessor;
  _ ← commitActivityTransition transition;
  if negb (bool_decide (so_kind outcome = ChildStartFailed)) then activityComplete else
  updated ← child_inspect (wk_instanceID work);
  let step := default zeroStep (definitionStep definition (hd_stepName dispatch) StepChild) in
  child_scheduleRetry work updated definition step dispatch.

Definition child_execute (lease : WorkLease) (instance : Instance_) (definition : Definition_) (step : StepSpec)
    (dispatch : ChildDispatch) : ProcM S WorkDecision :=
  let work := le_work lease in
  startedAt ← readClock clock;
  start <~~ NewChildStartAttempt (mkChildStartAttemptSpec (childProcessorTransitionID (wk_id work) "start") lease
      instance definition startedAt)
    else ErrInvalidChildProcessor;
  _ ← commitActivityTransition start;
  running ← child_inspect (in_id instance);
  let progress := default zeroChildProgress (in_children running !! hd_stepName dispatch) in
  request <~~ NewChildStartRequest (mkStartRequest (in_id running) (in_definition running) (hd_stepName dispatch)
      (hd_childID dispatch) (hd_definition dispatch) (hd_attempt dispatch) (MaxAttempts (step_Retry step))
      (hd_idempotencyKey dispatch) (Add (hp_dueAt progress) (i64 (- step_Timeout step))) (hp_dueAt progress)
      (hp_input progress) (step_InputLimit step) (wk_tenantID work) (wk_correlationID work))
    else ErrInvalidChildProcessor;
  outcome ← executeChildStartSafely (cw_Starter config) request;
  child_persistOutcome work running definition dispatch outcome.

Definition child_processProgress (lease : WorkLease) (instance : Instance_) (definition : Definition_) (step : StepSpec)
    (dispatch : ChildDispatch) (progress : ChildProgress) : ProcM S WorkDecision :=
  let mismatch := negb (hp_attempt progress =? hd_attempt dispatch)
    || negb (bool_decide (hp_idempotencyKey progress = hd_idempotencyKey dispatch)) in
  match hp_status progress with
  | ChildScheduled | ChildStartRetryWaiting =>
      if negb (hd_attempt dispatch =? u32 (hp_attempt progress + 1)) then activityDeadLetter "invalid-child-state"
      else child_execute lease instance definition step dispatch
  | ChildStartRunning =>
      if mismatch then activityDeadLetter "invalid-child-state"
      else child_persistOutcome (le_work lease) instance definition dispatch (unknownStart "child-start-outcome-unknown")
  | ChildStartFailedStatus =>
      if mismatch then activityDeadLetter "invalid-child-state"
      else child_scheduleRetry (le_work lease) instance definition step dispatch
  | ChildActive | ChildStartUnknownStatus =>
      if mismatch then activityDeadLetter "invalid-child-state" else activityComplete
  | ChildSucceeded | ChildFailed =>
      if negb (bool_decide (hp_childID progress = hd_childID dispatch))
        || negb (bool_decide (hp_definition progress = hd_definition dispatch))
      then activityDeadLetter "invalid-child-state" else activityComplete
  | _ => activityDeadLetter "invalid-child-state"
  end.
End Run.

(** [Process] of a possibly nil processor on a possibly nil context. *)
Definition child_Process {S} `{!ExecutionStore S} (clock : nat -> Time) (processor : option (ChildWorkProcessorConfig S))
    (ctx : option (S -> Context)) (lease : WorkLease) : ProcM S WorkDecision :=
  match processor, ctx with
  | Some config, Some ctx =>
      refuse negb (lease_Valid lease) || negb (bool_decide (wk_kind (le_work lease) = WorkChild))
        with ErrInvalidChildProcessor;
      let work := le_work lease in
      match DecodeChildDispatch (wk_payload work) with
      | Err _ => activityDeadLetter "invalid-child-dispatch"
      | Ok dispatch =>
          loaded ← attempt (child_load ctx config work dispatch);
          match loaded with
          | Err err =>
              if errors_Is err ErrInvalidChildProcessor then activityDeadLetter "invalid-child-definition"
              else fallible (Err err)
          | Ok (instance, definition, step) =>
              match in_children instance !! hd_stepName dispatch with
              | None => activityDeadLetter "invalid-child-state"
              | Some progress => child_processProgress clock ctx config lease instance definition step dispatch progress
              end
          end
      end
  | _, _ => fallible (Err ErrInvalidChildProcessor)
  end.
