(* ===== verification/ProcessorTrace.v ===== *)
(** * The trace of a processor

    A processor's commits, reconciliations and invocations of application code are
    logged by a store and by handlers that wrap the real ones. [emits] says what a
    computation appends to that log; [attempt_trace] is the protocol every attempt
    follows: the start is confirmed durable, the handler is invoked at most once,
    and a decision is returned only when the outcome is confirmed durable. *)
From S2P Require Import Prelude GoTime Names Sha256 Definitions Registry OperatorAudit Event Instances Replay ReplayInvariant.
From S2P Require Import Work Transition Store Administration Inspection Activity Worker Processor.

(** What crosses a boundary: [R] is the request application code gets, [B] its answer. *)
Inductive Effect (R B : Type) :=
  | Committing (transition : Transition) (answer : option GoError)
  | Reconciling (reconciliation : TransitionReconciliation) (answer : result TransitionReconciliationOutcome)
  | Invoked (request : R) (answer : B).
Arguments Committing {R B}.
Arguments Reconciling {R B}.
Arguments Invoked {R B}.

(** An operation that logs itself. *)
Definition logs {S R B A} (effect : A -> Effect R B) (operation : S -> A * S) (s : S * list (Effect R B))
    : A * (S * list (Effect R B)) :=
  let '(answer, s') := operation s.1 in (answer, (s', s.2 ++ [effect answer])).

#[export] Instance traced_store {S R B} `{!ExecutionStore S} : ExecutionStore (S * list (Effect R B)) := {|
  exec_Commit := fun transition => logs (Committing transition) (exec_Commit transition);
  exec_History := fun query s => let '(answer, s') := exec_History query s.1 in (answer, (s', s.2));
  exec_Reconcile := fun reconciliation => logs (Reconciling reconciliation) (exec_Reconcile reconciliation)
|}.

Definition effects {S R B} (w : World (S * list (Effect R B))) : list (Effect R B) := (wo_store w).2.

(** ** What a computation emits *)

Section Emits.
Context {S R B : Type}.

Definition emits {A} (m : ProcM (S * list (Effect R B)) A) (Q : list (Effect R B) -> result A -> Prop) : Prop :=
  forall w r w', m w = (r, w') -> exists es, effects w' = effects w ++ es /\ Q es r.

Lemma emits_weaken {A} (m : ProcM (S * list (Effect R B)) A) P Q :
  emits m P -> (forall es r, P es r -> Q es r) -> emits m Q.
Proof. intros Hm Hpq w r w' (es & He & Hp)%Hm. by exists es; auto. Qed.

Lemma emits_fallible {A} (a : result A) (Q : list (Effect R B) -> result A -> Prop) : Q [] a -> emits (fallible a) Q.
Proof. intros Hq w r w' [= <- <-]. exists []. by rewrite app_nil_r. Qed.

Lemma emits_ret {A} (a : A) (Q : list (Effect R B) -> result A -> Prop) : Q [] (Ok a) -> emits (mret a) Q.
Proof. apply emits_fallible. Qed.

(** Sequencing: an error stops, a value goes on from what was emitted so far. *)
Lemma emits_bind {A C} (m : ProcM (S * list (Effect R B)) A) (f : A -> ProcM (S * list (Effect R B)) C) P Q :
  emits m P -> (forall es err, P es (Err err) -> Q es (Err err)) ->
  (forall es a, P es (Ok a) -> emits (f a) (fun rest r => Q (es ++ rest) r)) -> emits (m ≫= f) Q.
Proof.
  intros Hm Herr Hok w r w' H. unfold mbind, proc_bind in H. destruct (m w) as [[a | err] w1] eqn:E;
    apply Hm in E as (es & He & Hp).
  - destruct (Hok es a Hp _ _ _ H) as (rest & Hr & Hq). exists (es ++ rest). by rewrite Hr, He, app_assoc.
  - injection H as <- <-. exists es. auto.
Qed.

(** Quiet computations emit nothing. *)
Definition quietly {A} (m : ProcM (S * list (Effect R B)) A) : Prop := emits m (fun es _ => es = []).

Lemma emits_quiet_bind {A C} (m : ProcM (S * list (Effect R B)) A) (f : A -> ProcM (S * list (Effect R B)) C) Q :
  quietly m -> (forall err, Q [] (Err err)) -> (forall a, emits (f a) Q) -> emits (m ≫= f) Q.
Proof. intros Hm Herr Hok. eapply emits_bind; [exact Hm | by intros ? err -> | by intros ? a ->]. Qed.

Lemma emits_fallible_bind {A C} (a : result A) (f : A -> ProcM (S * list (Effect R B)) C) (Q : list (Effect R B) -> result C -> Prop) :
  (forall err, Q [] (Err err)) -> (forall x, a = Ok x -> emits (f x) Q) -> emits (fallible a ≫= f) Q.
Proof.
  intros Herr Hok. eapply (emits_bind _ _ (fun es r => es = [] /\ r = a)); [by apply emits_fallible | |];
    intros es ? [-> <-]; [done | by apply Hok].
Qed.

Lemma readClock_quiet clock : quietly (readClock clock).
Proof. intros w r w' [= <- <-]. exists []. by rewrite app_nil_r. Qed.

Lemma attempt_emits {A} (m : ProcM (S * list (Effect R B)) A) Q :
  emits m Q -> emits (attempt m) (fun es r => exists r', r = Ok r' /\ Q es r').
Proof.
  intros Hm w r w'. unfold attempt. destruct (m w) as [r' w1] eqn:E. intros [= <- <-].
  destruct (Hm _ _ _ E) as (es & He & Hq). by exists es; eauto.
Qed.

Lemma ask_logs {A} (effect : A -> Effect R B) (operation : S -> A * S) :
  emits (ask (logs effect operation)) (fun es r => exists a, r = Ok a /\ es = [effect a]).
Proof.
  intros w r w'. unfold ask, calling, logs. destruct (operation _) as [a s']. intros [= <- <-].
  exists [effect a]. by split; [| exists a].
Qed.
End Emits.

(** ** Silent traces and confirmed transitions *)

Section Confirmed.
Context {R B : Type}.

Definition is_invocation (e : Effect R B) : bool := match e with Invoked _ _ => true | _ => false end.

Definition silent (es : list (Effect R B)) : Prop := Forall (fun e => is_invocation e = false) es.

Definition identity (transition : Transition) : TransitionReconciliation :=
  mkReconciliation (tr_id transition) (tr_fingerprint transition).

(** The ways a transition is known to be durable. *)
Inductive confirms (transition : Transition) : list (Effect R B) -> Prop :=
  | ConfirmedByCommit : confirms transition [Committing transition None]
  | ConfirmedByClassification err : StoreCommitOutcomeOf (Some err) = StoreCommitCommitted ->
      confirms transition [Committing transition (Some err)]
  | ConfirmedByReconciliation err :
      confirms transition [Committing transition (Some err); Reconciling (identity transition) (Ok TransitionCommitted)]
  | ConfirmedByRetry err :
      confirms transition [Committing transition (Some err); Reconciling (identity transition) (Ok TransitionMissing);
                           Committing transition None].

Lemma confirms_silent transition es : confirms transition es -> silent es.
Proof. intros []; repeat constructor. Qed.

Lemma silent_app es es' : silent es -> silent es' -> silent (es ++ es').
Proof. apply Forall_app_2. Qed.
End Confirmed.

(** A planned transition has an identity that can be reconciled. *)
Lemma planned_identity spec err transition :
  map_err err (NewTransition spec) = Ok transition -> reconciliation_Valid (identity transition) = true.
Proof.
  destruct (NewTransition spec) as [tr |] eqn:E; [| done]. cbn [map_err]. intros [= <-].
  apply NewTransition_inv in E as [Hv ->]. unfold reconciliation_Valid, identity, transitionFingerprint.
  cbn [rl_transitionID rl_fingerprint tr_id tr_fingerprint].
  unfold transition_valid in Hv. cbn [tr_id] in Hv. destruct (instanceIDPattern (ts_ID spec)); [| done].
  apply sha256_hex_fingerprint.
Qed.

Section Trace.
Context {S R B : Type} `{!ExecutionStore S}.

Lemma commit_emits transition : reconciliation_Valid (identity transition) = true ->
  emits (S := S) (R := R) (B := B) (commitActivityTransition transition)
    (fun es r => silent es /\ (is_ok r = true -> confirms transition es)).
Proof.
  intros Hid. unfold commitActivityTransition. eapply emits_bind; [apply ask_logs | by intros ? ? (? & ? & ?) |].
  intros ? [failure |] (a & [= <-] & ->); [| apply emits_ret; split; [repeat constructor | constructor]].
  case_bool_decide as Hc; [apply emits_ret; split; [repeat constructor | by constructor] |].
  case_bool_decide as Hn; [apply emits_fallible; split; [repeat constructor | done] |].
  assert (Hrl : or_zero zeroReconciliation (NewTransitionReconciliation
    (mkReconciliation (tr_id transition) (tr_fingerprint transition))) = identity transition).
  { unfold NewTransitionReconciliation. cbn [rl_transitionID rl_fingerprint]. fold (identity transition). by rewrite Hid. }
  rewrite Hrl. eapply emits_bind; [apply ask_logs | by intros ? ? (? & ? & ?) |]. intros ? [outcome | err] (a & [= <-] & ->).
  2: apply emits_fallible; split; [repeat constructor | done].
  destruct outcome; try (apply emits_fallible; split; [repeat constructor | done]).
  - eapply emits_bind; [apply ask_logs | by intros ? ? (? & ? & ?) |]. intros ? [err |] (a & [= <-] & ->).
    + apply emits_fallible; split; [repeat constructor | done].
    + apply emits_ret. split; [repeat constructor | intros _; apply ConfirmedByRetry].
  - apply emits_ret. split; [repeat constructor | intros _; by apply ConfirmedByReconciliation].
Qed.

(** ** Inspection emits nothing, and finds the instance it was asked for *)

Lemma apply_id registry i e i' : apply registry i e = Ok i' -> in_id i' = ev_instanceID e.
Proof.
  intros H. destruct (decide (in_sequence i = 0)) as [Hz | Hz].
  - rewrite apply_first in H by done. by apply applyStart_inv in H as (_ & _ & _ & ->).
  - apply apply_iff in H as (Ha & m & Hm & ->); [| done].
    destruct (finish_frame i m e) as (-> & _). apply applyKind_lifecycle in Hm as [_ [-> _ _ _]]; [| apply Ha].
    symmetry. apply Ha.
Qed.

Lemma Replay_id registry es i id :
  Replay registry es = Ok i -> Forall (fun e => ev_instanceID e = id) es -> in_id i = id.
Proof.
  intros (Hne & Ha & _)%Replay_iff Hall. clear -Hne Ha Hall. revert Hne Ha. generalize zeroInstance as j.
  induction Hall as [| e es He Hall IH]; intros j Hne Ha; [done |]. cbn [applyAll] in Ha.
  destruct (apply registry j e) as [k |] eqn:E; [| done]. cbn [mbind result_bind] in Ha.
  destruct es as [| e' es]; [injection Ha as <-; by apply apply_id in E; rewrite E |]. by apply (IH k).
Qed.

Lemma pageEvents_ids query index next events next' :
  pageEvents query index next events = Ok next' -> Forall (fun e => ev_instanceID e = hq_instanceID query) events.
Proof.
  revert index next. induction events as [| e events IH]; intros index next H; [constructor |]. cbn [pageEvents] in H.
  destruct (_ || _) eqn:G; [done |]. bool_norm. constructor; [done | by eapply IH].
Qed.

Lemma traverse_collects {W} (History : HistoryQuery -> W -> result HistoryPage * W) ctxErr (P : W -> Prop)
    instanceID pageSize maxEvents : (forall query w, P w -> P (History query w).2) ->
  forall fuel after count w events err w' events',
  P w -> Forall (fun e => ev_instanceID e = instanceID) events ->
  traverseHistory (collecting History) ctxErr collect fuel instanceID pageSize maxEvents after count (w, events)
    = Some (err, (w', events')) ->
  P w' /\ Forall (fun e => ev_instanceID e = instanceID) events'.
Proof.
  intros Hkeep. induction fuel as [| fuel IH]; intros after count w events err w' events' Hp Hall H; [done |].
  cbn [traverseHistory] in H. destruct (ctxErr _); [by injection H as <- <- <- |].
  set (query := or_zero _ _) in H. unfold collecting at 1 in H. cbn [fst snd] in H.
  specialize (Hkeep query w Hp) as Hp1. destruct (History query w) as [[page | e] w1]; cbn [snd] in Hp1; [| by injection H as <- <- <-].
  destruct (NewHistoryPage query (pg_events page) (pg_hasMore page)) as [validated | e] eqn:Hpage; [| by injection H as <- <- <-].
  destruct (negb (_ =? _)); [by injection H as <- <- <- |]. destruct (Z.of_nat _ =? 0); [by injection H as <- <- <- |].
  unfold collect at 1 in H. cbn [fst snd] in H.
  assert (Hids : Forall (fun e => ev_instanceID e = instanceID) (events ++ pg_events page)).
  { apply Forall_app. split; [done |]. unfold NewHistoryPage in Hpage. destruct (historyQuery_valid query) eqn:Hv; [| done].
    cbn [negb orb] in Hpage. destruct (_ || _) in Hpage; [done |]. destruct (pageEvents _ _ _ _) as [next |] eqn:He; [| done].
    apply pageEvents_ids in He. subst query. unfold NewHistoryQuery in *. cbn [hq_instanceID hq_afterSequence hq_limit] in *.
    by destruct (historyQuery_valid (mkHistoryQuery instanceID _ _)). }
  destruct (negb (pg_hasMore page)); [by injection H as <- <- <- |]. destruct (_ =? maxEvents); [by injection H as <- <- <- |].
  by eapply IH in H.
Qed.

Lemma inspecting_emits ctx definitions pageSize maxEvents instanceID :
  emits (S := S) (R := R) (B := B) (inspecting ctx definitions pageSize maxEvents instanceID)
    (fun es r => es = [] /\ forall i, r = Ok i -> in_id i = instanceID).
Proof.
  intros w r w' H. unfold inspecting, mbind, proc_bind, ask, calling in H. unfold InspectInstance in H.
  destruct definitions as [definitions |].
  2: { injection H as <- <-. exists []. rewrite app_nil_r. split_and!; [by destruct w as [[]] | done | done]. }
  cbn [is_InstanceID is_PageSize is_MaxEvents] in H. destruct (negb _).
  { injection H as <- <-. exists []. rewrite app_nil_r. split_and!; [by destruct w as [[]] | done | done]. }
  destruct (traverseHistory _ _ _ _ _ _ _ _ _ _) as [[err [s events]] |] eqn:Ht.
  2: { injection H as <- <-. exists []. rewrite app_nil_r. split_and!; [by destruct w as [[]] | done | done]. }
  eapply (traverse_collects _ _ (fun s => s.2 = effects w)) in Ht as [Hlog Hids]; [| | done | constructor].
  2: { intros query [x log]. cbn. by destruct (exec_History query x). }
  cbn in H. injection H as <- <-. exists []. rewrite app_nil_r. split_and!; [done | done |].
  intros i Hi. destruct err; [done |]. by eapply Replay_id.
Qed.
End Trace.

(** ** The protocol of an attempt *)

Section Protocol.
Context {S R B : Type} `{!ExecutionStore S}.
(** Which transitions start the attempt, which requests may be made, and which
    transitions record the answer to a request. *)
Context (starts : Transition -> Prop) (asked : R -> Prop) (records : R -> B -> Transition -> Prop).

(** A decision comes with a transition that is known to be durable. *)
Definition settles (good : Transition -> Prop) (es : list (Effect R B)) (r : result WorkDecision) : Prop :=
  silent es
  /\ forall decision, r = Ok decision -> wd_kind decision = WorkComplete
       /\ exists transition confirmation rest,
            es = confirmation ++ rest /\ good transition /\ confirms transition confirmation.

(** What follows is silent and ends the work. *)
Definition finishes (es : list (Effect R B)) (r : result WorkDecision) : Prop :=
  silent es /\ forall decision, r = Ok decision -> wd_kind decision = WorkComplete.

Lemma finishes_Err err : finishes [] (Err err).
Proof. split; [constructor | done]. Qed.

Lemma settles_Err good err : settles good [] (Err err).
Proof. split; [constructor | done]. Qed.

Lemma complete_finishes : emits (S := S) activityComplete finishes.
Proof. apply emits_fallible. split; [constructor |]. by intros decision [= <-]. Qed.

Lemma commit_then (transition : Transition) (m : ProcM (S * list (Effect R B)) WorkDecision) Q :
  reconciliation_Valid (identity transition) = true ->
  (forall es err, silent es -> Q es (Err err)) ->
  (forall es, silent es -> confirms transition es -> emits m (fun rest r => Q (es ++ rest) r)) ->
  emits (_ ← commitActivityTransition transition; m) Q.
Proof.
  intros Hid Herr Hok. eapply emits_bind; [by apply commit_emits | |]; [intros es err [Hs _]; by apply Herr |].
  intros es [] [Hs Hc]. apply Hok; auto.
Qed.

Lemma commit_finishes transition : reconciliation_Valid (identity transition) = true ->
  emits (S := S) (_ ← commitActivityTransition transition; activityComplete) finishes.
Proof.
  intros Hid. apply commit_then; [done | by split |]. intros es Hs _.
  eapply emits_weaken; [apply complete_finishes |]. intros rest r [Hr Hd]. split; [by apply silent_app | done].
Qed.

Lemma commit_settles (good : Transition -> Prop) transition (m : ProcM (S * list (Effect R B)) WorkDecision) :
  reconciliation_Valid (identity transition) = true -> good transition -> emits m finishes ->
  emits (_ ← commitActivityTransition transition; m) (settles good).
Proof.
  intros Hid Hg Hm. apply commit_then; [done | by split |]. intros es Hs Hc.
  eapply emits_weaken; [exact Hm |]. intros rest r [Hr Hd]. split; [by apply silent_app |].
  intros decision Hok. split; [by apply Hd |]. by exists transition, es, rest.
Qed.

Inductive attempt_trace : list (Effect R B) -> result WorkDecision -> Prop :=
  | TraceUninvoked es r : silent es -> attempt_trace es r
  | TraceInvoked start before request answer after r :
      starts start -> confirms start before -> asked request -> settles (records request answer) after r ->
      attempt_trace (before ++ Invoked request answer :: after) r.

(** What follows a confirmed start. *)
Inductive rest_trace : list (Effect R B) -> result WorkDecision -> Prop :=
  | RestUninvoked es r : silent es -> rest_trace es r
  | RestInvoked request answer after r :
      asked request -> settles (records request answer) after r -> rest_trace (Invoked request answer :: after) r.

(** At most one invocation. *)
Definition invocations (es : list (Effect R B)) : nat :=
  length (List.filter is_invocation es).

Lemma silent_invocations es : silent es -> invocations es = 0%nat.
Proof. unfold invocations. induction 1 as [| e es He Hes IH]; [done |]. cbn. by rewrite He. Qed.

Lemma invocations_app es es' : invocations (es ++ es') = (invocations es + invocations es')%nat.
Proof. unfold invocations. by rewrite List.filter_app, length_app. Qed.

Lemma attempt_trace_once es r : attempt_trace es r -> (invocations es <= 1)%nat.
Proof.
  intros [| start before request answer after r' _ Hc _ [Hs _]]; [by rewrite silent_invocations; [lia |] |].
  rewrite invocations_app, (silent_invocations before) by by eapply confirms_silent.
  change (Invoked request answer :: after) with ([Invoked request answer] ++ after).
  rewrite invocations_app, (silent_invocations after) by done. unfold invocations. cbn. lia.
Qed.

Context (O : Type).

(** The wrapper of the application code, then the persistence of what it yields. *)
Lemma invocation_emits (safely : ProcM (S * list (Effect R B)) O) (persist : O -> ProcM (S * list (Effect R B)) WorkDecision)
    request (yields : B -> O) :
  asked request ->
  emits safely (fun es r => exists outcome, r = Ok outcome /\ (es = [] \/ exists answer, es = [Invoked request answer] /\ outcome = yields answer)) ->
  (forall outcome, emits (persist outcome) (fun es _ => silent es)) ->
  (forall answer, emits (persist (yields answer)) (settles (records request answer))) ->
  emits (safely ≫= persist) rest_trace.
Proof.
  intros Hask Hsafe Hquiet Hpersist. eapply emits_bind; [exact Hsafe | by intros ? ? (? & ? & ?) |].
  intros es outcome (o & [= <-] & [-> | (answer & -> & ->)]).
  - eapply emits_weaken; [apply Hquiet |]. intros es r Hs. by apply RestUninvoked.
  - eapply emits_weaken; [apply Hpersist |]. intros es r Hs. by apply RestInvoked.
Qed.

(** The start is built, confirmed and replayed before anything else happens. *)
Lemma attempt_emits_trace {X} clock (plan : Time -> result Transition) err (inspect : ProcM (S * list (Effect R B)) X)
    (good : X -> Prop) (rest : X -> ProcM (S * list (Effect R B)) WorkDecision) :
  (forall t start, map_err err (plan t) = Ok start -> starts start /\ reconciliation_Valid (identity start) = true) ->
  emits inspect (fun es r => es = [] /\ forall x, r = Ok x -> good x) ->
  (forall x, good x -> emits (rest x) rest_trace) ->
  emits (t ← readClock clock; start <~~ plan t else err; _ ← commitActivityTransition start; x ← inspect; rest x)
    attempt_trace.
Proof.
  intros Hplan Hinspect Hrest. apply emits_quiet_bind; [apply readClock_quiet | by repeat constructor |]. intros t.
  apply emits_fallible_bind; [by repeat constructor |]. intros start Hp. destruct (Hplan _ _ Hp) as [Hstart Hid].
  apply commit_then; [done | by constructor |]. intros es Hs Hc.
  eapply emits_bind; [exact Hinspect | |].
  { intros es' e [-> _]. rewrite !app_nil_r. by constructor. }
  intros ? x [-> Hx]. eapply emits_weaken; [by apply Hrest, Hx |]. intros es' r Hr. cbn [app].
  destruct Hr as [es' r Hs' | request answer after r Ha Hset].
  - constructor. by apply silent_app.
  - by eapply TraceInvoked.
Qed.
End Protocol.
