(* ===== verification/ActivityProtocol.v ===== *)
(** * The protocol of activity attempts

    The activity processor over any store, registry, clock and handlers: what it
    commits, invokes and answers, in order. *)
From S2P Require Import Prelude GoTime Names Json Definitions Registry OperatorAudit Event Instances ActivityHistory Replay.
From S2P Require Import Plans Work Transition Store Administration Inspection Activity ActivityTransition ChildTransition.
From S2P Require Import Worker Processor ProcessorTrace ActivityProcessor.

(** ** Handlers that log themselves *)

Definition ActivityEffect : Type := Effect ActivityRequest (option ActivityOutcome).

Definition traced_activity {S} (activity : Activity S) : Activity (S * list ActivityEffect) :=
  mkActivity (act_name activity)
    (option_map (fun handler ctx request => logs (Invoked request) (handler ctx request)) (act_handler activity)).

Definition traced_registry {S} (table : ActivityRegistry S) : ActivityRegistry (S * list ActivityEffect) :=
  traced_activity <$> table.

Lemma resolve_traced {S} (table : option (ActivityRegistry S)) name activity :
  resolveActivity (option_map traced_registry table) name = Ok activity -> exists bare, activity = traced_activity bare.
Proof.
  destruct table as [table |]; [| done]. cbn [option_map resolveActivity]. unfold traced_registry.
  rewrite lookup_fmap. destruct (table !! name) as [bare |]; [| done]. cbn. intros [= <-]. by exists bare.
Qed.

Definition traced_config {S} (config : ActivityWorkProcessorConfig S) : ActivityWorkProcessorConfig (S * list ActivityEffect) :=
  mkActivityProcessor (pc_Store config) (pc_Definitions config) (option_map traced_registry (pc_Activities config))
    (pc_Clock config) (pc_PageSize config) (pc_MaxHistoryEvents config).

(** The outcome a handler's answer stands for: a panic and an illegal or oversized
    outcome are unknown. *)
Definition safe_outcome (panicked failed : string) (request : ActivityRequest) (answer : option ActivityOutcome) : ActivityOutcome :=
  match answer with
  | None => unknownOutcome panicked
  | Some outcome =>
      if negb (outcome_valid outcome) || (rq_resultLimit request <? blen (oc_data outcome)) then unknownOutcome failed
      else outcome
  end.

(** ** The events of an attempt *)

(** The transition's only event, for one attempt of a step. *)
Definition single_event (kind : EventKind) (instanceID stepName : string) (attempt : Z) (transition : Transition)
    (event : HistoryEvent) : Prop :=
  tr_events transition = [event] /\ tr_instanceID transition = instanceID /\ ev_kind event = kind
  /\ ev_instanceID event = instanceID /\ ev_stepName event = stepName /\ ev_attempt event = attempt.

Definition starts_attempt (kind : EventKind) (instanceID : string) (dispatch : ActivityDispatch) (start : Transition) : Prop :=
  exists event, single_event kind instanceID (ad_stepName dispatch) (ad_attempt dispatch) start event
    /\ ev_idempotencyKey event = ad_idempotencyKey dispatch.

Definition asks_attempt (instanceID : string) (dispatch : ActivityDispatch) (request : ActivityRequest) : Prop :=
  request_valid request = true /\ rq_instanceID request = instanceID /\ rq_stepName request = ad_stepName dispatch
  /\ rq_attempt request = ad_attempt dispatch /\ rq_idempotencyKey request = ad_idempotencyKey dispatch.

Definition records_outcome (kind : ActivityOutcomeKind -> EventKind) (instanceID : string) (dispatch : ActivityDispatch)
    (outcome : ActivityOutcome) (transition : Transition) : Prop :=
  exists event, single_event (kind (oc_kind outcome)) instanceID (ad_stepName dispatch) (ad_attempt dispatch) transition event
    /\ ev_code event = oc_code outcome /\ ev_retryable event = oc_retryable outcome /\ ev_data event = oc_data outcome.

(** The end of every constructor of a one-event transition. *)
Lemma planned_single tid instanceID expected d spec event work err transition :
  NewHistoryEvent spec = Ok event -> es_InstanceID spec = instanceID ->
  map_err err (NewTransition (mkTransitionSpec tid instanceID expected d [event] work)) = Ok transition ->
  single_event (es_Kind spec) instanceID (es_StepName spec) (es_Attempt spec) transition event
  /\ event = event_of (canonicalSpec spec) /\ reconciliation_Valid (identity transition) = true.
Proof.
  intros [_ ->]%NewHistoryEvent_spec Hid Htr. split_and!; [| done | by eapply planned_identity].
  unfold single_event. apply NewTransition_single in Htr as (_ & Hi & _ & _ & -> & _). by split_and!.
Qed.

Lemma start_plan lease i d tid t start dispatch :
  DecodeActivityDispatch (wk_payload (le_work lease)) = Ok dispatch ->
  NewActivityAttemptStart (mkActivityAttemptStartSpec tid lease i d t) = Ok start ->
  starts_attempt EventActivityAttemptStarted (wk_instanceID (le_work lease)) dispatch start
  /\ reconciliation_Valid (identity start) = true.
Proof.
  intros Hd H. unfold NewActivityAttemptStart in H. cbn [aa_Lease] in H. rewrite Hd in H. cbn [map_err mbind result_bind] in H.
  open_plan H. destruct (planned_single _ _ _ _ _ _ _ _ _ Hmade eq_refl H) as (Hs & -> & Hr).
  split; [| exact Hr]. by eexists.
Qed.

Lemma outcome_plan tid i d dispatch t outcome transition :
  NewActivityAttemptOutcome (mkActivityAttemptOutcomeSpec tid i d (ad_stepName dispatch) (ad_attempt dispatch) t outcome) = Ok transition ->
  records_outcome activityOutcomeEventKind (in_id i) dispatch outcome transition
  /\ reconciliation_Valid (identity transition) = true.
Proof.
  intros H. unfold NewActivityAttemptOutcome in H. open_plan H.
  destruct (planned_single _ _ _ _ _ _ _ _ _ Hmade eq_refl H) as (Hs & -> & Hr).
  split; [| exact Hr]. by eexists.
Qed.

Lemma retry_plan spec transition : NewActivityRetry spec = Ok transition -> reconciliation_Valid (identity transition) = true.
Proof. intros H. unfold NewActivityRetry in H. open_plan H. by eapply planned_identity. Qed.

Lemma request_plan spec request : NewActivityRequest spec = Ok request ->
  request_valid request = true /\ rq_instanceID request = rq_instanceID spec /\ rq_stepName request = rq_stepName spec
  /\ rq_attempt request = rq_attempt spec /\ rq_idempotencyKey request = rq_idempotencyKey spec.
Proof. unfold NewActivityRequest. destruct (negb _) eqn:E; [done |]. intros [= <-]. by apply negb_false_iff in E. Qed.

(** ** The traces of the operations *)

Section Traces.
Context {S : Type} `{!ExecutionStore S} (clock : nat -> Time) (ctx : S -> Context).

Abbreviation T := (S * list ActivityEffect)%type.

Lemma execute_emits (activity : Activity S) (context : T -> Context) request panicked failed :
  emits (S := S) (executed ← ask (fun s => Execute (traced_activity activity) (Some (context s)) request s);
    match executed with
    | Ok outcome => mret outcome
    | Err Panic => mret (unknownOutcome panicked)
    | Err _ => mret (unknownOutcome failed)
    end)
    (fun es r => exists outcome, r = Ok outcome
      /\ (es = [] \/ exists answer, es = [Invoked request answer] /\ outcome = safe_outcome panicked failed request answer)).
Proof.
  set (rest := fun executed => _).
  assert (Hquiet : forall err, exists outcome, rest (Err err) = mret outcome) by (intros []; by eexists).
  eapply (emits_bind _ _ (fun es r => exists x, r = Ok x /\ (es = [] /\ is_ok x = false \/
    exists answer, es = [Invoked request answer] /\ rest x = mret (safe_outcome panicked failed request answer)))).
  - intros w r w'. unfold ask, calling, Execute. cbn [act_handler traced_activity].
    assert (Hnone : forall err, exists es, effects w = effects w ++ es /\ exists x, Ok (@Err ActivityOutcome err) = Ok x /\
      (es = [] /\ is_ok x = false \/ exists answer, es = [Invoked request answer] /\ rest x = mret (safe_outcome panicked failed request answer))).
    { intros err. exists []. rewrite app_nil_r. split; [done |]. eexists. split; [done |]. by left. }
    destruct (act_handler activity) as [handler |]; cbn [option_map]; [| intros [= <- <-]; by destruct w as [[]]; apply Hnone].
    destruct (negb (request_valid request)); [intros [= <- <-]; by destruct w as [[]]; apply Hnone |].
    destruct (ctx_Err _); [intros [= <- <-]; by destruct w as [[]]; apply Hnone |].
    destruct (deadline_Err _ _); [intros [= <- <-]; by destruct w as [[]]; apply Hnone |].
    unfold logs. destruct (handler _ request _) as [[outcome |] s'].
    + destruct (negb (outcome_valid outcome) || _) eqn:Hv; intros [= <- <-]; exists [Invoked request (Some outcome)];
        (split; [done |]); eexists; (split; [done |]); right; eexists; (split; [done |]); unfold safe_outcome; by rewrite Hv.
    + intros [= <- <-]. exists [Invoked request None]. split; [done |]. eexists. split; [done |]. right. by eexists.
  - by intros es err (x & [=] & _).
  - intros es x (y & [= <-] & Hx). destruct Hx as [[-> Hx] | (answer & -> & Hx)].
    + destruct x as [| err]; [done |]. destruct (Hquiet err) as [outcome Ho]. rewrite Ho. apply emits_ret. eexists. split; [done |]. by left.
    + rewrite Hx. apply emits_ret. eexists. split; [done |]. right. by eexists.
Qed.

Context (config : ActivityWorkProcessorConfig S).

Abbreviation ctx_of := (fun s : T => ctx s.1).
Abbreviation traced := (traced_config config).

Lemma activity_retry_emits work i d step dispatch :
  emits (S := S) (R := ActivityRequest) (B := option ActivityOutcome) (activity_scheduleRetry clock work i d step dispatch) finishes.
Proof.
  unfold activity_scheduleRetry. destruct (negb _ || _); [apply complete_finishes |].
  apply emits_quiet_bind; [apply readClock_quiet | by apply finishes_Err |]. intros t.
  destruct (negb (Before _ _)); [apply complete_finishes |].
  apply emits_fallible_bind; [by apply finishes_Err |]. intros retry Hr%map_err_Ok%retry_plan.
  by apply commit_finishes.
Qed.

Lemma activity_persist_emits work i d dispatch outcome : in_id i = wk_instanceID work ->
  emits (activity_persistOutcome clock ctx_of traced work i d dispatch outcome)
    (settles (records_outcome activityOutcomeEventKind (wk_instanceID work) dispatch outcome)).
Proof.
  intros Hid. unfold activity_persistOutcome. apply emits_quiet_bind; [apply readClock_quiet | by apply settles_Err |]. intros t.
  apply emits_fallible_bind; [by apply settles_Err |]. intros transition Ht%map_err_Ok%outcome_plan.
  rewrite Hid in Ht. destruct Ht as [Hrec Hidt].
  eapply commit_settles; [exact Hidt | exact Hrec |]. eapply emits_bind; [apply inspecting_emits | |].
  { intros es err [-> _]. by apply finishes_Err. }
  intros es i' [-> _]. case_bool_decide; [apply activity_retry_emits | apply complete_finishes].
Qed.

Lemma activity_load_emits work dispatch :
  emits (activity_load ctx_of traced work dispatch)
    (fun es r => es = [] /\ forall i d step activity, r = Ok (i, d, step, activity) ->
       in_id i = wk_instanceID work /\ exists bare, activity = traced_activity bare).
Proof.
  unfold activity_load. eapply emits_bind; [apply inspecting_emits | by intros es err [-> _] |].
  intros es i [-> Hi]. specialize (Hi i eq_refl). cbn [app]. destruct (activityProcessorStep _ _) as [step |]; [| by apply emits_fallible].
  destruct (_ || _); [by apply emits_fallible |]. apply emits_fallible_bind; [done |]. intros activity Ha.
  apply emits_ret. split; [done |]. intros ? ? ? ? [= <- <- <- <-]. split; [done |].
  by apply resolve_traced in Ha.
Qed.

Lemma activity_execute_emits lease i d step bare dispatch :
  DecodeActivityDispatch (wk_payload (le_work lease)) = Ok dispatch ->
  emits (activity_execute clock ctx_of traced lease i d step (traced_activity bare) dispatch)
    (attempt_trace (starts_attempt EventActivityAttemptStarted (wk_instanceID (le_work lease)) dispatch)
       (asks_attempt (wk_instanceID (le_work lease)) dispatch)
       (fun request answer => records_outcome activityOutcomeEventKind (wk_instanceID (le_work lease)) dispatch
          (safe_outcome "activity-panic" "activity-execution-unknown" request answer))).
Proof.
  intros Hd. unfold activity_execute. eapply attempt_emits_trace.
  - intros t start Hs%map_err_Ok. by eapply start_plan.
  - apply inspecting_emits.
  - intros running Hid. cbn zeta. apply emits_fallible_bind; [intros; by apply RestUninvoked; constructor |].
    intros request (Hv & Hi & Hn & Ha & Hk)%map_err_Ok%request_plan.
    apply invocation_emits with (request := request) (yields := safe_outcome "activity-panic" "activity-execution-unknown" request).
    + split_and!; [done | by rewrite Hi | done..].
    + apply execute_emits.
    + intros outcome. eapply emits_weaken; [by apply activity_persist_emits | by intros es r []].
    + intros answer. by apply activity_persist_emits.
Qed.

(** The protocol of one delivery of a lease whose payload is [dispatch]. *)
Definition activity_protocol (lease : WorkLease) (dispatch : ActivityDispatch) : list ActivityEffect -> result WorkDecision -> Prop :=
  let instanceID := wk_instanceID (le_work lease) in
  attempt_trace (starts_attempt EventActivityAttemptStarted instanceID dispatch) (asks_attempt instanceID dispatch)
    (fun request answer => records_outcome activityOutcomeEventKind instanceID dispatch
       (safe_outcome "activity-panic" "activity-execution-unknown" request answer)).

(** The statuses in which an attempt may be started. *)
Definition startable (status : ActivityProgressStatus) : bool :=
  match status with ActivityProgressReady | ActivityProgressRetryWaiting => true | _ => false end.

Lemma deadLetter_silent code : emits (S := S) (activityDeadLetter code) (fun es r => @silent ActivityRequest (option ActivityOutcome) es).
Proof. apply emits_fallible. constructor. Qed.

(** Only a startable activity is executed. *)
Lemma activity_progress_emits lease i d step bare dispatch progress :
  DecodeActivityDispatch (wk_payload (le_work lease)) = Ok dispatch -> in_id i = wk_instanceID (le_work lease) ->
  emits (activity_processProgress clock ctx_of traced lease i d step (traced_activity bare) dispatch progress)
    (fun es r => (startable (ap_status progress) = true -> activity_protocol lease dispatch es r)
       /\ (startable (ap_status progress) = false -> silent es)).
Proof.
  intros Hd Hid. set (outcome := fun es r => _).
  assert (Hdead : forall code, emits (S := S) (activityDeadLetter code) outcome).
  { intros code. eapply emits_weaken; [apply deadLetter_silent |]. intros es r Hs. split; [by constructor | done]. }
  assert (Hmatch : forall (b : bool) m, emits (S := S) m outcome -> emits (if b then activityDeadLetter "invalid-activity-state" else m) outcome).
  { intros [] m Hm; [apply Hdead | exact Hm]. }
  unfold activity_processProgress. destruct (ap_status progress); try apply Hdead; apply Hmatch; subst outcome; cbn [startable].
  - eapply emits_weaken; [by apply activity_execute_emits | by split].
  - eapply emits_weaken; [by apply activity_persist_emits | by intros es r []].
  - eapply emits_weaken; [apply complete_finishes | by intros es r []].
  - eapply emits_weaken; [apply activity_retry_emits | by intros es r []].
  - eapply emits_weaken; [apply complete_finishes | by intros es r []].
  - eapply emits_weaken; [by apply activity_execute_emits | by split].
Qed.

Lemma activity_process_emits lease :
  emits (activity_Process clock (Some traced) (Some ctx_of) lease)
    (fun es r => silent es \/ exists dispatch, DecodeActivityDispatch (wk_payload (le_work lease)) = Ok dispatch
       /\ activity_protocol lease dispatch es r).
Proof.
  unfold activity_Process. destruct (negb _); [apply emits_fallible; left; constructor |].
  destruct (negb _); [apply emits_fallible; left; constructor |].
  destruct (DecodeActivityDispatch _) as [dispatch | err] eqn:Hd; [| eapply emits_weaken; [apply deadLetter_silent | by left]].
  eapply emits_bind; [apply attempt_emits, activity_load_emits | by intros es err (? & [=] & _) |].
  intros es loaded (r' & [= <-] & -> & Hl). cbn [app].
  destruct loaded as [[[[i d] step] activity] | err].
  2: { destruct (_ || _); [eapply emits_weaken; [apply deadLetter_silent | by left] | apply emits_fallible; left; constructor]. }
  destruct (Hl _ _ _ _ eq_refl) as (Hid & bare & ->).
  destruct (in_activities i !! _) as [progress |]; [| eapply emits_weaken; [apply deadLetter_silent | by left]].
  eapply emits_weaken; [by apply activity_progress_emits |]. intros es r [Hs Hn].
  destruct (startable (ap_status progress)); [right; eauto | left; auto].
Qed.

(** A delivery that finds the activity already started or settled is silent. *)
Lemma activity_unstartable_silent lease dispatch i w w1 progress r w' :
  activity_Process clock (Some traced) (Some ctx_of) lease w = (r, w') -> effects w = [] ->
  DecodeActivityDispatch (wk_payload (le_work lease)) = Ok dispatch ->
  activity_inspect ctx_of traced (wk_instanceID (le_work lease)) w = (Ok i, w1) ->
  in_activities i !! ad_stepName dispatch = Some progress -> startable (ap_status progress) = false ->
  silent (effects w').
Proof.
  intros H He Hd Hi Hp Hs. unfold activity_Process in H. rewrite Hd in H.
  destruct (negb _); [injection H as <- <-; rewrite He; constructor |].
  destruct (negb _); [injection H as <- <-; rewrite He; constructor |].
  unfold mbind at 1, proc_bind at 1, attempt at 1 in H.
  destruct (activity_load ctx_of traced (le_work lease) dispatch w) as [loaded w2] eqn:Hl.
  pose proof (activity_load_emits (le_work lease) dispatch _ _ _ Hl) as (es & Hes & -> & Hok). rewrite app_nil_r, He in Hes.
  destruct loaded as [[[[j d] step] activity] | err].
  2: { destruct (_ || _); injection H as <- <-; rewrite Hes; constructor. }
  destruct (Hok _ _ _ _ eq_refl) as (Hid & bare & ->).
  assert (j = i) as ->.
  { unfold activity_load, mbind, proc_bind in Hl. rewrite Hi in Hl. cbn zeta in Hl.
    destruct (activityProcessorStep _ _); [| done]. destruct (_ || _); [done |].
    destruct (fallible _ _) as [[a |] ?]; [| done]. by injection Hl as -> _ _ _ _. }
  rewrite Hp in H.
  destruct (activity_progress_emits lease i d step bare dispatch progress Hd Hid _ _ _ H) as (es & -> & _ & Hsilent).
  rewrite Hes. by apply Hsilent.
Qed.
End Traces.
