(* ===== verification/CompensationProtocol.v ===== *)
(** * The protocol of compensation attempts

    As ActivityProtocol.v, for the compensation processor: the same protocol over
    the compensation events. *)
From S2P Require Import Prelude GoTime Names Json Definitions Registry OperatorAudit Event Instances ActivityHistory Replay.
From S2P Require Import Plans Work Transition Store Administration Inspection Activity ActivityTransition CompensationTransition.
From S2P Require Import Worker Processor ProcessorTrace ActivityProcessor ActivityProtocol CompensationProcessor.

Definition traced_compensations {S} (config : CompensationWorkProcessorConfig S)
    : CompensationWorkProcessorConfig (S * list ActivityEffect) :=
  mkCompensationProcessor (kc_Store config) (kc_Definitions config) (option_map traced_registry (kc_Compensations config))
    (kc_Clock config) (kc_PageSize config) (kc_MaxHistoryEvents config).

Lemma compensation_start_plan lease i d tid t start dispatch :
  DecodeCompensationDispatch (wk_payload (le_work lease)) = Ok dispatch ->
  NewCompensationAttemptStart (mkCompensationAttemptStartSpec tid lease i d t) = Ok start ->
  starts_attempt EventCompensationAttemptStarted (wk_instanceID (le_work lease)) dispatch start
  /\ reconciliation_Valid (identity start) = true.
Proof.
  intros Hd H. unfold NewCompensationAttemptStart in H. cbn [pa_Lease] in H. rewrite Hd in H. cbn [map_err mbind result_bind] in H.
  open_plan H. destruct (planned_single _ _ _ _ _ _ _ _ _ Hmade eq_refl H) as (Hs & -> & Hr).
  split; [| exact Hr]. by eexists.
Qed.

Lemma compensation_outcome_plan tid i d dispatch t outcome transition :
  NewCompensationAttemptOutcome (mkCompensationAttemptOutcomeSpec tid i d (ad_stepName dispatch) (ad_attempt dispatch) t outcome) = Ok transition ->
  records_outcome compensationOutcomeEventKind (in_id i) dispatch outcome transition
  /\ reconciliation_Valid (identity transition) = true.
Proof.
  intros H. unfold NewCompensationAttemptOutcome in H. open_plan H.
  destruct (planned_single _ _ _ _ _ _ _ _ _ Hmade eq_refl H) as (Hs & -> & Hr).
  split; [| exact Hr]. by eexists.
Qed.

Lemma compensation_retry_plan spec transition :
  NewCompensationRetry spec = Ok transition -> reconciliation_Valid (identity transition) = true.
Proof. intros H. unfold NewCompensationRetry in H. open_plan H. by eapply planned_identity. Qed.

Section Traces.
Context {S : Type} `{!ExecutionStore S} (clock : nat -> Time) (ctx : S -> Context).
Context (config : CompensationWorkProcessorConfig S).

Abbreviation T := (S * list ActivityEffect)%type.
Abbreviation ctx_of := (fun s : T => ctx s.1).
Abbreviation traced := (traced_compensations config).

Lemma compensation_retry_emits work i d step dispatch :
  emits (S := S) (R := ActivityRequest) (B := option ActivityOutcome) (compensation_scheduleRetry clock work i d step dispatch) finishes.
Proof.
  unfold compensation_scheduleRetry. destruct (step_Compensation step); [| apply complete_finishes].
  destruct (negb _); [apply complete_finishes |]. destruct (_ <=? _); [apply complete_finishes |].
  apply emits_quiet_bind; [apply readClock_quiet | by apply finishes_Err |]. intros t.
  destruct (negb (Before _ _)); [apply complete_finishes |].
  apply emits_fallible_bind; [by apply finishes_Err |]. intros retry Hr%map_err_Ok%compensation_retry_plan.
  by apply commit_finishes.
Qed.

Lemma compensation_persist_emits work i d dispatch outcome : in_id i = wk_instanceID work ->
  emits (compensation_persistOutcome clock ctx_of traced work i d dispatch outcome)
    (settles (records_outcome compensationOutcomeEventKind (wk_instanceID work) dispatch outcome)).
Proof.
  intros Hid. unfold compensation_persistOutcome. apply emits_quiet_bind; [apply readClock_quiet | by apply settles_Err |]. intros t.
  apply emits_fallible_bind; [by apply settles_Err |]. intros transition Ht%map_err_Ok%compensation_outcome_plan.
  rewrite Hid in Ht. destruct Ht as [Hrec Hidt].
  eapply commit_settles; [exact Hidt | exact Hrec |]. eapply emits_bind; [apply inspecting_emits | |].
  { intros es err [-> _]. by apply finishes_Err. }
  intros es i' [-> _]. case_bool_decide; [apply compensation_retry_emits | apply complete_finishes].
Qed.

Lemma compensation_load_emits work dispatch :
  emits (compensation_load ctx_of traced work dispatch)
    (fun es r => es = [] /\ forall i d step activity, r = Ok (i, d, step, activity) ->
       in_id i = wk_instanceID work /\ exists bare, activity = traced_activity bare).
Proof.
  unfold compensation_load. eapply emits_bind; [apply inspecting_emits | by intros es err [-> _] |].
  intros es i [-> Hi]. specialize (Hi i eq_refl). cbn [app]. destruct (activityProcessorStep _ _) as [step |]; [| by apply emits_fallible].
  destruct (step_Compensation step) as [policy |]; [| by apply emits_fallible].
  destruct (_ || _); [by apply emits_fallible |]. apply emits_fallible_bind; [done |]. intros activity Ha.
  apply emits_ret. split; [done |]. intros ? ? ? ? [= <- <- <- <-]. split; [done |]. by apply resolve_traced in Ha.
Qed.

(** The protocol of one delivery of a lease whose payload is [dispatch]. *)
Definition compensation_protocol (lease : WorkLease) (dispatch : CompensationDispatch)
    : list ActivityEffect -> result WorkDecision -> Prop :=
  let instanceID := wk_instanceID (le_work lease) in
  attempt_trace (starts_attempt EventCompensationAttemptStarted instanceID dispatch) (asks_attempt instanceID dispatch)
    (fun request answer => records_outcome compensationOutcomeEventKind instanceID dispatch
       (safe_outcome "compensation-panic" "compensation-execution-unknown" request answer)).

Lemma compensation_execute_emits lease i d step bare dispatch :
  DecodeCompensationDispatch (wk_payload (le_work lease)) = Ok dispatch ->
  emits (compensation_execute clock ctx_of traced lease i d step (traced_activity bare) dispatch)
    (compensation_protocol lease dispatch).
Proof.
  intros Hd. unfold compensation_execute. eapply attempt_emits_trace.
  - intros t start Hs%map_err_Ok. by eapply compensation_start_plan.
  - apply inspecting_emits.
  - intros running Hid. cbn zeta. destruct (step_Compensation step) as [policy |]; [| apply emits_fallible; by apply RestUninvoked; constructor].
    apply emits_fallible_bind; [intros; by apply RestUninvoked; constructor |].
    intros request (Hv & Hi & Hn & Ha & Hk)%map_err_Ok%request_plan.
    apply invocation_emits with (request := request) (yields := safe_outcome "compensation-panic" "compensation-execution-unknown" request).
    + split_and!; [done | by rewrite Hi | done..].
    + apply execute_emits.
    + intros outcome. eapply emits_weaken; [by apply compensation_persist_emits | by intros es r []].
    + intros answer. by apply compensation_persist_emits.
Qed.

(** The statuses in which an attempt may be started. *)
Definition compensation_startable (status : CompensationProgressStatus) : bool :=
  match status with CompensationReady | CompensationRetryWaiting => true | _ => false end.

(** Only a startable compensation is executed. *)
Lemma compensation_progress_emits lease i d step bare dispatch progress :
  DecodeCompensationDispatch (wk_payload (le_work lease)) = Ok dispatch -> in_id i = wk_instanceID (le_work lease) ->
  emits (compensation_processProgress clock ctx_of traced lease i d step (traced_activity bare) dispatch progress)
    (fun es r => (compensation_startable (cp_status progress) = true -> compensation_protocol lease dispatch es r)
       /\ (compensation_startable (cp_status progress) = false -> silent es)).
Proof.
  intros Hd Hid. set (outcome := fun es r => _).
  assert (Hdead : forall code, emits (S := S) (compensationDeadLetter code) outcome).
  { intros code. eapply emits_weaken; [apply deadLetter_silent |]. intros es r Hs. split; [by constructor | done]. }
  assert (Hmatch : forall (b : bool) m, emits (S := S) m outcome ->
    emits (if b then compensationDeadLetter "invalid-compensation-state" else m) outcome).
  { intros [] m Hm; [apply Hdead | exact Hm]. }
  unfold compensation_processProgress. destruct (cp_status progress); try apply Hdead; apply Hmatch; subst outcome; cbn [compensation_startable].
  - eapply emits_weaken; [by apply compensation_execute_emits | by split].
  - eapply emits_weaken; [by apply compensation_persist_emits | by intros es r []].
  - eapply emits_weaken; [apply complete_finishes | by intros es r []].
  - eapply emits_weaken; [apply compensation_retry_emits | by intros es r []].
  - eapply emits_weaken; [apply complete_finishes | by intros es r []].
  - eapply emits_weaken; [by apply compensation_execute_emits | by split].
  - eapply emits_weaken; [apply complete_finishes | by intros es r []].
Qed.

Lemma compensation_process_emits lease :
  emits (compensation_Process clock (Some traced) (Some ctx_of) lease)
    (fun es r => silent es \/ exists dispatch, DecodeCompensationDispatch (wk_payload (le_work lease)) = Ok dispatch
       /\ compensation_protocol lease dispatch es r).
Proof.
  unfold compensation_Process. destruct (negb _); [apply emits_fallible; left; constructor |].
  destruct (negb _); [apply emits_fallible; left; constructor |].
  destruct (DecodeCompensationDispatch _) as [dispatch | err] eqn:Hd; [| eapply emits_weaken; [apply deadLetter_silent | by left]].
  eapply emits_bind; [apply attempt_emits, compensation_load_emits | by intros es err (? & [=] & _) |].
  intros es loaded (r' & [= <-] & -> & Hl). cbn [app].
  destruct loaded as [[[[i d] step] activity] | err].
  2: { destruct (_ || _); [eapply emits_weaken; [apply deadLetter_silent | by left] | apply emits_fallible; left; constructor]. }
  destruct (Hl _ _ _ _ eq_refl) as (Hid & bare & ->).
  destruct (in_compensations i !! _) as [progress |]; [| eapply emits_weaken; [apply deadLetter_silent | by left]].
  eapply emits_weaken; [by apply compensation_progress_emits |]. intros es r [Hs Hn].
  destruct (compensation_startable (cp_status progress)); [right; eauto | left; auto].
Qed.
End Traces.
