(* ===== verification/ChildProtocol.v ===== *)
(** * The protocol of child starts

    As ActivityProtocol.v, for the child processor: the starter is invoked at most
    once per delivery, after the attempt is durable. *)
From S2P Require Import Prelude GoTime Names Json Definitions Registry OperatorAudit Event Instances ActivityHistory Replay.
From S2P Require Import Plans Work Transition Store Administration Inspection Activity ActivityTransition ChildStart ChildTransition.
From S2P Require Import Worker Processor ProcessorTrace ActivityProtocol ChildProcessor.

Definition ChildEffect : Type := Effect ChildStartRequest (option ChildStartOutcome).

Definition traced_starter {S} (start : ChildStarter S) : ChildStarter (S * list ChildEffect) :=
  fun ctx request => logs (Invoked request) (start ctx request).

Definition traced_children {S} (config : ChildWorkProcessorConfig S) : ChildWorkProcessorConfig (S * list ChildEffect) :=
  mkChildProcessor (cw_Store config) (cw_Definitions config) (option_map traced_starter (cw_Starter config))
    (cw_Clock config) (cw_PageSize config) (cw_MaxHistoryEvents config).

(** The outcome a starter's answer stands for. *)
Definition safe_start (answer : option ChildStartOutcome) : ChildStartOutcome :=
  match answer with
  | None => unknownStart "child-start-panic"
  | Some outcome => if negb (start_outcome_valid outcome) then unknownStart "child-start-invalid-outcome" else outcome
  end.

Definition childOutcomeEventKind (kind : ChildStartOutcomeKind) : EventKind :=
  match kind with
  | ChildStartFailed => EventChildStartFailed
  | ChildStartUnknown => EventChildStartUnknown
  | _ => EventChildStarted
  end.

Definition starts_child (instanceID : string) (dispatch : ChildDispatch) (start : Transition) : Prop :=
  exists event, single_event EventChildStartAttempted instanceID (hd_stepName dispatch) (hd_attempt dispatch) start event
    /\ ev_idempotencyKey event = hd_idempotencyKey dispatch /\ ev_successorID event = hd_childID dispatch.

Definition asks_child (instanceID : string) (dispatch : ChildDispatch) (request : ChildStartRequest) : Prop :=
  start_request_valid request = true /\ sr_parentInstanceID request = instanceID /\ sr_stepName request = hd_stepName dispatch
  /\ sr_childID request = hd_childID dispatch /\ sr_childDefinition request = hd_definition dispatch
  /\ sr_attempt request = hd_attempt dispatch /\ sr_idempotencyKey request = hd_idempotencyKey dispatch.

Definition records_start (instanceID : string) (dispatch : ChildDispatch) (outcome : ChildStartOutcome) (transition : Transition) : Prop :=
  exists event, single_event (childOutcomeEventKind (so_kind outcome)) instanceID (hd_stepName dispatch) (hd_attempt dispatch)
      transition event
    /\ ev_successorID event = hd_childID dispatch /\ ev_code event = so_code outcome /\ ev_retryable event = so_retryable outcome.

Lemma child_start_plan lease i d tid t start dispatch :
  DecodeChildDispatch (wk_payload (le_work lease)) = Ok dispatch -> wk_instanceID (le_work lease) = in_id i ->
  NewChildStartAttempt (mkChildStartAttemptSpec tid lease i d t) = Ok start ->
  starts_child (wk_instanceID (le_work lease)) dispatch start /\ reconciliation_Valid (identity start) = true.
Proof.
  intros Hd Hi H. rewrite Hi. unfold NewChildStartAttempt in H. cbn [ha_Lease] in H. rewrite Hd in H. cbn [or_zero] in H.
  open_plan H. destruct (planned_single _ _ _ _ _ _ _ _ _ Hmade eq_refl H) as (Hs & -> & Hr).
  split; [| exact Hr]. by eexists.
Qed.

Lemma child_outcome_plan tid i d dispatch t outcome transition :
  NewChildStartAttemptOutcome (mkChildStartAttemptOutcomeSpec tid i d (hd_stepName dispatch) (hd_childID dispatch)
    (hd_attempt dispatch) t outcome) = Ok transition ->
  records_start (in_id i) dispatch outcome transition /\ reconciliation_Valid (identity transition) = true.
Proof.
  intros H. unfold NewChildStartAttemptOutcome in H. open_plan H.
  destruct (planned_single _ _ _ _ _ _ _ _ _ Hmade eq_refl H) as (Hs & -> & Hr).
  split; [| exact Hr]. by eexists.
Qed.

Lemma child_retry_plan spec transition :
  NewChildStartRetry spec = Ok transition -> reconciliation_Valid (identity transition) = true.
Proof. intros H. unfold NewChildStartRetry in H. open_plan H. by eapply planned_identity. Qed.

Lemma child_request_plan spec request : NewChildStartRequest spec = Ok request ->
  start_request_valid request = true /\ sr_parentInstanceID request = sr_parentInstanceID spec
  /\ sr_stepName request = sr_stepName spec /\ sr_childID request = sr_childID spec
  /\ sr_childDefinition request = sr_childDefinition spec /\ sr_attempt request = sr_attempt spec
  /\ sr_idempotencyKey request = sr_idempotencyKey spec.
Proof.
  unfold NewChildStartRequest. rewrite cloneBytes_id. destruct (negb _) eqn:E; [done |]. intros [= <-].
  by apply negb_false_iff in E.
Qed.

Section Traces.
Context {S : Type} `{!ExecutionStore S} (clock : nat -> Time) (ctx : S -> Context).
Context (config : ChildWorkProcessorConfig S).

Abbreviation T := (S * list ChildEffect)%type.
Abbreviation ctx_of := (fun s : T => ctx s.1).
Abbreviation traced := (traced_children config).

Lemma child_execute_safely_emits request :
  emits (executeChildStartSafely ctx_of (cw_Starter traced) request)
    (fun es r => exists outcome, r = Ok outcome
      /\ (es = [] \/ exists answer, es = [Invoked request answer] /\ outcome = safe_start answer)).
Proof.
  intros w r w'. unfold executeChildStartSafely, ask, calling. cbn [cw_Starter traced_children].
  assert (Hnone : forall outcome : ChildStartOutcome, exists es, effects w = effects w ++ es /\ exists o, Ok outcome = Ok o /\
    (es = [] \/ exists answer, es = [Invoked request answer] /\ o = safe_start answer)).
  { intros outcome. exists []. rewrite app_nil_r. split; [done |]. eexists. split; [done |]. by left. }
  destruct (deadline_Err _ _); [intros [= <- <-]; by destruct w as [[]]; apply Hnone |].
  destruct (cw_Starter config) as [start |]; cbn [option_map]; [| intros [= <- <-]; by destruct w as [[]]; apply Hnone].
  unfold traced_starter, logs. destruct (start _ request _) as [[outcome |] s'].
  - destruct (negb (start_outcome_valid outcome)) eqn:Hv; intros [= <- <-]; exists [Invoked request (Some outcome)];
      (split; [done |]); eexists; (split; [done |]); right; eexists; (split; [done |]); unfold safe_start; by rewrite Hv.
  - intros [= <- <-]. exists [Invoked request None]. split; [done |]. eexists. split; [done |]. right. by eexists.
Qed.

Lemma child_retry_emits work i d step dispatch :
  emits (S := S) (R := ChildStartRequest) (B := option ChildStartOutcome) (child_scheduleRetry clock work i d step dispatch) finishes.
Proof.
  unfold child_scheduleRetry. destruct (negb _ || _); [apply complete_finishes |].
  apply emits_quiet_bind; [apply readClock_quiet | by apply finishes_Err |]. intros t.
  destruct (negb (Before _ _)); [apply complete_finishes |].
  apply emits_fallible_bind; [by apply finishes_Err |]. intros retry Hr%map_err_Ok%child_retry_plan.
  by apply commit_finishes.
Qed.

Lemma child_persist_emits work i d dispatch outcome : in_id i = wk_instanceID work ->
  emits (child_persistOutcome clock ctx_of traced work i d dispatch outcome)
    (settles (records_start (wk_instanceID work) dispatch outcome)).
Proof.
  intros Hid. unfold child_persistOutcome. apply emits_quiet_bind; [apply readClock_quiet | by apply settles_Err |]. intros t.
  apply emits_fallible_bind; [by apply settles_Err |]. intros transition Ht%map_err_Ok%child_outcome_plan.
  rewrite Hid in Ht. destruct Ht as [Hrec Hidt].
  eapply commit_settles; [exact Hidt | exact Hrec |]. destruct (negb _); [apply complete_finishes |].
  eapply emits_bind; [apply inspecting_emits | |].
  { intros es err [-> _]. by apply finishes_Err. }
  intros es i' [-> _]. apply child_retry_emits.
Qed.

Lemma child_load_emits work dispatch :
  emits (child_load ctx_of traced work dispatch)
    (fun es r => es = [] /\ forall i d step, r = Ok (i, d, step) -> in_id i = wk_instanceID work).
Proof.
  unfold child_load. eapply emits_bind; [apply inspecting_emits | by intros es err [-> _] |].
  intros es i [-> Hi]. specialize (Hi i eq_refl). cbn [app]. destruct (_ || _); [by apply emits_fallible |].
  apply emits_ret. split; [done |]. by intros ? ? ? [= <- <- <-].
Qed.

(** The protocol of one delivery of a lease whose payload is [dispatch]. *)
Definition child_protocol (lease : WorkLease) (dispatch : ChildDispatch) : list ChildEffect -> result WorkDecision -> Prop :=
  let instanceID := wk_instanceID (le_work lease) in
  attempt_trace (starts_child instanceID dispatch) (asks_child instanceID dispatch)
    (fun request answer => records_start instanceID dispatch (safe_start answer)).

Lemma child_execute_emits lease i d step dispatch :
  DecodeChildDispatch (wk_payload (le_work lease)) = Ok dispatch -> in_id i = wk_instanceID (le_work lease) ->
  emits (child_execute clock ctx_of traced lease i d step dispatch) (child_protocol lease dispatch).
Proof.
  intros Hd Hid. unfold child_execute. eapply attempt_emits_trace.
  - intros t start Hs%map_err_Ok. by eapply child_start_plan.
  - apply inspecting_emits.
  - intros running Hr. cbn zeta. apply emits_fallible_bind; [intros; by apply RestUninvoked; constructor |].
    intros request (Hv & Hi & Hrest)%map_err_Ok%child_request_plan.
    apply invocation_emits with (request := request) (yields := safe_start).
    + split_and!; [done | by rewrite Hi; cbn; rewrite Hr | apply Hrest ..].
    + apply child_execute_safely_emits.
    + intros outcome. eapply emits_weaken; [apply child_persist_emits; by rewrite Hr | by intros es r []].
    + intros answer. apply child_persist_emits. by rewrite Hr.
Qed.

(** The statuses in which an attempt may be started. *)
Definition child_startable (status : ChildProgressStatus) : bool :=
  match status with ChildScheduled | ChildStartRetryWaiting => true | _ => false end.

(** Only a startable child is started. *)
Lemma child_progress_emits lease i d step dispatch progress :
  DecodeChildDispatch (wk_payload (le_work lease)) = Ok dispatch -> in_id i = wk_instanceID (le_work lease) ->
  emits (child_processProgress clock ctx_of traced lease i d step dispatch progress)
    (fun es r => (child_startable (hp_status progress) = true -> child_protocol lease dispatch es r)
       /\ (child_startable (hp_status progress) = false -> silent es)).
Proof.
  intros Hd Hid. set (outcome := fun es r => _).
  assert (Hdead : emits (S := S) (activityDeadLetter "invalid-child-state") outcome).
  { apply emits_fallible. split; [by constructor; constructor | by constructor]. }
  assert (Hmatch : forall (b : bool) m, emits (S := S) m outcome -> emits (if b then activityDeadLetter "invalid-child-state" else m) outcome).
  { intros [] m Hm; [apply Hdead | exact Hm]. }
  unfold child_processProgress. destruct (hp_status progress); try apply Hdead; apply Hmatch; subst outcome; cbn [child_startable].
  - eapply emits_weaken; [by apply child_execute_emits | by split].
  - eapply emits_weaken; [apply complete_finishes | by intros es r []].
  - eapply emits_weaken; [apply complete_finishes | by intros es r []].
  - eapply emits_weaken; [by apply child_persist_emits | by intros es r []].
  - eapply emits_weaken; [apply complete_finishes | by intros es r []].
  - eapply emits_weaken; [apply child_retry_emits | by intros es r []].
  - eapply emits_weaken; [apply complete_finishes | by intros es r []].
  - eapply emits_weaken; [by apply child_execute_emits | by split].
Qed.

Lemma child_process_emits lease :
  emits (child_Process clock (Some traced) (Some ctx_of) lease)
    (fun es r => silent es \/ exists dispatch, DecodeChildDispatch (wk_payload (le_work lease)) = Ok dispatch
       /\ child_protocol lease dispatch es r).
Proof.
  unfold child_Process. destruct (negb _ || _); [apply emits_fallible; left; constructor |].
  destruct (DecodeChildDispatch _) as [dispatch | err] eqn:Hd; [| apply emits_fallible; left; constructor].
  eapply emits_bind; [apply attempt_emits, child_load_emits | by intros es err (? & [=] & _) |].
  intros es loaded (r' & [= <-] & -> & Hl). cbn [app].
  destruct loaded as [[[i d] step] | err].
  2: { destruct (errors_Is _ _); apply emits_fallible; left; constructor. }
  specialize (Hl _ _ _ eq_refl). destruct (in_children i !! _) as [progress |]; [| apply emits_fallible; left; constructor].
  eapply emits_weaken; [by apply child_progress_emits |]. intros es r [Hs Hn].
  destruct (child_startable (hp_status progress)); [right; eauto | left; auto].
Qed.
End Traces.
