(* ===== verification/PostgresProcessor.v ===== *)
(** * The processors over the PostgreSQL store

    The properties of the three processors, on deliveries over the PostgreSQL store
    as witnesses, and the history an activity retry can poison. *)
From S2P Require Import Prelude GoTime Names Definitions Registry OperatorAudit Event Instances ActivityHistory Replay ReplayProperties.
From S2P Require Import Plans Work Transition Store Administration Inspection Tables Statements Samples.
From S2P Require Import PostgresCommit PostgresWork PostgresLog PostgresDurability.
From S2P Require Import Activity ActivityTransition ChildStart ChildTransition CompensationTransition.
From S2P Require Import Worker Processor ProcessorTrace ActivityProcessor ActivityProtocol CompensationProcessor CompensationProtocol.
From S2P Require Import ChildProcessor ChildProtocol.

#[export] Instance postgres_execution : ExecutionStore Database := {|
  exec_Commit := store_Commit microseconds quiet;
  exec_History := store_History quiet;
  exec_Reconcile := store_ReconcileTransition quiet
|}.

(** ** An order whose payment is due *)

Definition planned (r : result Transition) : Transition := or_zero (mkTransition "" "" 0 zeroReference [] [] "") r.

Definition committed_with (transition : Transition) (db : Database) : Database := (store_Commit microseconds quiet transition db).2.

Definition order_db : Database :=
  committed_with (planned (NewTransition (mkTransitionSpec "tr-1" "wf-1" 0 (Reference order_definition) order_started []))) emptyDatabase.

Definition pay_schedule : Transition :=
  planned (NewActivitySchedule (mkActivityScheduleSpec "tr-2" "work-2" (order_instance order_started) order_definition "pay" 1 "key-1"
    (sample_time 2) (sample_time 100) (Some "order-7"%string) "tenant" "")).

Definition claimed_by (db : Database) (t : Z) : result (list WorkLease) * Database :=
  store_Claim microseconds String.ltb quiet (mkClaimRequest "worker-a" (sample_time t) 30000000000 1) db.

Definition due_order : result (list WorkLease) * Database := claimed_by (committed_with pay_schedule order_db) 3.

Definition due_db : Database := due_order.2.
Definition due_lease : WorkLease :=
  match due_order.1 with Ok [lease] => lease | _ => mkLease start_work "" 0 0 zeroTime zeroTime end.

(** ** Handlers *)

Definition free : Database -> Context := fun _ => mkContext None (fun _ => None).

Definition charging (outcome : option ActivityOutcome) : Activity Database :=
  mkActivity "charge" (Some (fun _ _ db => (outcome, db))).

Definition pay_config (activity : Activity Database) : ActivityWorkProcessorConfig Database :=
  mkActivityProcessor true order_registry (Some {["charge"%string := activity]}) true 10 100.

Definition after_claim (n : nat) : Time := sample_time (4 + Z.of_nat n).

Definition paid : ActivityOutcome := mkOutcome ActivitySucceeded "" false (Some "receipt"%string).

Definition delivered (activity : Activity Database) (db : Database) : result WorkDecision * World (Database * list ActivityEffect) :=
  activity_Process (S := Database * list ActivityEffect) after_claim (Some (traced_config (pay_config activity)))
    (Some (fun s => free s.1)) due_lease (mkWorld (db, []) 0 []).

(** ** A retry planned on a paused instance *)

(** The attempt fails retryably, the worker dies, an operator pauses the instance,
    and the work is claimed again. *)
Definition inspected (db : Database) : result Instance_ :=
  match InspectInstance (store_History quiet) (fun _ => None) order_registry (mkInspectionSpec "wf-1" 10 100) db with
  | Some (r, _) => r
  | None => Err ErrHistoryLimitExceeded
  end.

Definition order_at (db : Database) : Instance_ := or_zero zeroInstance (inspected db).

Definition failed_db : Database :=
  let started := committed_with (planned (NewActivityAttemptStart (mkActivityAttemptStartSpec "tr-3" due_lease (order_at due_db)
    order_definition (sample_time 4)))) due_db in
  committed_with (planned (NewActivityAttemptOutcome (mkActivityAttemptOutcomeSpec "tr-4" (order_at started) order_definition "pay" 1
    (sample_time 5) (mkOutcome ActivityFailed "declined" true None)))) started.

Definition paused_db : Database :=
  committed_with (planned (NewTransition (mkTransitionSpec "tr-5" "wf-1" 4 (Reference order_definition)
    [order_event 5 EventInstancePaused "" 0 "" zeroTime "" false None] []))) failed_db.

Definition reclaimed : result (list WorkLease) * Database := claimed_by paused_db 40.
Definition reclaimed_lease : WorkLease := match reclaimed.1 with Ok [lease] => lease | _ => due_lease end.

Definition redelivered : result WorkDecision * World Database :=
  activity_Process (fun n => sample_time (41 + Z.of_nat n)) (Some (pay_config (charging (Some paid)))) (Some free) reclaimed_lease
    (mkWorld reclaimed.2 0 []).

(** The processor never looks at the lifecycle before it plans a retry: redelivering
    the failed work of a paused instance commits a retry no replay accepts, answers
    that the work is complete, and leaves an instance that can never be inspected
    again. *)
Theorem retry_after_pause_poisons :
  is_ok (inspected paused_db) = true /\ in_status (order_at paused_db) = StatusPaused
  /\ redelivered.1 = Ok (mkDecision WorkComplete "" zeroTime)
  /\ inspected (wo_store redelivered.2) = Err ErrInvalidTransition.
Proof. vm_compute. repeat split; reflexivity. Qed.

(** ** Properties *)

(** C5: One delivery of activity work follows the attempt protocol, whatever the
    store answers, the clock reads, the context says and the handlers do: the
    handler is invoked at most once, only after a start of exactly the dispatched
    attempt was built and confirmed durable, with a valid request for that attempt;
    a decision after an invocation is always WorkComplete and is returned only when
    exactly the outcome the handler's answer stands for (unknown for a panic or an
    illegal outcome) was confirmed durable; and when the inspected instance shows
    the activity already started or settled, no handler is invoked at all. *)
Theorem activity_attempt_protocol {S : Type} `{!ExecutionStore S} clock ctx (config : ActivityWorkProcessorConfig S) lease s reads events r w :
  activity_Process (S := S * list ActivityEffect) clock (Some (traced_config config)) (Some (fun s => ctx s.1)) lease
    (mkWorld (s, []) reads events) = (r, w) ->
  (invocations (effects w) <= 1)%nat
  /\ (silent (effects w) \/ exists dispatch, DecodeActivityDispatch (wk_payload (le_work lease)) = Ok dispatch
        /\ activity_protocol lease dispatch (effects w) r)
  /\ (forall dispatch i w1 progress, DecodeActivityDispatch (wk_payload (le_work lease)) = Ok dispatch ->
        activity_inspect (fun s => ctx s.1) (traced_config config) (wk_instanceID (le_work lease)) (mkWorld (s, []) reads events) = (Ok i, w1) ->
        in_activities i !! ad_stepName dispatch = Some progress -> startable (ap_status progress) = false ->
        silent (effects w)).
Proof.
  intros H. destruct (activity_process_emits clock ctx config lease _ _ _ H) as (es & He & Hp).
  change (effects (mkWorld (s, []) reads events)) with (@nil ActivityEffect) in He. cbn [app] in He. rewrite He. split_and!.
  - destruct Hp as [Hs | (dispatch & _ & Ht)]; [by rewrite silent_invocations by done; lia | by eapply attempt_trace_once].
  - exact Hp.
  - rewrite <- He. intros. by eapply activity_unstartable_silent.
Qed.

(** A payment, delivered twice: the second delivery finds the attempt settled. *)
Definition pay_inspected (db : Database) : result Instance_ * World (Database * list ActivityEffect) :=
  activity_inspect (fun s : Database * list ActivityEffect => free s.1) (traced_config (pay_config (charging (Some paid))))
    (wk_instanceID (le_work due_lease)) (mkWorld (db, []) 0 []).

Lemma activity_attempt_protocol_witness :
  exists r1 w1 r2 w2, delivered (charging (Some paid)) due_db = (r1, w1)
    /\ delivered (charging (Some paid)) (wo_store w1).1 = (r2, w2)
    /\ r1 = Ok (mkDecision WorkComplete "" zeroTime) /\ length (effects w1) = 3%nat /\ (invocations (effects w1) <= 1)%nat
    /\ r2 = Ok (mkDecision WorkComplete "" zeroTime) /\ silent (effects w2).
Proof.
  assert (H : match delivered (charging (Some paid)) due_db with
    | (r1, w1) => (r1 = Ok (mkDecision WorkComplete "" zeroTime) /\ length (effects w1) = 3%nat)
      /\ (match delivered (charging (Some paid)) (wo_store w1).1 with (r2, _) => r2 = Ok (mkDecision WorkComplete "" zeroTime) end)
      /\ match pay_inspected (wo_store w1).1 with
         | (Ok i, _) => match in_activities i !! "pay" with Some progress => startable (ap_status progress) = false | None => False end
         | _ => False
         end
    end) by (vm_compute; repeat split; reflexivity).
  destruct (delivered (charging (Some paid)) due_db) as [r1 w1] eqn:E1. destruct H as (H1 & H2 & H3).
  destruct (delivered (charging (Some paid)) (wo_store w1).1) as [r2 w2] eqn:E2.
  destruct (pay_inspected (wo_store w1).1) as [[i | err] w] eqn:Ei; [| destruct H3].
  destruct (in_activities i !! "pay") as [progress |] eqn:Hp; [| destruct H3].
  exists r1, w1, r2, w2. split; [reflexivity |]. split; [exact E2 |]. unfold delivered in E1, E2. split; [apply H1 |]. split; [apply H1 |]. split.
  - exact (proj1 (activity_attempt_protocol after_claim free (pay_config (charging (Some paid))) due_lease due_db 0 [] r1 w1 E1)).
  - split; [exact H2 |].
    destruct (activity_attempt_protocol after_claim free (pay_config (charging (Some paid))) due_lease (wo_store w1).1 0 [] r2 w2 E2)
      as (_ & _ & Hs).
    apply (Hs (mkActivityDispatch "pay" 1 "key-1") i w progress); [vm_compute; reflexivity | exact Ei | exact Hp | exact H3].
Defined.
