(* ===== verification/PostgresChildren.v ===== *)
(** * Compensations and children over the PostgreSQL store

    The protocol properties of the two other processors, with deliveries of the
    order's refund and of its shipment as witnesses. *)
From S2P Require Import Prelude GoTime Names Definitions Registry OperatorAudit Event Instances ActivityHistory Replay ReplayProperties.
From S2P Require Import Plans Work Transition Store Administration Inspection Tables Statements Samples.
From S2P Require Import PostgresCommit PostgresWork PostgresLog PostgresDurability.
From S2P Require Import Activity ActivityTransition ChildStart ChildTransition CompensationTransition.
From S2P Require Import Worker Processor ProcessorTrace ActivityProcessor ActivityProtocol CompensationProcessor CompensationProtocol.
From S2P Require Import ChildProcessor ChildProtocol PostgresProcessor.

(** ** Samples *)

Definition lease_in (claim : result (list WorkLease) * Database) : WorkLease :=
  match claim.1 with Ok [lease] => lease | _ => due_lease end.

Definition paid_db : Database := (wo_store (delivered (charging (Some paid)) due_db).2).1.

(** The refund of the paid order, due at eight. *)
Definition refund_due : result (list WorkLease) * Database :=
  claimed_by (committed_with (planned (NewCompensationSchedule (mkCompensationScheduleSpec "tr-6" "work-6" (order_at paid_db)
    order_definition "pay" 1 "key-6" (sample_time 7) (sample_time 100) (Some "receipt"%string) "tenant" ""))) paid_db) 8.

Definition refunding (outcome : option ActivityOutcome) : CompensationWorkProcessorConfig Database :=
  mkCompensationProcessor true order_registry (Some {["refund"%string := charging outcome]}) true 10 100.

Definition refund_clock (n : nat) : Time := sample_time (9 + Z.of_nat n).

Definition refunded (outcome : option ActivityOutcome) : result WorkDecision * World (Database * list ActivityEffect) :=
  compensation_Process (S := Database * list ActivityEffect) refund_clock (Some (traced_compensations (refunding outcome)))
    (Some (fun s => free s.1)) (lease_in refund_due) (mkWorld (refund_due.2, []) 0 []).

(** The shipment of the order, due at two. *)
Definition ship_due : result (list WorkLease) * Database :=
  claimed_by (committed_with (planned (NewChildSchedule (mkChildScheduleSpec "tr-7" "work-7" "child-1" (order_instance order_started)
    order_definition "ship" (sample_time 2) (sample_time 100) (Some "order-7"%string) "tenant" ""))) order_db) 3.

Definition shipping (outcome : option ChildStartOutcome) : ChildWorkProcessorConfig Database :=
  mkChildProcessor true order_registry (Some (fun _ _ db => (outcome, db))) true 10 100.

Definition shipped (outcome : option ChildStartOutcome) : result WorkDecision * World (Database * list ChildEffect) :=
  child_Process (S := Database * list ChildEffect) after_claim (Some (traced_children (shipping outcome)))
    (Some (fun s => free s.1)) (lease_in ship_due) (mkWorld (ship_due.2, []) 0 []).

(** ** Properties *)

(** C23: One delivery of compensation work follows the same protocol: the compensating
    handler is invoked at most once, only after exactly the dispatched attempt was
    confirmed durable and with a valid request for it, and a decision follows an
    invocation only when exactly the outcome its answer stands for was confirmed
    durable, so that a panic or an illegal outcome is recorded as unknown and never
    as a rollback that succeeded. *)
Theorem compensation_attempt_protocol {S : Type} `{!ExecutionStore S} clock ctx (config : CompensationWorkProcessorConfig S) lease s
    reads events r w :
  compensation_Process (S := S * list ActivityEffect) clock (Some (traced_compensations config)) (Some (fun s => ctx s.1)) lease
    (mkWorld (s, []) reads events) = (r, w) ->
  (invocations (effects w) <= 1)%nat
  /\ (silent (effects w) \/ exists dispatch, DecodeCompensationDispatch (wk_payload (le_work lease)) = Ok dispatch
        /\ compensation_protocol lease dispatch (effects w) r).
Proof.
  intros H. destruct (compensation_process_emits clock ctx config lease _ _ _ H) as (es & He & Hp).
  change (effects (mkWorld (s, []) reads events)) with (@nil ActivityEffect) in He. cbn [app] in He. rewrite He. split; [| exact Hp].
  destruct Hp as [Hs | (dispatch & _ & Ht)]; [by rewrite silent_invocations by done; lia | by eapply attempt_trace_once].
Qed.

(** A refund whose handler panics: the start, the invocation and the unknown outcome. *)
Lemma compensation_attempt_protocol_witness :
  exists w, refunded None = (Ok (mkDecision WorkComplete "" zeroTime), w) /\ length (effects w) = 3%nat
    /\ (invocations (effects w) <= 1)%nat.
Proof.
  assert (H : match refunded None with (r, w) => r = Ok (mkDecision WorkComplete "" zeroTime) /\ length (effects w) = 3%nat end)
    by (vm_compute; split; reflexivity).
  destruct (refunded None) as [r w] eqn:E. destruct H as [-> Hl]. exists w. split; [reflexivity |]. split; [exact Hl |].
  unfold refunded in E.
  exact (proj1 (compensation_attempt_protocol refund_clock free (refunding None) (lease_in refund_due) refund_due.2 0 [] _ w E)).
Defined.

(** C24: One delivery of child work follows the same protocol: the starter is invoked
    at most once, only after the start attempt of exactly the dispatched child was
    confirmed durable and with a valid request for that pinned child, and a decision
    follows an invocation only when exactly what its answer stands for was confirmed
    durable. *)
Theorem child_attempt_protocol {S : Type} `{!ExecutionStore S} clock ctx (config : ChildWorkProcessorConfig S) lease s reads events r w :
  child_Process (S := S * list ChildEffect) clock (Some (traced_children config)) (Some (fun s => ctx s.1)) lease
    (mkWorld (s, []) reads events) = (r, w) ->
  (invocations (effects w) <= 1)%nat
  /\ (silent (effects w) \/ exists dispatch, DecodeChildDispatch (wk_payload (le_work lease)) = Ok dispatch
        /\ child_protocol lease dispatch (effects w) r).
Proof.
  intros H. destruct (child_process_emits clock ctx config lease _ _ _ H) as (es & He & Hp).
  change (effects (mkWorld (s, []) reads events)) with (@nil ChildEffect) in He. cbn [app] in He. rewrite He. split; [| exact Hp].
  destruct Hp as [Hs | (dispatch & _ & Ht)]; [by rewrite silent_invocations by done; lia | by eapply attempt_trace_once].
Qed.

(** A shipment that fails to start retryably: its retry is committed too. *)
Lemma child_attempt_protocol_witness :
  let failed := Some (mkStartOutcome ChildStartFailed "carrier-down" true) in
  exists w, shipped failed = (Ok (mkDecision WorkComplete "" zeroTime), w) /\ length (effects w) = 4%nat
    /\ (invocations (effects w) <= 1)%nat.
Proof.
  intros failed.
  assert (H : match shipped failed with (r, w) => r = Ok (mkDecision WorkComplete "" zeroTime) /\ length (effects w) = 4%nat end)
    by (vm_compute; split; reflexivity).
  destruct (shipped failed) as [r w] eqn:E. destruct H as [-> Hl]. exists w. split; [reflexivity |]. split; [exact Hl |].
  unfold shipped in E.
  exact (proj1 (child_attempt_protocol after_claim free (shipping failed) (lease_in ship_due) ship_due.2 0 [] _ w E)).
Defined.
