(* ===== verification/ActivityDelivery.v ===== *)
(** * An activity's delivery completes

    The activity processor, its constructors, replay and a store together. [LogStore]
    is what the processor needs of a store in which nothing fails: it keeps the
    history of one instance, appends the plans it takes and gives the history back.
    Over any such store a delivery whose start is accepted runs the handler once and
    ends with its outcome durable; the PostgreSQL store is one. *)
From S2P Require Import Prelude GoTime Names Sha256 Definitions Registry OperatorAudit Event Instances ActivityHistory Replay ReplayInvariant ReplayProperties.
From S2P Require Import Plans Work Transition Store Administration Inspection Activity ActivityTransition ChildTransition.
From S2P Require Import Tables Statements Samples PostgresCommit PostgresAppend PostgresLog PostgresStore PostgresDurability PostgresFencing PostgresInvariant PostgresWork.
From S2P Require Import Worker Processor ActivityProcessor PostgresProcessor.

(** ** What a store promises *)

Class LogStore (S : Type) `{!ExecutionStore S} (ctx : S -> Context) (registry : option Registry) (id : string) (pageSize maxEvents : Z)
    (holds : S -> list HistoryEvent -> Prop) (takes : S -> Transition -> Prop) : Prop := {
  log_registry : is_Some registry;
  log_maxEvents : maxEvents < 2 ^ 32;
  log_inspect s es i : holds s es -> Replay registry es = Ok i -> in_id i = id -> es <> [] -> Z.of_nat (length es) <= maxEvents ->
    InspectInstance exec_History (fun s => ctx_Err (ctx s)) registry (mkInspectionSpec id pageSize maxEvents) s = Some (Ok i, s);
  log_commit s es i t i' : holds s es -> committed registry es i -> in_id i = id -> commits registry es i t i' -> takes s t ->
    exists s', exec_Commit t s = (None, s') /\ holds s' (es ++ tr_events t)
}.

(** ** The plans of one attempt *)

Section Plans.
Context (registry : option Registry) (es : list HistoryEvent) (i : Instance_).
Hypothesis Hc : committed registry es i.

(** Committing one activity event moves the instance on and nothing else of its header. *)
Lemma activity_plan_header t i' e : commits registry es i t i' -> tr_events t = [e] -> activityEvent (ev_kind e) = true ->
  in_id i' = in_id i /\ in_definition i' = in_definition i /\ in_updatedAt i' = ev_occurredAt e
  /\ lifecycle (in_status i) (ev_kind e) = Some (in_status i').
Proof.
  intros (_ & _ & _ & _ & [_ Hr]) He Hk. rewrite He in Hr. pose proof (committed_sequence _ _ _ Hc) as [_ Hs].
  apply (Replay_extend registry es [e] i i' (committed_replay _ _ _ Hc)) in Hr as [Hr _]. cbn [applyAll] in Hr.
  destruct (apply registry i e) as [j |] eqn:Ea; [| done]. injection Hr as ->.
  apply apply_iff in Ea as [Ha (m & Hm & ->)]; [| lia]. destruct (applyKind_lifecycle _ _ _ _ (adm_alive _ _ Ha) Hm) as [Hl [Hid _ _ _]].
  destruct (finish_frame i m e) as (-> & -> & -> & _ & _ & _ & _ & _ & _ & _ & _ & _ & ->).
  assert (Hne : ev_kind e <> EventDefinitionMigrated) by (intros E; rewrite E in Hk; done).
  destruct (frame_definition _ _ _ (applyKind_frames _ _ _ _ Hm) Hne) as [-> _]. by rewrite Hid.
Qed.

(** What an accepted start says about its lease and the instance. *)
Record start_facts (lease : WorkLease) (j : Instance_) (d : Definition_) (dispatch : ActivityDispatch) (step : StepSpec) (p : ActivityProgress) : Prop := {
  sf_lease : lease_Valid lease = true;
  sf_kind : wk_kind (le_work lease) = WorkActivity;
  sf_sequence : wk_sequence (le_work lease) <= in_sequence j;
  sf_instance : wk_instanceID (le_work lease) = in_id j;
  sf_attempts : ad_attempt dispatch <= MaxAttempts (step_Retry step);
  sf_definition : Reference d = in_definition j;
  sf_running : in_status j = StatusRunning;
  sf_status : ap_status p = ActivityProgressReady \/ ap_status p = ActivityProgressRetryWaiting;
  sf_attempt : ad_attempt dispatch = u32 (ap_attempt p + 1)
}.

Lemma start_plan_facts spec t dispatch step p : NewActivityAttemptStart spec = Ok t ->
  DecodeActivityDispatch (wk_payload (le_work (aa_Lease spec))) = Ok dispatch ->
  definitionActivityStep (aa_Definition spec) (ad_stepName dispatch) = Some step ->
  in_activities (aa_Instance spec) !! ad_stepName dispatch = Some p ->
  start_facts (aa_Lease spec) (aa_Instance spec) (aa_Definition spec) dispatch step p
  /\ exists e, tr_events t = [e] /\ ev_kind e = EventActivityAttemptStarted.
Proof.
  unfold NewActivityAttemptStart. intros H Hd Hs Hp. open_plan H. simplify_eq. apply NewTransition_single in H as (_ & _ & _ & _ & Hev & _).
  apply NewHistoryEvent_spec in Hmade0 as [_ ->]. split; [| by eexists]. split; try done; destruct_or?; auto; congruence.
Qed.

Lemma outcome_plan_event spec t : NewActivityAttemptOutcome spec = Ok t ->
  exists e, tr_events t = [e] /\ activityEvent (ev_kind e) = true.
Proof.
  unfold NewActivityAttemptOutcome. intros H. open_plan H. apply NewTransition_single in H as (_ & _ & _ & _ & Hev & _).
  apply NewHistoryEvent_spec in Hmade as [_ ->]. exists (event_of (canonicalSpec (step_event (u64 (in_sequence (ao_Instance spec) + 1)) (in_id (ao_Instance spec))
    (activityOutcomeEventKind (oc_kind (ao_Outcome spec))) (ao_OccurredAt spec) (ao_StepName spec) (ao_Attempt spec) "" zeroTime
    (oc_code (ao_Outcome spec)) (oc_retryable (ao_Outcome spec)) (oc_data (ao_Outcome spec))))). split; [done |]. cbn [ev_kind event_of canonicalSpec es_Kind step_event].
  match goal with G : outcome_valid _ = true |- _ => unfold outcome_valid in G; destruct (_ <? _); [done |]; by destruct (oc_kind (ao_Outcome spec)) end.
Qed.

(** The event of any legal outcome of a running attempt is legal. *)
Lemma outcome_event_made name (attempt : Z) occurredAt outcome :
  in_sequence i + 1 < 2 ^ 64 -> stableName name = true -> 0 < attempt -> outcome_valid outcome = true ->
  IsZero occurredAt = false ->
  exists e, NewHistoryEvent (step_event (u64 (in_sequence i + 1)) (in_id i) (activityOutcomeEventKind (oc_kind outcome)) occurredAt name attempt
    "" zeroTime (oc_code outcome) (oc_retryable outcome) (oc_data outcome)) = Ok e.
Proof.
  intros Hs Hn Ha Ho Ht. pose proof (committed_sequence _ _ _ Hc) as [_ Hr]. pose proof (hw_id _ _ (committed_header _ _ _ Hc)) as Hid.
  eexists. apply NewHistoryEvent_spec. split; [| reflexivity].
  unfold outcome_valid in Ho. destruct (MaxPayloadBytes <? blen (oc_data outcome)) eqn:Hb; [done |].
  unfold validHistoryEventSpec, validEventFields, validActivityEventFields, step_event, canonicalSpec.
  cbn [es_Sequence es_InstanceID es_Kind es_OccurredAt es_Definition es_SuccessorID es_StepName es_Attempt es_IdempotencyKey
    es_DueAt es_Code es_Retryable es_Data].
  rewrite u64_small, (proj2 (Z.eqb_neq _ _)), Hid, IsZero_canonicalTime, Ht, Hb, Hn by lia.
  rewrite (proj2 (Z.ltb_lt 0 attempt) Ha). destruct outcome as [kind code retryable data]. cbn [oc_kind oc_code oc_retryable oc_data] in *.
  destruct kind; try done; cbn [activityOutcomeEventKind]; bool_norm; subst;
    rewrite ?bool_decide_eq_true_2 by done; vm_compute; try reflexivity.
Qed.

(** A running attempt can always be settled: any legal outcome within the step's limit
    is accepted, at any time not before the last event. *)
Lemma outcome_accepted tid d name step p occurredAt outcome :
  Reference d = in_definition i -> definitionActivityStep d name = Some step -> in_activities i !! name = Some p ->
  ap_status p = ActivityProgressRunning -> outcome_valid outcome = true -> blen (oc_data outcome) <= step_ResultLimit step ->
  Before occurredAt (in_updatedAt i) = false -> IsZero occurredAt = false -> instanceIDPattern tid = true ->
  in_sequence i + 1 < 2 ^ 64 ->
  exists t, NewActivityAttemptOutcome (mkActivityAttemptOutcomeSpec tid i d name (ap_attempt p) occurredAt outcome) = Ok t.
Proof.
  intros Hd Hstep Hp Hrun Ho Hdata Ht Hz Htid Hs. pose proof (committed_sequence _ _ _ Hc) as [_ Hr].
  destruct (wf_activities _ (committed_progress _ _ _ Hc) _ _ Hp) as [_ Hname _ _ _ Hf]. rewrite Hrun in Hf.
  destruct (outcome_event_made name (ap_attempt p) occurredAt outcome) as [e He]; try done; [apply Hf |].
  pose proof He as Hspec. apply NewHistoryEvent_spec in Hspec as [_ ->].
  unfold NewActivityAttemptOutcome. cbn [ao_Instance ao_Definition ao_StepName ao_Attempt ao_OccurredAt ao_Outcome ao_TransitionID].
  rewrite Hstep, Hp, Hd, Hrun, Ho, Z.eqb_refl, Ht, !bool_decide_eq_true_2, (proj2 (Z.ltb_ge _ _)) by done. cbn [negb]. rewrite He.
  change (map_err ErrInvalidActivityTransition (Ok ?x) ≫= ?f) with (f x). cbv beta.
  pose proof (committed_header _ _ _ Hc) as [Hid Href _ _].
  edestruct (NewTransition_one tid (in_id i) (in_sequence i) (in_definition i)) as [t ->];
    [done | done | done | lia | done | reflexivity | | | | by eexists].
  - cbn. apply u64_small. lia.
  - unfold outcome_valid in Ho. cbn. destruct (Z.ltb_spec MaxPayloadBytes (blen (oc_data outcome))); [done | lia].
  - cbn. by destruct (oc_kind outcome).
Qed.
End Plans.

(** ** Running the processor *)

Section Delivery.
Context {S : Type} `{!ExecutionStore S} (clock : nat -> Time) (ctx : S -> Context) (config : ActivityWorkProcessorConfig S).
Context (instanceID : string) (holds : S -> list HistoryEvent -> Prop) (takes : S -> Transition -> Prop).
Context `{!LogStore S ctx (pc_Definitions config) instanceID (pc_PageSize config) (pc_MaxHistoryEvents config) holds takes}.

Lemma bind_ok {A B} (m : ProcM S A) (f : A -> ProcM S B) w a w' : m w = (Ok a, w') -> (m ≫= f) w = f a w'.
Proof. intros H. unfold mbind, proc_bind. by rewrite H. Qed.

Lemma fallible_ok {A B} (m : result A) (f : A -> ProcM S B) w a : m = Ok a -> (fallible m ≫= f) w = f a w.
Proof. by intros ->. Qed.

Definition with_store (w : World S) (s : S) : World S := mkWorld s (wo_reads w) (wo_events w).
Definition ticked (w : World S) : World S := mkWorld (wo_store w) (wo_reads w + 1)%nat (wo_events w).

Lemma commit_ok t w es i i' :
  holds (wo_store w) es -> committed (pc_Definitions config) es i -> in_id i = instanceID -> commits (pc_Definitions config) es i t i' ->
  takes (wo_store w) t ->
  exists s', commitActivityTransition t w = (Ok tt, with_store w s') /\ holds s' (es ++ tr_events t).
Proof.
  intros Hh Hc Hid Hcm Ht. destruct (log_commit _ _ _ _ _ Hh Hc Hid Hcm Ht) as (s' & Hs & Hh'). exists s'. split; [| done].
  unfold commitActivityTransition. rewrite (bind_ok (ask _) _ w None (with_store w s')); [done |].
  unfold ask, calling. by rewrite Hs.
Qed.

Lemma inspect_ok w es i :
  holds (wo_store w) es -> committed (pc_Definitions config) es i -> in_id i = instanceID -> Z.of_nat (length es) <= pc_MaxHistoryEvents config ->
  activity_inspect ctx config instanceID w = (Ok i, w).
Proof.
  intros Hh Hc Hid Hl. unfold activity_inspect, inspecting. rewrite (bind_ok (ask _) _ w (Ok i) w); [done |].
  unfold ask, calling. rewrite (log_inspect (wo_store w) es i Hh (committed_replay _ _ _ Hc) Hid); [by destruct w | | done].
  pose proof (committed_sequence _ _ _ Hc) as [Hseq Hpos]. intros ->. cbn in Hseq. lia.
Qed.

Lemma processor_step d name : activityProcessorStep d name = definitionActivityStep d name.
Proof.
  unfold activityProcessorStep, definitionActivityStep, definitionStep. induction (ds_Steps (def_spec d)) as [| step l IH]; [done |].
  cbn [find find_step]. rewrite <- IH. by destruct (_ && _).
Qed.

Lemma Before_self t : canonical t -> Before t t = false.
Proof. intros H. rewrite Before_canonical_r by done. unfold instant_ltb. lia. Qed.

(** The time an event is recorded at. *)
Definition not_before (now updated : Time) : Time := if Before now updated then updated else now.

(** The outcome is final: no retry of it is scheduled. *)
Definition final (step : StepSpec) (attempt : Z) (outcome : ActivityOutcome) : Prop :=
  oc_kind outcome = ActivityFailed -> oc_retryable outcome = false \/ MaxAttempts (step_Retry step) <= attempt.

(** Settling a running attempt: the outcome becomes durable and the work complete. *)
Lemma persist_ok w es i d step p work dispatch outcome :
  let occurredAt := not_before (clock (wo_reads w)) (in_updatedAt i) in
  let spec := mkActivityAttemptOutcomeSpec (processorTransitionID (wk_id work) "outcome") i d (ad_stepName dispatch)
    (ad_attempt dispatch) occurredAt outcome in
  holds (wo_store w) es -> committed (pc_Definitions config) es i -> in_id i = instanceID -> wk_instanceID work = instanceID ->
  Z.of_nat (length es) < pc_MaxHistoryEvents config ->
  registered (pc_Definitions config) d -> Reference d = in_definition i -> terminalStatus (in_status i) = false ->
  definitionActivityStep d (ad_stepName dispatch) = Some step ->
  in_activities i !! ad_stepName dispatch = Some p -> ap_status p = ActivityProgressRunning -> ap_attempt p = ad_attempt dispatch ->
  outcome_valid outcome = true -> blen (oc_data outcome) <= step_ResultLimit step -> final step (ad_attempt dispatch) outcome ->
  IsZero (clock (wo_reads w)) = false ->
  (forall t, NewActivityAttemptOutcome spec = Ok t -> takes (wo_store w) t) ->
  exists t s' i', NewActivityAttemptOutcome spec = Ok t
    /\ activity_persistOutcome clock ctx config work i d dispatch outcome w = (Ok (mkDecision WorkComplete "" zeroTime), with_store (ticked w) s')
    /\ holds s' (es ++ tr_events t) /\ committed (pc_Definitions config) (es ++ tr_events t) i'
    /\ in_activities i' = <[ad_stepName dispatch := outcome_progress p outcome]> (in_activities i).
Proof.
  intros occurredAt spec Hh Hc Hid Hwk Hlen Hreg Hd Hst Hstep Hp Hrun Hatt Ho Hdata Hfinal Hz Htakes.
  pose proof (committed_sequence _ _ _ Hc) as [Hseq Hr]. pose proof (hw_updated _ _ (committed_header _ _ _ Hc)) as [Hcan Hup].
  assert (Hocc : Before occurredAt (in_updatedAt i) = false /\ IsZero occurredAt = false).
  { subst occurredAt. unfold not_before. destruct (Before (clock (wo_reads w)) (in_updatedAt i)) eqn:E; [| done]. split; [by apply Before_self | done]. }
  pose proof (log_maxEvents (LogStore := LogStore0)) as Hmax.
  destruct (outcome_accepted (pc_Definitions config) es i Hc (processorTransitionID (wk_id work) "outcome") d (ad_stepName dispatch) step p occurredAt outcome)
    as [t Ht]; try done; try apply Hocc; [by apply processorTransitionID_valid | lia |]. rewrite Hatt in Ht. change (NewActivityAttemptOutcome spec = Ok t) in Ht.
  destruct (NewActivityAttemptOutcome_commits (pc_Definitions config) es spec t Hc Hreg Hst Ht) as (i' & p' & Hcm & Hp' & Hact).
  change (in_activities i !! ad_stepName dispatch = Some p') in Hp'. rewrite Hp in Hp'. injection Hp' as <-. change (ao_Outcome spec) with outcome in Hact.
  destruct (commit_ok t (ticked w) es i i' Hh Hc Hid Hcm (Htakes t Ht)) as (s' & Hcommit & Hh').
  pose proof Hcm as (_ & _ & _ & _ & Hc').
  destruct (outcome_plan_event _ _ Ht) as (e & He & Hk). destruct (activity_plan_header _ _ _ Hc _ _ _ Hcm He Hk) as (Hid' & _).
  exists t, s', i'. split_and!; [done | | done | done | exact Hact].
  unfold activity_persistOutcome. rewrite (bind_ok (readClock clock) _ w (clock (wo_reads w)) (ticked w)) by done. fold (not_before (clock (wo_reads w)) (in_updatedAt i)). fold occurredAt. fold spec.
  rewrite (fallible_ok _ _ _ t) by (by rewrite Ht). rewrite (bind_ok _ _ _ _ _ Hcommit).
  rewrite (bind_ok _ _ _ i' (with_store (ticked w) s')).
  2: { rewrite Hwk. apply (inspect_ok _ (es ++ tr_events t)); [done | done | by rewrite Hid' | rewrite He, length_app; cbn; lia]. }
  destruct (bool_decide_reflect (oc_kind outcome = ActivityFailed)) as [Hf |]; [| done].
  unfold activity_scheduleRetry. rewrite Hact, lookup_insert_eq. cbn [default from_option id].
  change (ap_retryable (outcome_progress p outcome)) with (oc_retryable outcome). change (ap_attempt (outcome_progress p outcome)) with (ap_attempt p).
  rewrite processor_step, Hstep. cbn [default from_option id]. rewrite Hatt. destruct (Hfinal Hf) as [-> | Hm]; [done |].
  by rewrite (proj2 (Z.leb_le _ _) Hm), orb_true_r.
Qed.

(** ** One delivery *)

Definition start_spec (lease : WorkLease) (i : Instance_) (d : Definition_) (startedAt : Time) : ActivityAttemptStartSpec :=
  mkActivityAttemptStartSpec (processorTransitionID (wk_id (le_work lease)) "start") lease i d startedAt.

Definition settle_spec (lease : WorkLease) (i : Instance_) (d : Definition_) (dispatch : ActivityDispatch) (now : Time)
    (outcome : ActivityOutcome) : ActivityAttemptOutcomeSpec :=
  mkActivityAttemptOutcomeSpec (processorTransitionID (wk_id (le_work lease)) "outcome") i d (ad_stepName dispatch)
    (ad_attempt dispatch) (not_before now (in_updatedAt i)) outcome.

(** The request of a running attempt. *)
Definition attempt_request (work : PendingWork) (running : Instance_) (step : StepSpec) (dispatch : ActivityDispatch) : ActivityRequest :=
  let progress := default zeroActivityProgress (in_activities running !! ad_stepName dispatch) in
  mkActivityRequest (in_id running) (in_definition running) (ad_stepName dispatch)
    (ad_attempt dispatch) (MaxAttempts (step_Retry step)) (ad_idempotencyKey dispatch)
    (Add (ap_dueAt progress) (i64 (- step_Timeout step))) (ap_dueAt progress) (ap_input progress)
    (step_InputLimit step) (step_ResultLimit step) (wk_tenantID work) (wk_correlationID work).

(** What the handler's answer stands for. *)
Definition safe_outcome (executed : result ActivityOutcome) : ActivityOutcome :=
  match executed with
  | Ok outcome => outcome
  | Err Panic => unknownOutcome "activity-panic"
  | Err _ => unknownOutcome "activity-execution-unknown"
  end.

(** A store that holds the instance's history, with due work for one of its
    activities; [running] is the instance once the attempt is started. *)
Record attempt_ready (s : S) (reads : nat) (lease : WorkLease) (es : list HistoryEvent) (i running : Instance_) (d : Definition_)
    (step : StepSpec) (dispatch : ActivityDispatch) (p : ActivityProgress) (start : Transition) (request : ActivityRequest) : Prop := {
  rd_holds : holds s es;
  rd_committed : committed (pc_Definitions config) es i;
  rd_id : in_id i = instanceID;
  rd_room : Z.of_nat (length es) + 2 <= pc_MaxHistoryEvents config;
  rd_registered : registered (pc_Definitions config) d;
  rd_dispatch : DecodeActivityDispatch (wk_payload (le_work lease)) = Ok dispatch;
  rd_step : definitionActivityStep d (ad_stepName dispatch) = Some step;
  rd_progress : in_activities i !! ad_stepName dispatch = Some p;
  rd_start : NewActivityAttemptStart (start_spec lease i d (clock reads)) = Ok start;
  rd_takes : takes s start;
  rd_running : Replay (pc_Definitions config) (es ++ tr_events start) = Ok running;
  rd_request : NewActivityRequest (attempt_request (le_work lease) running step dispatch) = Ok request;
  rd_clock : IsZero (clock (reads + 1)%nat) = false
}.

(** The handler returns, whatever its answer: it leaves the instance's history and
    the identity of the outcome alone, and its answer is final. *)
Definition handler_behaves (s : S) (start : Transition) (reads : nat) (lease : WorkLease) (es1 : list HistoryEvent) (running : Instance_) (d : Definition_) (step : StepSpec)
    (dispatch : ActivityDispatch) (activity : Activity S) (request : ActivityRequest) : Prop :=
  forall s1 executed s2, exec_Commit start s = (None, s1) -> holds s1 es1 -> Execute activity (Some (ctx s1)) request s1 = (executed, s2) ->
  holds s2 es1 /\ final step (ad_attempt dispatch) (safe_outcome executed)
  /\ forall t, NewActivityAttemptOutcome (settle_spec lease running d dispatch (clock (reads + 1)%nat) (safe_outcome executed)) = Ok t -> takes s2 t.

Lemma execute_legal (activity : Activity S) context request s executed s' :
  request_valid request = true -> Execute activity (Some context) request s = (executed, s') ->
  outcome_valid (safe_outcome executed) = true /\ blen (oc_data (safe_outcome executed)) <= rq_resultLimit request.
Proof.
  intros Hv. assert (Hlim : 0 <= rq_resultLimit request).
  { unfold request_valid, validPayloadLimit in Hv. bool_norm. lia. }
  assert (Herr : forall err, outcome_valid (safe_outcome (Err err)) = true /\ blen (oc_data (safe_outcome (Err err))) <= rq_resultLimit request).
  { intros err. destruct err; (split; [reflexivity | exact Hlim]). }
  unfold Execute. rewrite Hv. cbn [negb].
  destruct (act_handler activity); [| by intros [= <- <-]]. destruct (ctx_Err context); [by intros [= <- <-] |].
  destruct (deadline_Err context _); [by intros [= <- <-] |]. destruct (a context request s) as [[outcome |] s1]; [| by intros [= <- <-]].
  destruct (_ || _) eqn:G; intros [= <- <-]; [done |]. bool_norm. cbn [safe_outcome]. split; [by destruct (outcome_valid outcome) | lia].
Qed.

Lemma execute_ok (activity : Activity S) request w executed s' :
  Execute activity (Some (ctx (wo_store w))) request (wo_store w) = (executed, s') ->
  executeActivitySafely ctx activity request w = (Ok (safe_outcome executed), with_store w s').
Proof.
  intros H. unfold executeActivitySafely. rewrite (bind_ok (ask _) _ w executed (with_store w s')).
  - destruct executed as [| []]; reflexivity.
  - unfold ask, calling. by rewrite H.
Qed.

Section Ready.
Context (s : S) (reads : nat) (lease : WorkLease) (es : list HistoryEvent) (i running : Instance_) (d : Definition_).
Context (step : StepSpec) (dispatch : ActivityDispatch) (p : ActivityProgress) (start : Transition) (request : ActivityRequest).
Hypothesis Hready : attempt_ready s reads lease es i running d step dispatch p start request.

(** The attempt as replay shows it after the start. *)
Record running_facts : Prop := {
  rf_committed : committed (pc_Definitions config) (es ++ tr_events start) running;
  rf_commits : commits (pc_Definitions config) es i start running;
  rf_id : in_id running = instanceID;
  rf_definition : Reference d = in_definition running;
  rf_status : in_status running = StatusRunning;
  rf_length : Z.of_nat (length (es ++ tr_events start)) < pc_MaxHistoryEvents config;
  rf_activities : in_activities running = <[ad_stepName dispatch := started_progress p dispatch
    (canonicalTime (Add (clock reads) (step_Timeout step)))]> (in_activities i)
}.

Lemma start_running : start_facts lease i d dispatch step p /\ running_facts.
Proof.
  destruct Hready as [Hh Hc Hid Hroom Hreg Hdec Hstep Hp Hstart Ht Hrun Hreq Hz].
  destruct (start_plan_facts _ _ _ _ _ Hstart Hdec Hstep Hp) as [Hf (e & He & Hk)]. split; [exact Hf |].
  destruct (NewActivityAttemptStart_commits _ es (start_spec lease i d (clock reads)) start Hc Hreg Hstart) as (i' & dispatch' & p' & step' & Hcm & Hdec' & Hstep' & Hp' & Hact).
  cbn [start_spec aa_Lease aa_Instance aa_Definition aa_StartedAt] in *. rewrite Hdec in Hdec'. injection Hdec' as <-. simplify_eq.
  pose proof Hcm as (_ & _ & _ & _ & [Hwf Hr]). rewrite Hrun in Hr. injection Hr as <-.
  destruct (activity_plan_header _ _ _ Hc _ _ _ Hcm He) as (Hid' & Hd' & _ & Hl); [by rewrite Hk |].
  rewrite Hk, (sf_running _ _ _ _ _ _ Hf) in Hl. cbn in Hl. injection Hl as Hl.
  split; try done; [congruence | rewrite Hd'; apply Hf |]. rewrite He, length_app. cbn. lia.
Qed.

(** Running a ready attempt: the start, one invocation, the outcome. *)
Lemma execute_attempt activity (w : World S) :
  handler_behaves s start reads lease (es ++ tr_events start) running d step dispatch activity request ->
  wo_store w = s -> wo_reads w = reads ->
  exists s1 executed s2 outcome s3 last,
    exec_Commit start s = (None, s1) /\ Execute activity (Some (ctx s1)) request s1 = (executed, s2)
    /\ NewActivityAttemptOutcome (settle_spec lease running d dispatch (clock (reads + 1)%nat) (safe_outcome executed)) = Ok outcome
    /\ activity_execute clock ctx config lease i d step activity dispatch w
       = (Ok (mkDecision WorkComplete "" zeroTime), mkWorld s3 (reads + 2)%nat (wo_events w))
    /\ holds s3 (es ++ tr_events start ++ tr_events outcome)
    /\ committed (pc_Definitions config) (es ++ tr_events start ++ tr_events outcome) last
    /\ in_activities last = <[ad_stepName dispatch := outcome_progress (started_progress p dispatch
         (canonicalTime (Add (clock reads) (step_Timeout step)))) (safe_outcome executed)]> (in_activities i).
Proof.
  intros Hbehaves Hws Hwr. destruct start_running as [Hf [Hc1 Hcm Hid1 Hd1 Hst1 Hlen Hact1]].
  destruct Hready as [Hh Hc Hid Hroom Hreg Hdec Hstep Hp Hstart Ht Hrun Hreq Hz].
  rewrite <- Hws in *. destruct (commit_ok start (ticked w) es i running Hh Hc Hid Hcm Ht) as (s1 & Hcommit & Hh1).
  pose proof (log_commit _ _ _ _ _ Hh Hc Hid Hcm Ht) as (s1' & Hs1' & _).
  assert (s1' = s1) as ->.
  { unfold commitActivityTransition, ask, calling, mbind, proc_bind in Hcommit. cbn [wo_store ticked] in Hcommit. rewrite Hs1' in Hcommit.
    by injection Hcommit. }
  destruct (Execute activity (Some (ctx s1)) request s1) as [executed s2] eqn:Hexec.
  destruct (Hbehaves s1 executed s2 Hs1' Hh1 Hexec) as (Hh2 & Hfinal & Htakes).
  assert (Hvalid : request_valid request = true /\ rq_resultLimit request = step_ResultLimit step).
  { unfold NewActivityRequest in Hreq. destruct (request_valid _) eqn:E; [| done]. by injection Hreq as <-. }
  destruct Hvalid as [Hvalid Hlimit]. destruct (execute_legal _ _ _ _ _ _ Hvalid Hexec) as [Hlegal Hdata]. rewrite Hlimit in Hdata.
  set (w2 := with_store (with_store (ticked w) s1) s2). assert (Hr2 : wo_reads w2 = (reads + 1)%nat) by (cbn; by rewrite Hwr).
  destruct (persist_ok w2 (es ++ tr_events start) running d step (started_progress p dispatch (canonicalTime (Add (clock reads) (step_Timeout step))))
    (le_work lease) dispatch (safe_outcome executed)) as (outcome & s3 & last & Hout & Hpersist & Hh3 & Hc3 & Hact3);
    rewrite ?Hr2; try done.
  - by rewrite (sf_instance _ _ _ _ _ _ Hf).
  - by rewrite Hst1.
  - by rewrite Hact1, lookup_insert_eq.
  - rewrite Hr2 in Hout. exists s1, executed, s2, outcome, s3, last. rewrite app_assoc.
    split_and!; try done; [| by rewrite Hact3, Hact1, insert_insert_eq].
    unfold activity_execute. rewrite (bind_ok (readClock clock) _ w (clock reads) (ticked w)) by (by rewrite <- Hwr).
    rewrite (fallible_ok _ _ _ start) by (fold (start_spec lease i d (clock reads)); by rewrite Hstart).
    rewrite (bind_ok _ _ _ _ _ Hcommit). rewrite (bind_ok _ _ _ running (with_store (ticked w) s1)).
    2: { rewrite (sf_instance _ _ _ _ _ _ Hf), Hid. apply (inspect_ok _ (es ++ tr_events start)); [done .. | lia]. }
    fold (attempt_request (le_work lease) running step dispatch).
    rewrite (fallible_ok _ _ _ request) by (by rewrite Hreq).
    rewrite (bind_ok _ _ _ _ _ (execute_ok activity request (with_store (ticked w) s1) executed s2 Hexec)).
    fold w2. rewrite Hpersist. f_equal. unfold with_store, ticked, w2. cbn. f_equal. lia.
Qed.

Lemma deliver activity events :
  resolveActivity (pc_Activities config) (step_Target step) = Ok activity ->
  activity_Process clock (Some config) (Some ctx) lease (mkWorld s reads events)
  = activity_execute clock ctx config lease i d step activity dispatch (mkWorld s reads events).
Proof.
  intros Hactivity. destruct start_running as [Hf _].
  destruct Hready as [Hh Hc Hid Hroom Hreg Hdec Hstep Hp Hstart Ht Hrun Hreq Hz]. destruct Hf as [Hl Hk Hsq Hin Hatts Hd Hst Hstatus Hatt].
  unfold activity_Process. rewrite Hl, Hdec, (bool_decide_eq_true_2 _ Hk). cbn [negb].
  rewrite (bind_ok (attempt _) _ _ (Ok (i, d, step, activity)) (mkWorld s reads events)).
  - rewrite Hp. unfold activity_processProgress. rewrite Hatt, Z.eqb_refl. by destruct Hstatus as [-> | ->].
  - unfold attempt, activity_load. rewrite Hin, Hid. rewrite (bind_ok _ _ _ _ _ (inspect_ok (mkWorld s reads events) es i Hh Hc Hid ltac:(lia))).
    rewrite <- Hd. cbn [Reference ref_name ref_version]. unfold registered in Hreg. rewrite Hreg. cbn [or_zero]. rewrite processor_step, Hstep.
    rewrite (proj2 (Z.ltb_ge _ _) Hatts), (proj2 (Z.ltb_ge _ _) Hsq). cbn [orb]. by rewrite (fallible_ok _ _ _ activity).
Qed.
End Ready.
End Delivery.

(** ** The PostgreSQL store keeps histories *)

Definition db_holds (id : string) (db : Database) (es : list HistoryEvent) : Prop := store_wf db /\ stores microseconds db id es.

(** A plan the database can take: well formed, of times the columns keep, at the
    instance's position and under identities that are still free. *)
Definition db_takes (db : Database) (t : Transition) : Prop :=
  plan_wf t /\ appendable t db /\ Forall (fun e => stamped microseconds e = e) (tr_events t).

#[export] Instance postgres_log_store registry id pageSize maxEvents :
  is_Some registry -> validHistoryTraversal id pageSize maxEvents = true -> 0 <= pageSize < 2 ^ 32 ->
  LogStore Database free registry id pageSize maxEvents (db_holds id) db_takes.
Proof.
  intros Hr Hv Hp. split.
  - exact Hr.
  - unfold validHistoryTraversal, MaxInspectionHistoryEvents in Hv. destruct (negb _); [done |]. destruct (_ || _); [done |]. bool_norm. lia.
  - intros db es i [Hwf Hst] Hreplay Hid Hne Hlen. by apply (stores_inspect microseconds registry es i db id).
  - intros db es i t i' [Hwf Hst] Hc <- Hcm (Hplan & Ha & Hk). pose proof Hcm as (_ & Hid & _).
    exists (appended microseconds t db). split; [by apply commit_appends |]. split; [by apply appended_wf |].
    rewrite <- Hid in *. by apply stores_append.
Qed.

(** ** The order's payment *)

Definition takes_check (db : Database) (t : Transition) : bool :=
  plan_check t && bool_decide (db_transitions db !! tr_id t = None) && bool_decide (tr_work t = [])
  && match db_instances db !! tr_instanceID t with
     | Some row => (u64 (ri_sequence row) =? tr_expectedSequence t) && bool_decide (ri_name row = ref_name (tr_definition t))
         && bool_decide (ri_version row = ref_version (tr_definition t)) && bool_decide (ri_fingerprint row = ref_fingerprint (tr_definition t))
     | None => false
     end
  && negb (tr_expectedSequence t =? 0) && forallb (fun e => bool_decide (stamped microseconds e = e)) (tr_events t).

Lemma takes_check_ok db t : takes_check db t = true -> db_takes db t.
Proof.
  unfold takes_check. intros [[[[[Hp Hn]%andb_true_iff Hw]%andb_true_iff Hl]%andb_true_iff Hz]%andb_true_iff He]%andb_true_iff.
  apply bool_decide_eq_true in Hn, Hw. split; [by apply plan_check_wf |]. split.
  - split; [| done | intros w Hin; rewrite Hw in Hin; by apply elem_of_nil in Hin].
    unfold lockable. apply negb_true_iff in Hz. rewrite Hz. destruct (db_instances db !! tr_instanceID t) as [row |]; [| done].
    bool_norm. exists row. split_and!; congruence.
  - apply Forall_forall. intros e Hin%list_elem_of_In. rewrite forallb_forall in He. by eapply bool_decide_eq_true, He.
Qed.

Definition pay_history : list HistoryEvent := order_started ++ tr_events pay_schedule.
Definition pay_instance : Instance_ := order_instance pay_history.
Definition pay_dispatch : ActivityDispatch := mkActivityDispatch "pay" 1 "key-1".
Definition pay_step : StepSpec := default zeroStep (definitionActivityStep order_definition "pay").
Definition pay_progress : ActivityProgress := default zeroActivityProgress (in_activities pay_instance !! "pay"%string).
Definition pay_start : Transition := planned (NewActivityAttemptStart (start_spec due_lease pay_instance order_definition (after_claim 0))).
Definition pay_running : Instance_ := order_instance (pay_history ++ tr_events pay_start).
Definition pay_request : ActivityRequest :=
  let request := attempt_request (le_work due_lease) pay_running pay_step pay_dispatch in or_zero request (NewActivityRequest request).

Lemma due_db_wf : store_wf due_db.
Proof.
  assert (H1 : plan_wf (planned (NewTransition (mkTransitionSpec "tr-1" "wf-1" 0 (Reference order_definition) order_started []))))
    by (apply plan_check_wf; vm_compute; reflexivity).
  assert (H2 : plan_wf pay_schedule) by (apply plan_check_wf; vm_compute; reflexivity).
  assert (H3 : store_wf (committed_with pay_schedule order_db)).
  { unfold committed_with, order_db. apply store_Commit_keeps; [done | exact H2 |]. unfold committed_with.
    apply store_Commit_keeps; [done | exact H1 | apply empty_wf]. }
  pose proof (run_call_keeps microseconds String.ltb quiet (CallClaim (mkClaimRequest "worker-a" (sample_time 3) 30000000000 1))
    _ (fun _ _ => eq_refl) I H3) as H. cbn [run_call] in H. unfold due_db, due_order, claimed_by. exact H.
Qed.

Lemma due_db_holds : db_holds "wf-1" due_db pay_history.
Proof.
  split; [apply due_db_wf |]. split.
  - vm_compute. reflexivity.
  - apply events_check_wf. vm_compute. reflexivity.
  - apply Forall_forall. intros e He. assert (Hc : forallb (fun e => bool_decide (stamped microseconds e = e)) pay_history = true) by (vm_compute; reflexivity).
    rewrite forallb_forall in Hc. by eapply bool_decide_eq_true, Hc, list_elem_of_In.
  - apply follows_check_ok. vm_compute. reflexivity.
Qed.

#[export] Instance pay_store : LogStore Database free order_registry "wf-1" 10 100 (db_holds "wf-1") db_takes.
Proof. apply postgres_log_store; [by eexists | vm_compute; reflexivity | lia]. Qed.

(** Whatever the payment handler answers, the attempt is ready and the handler behaves. *)
Lemma pay_ready answer : attempt_ready after_claim (pay_config (charging answer)) "wf-1" (db_holds "wf-1") db_takes
  due_db 0 due_lease pay_history pay_instance pay_running order_definition pay_step pay_dispatch pay_progress pay_start pay_request.
Proof.
  split; try (vm_compute; reflexivity).
  - apply due_db_holds.
  - apply order_committed. vm_compute. reflexivity.
  - vm_compute. discriminate.
  - apply takes_check_ok. vm_compute. reflexivity.
Qed.

Definition pay_executed (answer : option ActivityOutcome) : result ActivityOutcome :=
  match answer with Some outcome => Ok outcome | None => Err Panic end.

Definition pay_settle (answer : option ActivityOutcome) : result Transition :=
  NewActivityAttemptOutcome (settle_spec due_lease pay_running order_definition pay_dispatch (after_claim 1) (safe_outcome (pay_executed answer))).

(** What the samples check of an answer: it is legal and final, and its outcome can be taken. *)
Definition pay_check (answer : option ActivityOutcome) : bool :=
  match answer with
  | Some outcome => outcome_valid outcome && (blen (oc_data outcome) <=? rq_resultLimit pay_request)
  | None => true
  end
  && negb (bool_decide (oc_kind (safe_outcome (pay_executed answer)) = ActivityFailed))
  && match pay_settle answer with Ok t => takes_check (committed_with pay_start due_db) t | Err _ => true end.

Lemma pay_behaves answer : pay_check answer = true ->
  handler_behaves after_claim free (db_holds "wf-1") db_takes due_db pay_start 0 due_lease (pay_history ++ tr_events pay_start)
    pay_running order_definition pay_step pay_dispatch (charging answer) pay_request.
Proof.
  unfold pay_check. intros [[Hlegal Hkind]%andb_true_iff Htakes]%andb_true_iff s1 executed s2 Hcommit Hh Hexec.
  assert (Hv : request_valid pay_request = true) by (vm_compute; reflexivity).
  assert (Heq : executed = pay_executed answer /\ s2 = s1).
  { clear Hcommit Hh Hkind Htakes. unfold Execute, charging in Hexec. cbn [act_handler free ctx_Err deadline_Err] in Hexec. rewrite Hv in Hexec. cbn [negb] in Hexec.
    destruct answer as [outcome |]; [| injection Hexec as <- <-; split; reflexivity]. apply andb_true_iff in Hlegal as [H1 H2%Z.leb_le].
    rewrite H1, (proj2 (Z.ltb_ge _ _) H2) in Hexec. injection Hexec as <- <-. split; reflexivity. }
  destruct Heq as [-> ->]. split; [exact Hh |]. split.
  - intros Hf. rewrite Hf in Hkind. discriminate Hkind.
  - intros t Ht. apply takes_check_ok. unfold pay_settle in Htakes. cbn [Nat.add] in Ht. rewrite Ht in Htakes.
    cbn [exec_Commit postgres_execution] in Hcommit. unfold committed_with in Htakes. rewrite Hcommit in Htakes. exact Htakes.
Qed.

(** ** Properties *)

(** C8: A delivery of ready activity work completes: over any store that keeps the
    instance's history and in which nothing fails, when the start and the request of
    the attempt are accepted and the handler returns (whatever it answers, a panic
    included) a final outcome, the processor commits the start, runs the handler
    exactly on the state that commit left, finds its outcome accepted, commits it and
    answers WorkComplete; the store then holds the history extended by exactly these
    two plans, and it replays to the instance with the activity settled as the
    handler's answer says and every other activity unchanged. *)
Theorem activity_delivery_completes {S : Type} `{!ExecutionStore S} clock ctx (config : ActivityWorkProcessorConfig S) instanceID holds takes
    `{!LogStore S ctx (pc_Definitions config) instanceID (pc_PageSize config) (pc_MaxHistoryEvents config) holds takes}
    s reads events lease es i running d step dispatch p start request activity :
  attempt_ready clock config instanceID holds takes s reads lease es i running d step dispatch p start request ->
  resolveActivity (pc_Activities config) (step_Target step) = Ok activity ->
  handler_behaves clock ctx holds takes s start reads lease (es ++ tr_events start) running d step dispatch activity request ->
  exists s1 executed s2 outcome s3 last,
    exec_Commit start s = (None, s1) /\ Execute activity (Some (ctx s1)) request s1 = (executed, s2)
    /\ NewActivityAttemptOutcome (settle_spec lease running d dispatch (clock (reads + 1)%nat) (safe_outcome executed)) = Ok outcome
    /\ activity_Process clock (Some config) (Some ctx) lease (mkWorld s reads events)
       = (Ok (mkDecision WorkComplete "" zeroTime), mkWorld s3 (reads + 2)%nat events)
    /\ holds s3 (es ++ tr_events start ++ tr_events outcome)
    /\ committed (pc_Definitions config) (es ++ tr_events start ++ tr_events outcome) last
    /\ in_activities last = <[ad_stepName dispatch := outcome_progress (started_progress p dispatch
         (canonicalTime (Add (clock reads) (step_Timeout step)))) (safe_outcome executed)]> (in_activities i).
Proof.
  intros Hready Hactivity Hbehaves. rewrite (deliver clock ctx config instanceID holds takes _ _ _ _ _ _ _ _ _ _ _ _ Hready activity events Hactivity).
  by apply (execute_attempt clock ctx config instanceID holds takes _ _ _ _ _ _ _ _ _ _ _ _ Hready activity (mkWorld s reads events)).
Qed.

(** A payment whose handler answers, and one whose handler panics. *)
Lemma activity_delivery_completes_witness :
  (exists w, activity_Process after_claim (Some (pay_config (charging (Some paid)))) (Some free) due_lease (mkWorld due_db 0 [])
     = (Ok (mkDecision WorkComplete "" zeroTime), w))
  /\ exists w, activity_Process after_claim (Some (pay_config (charging None))) (Some free) due_lease (mkWorld due_db 0 [])
     = (Ok (mkDecision WorkComplete "" zeroTime), w).
Proof.
  split.
  - destruct (activity_delivery_completes after_claim free (pay_config (charging (Some paid))) "wf-1" (db_holds "wf-1") db_takes
      due_db 0 [] due_lease pay_history pay_instance pay_running order_definition pay_step pay_dispatch pay_progress pay_start pay_request
      (charging (Some paid)) (pay_ready (Some paid)) (ltac:(vm_compute; reflexivity)) (pay_behaves (Some paid) ltac:(vm_compute; reflexivity)))
      as (s1 & executed & s2 & outcome & s3 & last & _ & _ & _ & H & _).
    eexists. exact H.
  - destruct (activity_delivery_completes after_claim free (pay_config (charging None)) "wf-1" (db_holds "wf-1") db_takes
      due_db 0 [] due_lease pay_history pay_instance pay_running order_definition pay_step pay_dispatch pay_progress pay_start pay_request
      (charging None) (pay_ready None) (ltac:(vm_compute; reflexivity)) (pay_behaves None ltac:(vm_compute; reflexivity)))
      as (s1 & executed & s2 & outcome & s3 & last & _ & _ & _ & H & _).
    eexists. exact H.
Defined.
