(* ===== verification/WorkerDelivery.v ===== *)
(** * Due work is done: the worker, the activity processor and the PostgreSQL store

    A worker handles the lease of a due activity: the processor delivers it over the
    same database, and the worker settles the lease with the processor's decision.
    The delivery is the theorem of ActivityDelivery.v over a store that also keeps the
    row of the work; the settlement is the fenced update of that row. *)
From S2P Require Import Prelude GoTime Names Sha256 Definitions Registry OperatorAudit Event Instances ActivityHistory Replay ReplayInvariant ReplayProperties.
From S2P Require Import Plans Work Transition Store Administration Inspection Activity ActivityTransition ChildTransition.
From S2P Require Import Tables Statements Samples PostgresCommit PostgresAppend PostgresLog PostgresStore PostgresDurability.
From S2P Require Import PostgresWork PostgresFencing PostgresInvariant.
From S2P Require Import Worker PostgresWorker Processor ActivityProcessor PostgresProcessor ActivityDelivery.

(** ** A store that also keeps the leased row *)

(** The database holds the instance's history, and [row] is the work's row. *)
Definition leased (id workID : string) (row : WorkRow) (db : Database) (es : list HistoryEvent) : Prop :=
  db_holds id db es /\ db_work db !! workID = Some row.

#[export] Instance leased_log_store registry id workID row pageSize maxEvents :
  is_Some registry -> validHistoryTraversal id pageSize maxEvents = true -> 0 <= pageSize < 2 ^ 32 ->
  LogStore Database free registry id pageSize maxEvents (leased id workID row) db_takes.
Proof.
  intros Hr Hv Hp. pose proof (postgres_log_store registry id pageSize maxEvents Hr Hv Hp) as [_ Hmax Hinspect _]. split; [done | done | |].
  - intros db es i [Hh _]. by apply Hinspect.
  - intros db es i t i' [[Hwf Hst] Hrow] Hc <- Hcm (Hplan & Ha & Hk). pose proof Hcm as (_ & Hid & _).
    exists (appended microseconds t db). split; [by apply commit_appends |]. split; [split; [by apply appended_wf |] |].
    + rewrite <- Hid in *. by apply stores_append.
    + by apply (ct_kept _ _ _ _ (appended_committed_to microseconds t db Hplan Hwf Ha)).
Qed.

(** ** Settling the lease *)

(** The lease is alive at [at_], as the row and the clock say. *)
Definition alive (lease : WorkLease) (row : WorkRow) (at_ : Time) : Prop :=
  IsZero at_ = false /\ fenced (le_owner lease) (le_token lease) (microseconds (canonicalTime at_)) row = true.

Definition completed_row (row : WorkRow) (at_ : Time) : WorkRow :=
  release 3 (rw_available row) (rw_code row) (Some (microseconds (canonicalTime at_))) row.

Lemma lease_identity lease : lease_Valid lease = true -> leaseIdentityValid (lease_id lease) (le_owner lease) (le_token lease) = true.
Proof.
  unfold lease_Valid, work_valid, leaseIdentityValid, lease_id. intros H. bool_norm. by split_and!.
Qed.

(** Completing a live lease writes its row and nothing else. *)
Lemma complete_live lease row at_ db :
  lease_Valid lease = true -> bigint_fits (le_token lease) = true -> db_work db !! lease_id lease = Some row -> alive lease row at_ ->
  exists completion, NewWorkCompletion (mkCompletion (lease_id lease) (le_owner lease) (le_token lease) at_) = Ok completion
    /\ store_Complete microseconds quiet completion db
       = (None, set_work db (<[lease_id lease := completed_row row at_]> (db_work db))).
Proof.
  intros Hv Hfit Hrow [Hz Hf]. eexists. split.
  - unfold NewWorkCompletion, completion_Valid. cbn [co_workID co_owner co_token co_completedAt].
    by rewrite (lease_identity lease Hv), IsZero_canonicalTime, Hz.
  - unfold store_Complete, completion_Valid. cbn [co_workID co_owner co_token co_completedAt].
    rewrite (lease_identity lease Hv), IsZero_canonicalTime, Hz. cbn [negb andb ss_context quiet].
    unfold fencedExec, databaseExec. cbn [ss_begin quiet]. unfold statement. cbn [tx_count tx_db tx_shared ss_others ss_statement quiet].
    unfold sql_completeWork. rewrite Hfit. cbn [negb]. unfold sql_update_work. rewrite Hrow, Hf. done.
Qed.

Section Handling.
Context (config : WorkerConfig) (clock : nat -> Time).
#[local] Instance quiet_work : WorkStore Database := postgres_work microseconds String.ltb quiet.

Lemma bind_runs {A B} (m : WorkM Database A) (f : A -> WorkM Database B) w a w' : m w = (a, w') -> (m ≫= f) w = f a w'.
Proof. intros H. unfold mbind, work_bind. by rewrite H. Qed.

(** Observing an event reads the clock at most once. *)
Lemma observing kind lease cause (w : World Database) : exists w', observeLease config clock kind lease cause w = (tt, w')
  /\ wo_store w' = wo_store w /\ (wo_reads w <= wo_reads w' <= wo_reads w + 1)%nat.
Proof.
  unfold observeLease. destruct (wc_hooks config); cbn [negb]; eexists; (split; [reflexivity |]); cbn [wo_store wo_reads]; (split; [reflexivity | lia]).
Qed.

(** A handler whose processor acts on the database and asks for completion. *)
Lemma handle_completes lease row process db reads events :
  lease_Valid lease = true -> wc_owner config = le_owner lease -> bigint_fits (le_token lease) = true ->
  db_work (process db) !! lease_id lease = Some row ->
  (forall n, (reads <= n <= reads + 1)%nat -> alive lease row (clock n)) ->
  exists n w, Handle config clock lease [Elsewhere process; Processed (Ok (mkDecision WorkComplete "" zeroTime))] (mkWorld db reads events)
    = (inr None, w)
    /\ wo_store w = set_work (process db) (<[lease_id lease := completed_row row (clock n)]> (db_work (process db)))
    /\ (reads <= n <= reads + 1)%nat.
Proof.
  intros Hv Ho Hfit Hrow Hlive. destruct (observing WorkerProcessingStarted lease None (mkWorld db reads events)) as (w1 & H1 & Hs1 & Hn1).
  cbn [wo_store wo_reads] in Hs1, Hn1. exists (wo_reads w1).
  destruct (complete_live lease row (clock (wo_reads w1)) (process db) Hv Hfit Hrow (Hlive _ Hn1)) as (completion & Hc & Hs).
  unfold Handle, startHandle. rewrite Hv, Ho, bool_decide_eq_true_2 by done. cbn [negb orb].
  rewrite (bind_runs _ _ _ (inl lease) w1) by (by rewrite (bind_runs _ _ _ _ _ H1)).
  cbn [handleLoop handleSignal]. set (w2 := mkWorld (process db) (wo_reads w1) (wo_events w1)).
  rewrite (bind_runs _ _ w1 (inl lease) w2) by (rewrite (bind_runs _ _ w1 tt w2) by (unfold calling; by rewrite Hs1); done).
  cbn [handleLoop handleSignal]. set (w3 := mkWorld (process db) (wo_reads w1 + 1)%nat (wo_events w1)).
  set (s4 := set_work _ _) in *. destruct (observing WorkerCompleted lease None (mkWorld s4 (wo_reads w3) (wo_events w3))) as (w5 & H5 & Hs5 & _).
  exists w5. split; [| split; [exact Hs5 | exact Hn1]].
  assert (Hfin : finish config clock lease (mkDecision WorkComplete "" zeroTime) w2 = (None, w5)).
  { change (finish config clock lease (mkDecision WorkComplete "" zeroTime)) with (finalize config clock lease (mkDecision WorkComplete "" zeroTime)).
    unfold finalize. rewrite (bind_runs (now clock) _ w2 (clock (wo_reads w1)) w3) by done. cbn [wd_kind]. rewrite Hc. cbn [or_return].
    rewrite (bind_runs _ _ w3 None (mkWorld s4 (wo_reads w3) (wo_events w3)));
      [| unfold calling; cbn [work_Complete quiet_work postgres_work wo_store w3]; by rewrite Hs].
    by rewrite (bind_runs _ _ _ _ _ H5). }
  rewrite (bind_runs _ _ w2 (inr None) w5); [done |]. by rewrite (bind_runs _ _ _ _ _ Hfin).
Qed.
End Handling.

(** Settling work touches no history. *)
Lemma settled_holds id lease row at_ db es :
  lease_Valid lease = true -> bigint_fits (le_token lease) = true -> leased id (lease_id lease) row db es -> alive lease row at_ ->
  db_holds id (set_work db (<[lease_id lease := completed_row row at_]> (db_work db))) es.
Proof.
  intros Hv Hfit [[Hwf [Hlog H1 H2 H3]] Hrow] Hlive.
  destruct (complete_live lease row at_ db Hv Hfit Hrow Hlive) as (completion & _ & Hs).
  pose proof (run_call_keeps microseconds String.ltb quiet (CallComplete completion) db (fun _ _ => eq_refl) I Hwf) as Hk.
  cbn [run_call] in Hk. rewrite Hs in Hk. split; [exact Hk |]. by split.
Qed.

(** ** Samples *)

Definition due_row : WorkRow :=
  match db_work due_db !! lease_id due_lease with Some row => row | None => workArguments microseconds (le_work due_lease) end.

Definition pay_worker : WorkerConfig :=
  mkWorkerConfig true true true true "worker-a" 4 5 30000000000 10000000000 1000000000 1000000000.

#[export] Instance pay_leased_store :
  LogStore Database free order_registry "wf-1" 10 100 (leased "wf-1" (lease_id due_lease) due_row) db_takes.
Proof. apply leased_log_store; [by eexists | vm_compute; reflexivity | lia]. Qed.

Lemma due_leased : leased "wf-1" (lease_id due_lease) due_row due_db pay_history.
Proof. split; [apply due_db_holds | vm_compute; reflexivity]. Qed.

(** ** Properties *)

(** C7: Due work is done: when a worker handles a live lease of ready activity work over
    the PostgreSQL store with the activity processor, nothing fails, and the handler
    returns a final answer and leaves the database's history and the leased row
    alone, then Handle returns nil; the log then holds the history extended by exactly
    the start and the outcome of the attempt, which replays to the instance with the
    activity settled as the handler answered; and the row of the work is completed,
    unleased, under its own token. *)
Theorem due_work_is_done clock (config : ActivityWorkProcessorConfig Database) worker workerClock id row db reads events lease
    es i running d step dispatch p start request activity workerReads workerEvents :
  let delivered := activity_Process clock (Some config) (Some free) lease (mkWorld db reads events) in
  is_Some (pc_Definitions config) -> validHistoryTraversal id (pc_PageSize config) (pc_MaxHistoryEvents config) = true ->
  0 <= pc_PageSize config < 2 ^ 32 ->
  attempt_ready clock config id (leased id (lease_id lease) row) db_takes db reads lease es i running d step dispatch p start request ->
  resolveActivity (pc_Activities config) (step_Target step) = Ok activity ->
  handler_behaves clock free (leased id (lease_id lease) row) db_takes db start reads lease (es ++ tr_events start)
    running d step dispatch activity request ->
  wc_owner worker = le_owner lease -> bigint_fits (le_token lease) = true ->
  (forall n, (workerReads <= n <= workerReads + 1)%nat -> alive lease row (workerClock n)) ->
  exists s1 executed s2 outcome last n w,
    exec_Commit start db = (None, s1) /\ Execute activity (Some (free s1)) request s1 = (executed, s2)
    /\ Handle (WorkStore0 := quiet_work) worker workerClock lease [Elsewhere (fun _ => wo_store delivered.2); Processed delivered.1]
         (mkWorld db workerReads workerEvents) = (inr None, w)
    /\ db_holds id (wo_store w) (es ++ tr_events start ++ tr_events outcome)
    /\ committed (pc_Definitions config) (es ++ tr_events start ++ tr_events outcome) last
    /\ in_activities last = <[ad_stepName dispatch := outcome_progress (started_progress p dispatch
         (canonicalTime (Add (clock reads) (step_Timeout step)))) (safe_outcome executed)]> (in_activities i)
    /\ db_work (wo_store w) !! lease_id lease = Some (completed_row row (workerClock n)).
Proof.
  intros delivered Hr Ht Hp Hready Hactivity Hbehaves Ho Hfit Hlive.
  pose proof (leased_log_store (pc_Definitions config) id (lease_id lease) row _ _ Hr Ht Hp) as Hstore.
  pose proof (deliver clock free config id (leased id (lease_id lease) row) db_takes _ _ _ _ _ _ _ _ _ _ _ _ Hready activity events Hactivity) as Hd.
  destruct (start_running clock config id (leased id (lease_id lease) row) db_takes _ _ _ _ _ _ _ _ _ _ _ _ Hready) as [Hf _].
  destruct (execute_attempt clock free config id (leased id (lease_id lease) row) db_takes _ _ _ _ _ _ _ _ _ _ _ _ Hready activity
    (mkWorld db reads events) Hbehaves eq_refl eq_refl) as (s1 & executed & s2 & outcome & s3 & last & Hs1 & Hexec & _ & Hrun & Hholds & Hc & Hact).
  assert (Hdelivered : delivered = (Ok (mkDecision WorkComplete "" zeroTime), mkWorld s3 (reads + 2)%nat events)) by (unfold delivered; by rewrite Hd).
  rewrite Hdelivered. pose proof Hholds as [_ Hrow]. pose proof (sf_lease _ _ _ _ _ _ Hf) as Hv.
  destruct (handle_completes worker workerClock lease row (fun _ => s3) db workerReads workerEvents Hv Ho Hfit Hrow Hlive) as (n & w & Hh & Hw & Hn).
  exists s1, executed, s2, outcome, last, n, w. rewrite Hw. split_and!; try done.
  - by apply settled_holds, Hlive.
  - apply lookup_insert_eq.
Qed.

(** The worker that claimed the payment handles it. *)
Lemma due_work_is_done_witness :
  exists s1 w, Handle (WorkStore0 := quiet_work) pay_worker after_claim due_lease
      [Elsewhere (fun _ => wo_store (activity_Process after_claim (Some (pay_config (charging (Some paid)))) (Some free) due_lease (mkWorld due_db 0 [])).2);
       Processed (activity_Process after_claim (Some (pay_config (charging (Some paid)))) (Some free) due_lease (mkWorld due_db 0 [])).1]
      (mkWorld due_db 0 []) = (inr None, w)
    /\ exec_Commit pay_start due_db = (None, s1)
    /\ exists row, db_work (wo_store w) !! lease_id due_lease = Some row /\ rw_state row = 3.
Proof.
  assert (Hready : attempt_ready after_claim (pay_config (charging (Some paid))) "wf-1" (leased "wf-1" (lease_id due_lease) due_row) db_takes
    due_db 0 due_lease pay_history pay_instance pay_running order_definition pay_step pay_dispatch pay_progress pay_start pay_request).
  { destruct (pay_ready (Some paid)) as [_ H2 H3 H4 H5 H6 H7 H8 H9 H10 H11 H12 H13].
    split; [apply due_leased | assumption ..]. }
  assert (Hbehaves : handler_behaves after_claim free (leased "wf-1" (lease_id due_lease) due_row) db_takes due_db pay_start 0 due_lease
    (pay_history ++ tr_events pay_start) pay_running order_definition pay_step pay_dispatch (charging (Some paid)) pay_request).
  { intros s1 executed s2 Hs1 [Hh Hrow] Hexec.
    destruct (pay_behaves (Some paid) ltac:(vm_compute; reflexivity) s1 executed s2 Hs1 Hh Hexec) as (Hh2 & Hfinal & Htakes).
    split; [| split; [exact Hfinal | exact Htakes]]. split; [exact Hh2 |].
    replace s2 with s1; [exact Hrow |]. clear -Hexec. unfold Execute, charging in Hexec. cbn [act_handler free ctx_Err deadline_Err] in Hexec.
    destruct (negb _); [by injection Hexec as _ -> |]. destruct (_ || _); by injection Hexec as _ ->. }
  destruct (due_work_is_done after_claim (pay_config (charging (Some paid))) pay_worker after_claim "wf-1" due_row due_db 0 [] due_lease
    pay_history pay_instance pay_running order_definition pay_step pay_dispatch pay_progress pay_start pay_request (charging (Some paid)) 0 [])
    as (s1 & executed & s2 & outcome & last & n & w & Hs1 & _ & Hw & _ & _ & _ & Hrow).
  - by eexists.
  - vm_compute. reflexivity.
  - vm_compute. split; [discriminate | reflexivity].
  - exact Hready.
  - vm_compute. reflexivity.
  - exact Hbehaves.
  - vm_compute. reflexivity.
  - vm_compute. reflexivity.
  - intros n Hn. assert (Hcase : n = 0%nat \/ n = 1%nat) by lia. destruct Hcase as [-> | ->]; (split; vm_compute; reflexivity).
  - exists s1, w. split; [exact Hw |]. split; [exact Hs1 |]. eexists. split; [exact Hrow | reflexivity].
Defined.
