(* ===== verification/Journal.v ===== *)
(** * A handler is invoked at most once per attempt, over any sequence of deliveries

    [JournalStore] is what the processors rely on in a store that may fail: histories
    only grow, a page that is answered is a page of the history, and a transition that
    is acknowledged, by [Commit] or by reconciliation, is in the history. Over such a
    store the protocol of one delivery composes: [deliveries] are deliveries of any
    leases, one after the other, between which anybody may extend the histories. *)
From S2P Require Import Prelude GoTime Names Definitions Registry OperatorAudit Event Instances ActivityHistory Replay ReplayInvariant.
From S2P Require Import Plans Work Transition Store Administration Inspection Activity ActivityTransition ChildTransition.
From S2P Require Import Worker Processor ProcessorTrace ActivityProcessor ActivityProtocol.

(** ** What a store promises *)

(** The ways a store says that a transition is durable. *)
Definition acknowledges (answer : option GoError) : Prop :=
  answer = None \/ StoreCommitOutcomeOf answer = StoreCommitCommitted.

Section Journal.
Context {S : Type} (holds : S -> string -> list HistoryEvent -> Prop).

(** The events of a transition are in the history of its instance. *)
Definition recorded (s : S) (t : Transition) : Prop :=
  exists es, holds s (tr_instanceID t) es /\ forall e, e ∈ tr_events t -> e ∈ es.

(** Histories only grow. *)
Definition extends (s s' : S) : Prop := forall id es, holds s id es -> exists more, holds s' id (es ++ more).

Lemma extends_refl s : extends s s.
Proof. intros id es H. exists []. by rewrite app_nil_r. Qed.

Lemma extends_trans s1 s2 s3 : extends s1 s2 -> extends s2 s3 -> extends s1 s3.
Proof.
  intros H1 H2 id es (more & Hm)%H1. destruct (H2 _ _ Hm) as (more' & Hm'). exists (more ++ more'). by rewrite app_assoc.
Qed.

Lemma extends_recorded s s' t : extends s s' -> recorded s t -> recorded s' t.
Proof. intros H (es & Hh & He). destruct (H _ _ Hh) as (more & Hm). exists (es ++ more). split; [done |]. intros e ?%He. by apply elem_of_app; left. Qed.
End Journal.

(** [used] are the transitions that are committed at all: a store compares them by
    identity and digest only. *)
Class JournalStore (S : Type) `{!ExecutionStore S} (sound : S -> Prop) (holds : S -> string -> list HistoryEvent -> Prop)
    (used : Transition -> Prop) : Prop := {
  js_holds s id : sound s -> exists es, holds s id es;
  js_unique s id es es' : holds s id es -> holds s id es' -> es = es';
  js_events s id es : holds s id es -> Forall event_wf es;
  js_length s id es : sound s -> holds s id es -> Z.of_nat (length es) < 2 ^ 63;
  js_commit s t answer s' : sound s -> used t -> exec_Commit t s = (answer, s') ->
    sound s' /\ extends holds s s' /\ (acknowledges answer -> recorded holds s' t);
  js_reconcile s rl answer s' : sound s -> exec_Reconcile rl s = (answer, s') ->
    sound s' /\ extends holds s s'
    /\ forall t, used t -> rl = identity t -> answer = Ok TransitionCommitted -> recorded holds s' t;
  js_history s query answer s' : sound s -> exec_History query s = (answer, s') ->
    sound s' /\ extends holds s s'
    /\ forall es, holds s (hq_instanceID query) es -> holds s' (hq_instanceID query) es
        /\ forall page, answer = Ok page -> historyQuery_valid query = true -> 0 <= hq_afterSequence query <= Z.of_nat (length es) ->
             pg_events page = take (Z.to_nat (hq_limit query)) (drop (Z.to_nat (hq_afterSequence query)) es)
             /\ pg_hasMore page = (hq_afterSequence query + hq_limit query <? Z.of_nat (length es))
}.

(** ** Inspection over a store that may fail *)

Section Inspect.
Context {S : Type} `{!ExecutionStore S} (sound : S -> Prop) (holds : S -> string -> list HistoryEvent -> Prop) (used : Transition -> Prop).
Context `{!JournalStore S sound holds used}.

(** A traversal that ends well has delivered the whole history. *)
Lemma traverse_whole ctxErr instanceID pageSize maxEvents : 1 <= pageSize -> maxEvents <= MaxInspectionHistoryEvents ->
  forall fuel count s es s' events,
  0 <= count < maxEvents -> count <= Z.of_nat (length es) -> sound s -> holds s instanceID es ->
  traverseHistory (collecting exec_History) ctxErr collect fuel instanceID pageSize maxEvents count count (s, take (Z.to_nat count) es)
    = Some (None, (s', events)) ->
  events = es.
Proof.
  unfold MaxInspectionHistoryEvents. intros Hp Hm. induction fuel as [| fuel IH]; intros count s es s' events Hc Hl Hs Hh H; [done |].
  cbn [traverseHistory] in H. destruct (ctxErr _); [done |]. rewrite (u64_small (maxEvents - count)), u32_small in H by lia.
  set (query := or_zero _ _) in H. unfold collecting at 1 in H. cbn [fst snd] in H.
  destruct (exec_History query s) as [[page | err] s1] eqn:Hq; [| done].
  destruct (NewHistoryPage query (pg_events page) (pg_hasMore page)) as [validated |] eqn:Hpage; [| done].
  assert (Hv : historyQuery_valid query = true) by (unfold NewHistoryPage in Hpage; by destruct (historyQuery_valid query)).
  assert (Hquery : query = mkHistoryQuery instanceID count (Z.min pageSize (maxEvents - count))).
  { subst query. unfold NewHistoryQuery in *. cbn [hq_instanceID hq_afterSequence hq_limit] in *.
    destruct (historyQuery_valid (mkHistoryQuery instanceID count _)); [done |]. by vm_compute in Hv. }
  clearbody query. subst query. destruct (js_history _ _ _ _ Hs Hq) as (Hs1 & _ & Hread). cbn [hq_instanceID hq_afterSequence hq_limit] in Hread.
  destruct (Hread es Hh) as [Hh1 Hans]. destruct (Hans page eq_refl Hv ltac:(lia)) as [Hev Hmore]. clear Hread Hans.
  assert (Hwf : Forall (fun e => ev_sequence e < 2 ^ 64) (pg_events page)).
  { rewrite Hev. apply Forall_take, Forall_drop. eapply Forall_impl; [by eapply js_events |]. intros e He. by apply event_sequence_range. }
  pose proof (js_length _ _ _ Hs Hh) as Hlen. apply NewHistoryPage_iff in Hpage as (_ & Hle & _ & _ & ->); [| cbn [hq_afterSequence]; lia | done].
  cbn [hq_afterSequence hq_limit pg_nextAfterSequence] in *.
  destruct (Z.eqb_spec (count + Z.of_nat (length (pg_events page))) (pg_nextAfterSequence page)) as [Hnext |]; [cbn [negb] in H | done].
  rewrite Hmore in H. rewrite <- Hnext in H.
  assert (Hn : length (pg_events page) = (Z.to_nat (Z.min pageSize (maxEvents - count)) `min` (length es - Z.to_nat count))%nat)
    by by rewrite Hev, length_take, length_drop.
  destruct (Z.eqb_spec (Z.of_nat (length (pg_events page))) 0) as [Hz | Hz]; [injection H as <- <-; apply take_ge; lia |].
  cbn [collect fst snd] in H. rewrite Hev in H.
  rewrite take_take_drop in H.
  destruct (Z.ltb_spec (count + Z.min pageSize (maxEvents - count)) (Z.of_nat (length es))) as [Hlt | Hge]; cbn [negb] in H.
  - rewrite <- Hev, u64_small in H by lia. destruct (Z.eqb_spec (count + Z.of_nat (length (pg_events page))) maxEvents); [done |].
    replace (Z.of_nat (length (pg_events page))) with (Z.min pageSize (maxEvents - count)) in H by lia.
    replace (Z.to_nat count + Z.to_nat (Z.min pageSize (maxEvents - count)))%nat with (Z.to_nat (count + Z.min pageSize (maxEvents - count))) in H by lia.
    eapply (IH _ s1 es); [| | done | done | exact H]; lia.
  - injection H as <- <-. apply take_ge. lia.
Qed.

(** Inspection that answers an instance has replayed the whole history. *)
Lemma inspect_whole ctxErr registry spec s i s' es :
  0 <= is_PageSize spec -> sound s -> holds s (is_InstanceID spec) es ->
  InspectInstance exec_History ctxErr registry spec s = Some (Ok i, s') -> Replay registry es = Ok i.
Proof.
  intros Hp Hs Hh. unfold InspectInstance. destruct registry as [registry |]; [| done].
  destruct (validHistoryTraversal _ _ _) eqn:Hv; cbn [negb]; [| done].
  unfold validHistoryTraversal in Hv. destruct (negb _); [done |]. destruct (_ || _) eqn:G; [done |]. bool_norm.
  destruct (traverseHistory _ _ _ _ _ _ _ _ _ _) as [[err [w events]] |] eqn:Ht; [| done]. cbn.
  destruct err; [done |]. intros [= Hr <-].
  eapply (traverse_whole (fun w : S * list HistoryEvent => ctxErr w.1) (is_InstanceID spec) (is_PageSize spec) (is_MaxEvents spec) ltac:(lia) ltac:(lia) _ 0 s es) in Ht;
    [by subst | lia | lia | done | done].
Qed.
End Inspect.

(** ** What every operation of the processor preserves *)

Create HintDb preserving discriminated.
#[export] Hint Constants Opaque : preserving.

Section Preserves.
Context {S : Type} (P : S -> Prop).

Definition preserves {A} (m : ProcM S A) : Prop := forall w, P (wo_store w) -> P (wo_store (m w).2).

Lemma preserves_fallible {A} (r : result A) : preserves (fallible r).
Proof. by intros w. Qed.

Lemma preserves_bind {A B} (m : ProcM S A) (f : A -> ProcM S B) :
  preserves m -> (forall a, preserves (f a)) -> preserves (m ≫= f).
Proof.
  intros Hm Hf w Hw. specialize (Hm w Hw). unfold mbind, proc_bind. destruct (m w) as [[a | err] w1]; [| done]. by apply Hf.
Qed.

Lemma preserves_readClock clock : preserves (readClock clock).
Proof. by intros w. Qed.

Lemma preserves_attempt {A} (m : ProcM S A) : preserves m -> preserves (attempt m).
Proof. intros Hm w Hw. specialize (Hm w Hw). unfold attempt. by destruct (m w). Qed.

Lemma preserves_ask {A} (operation : S -> A * S) : (forall s, P s -> P (operation s).2) -> preserves (ask operation).
Proof. intros Ho w Hw. specialize (Ho _ Hw). unfold ask, calling. by destruct (operation _). Qed.

Context `{!ExecutionStore S} (clock : nat -> Time) (ctx : S -> Context).
Hypothesis Hcommit : forall t s, P s -> P (exec_Commit t s).2.
Hypothesis Hreconcile : forall rl s, P s -> P (exec_Reconcile rl s).2.
Hypothesis Hhistory : forall query s, P s -> P (exec_History query s).2.

#[local] Hint Resolve preserves_fallible preserves_readClock : preserving.

(** Through the structure of an operation, to the calls of the store. *)
Ltac preserved :=
  repeat first
    [ solve [eauto 2 with preserving nocore]
    | apply preserves_fallible
    | apply preserves_ask; solve [auto]
    | apply preserves_bind; [| intros ?]
    | match goal with
      | |- preserves (if ?b then _ else _) => destruct b
      | |- preserves (match ?x with _ => _ end) => destruct x
      | |- preserves (let _ := _ in _) => cbv zeta
      end ].

Lemma preserves_commit t : preserves (commitActivityTransition t).
Proof. unfold commitActivityTransition. preserved. Qed.
#[local] Hint Resolve preserves_commit : preserving.

Lemma preserves_inspecting registry pageSize maxEvents id : preserves (inspecting ctx registry pageSize maxEvents id).
Proof.
  unfold inspecting. apply preserves_bind; [| intros; apply preserves_fallible]. apply preserves_ask. intros s Hs.
  destruct (InspectInstance _ _ _ _ _) as [[r s'] |] eqn:H; [| done]. cbn [snd]. unfold InspectInstance in H.
  destruct registry as [registry |]; [| by injection H as <- <-]. destruct (negb _); [by injection H as <- <- |].
  destruct (traverseHistory _ _ _ _ _ _ _ _ _ _) as [[err [s1 events]] |] eqn:Ht; [| done].
  eapply (traverse_collects _ _ P) in Ht as [Hp _]; [| by intros query x; apply Hhistory | done | constructor].
  cbn in H. by injection H as <- <-.
Qed.
#[local] Hint Resolve preserves_inspecting : preserving.

Context (config : ActivityWorkProcessorConfig S).
Hypothesis Hhandlers : forall name activity, resolveActivity (pc_Activities config) name = Ok activity ->
  forall context request s, P s -> P (Execute activity context request s).2.

Lemma preserves_retry work i d step dispatch : preserves (activity_scheduleRetry clock work i d step dispatch).
Proof. unfold activity_scheduleRetry. preserved. Qed.
#[local] Hint Resolve preserves_retry : preserving.

Lemma preserves_persist work i d dispatch outcome : preserves (activity_persistOutcome clock ctx config work i d dispatch outcome).
Proof. unfold activity_persistOutcome, activity_inspect. preserved. Qed.
#[local] Hint Resolve preserves_persist : preserving.

Lemma preserves_load work dispatch : preserves (activity_load ctx config work dispatch).
Proof. unfold activity_load, activity_inspect. preserved. Qed.
#[local] Hint Resolve preserves_load : preserving.

Lemma load_resolves work dispatch w i d step activity w' :
  activity_load ctx config work dispatch w = (Ok (i, d, step, activity), w') ->
  exists name, resolveActivity (pc_Activities config) name = Ok activity.
Proof.
  unfold activity_load, mbind, proc_bind. destruct (activity_inspect _ _ _ _) as [[j |] w1]; [| done]. cbv zeta.
  destruct (activityProcessorStep _ _) as [st |]; [| done]. destruct (_ || _); [done |].
  destruct (fallible _ _) as [[a |] w2] eqn:E; [| done]. injection E as Ha <-. intros [= -> _ _ -> _]. by eexists.
Qed.

Lemma preserves_execute lease i d step name activity dispatch : resolveActivity (pc_Activities config) name = Ok activity ->
  preserves (activity_execute clock ctx config lease i d step activity dispatch).
Proof.
  intros Ha. unfold activity_execute, activity_inspect, executeActivitySafely. pose proof (Hhandlers _ _ Ha). preserved.
Qed.
#[local] Hint Resolve preserves_execute : preserving.

Lemma preserves_process lease : preserves (activity_Process clock (Some config) (Some ctx) lease).
Proof.
  unfold activity_Process. destruct (negb _); [apply preserves_fallible |]. destruct (negb _); [apply preserves_fallible |]. cbv zeta.
  destruct (DecodeActivityDispatch _) as [dispatch |]; [| apply preserves_fallible]. intros w Hw.
  pose proof (preserves_load (le_work lease) dispatch w Hw) as Hl. unfold mbind, proc_bind, attempt.
  destruct (activity_load _ _ _ _ w) as [[[[[i d] step] activity] |] w1] eqn:E; cbn [snd] in Hl; [| by destruct (_ || _)].
  apply load_resolves in E as [name Ha]. destruct (in_activities i !! _) as [progress |]; [| done].
  revert w1 Hl. fold (preserves (activity_processProgress clock ctx config lease i d step activity dispatch progress)).
  unfold activity_processProgress. preserved.
Qed.
End Preserves.

(** ** Started attempts *)

(** The start of an attempt carries the attempt the record then shows. *)
Lemma applyKind_started registry i e m name :
  applyKind registry i e = Ok m -> starts name e = true -> ev_attempt e = attempt_of m name.
Proof.
  unfold starts. intros H [Hk%bool_decide_eq_true <-%bool_decide_eq_true]%andb_true_iff.
  assert (Ha : applyActivity registry i e = Ok m) by (unfold applyKind in H; by rewrite Hk in H).
  apply applyActivity_iff in Ha as (step & p' & _ & Hs & ->); [| by rewrite Hk].
  unfold attempt_of. cbn [in_activities set_activity]. rewrite lookup_insert_eq. inversion Hs; subst; done || congruence.
Qed.

Lemma run_started registry es i name e :
  run registry es i -> e ∈ es -> starts name e = true -> ev_attempt e <= attempt_of i name.
Proof.
  intros Hr. revert e. induction Hr as [e' i He Hs | es e' i m Hr IH He Ha Hm]; intros e.
  - intros ->%list_elem_of_singleton Hst. apply applyStart_inv in Hs as (Hk & _). unfold starts in Hst. by rewrite Hk in Hst.
  - rewrite finish_attempt. intros [Hin | ->%list_elem_of_singleton]%elem_of_app Hst.
    + rewrite (applyKind_attempt _ _ _ _ name He (run_progress _ _ _ Hr) Hm). specialize (IH e Hin Hst). destruct (starts name e'); lia.
    + by rewrite (applyKind_started _ _ _ _ _ Hm Hst).
Qed.

(** A store that logs itself is a journal too. *)
#[export] Instance traced_journal {S R B} `{!ExecutionStore S} (sound : S -> Prop) holds used `{!JournalStore S sound holds used} :
  JournalStore (S * list (Effect R B)) (fun x => sound x.1) (fun x => holds x.1) used.
Proof.
  split.
  - intros s id. apply js_holds.
  - intros s id es es'. by apply js_unique.
  - intros s id es. by apply js_events.
  - intros s id es. by apply js_length.
  - intros [s log] t answer s' Hs Ht. cbn [exec_Commit traced_store fst]. unfold logs. cbn [fst snd].
    destruct (exec_Commit t s) as [a s1] eqn:E. intros [= <- <-]. exact (js_commit _ _ _ _ Hs Ht E).
  - intros [s log] rl answer s' Hs. cbn [exec_Reconcile traced_store fst]. unfold logs. cbn [fst snd].
    destruct (exec_Reconcile rl s) as [a s1] eqn:E. intros [= <- <-]. exact (js_reconcile _ _ _ _ Hs E).
  - intros [s log] query answer s' Hs. cbn [exec_History traced_store fst snd].
    destruct (exec_History query s) as [a s1] eqn:E. intros [= <- <-]. exact (js_history _ _ _ _ Hs E).
Qed.

(** ** One delivery over a journal *)

Section Deliveries.
Context {S : Type} `{!ExecutionStore S} (sound : S -> Prop) (holds : S -> string -> list HistoryEvent -> Prop) (used : Transition -> Prop).
Context `{!JournalStore S sound holds used}.

Abbreviation T := (S * list ActivityEffect)%type.

Definition effect_used (e : ActivityEffect) : Prop := match e with Committing t _ => used t | _ => True end.

Definition acknowledged (es : list ActivityEffect) (t : Transition) : Prop :=
  (exists answer, Committing t answer ∈ es /\ acknowledges answer) \/ Reconciling (identity t) (Ok TransitionCommitted) ∈ es.

Lemma confirms_acknowledged t es : confirms t es -> acknowledged es t.
Proof.
  intros [| err He | err | err].
  - left. exists None. split; [| by left]. set_solver.
  - left. exists (Some err). split; [set_solver | by right].
  - right. set_solver.
  - left. exists None. split; [| by left]. set_solver.
Qed.

Lemma acknowledged_app es es' t : acknowledged es t -> acknowledged (es ++ es') t.
Proof. intros [(a & Hin & Ha) | Hin]; [left; exists a; split; [| done] | right]; by apply elem_of_app; left. Qed.

(** Since [s0] histories grew, and all that was acknowledged is recorded. *)
Definition journaled (s0 : S) (x : T) : Prop :=
  Forall effect_used x.2 -> sound x.1 /\ extends holds s0 x.1 /\ forall t, used t -> acknowledged x.2 t -> recorded holds x.1 t.

(** One logged call: the log grows by its effect, the histories grow, and what the
    effect acknowledges is recorded. *)
Lemma journaled_effect s0 s log s' e : journaled s0 (s, log) ->
  (sound s -> effect_used e -> sound s' /\ extends holds s s' /\ forall t, used t -> acknowledged [e] t -> recorded holds s' t) ->
  journaled s0 (s', log ++ [e]).
Proof.
  intros Hj He. unfold journaled. cbn [fst snd] in *. intros [Hl [Hu _]%Forall_cons]%Forall_app.
  destruct (Hj Hl) as (Hs & Hx & Hr). destruct (He Hs Hu) as (Hs' & Hx' & Hr'). split_and!; [done | by eapply extends_trans |].
  intros t Ht [(a & Hin & Ha) | Hin].
  - apply elem_of_app in Hin as [Hin | Hin]; [eapply extends_recorded; [done |]; apply Hr; [done |]; left; by exists a |].
    apply Hr'; [done |]. left. by exists a.
  - apply elem_of_app in Hin as [Hin | Hin]; [eapply extends_recorded; [done |]; apply Hr; [done |]; by right |].
    apply Hr'; [done |]. by right.
Qed.

Lemma journaled_commit s0 t x : journaled s0 x -> journaled s0 (exec_Commit t x).2.
Proof.
  destruct x as [s log]. intros Hj. cbn [exec_Commit traced_store]. unfold logs. cbn [fst snd].
  destruct (exec_Commit t s) as [a s'] eqn:E. cbn [snd]. eapply journaled_effect; [done |]. intros Hs Hu.
  destruct (js_commit _ _ _ _ Hs Hu E) as (? & ? & Hr). split_and!; [done .. |].
  intros t' _ [(a' & [= -> ->]%list_elem_of_singleton & Ha) | [=]%list_elem_of_singleton]. by apply Hr.
Qed.

Lemma journaled_reconcile s0 rl x : journaled s0 x -> journaled s0 (exec_Reconcile rl x).2.
Proof.
  destruct x as [s log]. intros Hj. cbn [exec_Reconcile traced_store]. unfold logs. cbn [fst snd].
  destruct (exec_Reconcile rl s) as [a s'] eqn:E. cbn [snd]. eapply journaled_effect; [done |]. intros Hs _.
  destruct (js_reconcile _ _ _ _ Hs E) as (? & ? & Hr). split_and!; [done .. |].
  intros t Ht [(a' & [=]%list_elem_of_singleton & _) | [= <- <-]%list_elem_of_singleton]. by apply Hr.
Qed.

Lemma journaled_history s0 query x : journaled s0 x -> journaled s0 (exec_History query x).2.
Proof.
  destruct x as [s log]. intros Hj. cbn [exec_History traced_store fst snd].
  destruct (exec_History query s) as [a s'] eqn:E. cbn [snd]. intros (Hs & Hx & Hr)%Hj.
  destruct (js_history _ _ _ _ Hs E) as (? & ? & _). cbn [fst snd] in *. split_and!; [done | by eapply extends_trans |].
  intros t Ht Ha. eapply extends_recorded; [done |]. by apply Hr.
Qed.

(** Handlers may do anything that only extends histories. *)
Definition handlers_extend (config : ActivityWorkProcessorConfig S) : Prop :=
  forall table name activity handler context request s,
  pc_Activities config = Some table -> table !! name = Some activity -> act_handler activity = Some handler ->
  sound s -> sound (handler context request s).2 /\ extends holds s (handler context request s).2.

Lemma journaled_handler config s0 name activity : handlers_extend config ->
  resolveActivity (pc_Activities (traced_config config)) name = Ok activity ->
  forall context request x, journaled s0 x -> journaled s0 (Execute activity context request x).2.
Proof.
  intros Hh Ha context request [s log] Hj. cbn [pc_Activities traced_config] in Ha. unfold resolveActivity in Ha.
  destruct (pc_Activities config) as [table |] eqn:Ht; [| done]. cbn [option_map] in Ha. unfold traced_registry in Ha. rewrite lookup_fmap in Ha.
  destruct (table !! name) as [bare |] eqn:Hb; [| done]. cbn [fmap option_fmap option_map] in Ha. injection Ha as <-.
  unfold Execute. cbn [act_handler traced_activity]. destruct (act_handler bare) as [handler |] eqn:Hf; [| done]. cbn [option_map].
  destruct context as [context |]; [| done]. destruct (negb (request_valid request)); [done |].
  destruct (ctx_Err context); [done |]. destruct (deadline_Err context _); [done |]. unfold logs. cbn [fst snd].
  pose proof (Hh table name bare handler context request s Ht Hb Hf) as Hgrow.
  destruct (handler context request s) as [answer s'] eqn:E. cbn [fst snd] in Hgrow.
  assert (Hnext : journaled s0 (s', log ++ [Invoked request answer])).
  { eapply journaled_effect; [done |]. intros Hs _. destruct (Hgrow Hs). split_and!; [done .. |].
    by intros t _ [(a' & [=]%list_elem_of_singleton & _) | [=]%list_elem_of_singleton]. }
  destruct answer as [outcome |]; [| done]. by destruct (_ || _).
Qed.

(** The attempt is in the history. *)
Definition started (s : S) (id name : string) (attempt : Z) : Prop :=
  exists es e, holds s id es /\ e ∈ es /\ starts name e = true /\ ev_attempt e = attempt.

Lemma extends_started s s' id name attempt : extends holds s s' -> started s id name attempt -> started s' id name attempt.
Proof.
  intros H (es & e & Hh & He & Hst). destruct (H _ _ Hh) as (more & Hm). exists (es ++ more), e. split; [done |].
  split; [by apply elem_of_app; left | done].
Qed.

Section Delivery.
Context (clock : nat -> Time) (ctx : S -> Context) (config : ActivityWorkProcessorConfig S) (lease : WorkLease).
Hypothesis Hconfig : handlers_extend config.
Hypothesis Hpage : 0 <= pc_PageSize config.

Abbreviation ctx_of := (fun s : T => ctx s.1).
Abbreviation traced := (traced_config config).

Lemma delivery_journaled s0 : preserves (journaled s0) (activity_Process clock (Some traced) (Some ctx_of) lease).
Proof.
  apply preserves_process; [intros; by apply journaled_commit | intros; by apply journaled_reconcile | intros; by apply journaled_history |].
  intros name activity Ha. by eapply journaled_handler.
Qed.

(** A delivery that invokes has found the attempt before the one it starts. *)
Lemma delivery_finds w r w' dispatch : activity_Process clock (Some traced) (Some ctx_of) lease w = (r, w') ->
  DecodeActivityDispatch (wk_payload (le_work lease)) = Ok dispatch ->
  (exists es, effects w' = effects w ++ es /\ silent es)
  \/ exists i w1 p, activity_inspect ctx_of traced (wk_instanceID (le_work lease)) w = (Ok i, w1)
       /\ in_activities i !! ad_stepName dispatch = Some p /\ ad_attempt dispatch = u32 (ap_attempt p + 1).
Proof.
  intros H Hd. unfold activity_Process in H. rewrite Hd in H.
  assert (Hquiet : forall w2 : World T, effects w2 = effects w -> exists es, effects w2 = effects w ++ es /\ silent es).
  { intros w2 ->. exists []. rewrite app_nil_r. split; [done | apply Forall_nil_2]. }
  destruct (negb _); [injection H as <- <-; left; by apply Hquiet |].
  destruct (negb _); [injection H as <- <-; left; by apply Hquiet |].
  unfold mbind at 1, proc_bind at 1, attempt at 1 in H.
  destruct (activity_load ctx_of traced (le_work lease) dispatch w) as [loaded w2] eqn:Hl.
  pose proof (activity_load_emits ctx config (le_work lease) dispatch _ _ _ Hl) as (es & Hes & -> & Hok). rewrite app_nil_r in Hes.
  destruct loaded as [[[[j d] step] activity] | err]; [| left; apply Hquiet; by destruct (_ || _); injection H as <- <-].
  destruct (Hok _ _ _ _ eq_refl) as (Hid & bare & ->).
  assert (Hi : exists w1, activity_inspect ctx_of traced (wk_instanceID (le_work lease)) w = (Ok j, w1)).
  { unfold activity_load, mbind, proc_bind in Hl. destruct (activity_inspect _ _ _ _) as [[i |] w1]; [| done]. cbn zeta in Hl.
    destruct (activityProcessorStep _ _); [| done]. destruct (_ || _); [done |].
    destruct (fallible _ _) as [[a |] ?]; [| done]. injection Hl as <- _ _ _ _. by exists w1. }
  destruct Hi as [w1 Hi]. destruct (in_activities j !! _) as [p |] eqn:Hp; [| left; apply Hquiet; by injection H as <- <-].
  destruct (startable (ap_status p)) eqn:Hst.
  - destruct (decide (ad_attempt dispatch = u32 (ap_attempt p + 1))) as [Ha | Ha]; [right; by exists j, w1, p |].
    left. apply Hquiet. unfold activity_processProgress in H. rewrite (proj2 (Z.eqb_neq _ _) Ha) in H.
    by destruct (ap_status p); try done; injection H as <- <-.
  - destruct (activity_progress_emits clock ctx config lease j d step bare dispatch p Hd Hid _ _ _ H) as (es & He & _ & Hs).
    left. exists es. rewrite He, Hes. split; [done | by apply Hs].
Qed.

(** What an answered inspection says about the attempts in the history. *)
Lemma inspected_attempts w i w1 id name attempt :
  sound (wo_store w).1 -> activity_inspect ctx_of traced id w = (Ok i, w1) -> started (wo_store w).1 id name attempt ->
  attempt <= attempt_of i name /\ progress_wf i.
Proof.
  destruct w as [[s log] reads events]. cbn [wo_store fst]. intros Hs H (es & e & Hh & He & Hst & <-).
  unfold activity_inspect, inspecting, mbind, proc_bind, ask, calling in H. cbn [wo_store] in H.
  destruct (InspectInstance _ _ _ _ _) as [[answer s'] |] eqn:Hi; [| done]. injection H as -> _.
  apply (inspect_whole (fun x : T => sound x.1) (fun x => holds x.1) used _ _ _ (s, log) i s' es) in Hi; [| done ..].
  apply Replay_run in Hi; [| by eapply js_events]. split; [by eapply run_started | by eapply run_progress].
Qed.
End Delivery.

(** ** Deliveries, one after the other *)

(** From [x0], deliveries of any leases by any workers (their clocks, contexts,
    registries and handlers are their own), and in between whatever extends the
    histories: other stores' clients, claims, operators. The log is that of all. *)
Inductive deliveries (x0 : T) : T -> Prop :=
  | deliveries_none : deliveries x0 x0
  | deliveries_between x s : deliveries x0 x -> (sound x.1 -> sound s /\ extends holds x.1 s) -> deliveries x0 (s, x.2)
  | deliveries_next x clock ctx config lease reads events r w :
      deliveries x0 x -> handlers_extend config -> 0 <= pc_PageSize config ->
      activity_Process clock (Some (traced_config config)) (Some (fun s : T => ctx s.1)) lease (mkWorld x reads events) = (r, w) ->
      deliveries x0 (wo_store w).

(** The invocations of one attempt of one step of one instance. *)
Definition invokes (id name : string) (attempt : Z) (e : ActivityEffect) : bool :=
  match e with
  | Invoked request _ => bool_decide (rq_instanceID request = id) && bool_decide (rq_stepName request = name) && (rq_attempt request =? attempt)
  | _ => false
  end.

Definition times (id name : string) (attempt : Z) (es : list ActivityEffect) : nat := length (List.filter (invokes id name attempt) es).

Lemma times_app id name attempt es es' : times id name attempt (es ++ es') = (times id name attempt es + times id name attempt es')%nat.
Proof. unfold times. by rewrite List.filter_app, length_app. Qed.

Lemma times_silent id name attempt es : silent es -> times id name attempt es = 0%nat.
Proof. unfold times. induction 1 as [| e es He Hes IH]; [done |]. by destruct e. Qed.

Lemma confirms_used t es : confirms t es -> Forall effect_used es -> used t.
Proof. intros []; by intros [Hu _]%Forall_cons. Qed.

(** What holds of the log and the histories after any deliveries. *)
Definition counted (s0 : S) (x : T) : Prop :=
  journaled s0 x
  /\ (Forall effect_used x.2 -> forall id name attempt,
        (times id name attempt x.2 <= 1)%nat /\ (times id name attempt x.2 <> 0%nat -> started x.1 id name attempt)).

Lemma journaled_from s0 x : journaled s0 x -> journaled x.1 x.
Proof. intros H Hu. destruct (H Hu) as (? & _ & ?). split_and!; [done | apply extends_refl | done]. Qed.

Lemma delivery_counted s0 x clock ctx config lease reads events r w :
  counted s0 x -> handlers_extend config -> 0 <= pc_PageSize config ->
  activity_Process clock (Some (traced_config config)) (Some (fun s : T => ctx s.1)) lease (mkWorld x reads events) = (r, w) ->
  counted s0 (wo_store w).
Proof.
  intros [Hj Hc] Hconfig Hpage H. set (w0 := mkWorld x reads events) in H.
  pose proof (delivery_journaled clock ctx config lease Hconfig s0 w0 Hj) as Hj'. rewrite H in Hj'. split; [exact Hj' |]. intros Hu.
  pose proof (delivery_journaled clock ctx config lease Hconfig x.1 w0 (journaled_from _ _ Hj)) as Hx. rewrite H in Hx.
  destruct (Hx Hu) as (_ & Hext & Hrec). clear Hx Hj'. cbn [snd] in *.
  destruct (activity_process_emits clock ctx config lease _ _ _ H) as (es & He & Hp). change (effects w0) with x.2 in He.
  change (effects w) with (wo_store w).2 in He. rewrite He in Hu, Hrec |- *. apply Forall_app in Hu as [Hux Hues].
  destruct (Hj Hux) as (Hs & _ & _). specialize (Hc Hux).
  assert (Hsilent : silent es -> forall id name attempt, (times id name attempt (x.2 ++ es) <= 1)%nat
    /\ (times id name attempt (x.2 ++ es) <> 0%nat -> started (wo_store w).1 id name attempt)).
  { intros Hes id name attempt. rewrite times_app, (times_silent _ _ _ es), Nat.add_0_r by done.
    destruct (Hc id name attempt) as [Hn Hst]. split; [done |]. intros Hne. by eapply extends_started, Hst. }
  destruct Hp as [Hes | (dispatch & Hd & Ht)]; [by apply Hsilent |].
  destruct (delivery_finds _ _ _ _ _ _ _ _ H Hd) as [(es' & He' & Hes) | (i & w1 & p & Hi & Hp & Ha)].
  { change (effects w) with (wo_store w).2 in He'. rewrite He in He'. apply app_inv_head in He' as <-. by apply Hsilent. }
  inversion Ht as [es' r' Hes | start before request answer after r' Hstart Hconf Hask Hset]; subst; [by apply Hsilent |]. clear Hsilent.
  destruct Hstart as (e & (Hev & Hid & Hk & _ & Hn & Hat) & _). destruct Hask as (_ & Hqi & Hqn & Hqa & _). destruct Hset as [Hafter _].
  intros id name attempt. rewrite times_app, times_app, (times_silent _ _ _ before) by by eapply confirms_silent.
  change (Invoked request answer :: after) with ([Invoked request answer] ++ after). rewrite times_app, (times_silent _ _ _ after) by done.
  destruct (Hc id name attempt) as [Hle Hst]. unfold times at 2 4. cbn [List.filter invokes].
  destruct (bool_decide _ && _ && _) eqn:Hm; cbn [length].
  2: { split; [lia |]. intros Hne. eapply extends_started, Hst; [done | lia]. }
  bool_norm. subst. clear Hle. destruct (decide (times (rq_instanceID request) (rq_stepName request) (rq_attempt request) x.2 = 0%nat)) as [-> | Hne].
  - split; [lia |]. intros _. destruct (Hrec start) as (es & Hh & Hin).
    { apply Forall_app in Hues as [Hb _]. by eapply confirms_used. }
    { apply confirms_acknowledged in Hconf. destruct Hconf as [(a & Hin & Hack) | Hin]; [left; exists a; split; [| done] | right];
        rewrite !elem_of_app; auto. }
    exists es, e. rewrite Hqi, Hqn, Hqa, <- Hid. split; [done |]. split; [apply Hin; rewrite Hev; by left |].
    unfold starts. by rewrite Hk, Hn, !bool_decide_eq_true_2.
  - exfalso. specialize (Hst Hne). rewrite Hqi, Hqn, Hqa in Hst.
    destruct (inspected_attempts ctx config Hpage w0 _ _ _ _ _ Hs Hi Hst) as [Hat' Hwf].
    unfold attempt_of in Hat'. rewrite Hp in Hat'. destruct (wf_activities _ Hwf _ _ Hp) as [_ _ Hr _ _ _].
    apply DecodeActivityDispatch_wf in Hd as (_ & Hz & _). rewrite Ha in Hat', Hz. unfold u32 in *.
    destruct (decide (ap_attempt p + 1 = 2 ^ 32)) as [Heq | Hlt]; [rewrite Heq in Hz; by rewrite Z.mod_same in Hz |].
    rewrite Z.mod_small in Hat' by lia. lia.
Qed.

Lemma deliveries_counted s0 x : sound s0 -> deliveries (s0, []) x -> counted s0 x.
Proof.
  intros Hs. induction 1 as [| x s Hd [Hj Hc] Hext | x clock ctx config lease reads events r w Hd IH Hconfig Hpage H].
  - split.
    + intros _. split_and!; [done | apply extends_refl |]. by intros t _ [(a & ?%elem_of_nil & _) | ?%elem_of_nil].
    + intros _ id name attempt. split; [cbn; lia | done].
  - split; intros Hu; destruct (Hj Hu) as (Hx & Hx0 & Hr); destruct (Hext Hx) as [Hs' He].
    + split_and!; [done | by eapply extends_trans |]. intros t Ht Ha. by eapply extends_recorded, Hr.
    + intros id name attempt. destruct (Hc Hu id name attempt) as [Hn Hst]. split; [done |]. intros Hne. by eapply extends_started, Hst.
  - by eapply delivery_counted.
Qed.
End Deliveries.
