(* ===== verification/PostgresJournal.v ===== *)
(** * The PostgreSQL store as a journal, and handlers invoked at most once

    The store of the processors is the database with the sessions its next calls
    will meet: any statement, begin or commit may fail, and a commit may be durable
    although its acknowledgement is lost. Between the processors' calls other clients
    of the store run theirs. *)
From S2P Require Import Prelude GoTime Names Definitions Registry OperatorAudit Event Instances ActivityHistory Replay ReplayProperties.
From S2P Require Import Plans Work Transition Store Administration Inspection DeadLetter Tables Statements Samples.
From S2P Require Import PostgresCommit PostgresAppend PostgresLog PostgresStore PostgresDurability PostgresWork PostgresAdmin PostgresFencing PostgresClaim PostgresInvariant.
From S2P Require Import Activity ActivityTransition ChildTransition Worker Processor ProcessorTrace ActivityProcessor ActivityProtocol.
From S2P Require Import PostgresProcessor ActivityDelivery Journal.

(** ** Calls that leave the histories alone *)

Record same_logs (db db' : Database) : Prop := {
  sl_instances : db_instances db' = db_instances db;
  sl_history : db_history db' = db_history db;
  sl_transitions : db_transitions db' = db_transitions db
}.

Lemma same_logs_refl db : same_logs db db.
Proof. done. Qed.

Definition logless {A} (f : Database -> result (A * Database)) : Prop :=
  forall db a db', f db = Ok (a, db') -> same_logs db db'.

Create HintDb logless.
#[export] Hint Resolve same_logs_refl : logless.

Lemma reading_logless {A} (f : Database -> A) : logless (reading f).
Proof. by intros db a db' [= <- <-]. Qed.

Section Logless.
Context (stamp : Time -> Time) (text_ltb : string -> string -> bool).

Lemma claim_logless now limit owner expires locked : logless (sql_claimWork stamp text_ltb now limit owner expires locked).
Proof. intros db rows db' Hc. destruct (claim_domain _ _ _ _ _ _ _ _ _ _ Hc) as [-> _]. done. Qed.

Lemma update_work_logless id condition write db : same_logs db (sql_update_work id condition write db).2.
Proof. unfold sql_update_work. destruct (db_work db !! id) as [row |]; [| done]. by destruct (condition row). Qed.

Ltac updates := intros db a db'; cbv delta [sql_renewWork sql_completeWork sql_retryWork sql_deadLetterWork] beta;
  destruct (negb _); [done |]; intros [= H]; symmetry in H; replace db' with (a, db').2 by done; rewrite H; apply update_work_logless.

Lemma renewWork_logless id owner token expires now : logless (sql_renewWork stamp id owner token expires now).
Proof. updates. Qed.

Lemma completeWork_logless id owner token at_ : logless (sql_completeWork stamp id owner token at_).
Proof. updates. Qed.

Lemma retryWork_logless id owner token code retryAt failedAt : logless (sql_retryWork stamp id owner token code retryAt failedAt).
Proof. updates. Qed.

Lemma deadLetterWork_logless id owner token code failedAt : logless (sql_deadLetterWork stamp id owner token code failedAt).
Proof. updates. Qed.

Lemma autocommit_logless {A} session n (f : Database -> result (A * Database)) db :
  solo session -> logless f -> same_logs db (autocommit session n f db).2.
Proof.
  intros Hs Hf. unfold autocommit. rewrite Hs. destruct (ss_statement session n) as [[cause []] |]; cbn [snd]; try done;
    destruct (f db) as [[a db'] | e] eqn:E; try done; by eapply Hf.
Qed.

Lemma autoquery_logless {A} session n (f : Database -> result (list A * Database)) db :
  solo session -> logless f -> same_logs db (autoquery session n f db).2.
Proof.
  intros Hs Hf. pose proof (autocommit_logless session n f db Hs Hf) as H. unfold autoquery.
  destruct (autocommit session n f db) as [[rows | e] db']; [| done].
  destruct (ss_rows session n) as [[[arrived cause] []] |]; cbn [snd]; try done. by rewrite Hs.
Qed.

Lemma fencedExec_logless session f operation db : solo session -> logless f -> same_logs db (fencedExec session f operation db).2.
Proof.
  intros Hs Hf. unfold fencedExec, databaseExec. destruct (ss_begin session); [done |].
  unfold statement. cbn [tx_count tx_shared tx_db]. rewrite !Hs. destruct (ss_statement session 0) as [[cause applied] |]; [done |].
  destruct (f db) as [[answer db'] | e] eqn:E; [| done].
  destruct (ss_commit session) as [| cause []]; cbn [tx_db tx_shared]; destruct answer; cbn [snd]; try done; by eapply Hf.
Qed.

Lemma resolve_logless session r db : solo session -> same_logs db (store_ResolveDeadLetter stamp session r db).2.
Proof.
  intros Hs. unfold store_ResolveDeadLetter. destruct (negb _); [done |].
  destruct (ss_context session); [done |]. destruct (ss_begin session); [done |].
  destruct (resolve_outcome stamp session r db Hs) as [Hsh Hres].
  destruct (resolveDeadLetter stamp session r _) as [[[] | e] tx]; cbn [fst snd] in *; rewrite ?Hsh; try done.
  destruct Hres as [Hr Htx]. rewrite Htx. destruct (ss_commit session) as [| cause []]; cbn [snd]; try done;
    unfold applied; by destruct (dl_action r).
Qed.
End Logless.

#[export] Hint Resolve reading_logless claim_logless renewWork_logless completeWork_logless retryWork_logless deadLetterWork_logless : logless.

Section Calls.
Context (stamp : Time -> Time) (text_ltb : string -> string -> bool).

Ltac logless Hs :=
  repeat match goal with
  | |- context [autocommit ?session ?n ?f ?db] =>
      let H := fresh "Hsame" in
      pose proof (autocommit_logless session n f db Hs ltac:(auto with logless)) as H;
      destruct (autocommit session n f db) as [[] ?]; cbn [snd] in H
  | |- context [autoquery ?session ?n ?f ?db] =>
      let H := fresh "Hsame" in
      pose proof (autoquery_logless session n f db Hs ltac:(auto with logless)) as H;
      destruct (autoquery session n f db) as [[] ?]; cbn [snd] in H
  | |- context [match ?x with Some _ => _ | None => _ end] => destruct x
  | |- context [if ?b then _ else _] => destruct b
  end; cbn [snd];
  repeat match goal with H : same_logs _ _ |- _ => destruct H end; split; congruence.

(** Every call but Commit leaves every history as it was. *)
Lemma call_logless session call db :
  solo session -> (forall t, call <> CallCommit t) -> same_logs db (run_call stamp text_ltb session call db).
Proof.
  intros Hs Hc. destruct call; cbn [run_call]; [by destruct (Hc t) | ..].
  - unfold store_Claim. logless Hs.
  - unfold store_Renew. logless Hs.
  - unfold store_Complete. destruct (negb _); [done |]. destruct (ss_context session); [done |].
    apply fencedExec_logless; auto with logless.
  - unfold store_Fail. destruct (negb _); [done |]. destruct (ss_context session); [done |].
    destruct (bool_decide _); apply fencedExec_logless; auto with logless.
  - by apply resolve_logless.
  - unfold store_History. logless Hs.
  - unfold store_ReconcileTransition. logless Hs.
  - unfold store_ListInstances. logless Hs.
  - unfold store_ListDeadLetters. logless Hs.
Qed.
End Calls.

(** ** The database and the sessions to come *)

Definition Faulty : Type := list Session * Database.

(** The next call meets the first session; when none is left nothing fails. *)
Definition meets {A} (operation : Session -> Database -> A * Database) (s : Faulty) : A * Faulty :=
  let '(answer, db) := operation (hd quiet s.1) s.2 in (answer, (tl s.1, db)).

#[export] Instance faulty_execution : ExecutionStore Faulty := {|
  exec_Commit := fun t => meets (fun session => store_Commit microseconds session t);
  exec_History := fun query => meets (fun session => store_History session query);
  exec_Reconcile := fun rl => meets (fun session => store_ReconcileTransition session rl)
|}.

Definition faulty_holds (s : Faulty) (id : string) (es : list HistoryEvent) : Prop := stores microseconds s.2 id es.

Section PostgresJournal.
(** The transitions that are ever committed: plans of events whose times the columns
    keep, and no two of them agree in identity and digest but not in their events. *)
Context (used : Transition -> Prop).

Record distinguished : Prop := {
  du_plan t : used t -> plan_wf t /\ Forall (fun e => stamped microseconds e = e) (tr_events t);
  du_digest t t' : used t -> used t' -> tr_id t = tr_id t' -> tr_fingerprint t = tr_fingerprint t' ->
    tr_instanceID t = tr_instanceID t' /\ tr_events t = tr_events t'
}.

(** What is durable is what was used, and is in the histories. *)
Record db_sound (db : Database) : Prop := {
  dbs_wf : store_wf db;
  dbs_holds id : exists es, stores microseconds db id es;
  dbs_known tid row : db_transitions db !! tid = Some row ->
    exists t, used t /\ tr_id t = tid /\ tr_fingerprint t = rt_fingerprint row /\ recorded (stores microseconds) db t
}.

Definition faulty_sound (s : Faulty) : Prop := Forall solo s.1 /\ db_sound s.2.

Lemma same_logs_stores db db' id es : same_logs db db' -> stores microseconds db id es -> stores microseconds db' id es.
Proof. intros [Hi Hh _] []. split; [| done ..]. unfold log, sequence_of. by rewrite Hi, Hh. Qed.

Lemma same_logs_extends db db' : same_logs db db' -> extends (stores microseconds) db db'.
Proof. intros H id es Hst. exists []. rewrite app_nil_r. by eapply same_logs_stores. Qed.

Lemma same_logs_sound db db' : same_logs db db' -> store_wf db' -> db_sound db -> db_sound db'.
Proof.
  intros Hsame Hwf [_ Hholds Hknown]. split; [done | |].
  - intros id. destruct (Hholds id) as [es Hes]. exists es. by eapply same_logs_stores.
  - intros tid row. rewrite (sl_transitions _ _ Hsame). intros (t & ? & ? & ? & Hr)%Hknown. exists t. split_and!; try done.
    eapply extends_recorded; [by apply same_logs_extends | done].
Qed.

Hypothesis Hused : distinguished.

Lemma appended_extends t db : db_sound db -> used t -> appendable t db ->
  extends (stores microseconds) db (appended microseconds t db) /\ recorded (stores microseconds) (appended microseconds t db) t.
Proof.
  intros [Hwf Hholds _] Ht Ha. destruct (du_plan Hused t Ht) as [Hplan Hkept].
  pose proof (appended_committed_to microseconds t db Hplan Hwf Ha) as Hct.
  assert (Hnew : forall es, stores microseconds db (tr_instanceID t) es -> stores microseconds (appended microseconds t db) (tr_instanceID t) (es ++ tr_events t))
    by (intros es Hes; by apply stores_append).
  split.
  - intros id es Hes. destruct (decide (id = tr_instanceID t)) as [-> | Hne]; [exists (tr_events t); by apply Hnew |].
    exists []. rewrite app_nil_r. destruct Hes. split; [| done ..]. by rewrite (ct_others _ _ _ _ Hct).
  - destruct (Hholds (tr_instanceID t)) as [es Hes]. exists (es ++ tr_events t). split; [by apply Hnew |].
    intros e He. by apply elem_of_app; right.
Qed.

Lemma appended_sound t db : db_sound db -> used t -> appendable t db -> db_sound (appended microseconds t db).
Proof.
  intros Hs Ht Ha. destruct (appended_extends t db Hs Ht Ha) as [Hext Hrec]. destruct (du_plan Hused t Ht) as [Hplan Hkept].
  destruct Hs as [Hwf Hholds Hknown]. split.
  - by apply appended_wf.
  - intros id. destruct (Hholds id) as [es Hes]. destruct (Hext id es Hes) as [more Hm]. by exists (es ++ more).
  - intros tid row. cbn [db_transitions appended]. destruct (decide (tid = tr_id t)) as [-> | Hne].
    + rewrite lookup_insert_eq. intros [= <-]. exists t. by split_and!.
    + rewrite lookup_insert_ne by done. intros (t' & ? & ? & ? & Hr)%Hknown. exists t'. split_and!; try done. by eapply extends_recorded.
Qed.

(** A durable identity and digest mean that the events are in the history. *)
Lemma durable_recorded t db : db_sound db -> used t -> durable t db -> recorded (stores microseconds) db t.
Proof.
  intros [_ _ Hknown] Ht (row & Hrow & Hfp). destruct (Hknown _ _ Hrow) as (t' & Ht' & Hid & Hfp' & es & Hes & Hin).
  destruct (du_digest Hused t t') as [Hi He]; [done .. | congruence |]. exists es. by rewrite Hi, He.
Qed.

(** ** The three calls of a processor, whatever fails *)

Lemma commit_journals session t db answer db' : solo session -> db_sound db -> used t ->
  store_Commit microseconds session t db = (answer, db') ->
  db_sound db' /\ extends (stores microseconds) db db' /\ (acknowledges answer -> recorded (stores microseconds) db' t).
Proof.
  intros Hs Hd Ht H. pose proof (commit_outcome microseconds session t db (fun n x _ => Hs n x) answer db' H) as Ho.
  assert (Hv : locked_view session db = db) by (unfold locked_view, first_view; by rewrite !Hs).
  assert (Hu : untouched session db db' -> db' = db).
  { intros [-> | [-> | ->]]; [done | unfold first_view; by rewrite Hs | done]. }
  assert (Hsame : db' = db -> db_sound db' /\ extends (stores microseconds) db db') by (intros ->; split; [done | apply extends_refl]).
  assert (Happ : appends microseconds session t db db' -> db_sound db' /\ extends (stores microseconds) db db' /\ recorded (stores microseconds) db' t).
  { intros [Ha ->]. rewrite Hv in *. split; [by apply appended_sound | by apply appended_extends]. }
  destruct answer as [e |].
  - unfold acknowledges. destruct (StoreCommitOutcomeOf (Some e)); try done.
    + destruct Ho as [_ [Ho | Ho]]; [rewrite Hv in Ho; destruct (Hsame Ho) | destruct (Happ Ho) as (? & ? & _)];
        (split_and!; [done .. |]; by intros [|]).
    + destruct (Hsame (Hu Ho)). split_and!; [done .. |]. by intros [|].
  - destruct Ho as [Hdur [Ho%Hu | Ho]]; [| by destruct (Happ Ho) as (? & ? & ?)]. destruct (Hsame Ho). split_and!; [done .. |].
    intros _. by apply durable_recorded.
Qed.

Lemma reconcile_journals session rl db answer db' : solo session -> db_sound db ->
  store_ReconcileTransition session rl db = (answer, db') ->
  db' = db /\ forall t, used t -> rl = identity t -> answer = Ok TransitionCommitted -> recorded (stores microseconds) db' t.
Proof.
  intros Hs Hd. unfold store_ReconcileTransition, autocommit. rewrite Hs. cbn [reading].
  destruct (negb _); [by intros [= <- <-] |]. destruct (ss_context session); [by intros [= <- <-] |].
  destruct (ss_statement session 0) as [[cause []] |]; [by intros [= <- <-] .. |].
  unfold sql_findTransition. destruct (db_transitions db !! _) as [row |] eqn:Hrow; cbn [fmap option_fmap option_map]; [| by intros [= <- <-]].
  intros [= <- <-]. split; [done |]. intros t Ht -> Hc. apply durable_recorded; [done .. |]. exists row. split; [exact Hrow |].
  case_bool_decide as Hfp; [exact Hfp | done].
Qed.

(** A page that is answered is a page of the history. *)
Lemma history_journals session query db answer db' es : solo session -> db_sound db ->
  stores microseconds db (hq_instanceID query) es -> store_History session query db = (answer, db') ->
  db' = db /\ forall page, answer = Ok page -> historyQuery_valid query = true -> 0 <= hq_afterSequence query <= Z.of_nat (length es) ->
    pg_events page = take (Z.to_nat (hq_limit query)) (drop (Z.to_nat (hq_afterSequence query)) es)
    /\ pg_hasMore page = (hq_afterSequence query + hq_limit query <? Z.of_nat (length es)).
Proof.
  intros Hs Hd Hes. unfold store_History, autoquery, autocommit. rewrite !Hs. cbn [reading].
  destruct (negb (historyQuery_valid query) || _); [by intros [= <- <-] |]. destruct (ss_context session); [by intros [= <- <-] |].
  destruct (ss_statement session 0) as [[cause []] |]; [by intros [= <- <-] .. |].
  rewrite ?Hs. destruct (sql_instanceExists _ db); [| by intros [= <- <-]].
  destruct (ss_statement session 1) as [[cause []] |]; [by intros [= <- <-] .. |].
  destruct (ss_rows session 1) as [[[arrived cause] applied] |].
  { intros [= <- <-]. split; [by destruct applied |]. intros page Hpage. unfold scanAll in Hpage. by destruct (scanRows _ _ _). }
  rewrite ?Hs. intros [= <- <-]. split; [done |]. intros page Hpage Hv Ha. unfold scanAll in Hpage. cbn [fst snd] in Hpage.
  rewrite (scan_query microseconds _ db _ es) in Hpage; [| apply Hd | exact Hes | exact Ha]. cbn [mbind result_bind] in Hpage.
  assert (Hl : 1 <= hq_limit query) by (unfold historyQuery_valid in Hv; bool_norm; lia).
  unfold cut in Hpage. rewrite length_take, length_drop in Hpage.
  destruct (Z.ltb_spec (hq_limit query) (Z.of_nat (Z.to_nat (hq_limit query + 1) `min` (length es - Z.to_nat (hq_afterSequence query))))) as [Hlt | Hge];
    destruct (NewHistoryPage _ _ _) as [made |] eqn:Hmade in Hpage; try done; injection Hpage as ->;
    unfold NewHistoryPage in Hmade; (destruct (_ || _) in Hmade; [done |]); destruct (pageEvents _ _ _ _) in Hmade; try done;
    injection Hmade as <-; cbn [pg_events pg_hasMore].
  - rewrite take_take. split; [f_equal; lia |]. symmetry. apply Z.ltb_lt. lia.
  - rewrite !take_ge by (rewrite ?length_drop; lia). split; [done |]. symmetry. apply Z.ltb_ge. lia.
Qed.

Lemma solo_next l : Forall solo l -> solo (hd quiet l) /\ Forall solo (tl l).
Proof. destruct l as [| session l]; [by split |]. by intros [? ?]%Forall_cons. Qed.

Lemma faulty_extends l l' db : extends faulty_holds (l, db) (l', db).
Proof. intros id es Hes. exists []. by rewrite app_nil_r. Qed.

(** A log decodes to one history. *)
Lemma stores_unique db id es es' : stores microseconds db id es -> stores microseconds db id es' -> es = es'.
Proof.
  intros [Hlog Hw Hk Hf] [Hlog' Hw' Hk' Hf']. pose proof (scan_slice microseconds "" id es 0 Hw Hk Hf) as H.
  rewrite <- Hlog, Hlog', (scan_slice microseconds "" id es' 0 Hw' Hk' Hf') in H. by injection H.
Qed.

Lemma stores_length db id es : store_wf db -> stores microseconds db id es -> Z.of_nat (length es) < 2 ^ 63.
Proof.
  intros Hwf [Hlog _ _ _]. pose proof (log_length db id Hwf) as Hn. rewrite Hlog, length_map in Hn. rewrite Hn. unfold sequence_of.
  destruct (db_instances db !! id) as [row |] eqn:E; [| lia]. pose proof (sw_instances _ Hwf _ _ E) as [? _]. unfold maxPostgreSQLSequence in *. lia.
Qed.

#[export] Instance postgres_journal : JournalStore Faulty faulty_sound faulty_holds used.
Proof.
  split.
  - intros s id [_ Hd]. apply (dbs_holds _ Hd).
  - intros s id es es'. apply stores_unique.
  - intros s id es Hes. apply Hes.
  - intros s id es [_ Hd]. apply stores_length, Hd.
  - intros [l db] t answer [l' db'] [Hl Hd] Ht. cbn [fst snd] in Hl, Hd. destruct (solo_next l Hl) as [Hs Hl']. cbn [exec_Commit faulty_execution]. unfold meets. cbn [fst snd].
    destruct (store_Commit microseconds (hd quiet l) t db) as [a db1] eqn:E. intros [= <- <- <-].
    destruct (commit_journals _ _ _ _ _ Hs Hd Ht E) as (Hd' & Hx & Hr). by split_and!.
  - intros [l db] rl answer [l' db'] [Hl Hd]. cbn [fst snd] in Hl, Hd. destruct (solo_next l Hl) as [Hs Hl']. cbn [exec_Reconcile faulty_execution]. unfold meets. cbn [fst snd].
    destruct (store_ReconcileTransition (hd quiet l) rl db) as [a db1] eqn:E. intros [= <- <- <-].
    destruct (reconcile_journals _ _ _ _ _ Hs Hd E) as [-> Hr]. split_and!; [done | apply faulty_extends | exact Hr].
  - intros [l db] query answer [l' db'] [Hl Hd]. cbn [fst snd] in Hl, Hd. destruct (solo_next l Hl) as [Hs Hl']. cbn [exec_History faulty_execution]. unfold meets. cbn [fst snd].
    destruct (store_History (hd quiet l) query db) as [a db1] eqn:E. intros [= <- <- <-].
    assert (Hsame : db1 = db).
    { destruct (dbs_holds _ Hd (hq_instanceID query)) as [es Hes]. by destruct (history_journals _ _ _ _ _ es Hs Hd Hes E). }
    subst db1. split_and!; [done | apply faulty_extends |]. intros es Hes. split; [done |].
    by destruct (history_journals _ _ _ _ _ es Hs Hd Hes E) as [_ Hr].
Qed.

(** What may run between the deliveries: any call of any client. *)
Lemma call_between l l' session call db : Forall solo l' -> solo session -> (forall t, call = CallCommit t -> used t) ->
  faulty_sound (l, db) ->
  faulty_sound (l', run_call microseconds String.ltb session call db)
  /\ extends faulty_holds (l, db) (l', run_call microseconds String.ltb session call db).
Proof.
  intros Hl Hs Hc [_ Hd]. cbn [fst snd] in Hd.
  assert (Hcall : (exists t, call = CallCommit t) \/ forall t, call <> CallCommit t) by (destruct call; [left; by eexists | by right ..]).
  destruct Hcall as [[t ->] | Hn].
  - cbn [run_call]. destruct (store_Commit microseconds session t db) as [answer db'] eqn:E. cbn [snd].
    destruct (commit_journals _ _ _ _ _ Hs Hd (Hc t eq_refl) E) as (Hd' & Hx & _). by split.
  - pose proof (call_logless microseconds String.ltb session call db Hs Hn) as Hsame.
    split; [split; [done |] | by apply (same_logs_extends _ _ Hsame)]. apply (same_logs_sound db); [done | | done].
    apply run_call_keeps; [done | | apply Hd]. destruct call; try done. by destruct (Hn t).
Qed.

Lemma empty_sound : db_sound emptyDatabase.
Proof.
  split; [apply empty_wf | | by intros tid row; cbn; rewrite lookup_empty].
  intros id. exists []. split; [| constructor | constructor | by intros k e]. unfold log, sequence_of. cbn. by rewrite lookup_empty.
Qed.
End PostgresJournal.

(** ** A payment whose start is acknowledged late and whose outcome is lost

    The commit of the start is durable but its reply is lost, so the processor
    reconciles; the handler runs; the database is down when the outcome is committed
    and the delivery fails. The lease expires, another worker claims the work and
    delivers it again. *)
Definition start_order : Transition :=
  planned (NewTransition (mkTransitionSpec "tr-1" "wf-1" 0 (Reference order_definition) order_started [])).

Definition database_down : Session :=
  mkSession None (Some (DriverError "down")) (fun _ => None) (fun _ => None) (fun _ db => db) ∅ CommitAcknowledged.

Definition mishaps : list Session := [quiet; lost_reply; quiet; quiet; database_down].

Definition claims_at (t : Z) : StoreCall := CallClaim (mkClaimRequest "worker-a" (sample_time t) 30000000000 1).

Definition called (call : StoreCall) (l : list Session) (x : Faulty * list ActivityEffect) : Faulty * list ActivityEffect :=
  ((l, run_call microseconds String.ltb quiet call x.1.2), x.2).

Definition unhurried : Faulty -> Context := fun _ => mkContext None (fun _ => None).

Definition faulty_config : ActivityWorkProcessorConfig Faulty :=
  mkActivityProcessor true order_registry (Some {["charge"%string := mkActivity "charge" (Some (fun _ _ s => (Some paid, s)))]}) true 10 100.

Definition faulty_delivery (clock : nat -> Time) (lease : WorkLease) (x : Faulty * list ActivityEffect)
    : result WorkDecision * World (Faulty * list ActivityEffect) :=
  activity_Process clock (Some (traced_config faulty_config)) (Some (fun s : Faulty * list ActivityEffect => unhurried s.1)) lease
    (mkWorld x 0 []).

Definition first_due : Faulty * list ActivityEffect :=
  called (claims_at 3) mishaps (called (CallCommit pay_schedule) [] (called (CallCommit start_order) [] (([], emptyDatabase), []))).
Definition first_delivery := faulty_delivery after_claim due_lease first_due.
Definition second_due := called (claims_at 40) [] (wo_store first_delivery.2).
Definition second_lease : WorkLease :=
  match (claimed_by (wo_store first_delivery.2).1.2 40).1 with Ok [lease] => lease | _ => due_lease end.
Definition second_delivery := faulty_delivery (fun n => sample_time (41 + Z.of_nat n)) second_lease second_due.
Definition last_state : Faulty * list ActivityEffect := wo_store second_delivery.2.

(** The transitions that are committed, and that their digests tell them apart. *)
Definition committed_in (es : list ActivityEffect) : list Transition :=
  omap (fun e => match e with Committing t _ => Some t | _ => None end) es.
Definition ever_committed : list Transition := start_order :: pay_schedule :: committed_in last_state.2.

Definition distinguished_check (ts : list Transition) : bool :=
  forallb (fun t => plan_check t && forallb (fun e => bool_decide (stamped microseconds e = e)) (tr_events t)
    && forallb (fun t' => negb (bool_decide (tr_id t = tr_id t')) || negb (bool_decide (tr_fingerprint t = tr_fingerprint t'))
         || (bool_decide (tr_instanceID t = tr_instanceID t') && bool_decide (tr_events t = tr_events t'))) ts) ts.

Lemma distinguished_check_ok ts : distinguished_check ts = true -> distinguished (fun t => t ∈ ts).
Proof.
  unfold distinguished_check. rewrite forallb_forall. intros H. split.
  - intros t Ht%list_elem_of_In. apply H in Ht. apply andb_true_iff in Ht as [[Hp He]%andb_true_iff _]. split; [by apply plan_check_wf |].
    rewrite forallb_forall in He. apply Forall_forall. intros e Hin%list_elem_of_In. by eapply bool_decide_eq_true, He.
  - intros t t' Ht%list_elem_of_In Ht'%list_elem_of_In Hid Hfp. apply H in Ht. apply andb_true_iff in Ht as [_ Hall].
    rewrite forallb_forall in Hall. specialize (Hall t' Ht'). rewrite !bool_decide_eq_true_2 in Hall by done. cbn [negb orb] in Hall. by bool_norm.
Qed.

Lemma committed_used (es : list ActivityEffect) (ts : list Transition) :
  (forall t, t ∈ committed_in es -> t ∈ ts) -> Forall (effect_used (fun t => t ∈ ts)) es.
Proof.
  intros H. apply Forall_forall. intros e He. destruct e as [t answer | |]; [| done ..]. apply H. unfold committed_in.
  apply list_elem_of_omap. by eexists.
Qed.

Lemma mishaps_distinguished : distinguished (fun t => t ∈ ever_committed).
Proof. apply distinguished_check_ok. vm_compute. reflexivity. Qed.

Lemma called_deliveries (call : StoreCall) l x0 x : Forall solo l -> (forall t, call = CallCommit t -> t ∈ ever_committed) ->
  deliveries (faulty_sound (fun t => t ∈ ever_committed)) faulty_holds x0 x ->
  deliveries (faulty_sound (fun t => t ∈ ever_committed)) faulty_holds x0 (called call l x).
Proof.
  intros Hl Hc Hx. destruct x as [[l0 db] log]. apply (deliveries_between _ _ _ ((l0, db), log)); [exact Hx |].
  intros Hs. by apply call_between; [apply mishaps_distinguished | | | |].
Qed.

Lemma faulty_delivered clock lease x0 x :
  deliveries (faulty_sound (fun t => t ∈ ever_committed)) faulty_holds x0 x ->
  deliveries (faulty_sound (fun t => t ∈ ever_committed)) faulty_holds x0 (wo_store (faulty_delivery clock lease x).2).
Proof.
  intros Hx. destruct (faulty_delivery clock lease x) as [r w] eqn:E. unfold faulty_delivery in E.
  refine (deliveries_next _ _ _ x clock unhurried faulty_config lease 0 [] r w Hx _ _ E); [| vm_compute; discriminate].
  intros table name activity handler context request s [= <-] Hn Hh Hs. apply lookup_singleton_Some in Hn as [_ <-].
  injection Hh as <-. split; [exact Hs | apply extends_refl].
Qed.

Lemma mishaps_solo : Forall solo mishaps.
Proof. apply Forall_forall. intros session Hin. unfold mishaps in Hin. repeat (apply elem_of_cons in Hin as [-> | Hin]; [by intros n db |]). by apply elem_of_nil in Hin. Qed.

Lemma claims_no_commit seconds t : claims_at seconds = CallCommit t -> t ∈ ever_committed.
Proof. intros [=]. Qed.

Lemma commits_listed u t (ts : list Transition) : u ∈ ts -> CallCommit u = CallCommit t -> t ∈ ts.
Proof. by intros Hu [= <-]. Qed.

Lemma first_due_reached :
  deliveries (faulty_sound (fun t => t ∈ ever_committed)) faulty_holds (([], emptyDatabase), []) first_due.
Proof.
  apply called_deliveries; [apply mishaps_solo | apply claims_no_commit |].
  apply called_deliveries; [apply Forall_nil_2 | intros t; apply commits_listed; apply elem_of_cons; right; apply elem_of_cons; left; reflexivity |].
  apply called_deliveries; [apply Forall_nil_2 | intros t; apply commits_listed; apply elem_of_cons; left; reflexivity |]. apply deliveries_none.
Qed.

Lemma last_state_reached :
  deliveries (faulty_sound (fun t => t ∈ ever_committed)) faulty_holds (([], emptyDatabase), []) last_state.
Proof.
  apply faulty_delivered. apply called_deliveries; [apply Forall_nil_2 | apply claims_no_commit |].
  apply faulty_delivered, first_due_reached.
Qed.

(** ** Properties *)

(** C4: A handler is invoked at most once per attempt, however often the work is
    delivered: over a store that keeps what it acknowledges, across any
    deliveries of any leases, one after the other (whatever calls of the store failed
    or were lost, the handlers answered or panicked, and other clients did in between,
    as long as identity and digest tell the committed transitions apart), the requests made
    for one attempt of one step of one instance are at most one; and when it was made
    the start of that attempt is in the instance's history. The PostgreSQL store keeps
    that promise under every failure of its statements and commits. *)
Theorem attempt_invoked_once {S : Type} `{!ExecutionStore S} sound holds used `{!JournalStore S sound holds used} s x :
  sound s -> deliveries sound holds (s, []) x -> Forall (effect_used used) x.2 ->
  forall id name attempt, (times id name attempt x.2 <= 1)%nat
    /\ (times id name attempt x.2 <> 0%nat -> started holds x.1 id name attempt).
Proof. intros Hs Hx. by apply (deliveries_counted sound holds used s x Hs Hx). Qed.

(** The payment is delivered twice and charged once. *)
Lemma attempt_invoked_once_witness :
  is_ok first_delivery.1 = false /\ second_delivery.1 = Ok (mkDecision WorkComplete "" zeroTime)
  /\ times "wf-1" "pay" 1 last_state.2 = 1%nat
  /\ started faulty_holds last_state.1 "wf-1" "pay" 1.
Proof.
  assert (Hn : times "wf-1" "pay" 1 last_state.2 = 1%nat) by (vm_compute; reflexivity).
  split; [vm_compute; reflexivity |]. split; [vm_compute; reflexivity |]. split; [exact Hn |].
  pose proof (postgres_journal _ mishaps_distinguished) as Hjournal.
  refine (proj2 (attempt_invoked_once _ _ _ ([], emptyDatabase) last_state _ _ _ "wf-1" "pay" 1) _).
  - split; [constructor | apply empty_sound].
  - apply last_state_reached.
  - apply committed_used. intros t Ht. apply elem_of_cons; right. apply elem_of_cons; right. exact Ht.
  - intros Hz. discriminate (eq_trans (eq_sym Hn) Hz).
Defined.
